(* ===== verification/_CoqProject ===== *)
-Q . S2P
Prelude.v
Effect.v
Amount.v
RateLimit.v
Domain.v
Profile.v
Admission.v
UniqueAsset.v
PaidUniqueAsset.v
ConsumableStack.v
FungibleBalance.v
Entitlement.v
Meter.v
Marketplace.v
Transition.v
Atomicity.v
SortFacts.v
Resource.v
Registry.v
Lifecycle.v
Economy.v
Executor.v
Settlement.v
Pipeline.v
Batches.v
Keys.v
Sha256.v
DefaultHashes.v
Accumulator.v
DefaultTable.v
Merkle.v
Checkpoint.v
Commit.v
Signing.v
Durable.v
Ledger.v
Bundle.v
BundleFacts.v
KeyRegistry.v
Outbox.v
Delivery.v
Quota.v
Metrics.v
Index.v
IndexFacts.v
Rebuild.v
RebuildFacts.v
Composition.v
Codec.v
CodecFacts.v
Integrity.v
Custom.v
CustomFacts.v
Reduce.v
CustomProof.v
Wire.v
Text.v
Builders.v
Domains.v
Harness.v
HarnessFacts.v
