(* ===== verification/Prelude.v ===== *)
(** * StateChronicle: a verification library

    StateChronicle is a ledger engine for game economies.  A client submits an _intent_
    (tenant, actor, operation, resource, inputs); the engine checks it against the rules of
    the resource's _profile_ and the stored state, computes the next state with a
    deterministic reducer, and returns _events_ that record the state before and after.
    Later stages commit events under a sparse Merkle tree whose root authenticates every
    state.  This library models that path, from the arithmetic of amounts to the proofs
    checked by a third party, as executable definitions, and proves what makes each part
    correct.  All paths below are relative to [src/crates/].

    ** Files and the code they model

    - [Prelude]: results with [let?], machine integers, strings as UTF-8 bytes, ordered
      string sets, the hint databases and inversion tactics the other files use.
    - [Effect]: the state-and-error monad of the stateful components and its inversion lemmas.
    - [Amount]: [statechronicle-core/src/amount.rs].  A [u128] mantissa with a decimal scale;
      comparison by digit strings, checked arithmetic, parsing, printing and the wire form.
    - [RateLimit]: [statechronicle-core/src/rate_limit.rs].  Token bucket and keyed limiter,
      saturating [u64] and checked [u128] arithmetic written out; a poisoned mutex is a flag.
    - [Domain]: [statechronicle-domain/src].  Identifiers and validators, payloads of the
      eight state types, projections, intents, events, authority proofs; the core errors.
    - [Profile], [UniqueAsset], [PaidUniqueAsset], [ConsumableStack], [FungibleBalance],
      [Entitlement], [Meter], [Marketplace]: the rule checks of
      [statechronicle-profiles/src], one file per profile, operation by operation.
    - [Transition]: [profiles/src/transition.rs], the reducers and the destination credit.
    - [Atomicity]: [profiles/src/atomicity.rs], the validators of batches, transfer pairs,
      settlements with value legs and cross-tenant trades.
    - [Resource], [Registry]: [profiles/src/resource.rs], [execution.rs], [registry.rs].  The
      trait objects of the source are records of operations ([ExecutionPolicy],
      [ProfileRules]); the access gates, registration and resolution of profiles.
    - [Admission]: [statechronicle-intent/src], raw and typed admission of intents.
    - [Executor], [Settlement]: [statechronicle-executor/src/pipeline.rs], [conflict.rs],
      [settlement.rs].  The stores, the clock, the id source and the authority services are
      the fields of the [Ports] and [Executor] records, so every effect and its order are
      explicit.
    - [Keys], [Accumulator], [DefaultHashes]: [statechronicle-accumulator/src/key.rs],
      [sparse_merkle.rs] and [proof.rs].  Key derivation, the tree's root, inclusion and
      non-membership proofs and their verification, the 257 constants of the source.
    - [Sha256]: an executable SHA-256, used only to instantiate the hash parameter.
    - [Checkpoint]: [accumulator/src/checkpoint.rs], the tree over tenant roots.
    - [Commit], [Signing]: [statechronicle-commit/src/builder.rs], [roots.rs], [ordering.rs],
      [batch.rs], [fork.rs], [sign.rs], [checkpoint.rs].  Event order, event and state roots,
      the commit body, chain and fork checks, signatures of commits and global checkpoints.
    - [Durable]: [commit/src/persist.rs] and the ledger port, the validators and the durable
      write with its rollbacks.
    - [Bundle]: [statechronicle-proof/src], state, ownership and absence bundles, trade proofs
      and the proof service.
    - [KeyRegistry], [Outbox], [Quota], [Metrics]: [statechronicle-ports/src/key_registry.rs],
      [outbox.rs], [quota.rs], [observability.rs].
    - [Index], [Rebuild]: [statechronicle-index/src/build.rs], [history.rs], [service.rs] and
      [rebuild.rs], the trade index and the rebuild of projections.
    - [Custom]: [statechronicle-profile/src/contract.rs] and [profiles/src/custom.rs].  The
      consumer contract as a record, the bounded buffer, the adapter that makes a typed profile
      a rule set, and the recomputation of a committed transition.
    - [CustomProof]: [proof/src/custom.rs], proofs of typed states.
    - [Codec], [Integrity], [Reduce]: [statechronicle-portable/src/codec.rs], [integrity.rs]
      and [transition.rs].  The canonical reader and writer on borrowed buffers, the
      allocation-free verifiers, and the reduction of one transition on caller-owned buffers.
    - [Wire]: the text forms of [core/src/digest.rs], [core/src/signature.rs] and of nonces,
      [intent/src/parse.rs], the intent and commit builders, the legacy JSON view of states
      and the entry points of [executor/src/transition.rs].
    - [Text]: the conversions and hand-written serde of the identifiers of
      [statechronicle-domain/src], of digests, signatures and nonces, the fork evidence and
      the validators of [executor/src/atomicity.rs].
    - [Builders]: the two builders of [executor/src/pipeline.rs], which wire ports and engine,
      and the default authorizer of [ports/src/authorization.rs].
    - [Domains]: [statechronicle/examples/common/domains.rs], two consumer-defined profiles
      with their canonical codecs.
    - [Harness]: [statechronicle/examples/common/harness.rs], a deployment with in-memory
      ports: one world of finite maps, wired through the builders, with the paths that sign,
      run and commit.
    - [SortFacts], [Lifecycle], [Economy], [Pipeline], [Batches], [DefaultTable], [Merkle],
      [Ledger], [BundleFacts], [Delivery], [IndexFacts], [RebuildFacts], [Composition],
      [CodecFacts], [CustomFacts], [HarnessFacts]: the theorems that combine the components above, with sample
      data for their witnesses.

    ** What the theorems show

    - Amounts ([Amount]): comparison, equality and minimum are those of the numbers denoted;
      addition and subtraction are exact, and it is stated exactly when they fail (a minuend
      that cannot be aligned to the larger scale included); the canonical string
      determines the value; which strings parse; which wire forms read back.
    - Rate limiting and quotas ([RateLimit], [Quota]): the total granted over any call sequence
      is bounded by the initial tokens plus what the rate earns; a multi-key charge is all or
      nothing; the retry hint is sufficient for all requested tokens; which requests reach a shared provider.
    - Lifecycles ([Lifecycle]): the accepted transitions of the status-bearing profiles
      refine the documented transition tables, an abstract relation, except that
      [asset.restrict] writes the status named in its inputs; terminal statuses are final; ownership and trade bindings change only as documented; the status gate agrees
      with the rules.
    - Quantities ([Economy]): an accepted operation moves a balance or stack by exactly its
      input; a transfer conserves the sum and passes the pair validator; an accepted debit
      never fails in the reducer; meters stay within their maximum; a validated batch has
      unique events and net-zero pairs.
    - Execution ([Pipeline], [KeyRegistry]): what a successful execution checked and recorded;
      the intent claim is the last effect; replays are idempotent (against the class
      [IntentStoreLaws], discharged for an in-memory store); authority aggregation; player
      ingress, which decides on admission before it touches a store; conservation of a
      transfer between two holders through the whole pipeline; keys are trusted exactly as their
      history of registrations, retirements and revocations says, and an untrusted key never
      reaches a store.
    - Batches ([Batches]): accepted batches consist of one fresh execution per intent;
      planning routes never write the intent store; an accepted settlement pays every
      declared value leg with its own event pair.
    - Authentication ([Keys], [Merkle], [DefaultTable], [Checkpoint]): state keys separate
      states; every key has exactly one kind of proof and it verifies; a verified proof is true
      or exhibits two explicit messages with the same hash; the root depends only on the final
      state; the table of constants is the SHA-256 recurrence; the same for tenant roots.
    - Commits ([Commit], [Signing], [Ledger]): canonical event order; the roots of successive
      commits chain and agree with the incremental accumulator; a durable write is one
      transaction or nothing, and a repeated request is answered by its replay unless the
      authorizer or a ledger call fails (against the classes
      [LedgerLaws] and [IdempotencyLaws], discharged for an in-memory ledger).
    - Proof bundles ([BundleFacts]): dense paths round-trip; honest bundles verify; a verified
      bundle is true of the history unless its own path exhibits a hash collision; what a
      verified trade proof shows, and counterexamples where it shows less than documented.
    - Delivery ([Delivery]): the calls a pass makes for each outbox row and how the row ends, the bounds of the supervisor,
      at-most-once application by a consumer (class [DedupLaws]).
    - Read side ([IndexFacts], [RebuildFacts]): incremental ingestion is replay (class
      [TradeIndexLaws]); in a validated settlement recorded legs, declarations
      and payments correspond one to one; histories are
      those of the event store; interrupted rebuilds resume to the one-pass result (classes
      [SinkLaws] and [CheckpointLaws]).  [Metrics]: the sink accounts for every observation.
    - Composition ([Composition]): for native state types, the events an execution returns and
      the commit built of them pass the durable checks on events, rows and event root.
    - Typed profiles ([CustomFacts], [CustomProof]; class [SerdeLaws] for BCS): every state the
      adapter produces is canonical, within its bound and valid for the consumer; executed
      events pass the recomputation, which admits no other outcome; a verified proof of a typed
      state is a true and valid state.
    - Portable core ([CodecFacts], [Integrity], [Reduce]; class [CanonicalLaws] for a consumer's
      field encodings): each reader accepts exactly what its writer produces; the portable
      verifiers agree with the accumulator's; the portable reduction agrees with the adapter
      in payload, version and state hash.
    - Text and ingress ([Admission], [Wire]; classes [TextLaws] and [JsonLaws]): a raw payload
      is admitted exactly when it denotes the admitted intent, field by field; digests, signatures and
      nonces are read exactly from the text they are written as; a parsed payload is bounded
      in size and depth, so admission refuses it later for no other bound; a built intent is
      the positional one.  [Text] (classes [ExactText] and [FaithfulNewtype]): every accepted
      JSON form of an identifier, digest, signature or nonce is the one it is written as.
    - Deployment ([Builders], [HarnessFacts]): a build refuses naming the first missing
      component; whatever a deployment runs, the history of every address is linear and the
      index is its last event; the commit of a history proves every row of the index; two
      examples of holder profiles whose runs write another address than they read.
    - Example domain ([Domains]): the equipment profile, run through the portable reduction,
      is its mode machine with a start counter.

    ** Conventions and bounds

    Fixed-width integers are [Z] with the width's checks written out; a [usize] that counts
    elements of a value in memory is [nat] or [Z] without a bound.  Fuel is used in decimal
    printing (one step per digit, 39 steps for a [u128]), in the block loop of SHA-256 (one
    step per 64-byte block of the padded message), in the level loops of the checkpoint and
    event trees (one round per leaf; each round halves the level) and in the resumable rebuild
    (one round per event; each round advances the offset); it is proved or computed to be
    enough where it is used.  The tree recursion is structural on the height, at most 256.
    Time is [Z].  A [BTreeMap] is an association list in key order or a [gmap], listed in key
    order where the code iterates over it.  Calls are atomic: an async function is its
    sequence of port calls, and concurrency appears only as what the laws of a port allow.

    Parameters stand for code outside the repository: the hash function (laws in
    [Merkle.HashLaws] and [Checkpoint.DigestLength], proved of [Sha256.sha256]), BCS and JSON
    codecs ([Custom.Serde], [Wire.Json]), RFC 3339, hexadecimal and base64 ([Admission.Codecs],
    [Wire.TextLaws]), Ed25519 ([Signing.SchemeLaws]), and the
    stores behind the ports.  Theorems that need a law of a parameter state it as a class or
    hypothesis and have an instance.

    ** Not modelled

    Derived serde, called through parameters where code calls it; tracing; memory reservation
    failures; the texts of some error enums that no modelled code compares; adapters behind
    the ports, which the repository does not contain; the facade crate (re-exports), the
    example programs that only drive the deployment of [Harness], and the macros that expand
    to the operation and status constants. *)

From Stdlib Require Import ZArith Lia Ascii String Sorted.
From stdpp Require Import prelude gmap strings sorting.

Open Scope Z_scope.

(** ** Results

    Rust's [Result<T, E>], with the [?] operator as [let?]. *)

Inductive result (A E : Type) : Type :=
| Ok (a : A)
| Err (e : E).

Arguments Ok {A E} a.
Arguments Err {A E} e.

Declare Scope result_scope.
Delimit Scope result_scope with res.

Definition rbind {A B E} (r : result A E) (k : A → result B E) : result B E :=
  match r with Ok a => k a | Err e => Err e end.

Notation "'let?' x := c 'in' k" := (rbind c (fun x => k))
  (at level 10, x name, c at level 100, k at level 200,
   format "'[v' 'let?'  x  :=  c  'in' '/' k ']'") : result_scope.
Notation "c ;? k" := (rbind c (fun _ => k))
  (at level 199, right associativity, format "'[v' c  ;? '/' k ']'") : result_scope.

Open Scope result_scope.

(** [Result::map_err], [Option::ok_or], [Result::ok] and [Result::is_ok]. *)
Definition map_err {A E F} (f : E → F) (r : result A E) : result A F :=
  match r with Ok a => Ok a | Err e => Err (f e) end.
Definition ok_or {A E} (o : option A) (e : E) : result A E :=
  match o with Some a => Ok a | None => Err e end.
Definition is_ok {A E} (r : result A E) : bool :=
  match r with Ok _ => true | Err _ => false end.

(** Run a fallible check on every element in order, stopping at the first error. *)
Fixpoint rforeach {A E} (f : A → result unit E) (l : list A) : result unit E :=
  match l with
  | [] => Ok tt
  | x :: l' => f x ;? rforeach f l'
  end.

(** Collect the results of a fallible map, stopping at the first error. *)
Fixpoint rmap {A B E} (f : A → result B E) (l : list A) : result (list B) E :=
  match l with
  | [] => Ok []
  | x :: l' => let? y := f x in let? ys := rmap f l' in Ok (y :: ys)
  end.

Lemma rbind_Ok {A B E} (r : result A E) (k : A → result B E) b :
  rbind r k = Ok b ↔ ∃ a, r = Ok a ∧ k a = Ok b.
Proof. destruct r; naive_solver. Qed.

Lemma ok_or_Ok {A E} (o : option A) (e : E) a : ok_or o e = Ok a ↔ o = Some a.
Proof. destruct o; naive_solver. Qed.

Lemma map_err_Ok {A E F} (f : E → F) (r : result A E) a : map_err f r = Ok a ↔ r = Ok a.
Proof. destruct r; naive_solver. Qed.

Lemma rforeach_Ok {A E} (f : A → result unit E) l :
  rforeach f l = Ok tt ↔ Forall (fun x => f x = Ok tt) l.
Proof.
  induction l as [|x l IH]; simpl; [by split; constructor|].
  rewrite rbind_Ok, Forall_cons_iff, <- IH. split.
  - intros ([] & H1 & H2); auto.
  - intros [H1 H2]; eauto.
Qed.

Lemma rmap_Ok {A B E} (f : A → result B E) l ys :
  rmap f l = Ok ys ↔ Forall2 (fun x y => f x = Ok y) l ys.
Proof.
  revert ys; induction l as [|x l IH]; intros ys; simpl.
  - split; [intros [= <-]; constructor | by inversion 1].
  - rewrite rbind_Ok. split.
    + intros (y & Hy & H). apply rbind_Ok in H as (zs & Hz & [= <-]).
      constructor; [done | by apply IH].
    + inversion 1 as [|? y ? zs Hy Hz]; subst. apply IH in Hz.
      exists y. split; [done|]. by rewrite Hz.
Qed.

(** Peel one layer of [let?], [ok_or] or [map_err] off a hypothesis that says a
    computation returned [Ok]. *)
Ltac res_inv H :=
  repeat first
    [ progress (simpl rbind in H)
    | match type of H with
      | rbind _ _ = Ok _ =>
          let a := fresh "a" in let Ha := fresh "Ha" in
          apply rbind_Ok in H as (a & Ha & H); try res_inv Ha
      | ok_or _ _ = Ok _ => apply ok_or_Ok in H
      | map_err _ _ = Ok _ => apply map_err_Ok in H
      | Ok _ = Ok _ => injection H as H
      | Err _ = Ok _ => discriminate H
      | (if ?b then Err _ else _) = Ok _ => 
          let Hb := fresh "Hb" in destruct b eqn:Hb; [discriminate H|]
      | (if ?b then _ else Err _) = Ok _ => 
          let Hb := fresh "Hb" in destruct b eqn:Hb; [|discriminate H]
      end ].

(** Element-wise equality of two lists ([==] on slices). *)
Fixpoint list_eqb {A} (eqb : A → A → bool) (a b : list A) : bool :=
  match a, b with
  | [], [] => true
  | x :: a', y :: b' => eqb x y && list_eqb eqb a' b'
  | _, _ => false
  end.

Lemma list_eqb_Forall2 {A} (eqb : A → A → bool) a b :
  list_eqb eqb a b = true → Forall2 (fun x y => eqb x y = true) a b.
Proof.
  revert b. induction a as [|x a IH]; intros [|y b] H; cbn in H; try done.
  apply andb_true_iff in H as [H1 H2]. constructor; auto.
Qed.

(** ** Machine integers

    Unsigned [w]-bit integers are [Z] in range, with Rust's checked, saturating
    and wrapping operations written out. *)

Definition U8_MAX : Z := 2^8 - 1.
Definition U32_MAX : Z := 2^32 - 1.
Definition U64_MAX : Z := 2^64 - 1.
Definition U128_MAX : Z := 2^128 - 1.

Definition in_u8 (x : Z) : Prop := 0 ≤ x ≤ U8_MAX.
Definition in_u64 (x : Z) : Prop := 0 ≤ x ≤ U64_MAX.
Definition in_u128 (x : Z) : Prop := 0 ≤ x ≤ U128_MAX.

Definition checked_op (max : Z) (r : Z) : option Z :=
  if (0 <=? r) && (r <=? max) then Some r else None.

Definition checked_add_u64 (x y : Z) : option Z := checked_op U64_MAX (x + y).
Definition checked_add_u128 (x y : Z) : option Z := checked_op U128_MAX (x + y).
Definition checked_sub_u128 (x y : Z) : option Z := checked_op U128_MAX (x - y).
Definition checked_mul_u128 (x y : Z) : option Z := checked_op U128_MAX (x * y).

Definition saturating_add_u64 (x y : Z) : Z := Z.min (x + y) U64_MAX.
Definition saturating_sub_u64 (x y : Z) : Z := Z.max (x - y) 0.
Definition saturating_mul_u64 (x y : Z) : Z := Z.min (x * y) U64_MAX.
(** [checked_div(..).unwrap_or(d)] on [u64]. *)
Definition div_or_u64 (x y d : Z) : Z := if y =? 0 then d else x / y.

Lemma checked_op_Some max r v : checked_op max r = Some v ↔ v = r ∧ 0 ≤ r ≤ max.
Proof.
  unfold checked_op. destruct (0 <=? r) eqn:E1, (r <=? max) eqn:E2; simpl;
    (split; [intros H; try discriminate; injection H as <-; lia
            | intros [-> ?]; try lia; done]).
Qed.

Lemma checked_op_None max r : checked_op max r = None ↔ r < 0 ∨ max < r.
Proof.
  unfold checked_op. destruct (0 <=? r) eqn:E1, (r <=? max) eqn:E2; simpl;
    split; intros H; try discriminate; try lia; done.
Qed.

(** ** Strings

    A Rust [String] is its UTF-8 bytes. *)

Fixpoint str_take (n : nat) (s : string) : string :=
  match n, s with
  | S n', String c s' => String c (str_take n' s')
  | _, _ => EmptyString
  end.

Fixpoint str_drop (n : nat) (s : string) : string :=
  match n, s with
  | O, _ => s
  | S n', String _ s' => str_drop n' s'
  | S _, EmptyString => EmptyString
  end.

(** [str::is_empty]. *)
Definition str_is_empty (s : string) : bool :=
  match s with EmptyString => true | String _ _ => false end.

(** [str::starts_with] and [str::str_strip_prefix]. *)
Fixpoint str_strip_prefix (p s : string) : option string :=
  match p, s with
  | EmptyString, _ => Some s
  | String a p', String b s' => if Ascii.eqb a b then str_strip_prefix p' s' else None
  | String _ _, EmptyString => None
  end.
Definition starts_with (p s : string) : bool :=
  match str_strip_prefix p s with Some _ => true | None => false end.

(** [str::contains]. *)
Fixpoint str_contains (needle s : string) : bool :=
  starts_with needle s ||
  match s with EmptyString => false | String _ s' => str_contains needle s' end.

Fixpoint str_all (f : ascii → bool) (s : string) : bool :=
  match s with EmptyString => true | String c s' => f c && str_all f s' end.
Fixpoint str_any (f : ascii → bool) (s : string) : bool :=
  match s with EmptyString => false | String c s' => f c || str_any f s' end.

Definition byte_val (c : ascii) : Z := Z.of_N (N_of_ascii c).

(** [str::chars().count()]: the number of bytes that do not continue a UTF-8
    sequence. *)
Definition is_utf8_continuation (c : ascii) : bool :=
  (128 <=? byte_val c) && (byte_val c <? 192).
Fixpoint char_count (s : string) : Z :=
  match s with
  | EmptyString => 0
  | String c s' => (if is_utf8_continuation c then 0 else 1) + char_count s'
  end.

(** [str::chars().any(char::is_control)]: U+0000 to U+001F, U+007F, and U+0080 to
    U+009F, whose UTF-8 form is the byte 0xC2 followed by 0x80 to 0x9F. *)
Fixpoint has_control (s : string) : bool :=
  match s with
  | EmptyString => false
  | String c s' =>
      (byte_val c <? 32) || (byte_val c =? 127) ||
      match s' with
      | String d _ => (byte_val c =? 194) && (128 <=? byte_val d) && (byte_val d <? 160)
      | EmptyString => false
      end || has_control s'
  end.

(** Lexicographic order on bytes, as [str::cmp]. *)
Fixpoint str_cmp (a b : string) : comparison :=
  match a, b with
  | EmptyString, EmptyString => Eq
  | EmptyString, String _ _ => Lt
  | String _ _, EmptyString => Gt
  | String c a', String d b' =>
      match byte_val c ?= byte_val d with Eq => str_cmp a' b' | o => o end
  end.

Lemma str_app_nil b : EmptyString +:+ b = b.
Proof. done. Qed.
Lemma str_app_cons c a b : String c a +:+ b = String c (a +:+ b).
Proof. done. Qed.

Create HintDb str_db.
#[export] Hint Rewrite str_app_nil str_app_cons : str_db.

Lemma string_length_app a b :
  String.length (a +:+ b) = (String.length a + String.length b)%nat.
Proof.
  induction a as [|c a IH]; [done|]. rewrite str_app_cons. simpl. by rewrite IH.
Qed.

Lemma str_app_nil_r a : a +:+ EmptyString = a.
Proof. induction a as [|c a IH]; [done|]. rewrite str_app_cons. by rewrite IH. Qed.

Lemma str_app_assoc a b c : (a +:+ b) +:+ c = a +:+ (b +:+ c).
Proof.
  induction a as [|x a IH]; [done|]. rewrite !str_app_cons. by rewrite IH.
Qed.

Lemma byte_val_inj c d : byte_val c = byte_val d → c = d.
Proof.
  unfold byte_val. intros H%N2Z.inj.
  rewrite <- (ascii_N_embedding c), <- (ascii_N_embedding d). by rewrite H.
Qed.

Lemma byte_val_bound c : 0 ≤ byte_val c < 256.
Proof. unfold byte_val. pose proof (N_ascii_bounded c). lia. Qed.

Lemma str_cmp_eq a b : str_cmp a b = Eq ↔ a = b.
Proof.
  revert b; induction a as [|c a IH]; intros [|d b]; simpl; try done.
  destruct (byte_val c ?= byte_val d) eqn:E.
  - apply Z.compare_eq_iff, byte_val_inj in E as ->. rewrite IH. naive_solver.
  - split; [done|]. intros [= -> ->]. by rewrite Z.compare_refl in E.
  - split; [done|]. intros [= -> ->]. by rewrite Z.compare_refl in E.
Qed.

Lemma str_take_drop n s : str_take n s +:+ str_drop n s = s.
Proof.
  revert s; induction n as [|n IH]; intros [|c s]; try done.
  simpl. rewrite str_app_cons. by rewrite IH.
Qed.

Lemma str_take_length n s :
  String.length (str_take n s) = Nat.min n (String.length s).
Proof. revert s; induction n as [|n IH]; intros [|c s]; simpl; auto. Qed.

Lemma str_drop_length n s :
  String.length (str_drop n s) = (String.length s - n)%nat.
Proof. revert s; induction n as [|n IH]; intros [|c s]; simpl; auto. Qed.

Lemma str_all_app f a b : str_all f (a +:+ b) = str_all f a && str_all f b.
Proof.
  induction a as [|c a IH]; [done|].
  rewrite str_app_cons. simpl. by rewrite IH, andb_assoc.
Qed.

(** ** Ordered sets of strings

    The iteration order of a [BTreeSet<&str>]: ascending, without duplicates. *)

Fixpoint bset_insert (x : string) (l : list string) : list string :=
  match l with
  | [] => [x]
  | y :: l' =>
      match str_cmp x y with
      | Lt => x :: l
      | Eq => l
      | Gt => y :: bset_insert x l'
      end
  end.

Definition bset_of_list (l : list string) : list string :=
  foldl (fun s x => bset_insert x s) [] l.

Lemma bset_insert_elem x y l : x ∈ bset_insert y l ↔ x = y ∨ x ∈ l.
Proof.
  induction l as [|z l IH]; simpl; [set_solver|].
  destruct (str_cmp y z) eqn:E.
  - apply str_cmp_eq in E as ->. set_solver.
  - set_solver.
  - rewrite !elem_of_cons, IH. tauto.
Qed.

Lemma bset_of_list_elem x l : x ∈ bset_of_list l ↔ x ∈ l.
Proof.
  unfold bset_of_list.
  enough (∀ s, x ∈ foldl (fun s x => bset_insert x s) s l ↔ x ∈ s ∨ x ∈ l) as H
    by (rewrite H; set_solver).
  induction l as [|y l IH]; intros s; simpl; [set_solver|].
  rewrite IH, bset_insert_elem, elem_of_cons. tauto.
Qed.

Lemma str_cmp_refl a : str_cmp a a = Eq.
Proof. by apply str_cmp_eq. Qed.

Lemma str_cmp_antisym a b : str_cmp b a = CompOpp (str_cmp a b).
Proof.
  revert b; induction a as [|c a IH]; intros [|d b]; simpl; try done.
  rewrite (Z.compare_antisym (byte_val c)). destruct (byte_val c ?= byte_val d); simpl; auto.
Qed.

Lemma str_cmp_lt_trans a b c : str_cmp a b = Lt → str_cmp b c = Lt → str_cmp a c = Lt.
Proof.
  revert b c; induction a as [|x a IH]; intros [|y b] [|z c]; simpl; try done.
  destruct (Z.compare_spec (byte_val x) (byte_val y)) as [E1|E1|E1]; try done;
    destruct (Z.compare_spec (byte_val y) (byte_val z)) as [E2|E2|E2]; try done; intros H1 H2.
  - rewrite E1, E2, Z.compare_refl. eauto.
  - assert (byte_val x < byte_val z) as ->%Z.compare_lt_iff by lia. done.
  - assert (byte_val x < byte_val z) as ->%Z.compare_lt_iff by lia. done.
  - assert (byte_val x < byte_val z) as ->%Z.compare_lt_iff by lia. done.
Qed.

Definition str_lt (a b : string) : Prop := str_cmp a b = Lt.

Lemma bset_insert_sorted x l : StronglySorted str_lt l → StronglySorted str_lt (bset_insert x l).
Proof.
  induction 1 as [|y l Hl IH Hy]; simpl; [repeat constructor|].
  destruct (str_cmp x y) eqn:E.
  - by constructor.
  - constructor; [by constructor|]. constructor; [done|].
    rewrite Forall_forall in *. intros z Hz. eapply str_cmp_lt_trans; [done|by apply Hy].
  - constructor; [done|]. apply Forall_forall. intros z [->|Hz]%bset_insert_elem.
    + unfold str_lt. by rewrite str_cmp_antisym, E.
    + rewrite Forall_forall in Hy. auto.
Qed.

Lemma bset_of_list_sorted l : StronglySorted str_lt (bset_of_list l).
Proof.
  unfold bset_of_list.
  enough (∀ s, StronglySorted str_lt s → StronglySorted str_lt (foldl (fun s x => bset_insert x s) s l))
    by (apply H; constructor).
  induction l as [|y l IH]; intros s Hs; simpl; [done|]. by apply IH, bset_insert_sorted.
Qed.

Lemma bset_of_list_NoDup l : NoDup (bset_of_list l).
Proof.
  induction (bset_of_list_sorted l) as [|y k Hk IH Hy]; constructor; [|done].
  rewrite Forall_forall in Hy. intros Hin. specialize (Hy y Hin). unfold str_lt in Hy.
  by rewrite str_cmp_refl in Hy.
Qed.

#[export] Instance str_lt_antisymm : AntiSymm (=) str_lt.
Proof.
  intros a b H1 H2. unfold str_lt in *. rewrite str_cmp_antisym, H1 in H2. discriminate H2.
Qed.

(** A sorted set is determined by its elements. *)
Lemma bset_of_list_ext l l' : (∀ x, x ∈ l ↔ x ∈ l') → bset_of_list l = bset_of_list l'.
Proof.
  intros H. apply (StronglySorted_unique str_lt); [apply bset_of_list_sorted..|].
  apply NoDup_Permutation; [apply bset_of_list_NoDup..|]. intros x. by rewrite !bset_of_list_elem.
Qed.
