(* ===== verification/Effect.v ===== *)
(** * Effects with errors

    The state-and-error monad of the stateful components: a computation reads and replaces
    a world [W] and returns a result with errors [E].  The executor, the durable commit path
    and the outbox use it at their own error types. *)

From Stdlib Require Import ZArith Lia Ascii String.
From stdpp Require Import prelude.
From S2P Require Import Prelude.

Definition Eff (E W A : Type) : Type := W → result A E * W.

Definition xret {E W A} (a : A) : Eff E W A := fun w => (Ok a, w).
Definition xlift {E W A} (r : result A E) : Eff E W A := fun w => (r, w).
Definition xbind {E W A B} (m : Eff E W A) (k : A → Eff E W B) : Eff E W B := fun w =>
  match m w with
  | (Ok a, w') => k a w'
  | (Err e, w') => (Err e, w')
  end.
(** Read the world, and run an effect of a port. *)
Definition xquery {E W A} (f : W → result A E) : Eff E W A := fun w => (f w, w).
Definition xeffect {E W A} (f : W → A * W) : Eff E W A := fun w => let (a, w') := f w in (Ok a, w').
Definition xcall {F W A E} (f : W → result A E * W) (g : E → F) : Eff F W A := fun w =>
  let (r, w') := f w in (map_err g r, w').

Declare Scope exec_scope.
Notation "'let!' x := c 'in' k" := (xbind c (fun x => k))
  (at level 10, x name, c at level 100, k at level 200,
   format "'[v' 'let!'  x  :=  c  'in' '/' k ']'") : exec_scope.
Notation "c ;! k" := (xbind c (fun _ => k))
  (at level 199, right associativity, format "'[v' c  ;! '/' k ']'") : exec_scope.
Open Scope exec_scope.

(** Run an effect on every element in order, stopping at the first error. *)
Fixpoint xforeach {E W A} (f : A → Eff E W unit) (l : list A) : Eff E W unit :=
  match l with
  | [] => xret tt
  | a :: l' => f a ;! xforeach f l'
  end.

(** ** Inversion of runs *)

Lemma xbind_Ok {E W A B} (m : Eff E W A) (k : A → Eff E W B) w b w' :
  xbind m k w = (Ok b, w') ↔ ∃ a w1, m w = (Ok a, w1) ∧ k a w1 = (Ok b, w').
Proof. unfold xbind. destruct (m w) as [[a|e] w1]; naive_solver. Qed.

(** Every outcome of a sequence: the first part failed, or the second part ran. *)
Lemma xbind_inv {E W A B} (m : Eff E W A) (k : A → Eff E W B) w r w' : xbind m k w = (r, w') →
  (∃ e, m w = (Err e, w') ∧ r = Err e) ∨ (∃ a w1, m w = (Ok a, w1) ∧ k a w1 = (r, w')).
Proof. unfold xbind. destruct (m w) as [[a|e] w1]; naive_solver. Qed.

Lemma xlift_Ok {E W A} (r : result A E) (w : W) a w' :
  xlift r w = (Ok a, w') ↔ r = Ok a ∧ w' = w.
Proof. unfold xlift. naive_solver. Qed.

Lemma xquery_Ok {E W A} (f : W → result A E) (w : W) a w' :
  xquery f w = (Ok a, w') ↔ f w = Ok a ∧ w' = w.
Proof. unfold xquery. split; [intros H; by injection H|by intros [-> ->]]. Qed.

Lemma xret_Ok {E W A} (a b : A) (w w' : W) : xret (E := E) a w = (Ok b, w') ↔ b = a ∧ w' = w.
Proof. unfold xret. naive_solver. Qed.

Lemma xeffect_Ok {E W A} (f : W → A * W) w a w' : xeffect (E := E) f w = (Ok a, w') ↔ f w = (a, w').
Proof. unfold xeffect. destruct (f w). naive_solver. Qed.

Lemma xcall_Ok {F W A E} (f : W → result A E * W) (g : E → F) w a w' :
  xcall f g w = (Ok a, w') ↔ f w = (Ok a, w').
Proof. unfold xcall. destruct (f w) as [[]]; cbn; naive_solver. Qed.

(** Unroll a run known to have returned [Ok]. *)
Ltac exec_inv H :=
  match type of H with
  | xbind _ _ _ = (Ok _, _) =>
      let a := fresh "a" in let w := fresh "w" in let Ha := fresh "Ha" in
      apply xbind_Ok in H as (a & w & Ha & H); exec_inv Ha; exec_inv H
  | xlift _ _ = (Ok _, _) => let E := fresh "E" in apply xlift_Ok in H as [H E]; subst; try res_inv H
  | xquery _ _ = (Ok _, _) => let E := fresh "E" in apply xquery_Ok in H as [H E]; subst; try res_inv H
  | xret _ _ = (Ok _, _) => let E := fresh "E" in apply xret_Ok in H as [H E]; subst
  | xeffect _ _ = (Ok _, _) => apply (proj1 (xeffect_Ok _ _ _ _)) in H
  | xcall _ _ _ = (Ok _, _) => apply (proj1 (xcall_Ok _ _ _ _ _)) in H
  | _ => idtac
  end.
