(* ===== verification/Amount.v ===== *)
(** * Exact fixed-point amounts

    Models [crates/statechronicle-core/src/amount.rs]: an [Amount] is an unsigned
    128-bit mantissa and a scale of at most 18 decimal digits.  The reference
    semantics is [aval], the value of an amount in units of [10^-18]; parsing,
    printing, the digit-string comparison and the checked arithmetic are all
    related to it. *)

From Stdlib Require Import ZArith Lia Ascii String.
From stdpp Require Import prelude strings.
From S2P Require Import Prelude.
Open Scope Z_scope.

(** ** Data *)

Definition MAX_SCALE : Z := 18.
Definition MAX_MANTISSA_DIGITS : Z := 39.

Inductive AmountError :=
| InvalidInput (msg : string)
| Overflow.

Record Amount := mkAmount { mantissa : Z; scale : Z }.

Definition amount_wf (a : Amount) : Prop :=
  in_u128 (mantissa a) ∧ 0 ≤ scale a ≤ MAX_SCALE.

(** ** Constructors and accessors *)

Definition ZERO : Amount := mkAmount 0 0.

Definition from_mantissa (m s : Z) : option Amount :=
  if MAX_SCALE <? s then None else Some (mkAmount m s).
Definition from_u64 (value : Z) : Amount := mkAmount value 0.
Definition from_u128 (value : Z) : Amount := mkAmount value 0.
Definition is_zero (a : Amount) : bool := mantissa a =? 0.

(** ** Checked arithmetic *)

(** The [while i > self.scale] loop of [checked_rescale]: [n] rounds remain. *)
Fixpoint rescale_loop (n : nat) (m : Z) : option Z :=
  match n with
  | O => Some m
  | S n' => m' ← checked_mul_u128 m 10; rescale_loop n' m'
  end.

Definition checked_rescale (a : Amount) (new_scale : Z) : option Amount :=
  if new_scale =? scale a then Some a
  else if new_scale <? scale a then None
  else m ← rescale_loop (Z.to_nat (new_scale - scale a)) (mantissa a);
       Some (mkAmount m new_scale).

Definition checked_add (a b : Amount) : option Amount :=
  let s := Z.max (scale a) (scale b) in
  left ← checked_rescale a s;
  right ← checked_rescale b s;
  m ← checked_add_u128 (mantissa left) (mantissa right);
  Some (mkAmount m s).

Definition checked_sub (a b : Amount) : option Amount :=
  let s := Z.max (scale a) (scale b) in
  left ← checked_rescale a s;
  right ← checked_rescale b s;
  m ← checked_sub_u128 (mantissa left) (mantissa right);
  Some (mkAmount m s).

(** ** Parsing *)

Definition is_ascii_digit (c : ascii) : bool :=
  (48 <=? byte_val c) && (byte_val c <=? 57).

Fixpoint parse_digits (acc : Z) (text : string) : result Z AmountError :=
  match text with
  | EmptyString => Ok acc
  | String c text' =>
      let digit := (byte_val c - 48) mod 256 in
      let? m := ok_or (v ← checked_mul_u128 acc 10; checked_add_u128 v digit) Overflow in
      parse_digits m text'
  end.

Definition try_from_str (text : string) : result Amount AmountError :=
  if MAX_MANTISSA_DIGITS <? Z.of_nat (String.length text) then Err Overflow
  else if str_is_empty text then Err (InvalidInput "empty string")
  else if negb (str_all is_ascii_digit text) then
    Err (InvalidInput "input must contain only ASCII decimal digits")
  else let? m := parse_digits 0 text in Ok (mkAmount m 0).

(** ** Printing *)

Definition digit_char (d : Z) : ascii := ascii_of_N (Z.to_N (48 + d)).

(** [u128::to_string]: least significant digit first, prepended to [acc].  A
    [u128] has at most 39 digits, which is the fuel. *)
Fixpoint digits_loop (fuel : nat) (n : Z) (acc : string) : string :=
  match fuel with
  | O => acc
  | S f =>
      let acc' := String (digit_char (n mod 10)) acc in
      if n <? 10 then acc' else digits_loop f (n / 10) acc'
  end.
Definition u128_to_string (n : Z) : string := digits_loop 39 n EmptyString.

Definition char_0 : ascii := "0"%char.

Fixpoint zeros (n : nat) : string :=
  match n with O => EmptyString | S n' => String char_0 (zeros n') end.

(** [format!("{digits:0>width$}")]. *)
Definition pad_left_zeros (width : nat) (digits : string) : string :=
  zeros (width - String.length digits) +:+ digits.

(** [str::trim_end_matches('0')]. *)
Fixpoint trim_end_zeros (s : string) : string :=
  match s with
  | EmptyString => EmptyString
  | String c s' =>
      match trim_end_zeros s' with
      | EmptyString => if Ascii.eqb c char_0 then EmptyString else String c EmptyString
      | t => String c t
      end
  end.

(** [str::trim_start_matches('0')]. *)
Fixpoint trim_start_zeros (s : string) : string :=
  match s with
  | EmptyString => EmptyString
  | String c s' => if Ascii.eqb c char_0 then trim_start_zeros s' else s
  end.

Definition format_fixed (int_part frac : string) : string :=
  let frac := trim_end_zeros frac in
  if str_is_empty frac then int_part else int_part +:+ "." +:+ frac.

Definition to_canonical_string (a : Amount) : string :=
  let digits := u128_to_string (mantissa a) in
  if scale a =? 0 then digits
  else
    let sc := Z.to_nat (scale a) in
    let digit_len := String.length digits in
    if (sc <? digit_len)%nat then
      let int_len := (digit_len - sc)%nat in
      format_fixed (str_take int_len digits) (str_drop int_len digits)
    else format_fixed "0" (pad_left_zeros sc digits).

(** ** Comparison *)

Definition decimal_digits (a : Amount) : string * string :=
  let digits := u128_to_string (mantissa a) in
  let sc := Z.to_nat (scale a) in
  let digit_len := String.length digits in
  if (sc =? 0)%nat then (digits, EmptyString)
  else if (sc <? digit_len)%nat then
    let int_len := (digit_len - sc)%nat in
    (str_take int_len digits, str_drop int_len digits)
  else ("0", pad_left_zeros sc digits).

(** The next character of [chars().chain(repeat('0'))], and the rest. *)
Definition next_or_zero (s : string) : ascii * string :=
  match s with EmptyString => (char_0, EmptyString) | String c s' => (c, s') end.

Fixpoint cmp_frac (max : nat) (fa fb : string) : comparison :=
  match max with
  | O => Eq
  | S max' =>
      let (ca, fa') := next_or_zero fa in
      let (cb, fb') := next_or_zero fb in
      match byte_val ca ?= byte_val cb with
      | Eq => cmp_frac max' fa' fb'
      | o => o
      end
  end.

Definition cmp_unsigned (int_a frac_a int_b frac_b : string) : comparison :=
  let a := trim_start_zeros int_a in
  let b := trim_start_zeros int_b in
  let len_a := String.length a in
  let len_b := String.length b in
  if negb (len_a =? len_b)%nat then (len_a ?= len_b)%nat
  else
    match str_cmp a b with
    | Eq => cmp_frac (Nat.max (String.length frac_a) (String.length frac_b)) frac_a frac_b
    | o => o
    end.

(** [Ord::cmp], [PartialEq::eq], [<] and [Amount::min]. *)
Definition amount_cmp (a b : Amount) : comparison :=
  let (int_a, frac_a) := decimal_digits a in
  let (int_b, frac_b) := decimal_digits b in
  cmp_unsigned int_a frac_a int_b frac_b.
Definition amount_eqb (a b : Amount) : bool :=
  match amount_cmp a b with Eq => true | _ => false end.
Definition amount_ltb (a b : Amount) : bool :=
  match amount_cmp a b with Lt => true | _ => false end.
Definition amount_min (a b : Amount) : Amount :=
  if amount_ltb a b then a else b.

(** [Serialize] writes the canonical string; [Deserialize] reads it back with
    [try_from_str]. *)
Definition serialize (a : Amount) : string := to_canonical_string a.
Definition deserialize (text : string) : result Amount AmountError := try_from_str text.

(** ** Reference semantics *)

(** The value in units of [10^-18]. *)
Definition aval (a : Amount) : Z := mantissa a * 10 ^ (MAX_SCALE - scale a).

(** The number a digit string denotes. *)
Fixpoint dval (acc : Z) (s : string) : Z :=
  match s with
  | EmptyString => acc
  | String c s' => dval (acc * 10 + (byte_val c - 48)) s'
  end.
Definition sval (s : string) : Z := dval 0 s.
Definition slen (s : string) : Z := Z.of_nat (String.length s).

(** ** Digit strings *)

Notation all_digits := (str_all is_ascii_digit).

Lemma is_ascii_digit_range c : is_ascii_digit c = true ↔ 48 ≤ byte_val c ≤ 57.
Proof. unfold is_ascii_digit. lia. Qed.

Lemma slen_nonneg s : 0 ≤ slen s.
Proof. unfold slen. lia. Qed.
Lemma slen_cons c s : slen (String c s) = slen s + 1.
Proof. unfold slen. simpl. lia. Qed.
Lemma slen_app a b : slen (a +:+ b) = slen a + slen b.
Proof. unfold slen. rewrite string_length_app. lia. Qed.
Lemma pow10_pos n : 0 ≤ n → 0 < 10 ^ n.
Proof. intros; apply Z.pow_pos_nonneg; lia. Qed.
Lemma pow10_S n : 0 ≤ n → 10 ^ (n + 1) = 10 * 10 ^ n.
Proof. intros. rewrite Z.pow_add_r by lia. lia. Qed.

Lemma dval_sval acc s : dval acc s = acc * 10 ^ slen s + sval s.
Proof.
  unfold sval. revert acc. induction s as [|c s IH]; intros acc.
  - simpl. change (slen EmptyString) with 0. lia.
  - cbn [dval]. rewrite IH, (IH (0 * 10 + _)), slen_cons, pow10_S by apply slen_nonneg. lia.
Qed.

Lemma sval_cons c s : sval (String c s) = (byte_val c - 48) * 10 ^ slen s + sval s.
Proof. unfold sval at 1. simpl. by rewrite dval_sval. Qed.

Lemma sval_app a b : sval (a +:+ b) = sval a * 10 ^ slen b + sval b.
Proof.
  induction a as [|c a IH]; [unfold sval at 2; simpl; by rewrite str_app_nil|].
  rewrite str_app_cons, !sval_cons, IH, slen_app, Z.pow_add_r by apply slen_nonneg. lia.
Qed.

Lemma sval_bound s : all_digits s = true → 0 ≤ sval s < 10 ^ slen s.
Proof.
  induction s as [|c s IH]; simpl; [intros _; unfold sval, slen; simpl; lia|].
  intros [Hc Hs]%andb_true_iff. apply is_ascii_digit_range in Hc.
  rewrite sval_cons, slen_cons, pow10_S by apply slen_nonneg.
  specialize (IH Hs). pose proof (pow10_pos _ (slen_nonneg s)). nia.
Qed.

Lemma zeros_facts n : all_digits (zeros n) = true ∧ sval (zeros n) = 0 ∧ String.length (zeros n) = n.
Proof.
  induction n as [|n (IH1 & IH2 & IH3)]; [done|].
  cbn [zeros]. rewrite sval_cons, IH2. simpl. rewrite IH1, IH3. done.
Qed.

Lemma digit_char_val d : 0 ≤ d < 10 → byte_val (digit_char d) = 48 + d.
Proof.
  intros. unfold byte_val, digit_char. rewrite N_ascii_embedding by lia. lia.
Qed.

Lemma digit_char_digit d : 0 ≤ d < 10 → is_ascii_digit (digit_char d) = true.
Proof. intros. apply is_ascii_digit_range. rewrite digit_char_val; lia. Qed.

(** [u128_to_string n] is the only digit string of value [n] without a leading
    zero. *)
Definition no_leading_zero (s : string) : Prop :=
  match s with
  | EmptyString => True
  | String c s' => c ≠ char_0
  end.

Lemma digits_loop_spec fuel n acc :
  0 ≤ n < 10 ^ Z.of_nat fuel → (0 < fuel)%nat →
  ∃ p, digits_loop fuel n acc = p +:+ acc ∧ all_digits p = true ∧ sval p = n ∧
       (0 < slen p ≤ Z.of_nat fuel) ∧ (0 < n → no_leading_zero p) ∧ (n < 10 → slen p = 1).
Proof.
  revert n acc. induction fuel as [|f IH]; intros n acc Hn Hf; [lia|].
  cbn [digits_loop].
  assert (Hd : byte_val (digit_char (n mod 10)) = 48 + n mod 10)
    by (apply digit_char_val; apply Z.mod_pos_bound; lia).
  pose proof (Z.mod_pos_bound n 10 ltac:(lia)) as Hm.
  destruct (n <? 10) eqn:Hlt.
  - exists (String (digit_char (n mod 10)) EmptyString).
    rewrite str_app_cons, str_app_nil. rewrite sval_cons, slen_cons.
    change (slen EmptyString) with 0. unfold sval at 1; cbn [str_all dval].
    rewrite Z.mod_small in * by lia. rewrite Hd.
    split; [done|]. split; [by rewrite digit_char_digit|].
    split; [lia|]. split; [lia|]. split; [|done].
    intros Hpos Heq. rewrite Heq in Hd. change (byte_val char_0) with 48 in Hd. lia.
  - destruct f as [|f]; [change (10 ^ Z.of_nat 1) with 10 in Hn; lia|].
    rewrite Nat2Z.inj_succ, Z.pow_succ_r in Hn by lia.
    destruct (IH (n / 10) (String (digit_char (n mod 10)) acc)) as (p & -> & Hp1 & Hp2 & Hp3 & Hp4 & _).
    { split; [apply Z.div_pos; lia | apply Z.div_lt_upper_bound; lia]. }
    { lia. }
    exists (p +:+ String (digit_char (n mod 10)) EmptyString).
    rewrite str_app_assoc, str_app_cons, str_app_nil, str_all_app, sval_app, sval_cons, slen_app, slen_cons.
    change (slen EmptyString) with 0. change (sval EmptyString) with 0. cbn [str_all].
    rewrite Hp1, Hp2, Hd. split; [done|]. split; [by rewrite digit_char_digit|].
    split; [pose proof (Z.div_mod n 10 ltac:(lia)); change (10 ^ (0 + 1)) with 10; change (10 ^ 0) with 1; lia|].
    split; [lia|]. split; [|lia].
    intros _. assert (Hq : 0 < n / 10) by (apply Z.div_str_pos; lia).
    specialize (Hp4 Hq). destruct p; [unfold slen in Hp3; simpl in Hp3; lia | by rewrite str_app_cons].
Qed.

Lemma U128_MAX_digits : U128_MAX < 10 ^ 39.
Proof. by vm_compute. Qed.

Lemma u128_to_string_spec n : in_u128 n →
  all_digits (u128_to_string n) = true ∧ sval (u128_to_string n) = n ∧
  0 < slen (u128_to_string n) ≤ 39 ∧ (0 < n → no_leading_zero (u128_to_string n)) ∧
  (n < 10 → slen (u128_to_string n) = 1).
Proof.
  intros [H0 H1]. unfold u128_to_string.
  destruct (digits_loop_spec 39 n EmptyString) as (p & -> & Hp); [|lia|].
  { change (Z.of_nat 39) with 39. pose proof U128_MAX_digits. lia. }
  by rewrite str_app_nil_r.
Qed.

(** ** Parsing reads the denoted number *)

Lemma parse_digits_spec acc s :
  all_digits s = true → 0 ≤ acc ≤ U128_MAX →
  parse_digits acc s = if dval acc s <=? U128_MAX then Ok (dval acc s) else Err Overflow.
Proof.
  revert acc. induction s as [|c s IH]; intros acc Hd Hacc; simpl.
  { by destruct (acc <=? U128_MAX) eqn:E; [|lia]. }
  simpl in Hd. apply andb_true_iff in Hd as [Hc Hs]. apply is_ascii_digit_range in Hc.
  rewrite Z.mod_small by lia. pose proof (sval_bound s Hs) as Hb.
  pose proof (pow10_pos _ (slen_nonneg s)) as Hp.
  destruct (decide (acc * 10 + (byte_val c - 48) ≤ U128_MAX)) as [Hfit|Hbig].
  - unfold checked_mul_u128, checked_add_u128.
    rewrite (proj2 (checked_op_Some _ (acc * 10) (acc * 10))) by lia. simpl.
    rewrite (proj2 (checked_op_Some _ (acc * 10 + (byte_val c - 48)) _)) by (split; [done|lia]).
    simpl. by apply IH; [|lia].
  - rewrite dval_sval. destruct (_ <=? U128_MAX) eqn:E; [nia|].
    unfold checked_mul_u128, checked_add_u128.
    destruct (checked_op U128_MAX (acc * 10)) as [v|] eqn:E1; [|done]. simpl.
    apply checked_op_Some in E1 as [-> _].
    by rewrite (proj2 (checked_op_None _ _)) by lia.
Qed.

Lemma str_is_empty_true s : str_is_empty s = true ↔ s = EmptyString.
Proof. by destruct s. Qed.

Lemma try_from_str_digits s :
  all_digits s = true → s ≠ EmptyString → slen s ≤ MAX_MANTISSA_DIGITS → sval s ≤ U128_MAX →
  try_from_str s = Ok (mkAmount (sval s) 0).
Proof.
  intros Hd Hne Hl Hv. unfold try_from_str. fold (slen s).
  destruct (MAX_MANTISSA_DIGITS <? slen s) eqn:E; [lia|].
  destruct s as [|c s]; [done|]. cbn [str_is_empty]. rewrite Hd. cbn [negb].
  rewrite parse_digits_spec by (done || (unfold U128_MAX; lia)).
  change (dval 0 ?s) with (sval s). by destruct (_ <=? U128_MAX) eqn:E2; [|lia].
Qed.

(** ** Comparison of digit strings is comparison of numbers *)

Lemma lex_compare B x1 y1 x2 y2 : 0 ≤ y1 < B → 0 ≤ y2 < B →
  (x1 * B + y1 ?= x2 * B + y2) = match x1 ?= x2 with Eq => y1 ?= y2 | o => o end.
Proof.
  intros H1 H2. destruct (Z.compare_spec x1 x2) as [->|Hlt|Hgt].
  - destruct (Z.compare_spec y1 y2) as [->|?|?];
      [apply Z.compare_refl | apply Z.compare_lt_iff; lia | apply Z.compare_gt_iff; lia].
  - apply Z.compare_lt_iff. nia.
  - apply Z.compare_gt_iff. nia.
Qed.

Lemma compare_scale k x y : 0 < k → (x * k ?= y * k) = (x ?= y).
Proof.
  intros. pose proof (lex_compare k x 0 y 0 ltac:(lia) ltac:(lia)) as E.
  rewrite !Z.add_0_r in E. rewrite E. by destruct (x ?= y).
Qed.

Lemma digit_compare c d : (byte_val c ?= byte_val d) = (byte_val c - 48 ?= byte_val d - 48).
Proof. destruct (Z.compare_spec (byte_val c) (byte_val d)); symmetry;
  [apply Z.compare_eq_iff | apply Z.compare_lt_iff | apply Z.compare_gt_iff]; lia. Qed.

Lemma str_cmp_digits a b :
  all_digits a = true → all_digits b = true → slen a = slen b →
  str_cmp a b = (sval a ?= sval b).
Proof.
  revert b. induction a as [|c a IH]; intros [|d b]; cbn [str_cmp str_all];
    rewrite ?slen_cons; try (unfold slen; simpl; lia); [done|].
  intros [Hc Ha]%andb_true_iff [Hd Hb]%andb_true_iff Hl.
  assert (slen a = slen b) as Hl' by lia.
  pose proof (sval_bound a Ha) as Ba. pose proof (sval_bound b Hb) as Bb.
  rewrite !sval_cons, Hl' in *. rewrite lex_compare by done.
  rewrite <- digit_compare. by rewrite <- (IH b).
Qed.

Lemma sval_no_leading_zero s :
  all_digits s = true → s ≠ EmptyString → no_leading_zero s → 10 ^ (slen s - 1) ≤ sval s.
Proof.
  destruct s as [|c s]; [done|]. cbn [str_all].
  intros [Hc Hs]%andb_true_iff _ Hz. apply is_ascii_digit_range in Hc.
  rewrite slen_cons, sval_cons. replace (slen s + 1 - 1) with (slen s) by lia.
  assert (byte_val c ≠ 48) by (intros E; apply Hz, byte_val_inj; by rewrite E).
  pose proof (sval_bound s Hs). pose proof (pow10_pos _ (slen_nonneg s)). nia.
Qed.

Lemma shorter_is_smaller a b :
  all_digits a = true → all_digits b = true → no_leading_zero b → slen a < slen b →
  sval a < sval b.
Proof.
  intros Ha Hb Hz Hl.
  assert (b ≠ EmptyString) by (intros ->; unfold slen in Hl; simpl in Hl; lia).
  pose proof (sval_no_leading_zero b Hb ltac:(done) Hz). pose proof (sval_bound a Ha).
  assert (10 ^ slen a ≤ 10 ^ (slen b - 1))
    by (apply Z.pow_le_mono_r; lia). lia.
Qed.

Lemma canonical_digits_unique a b :
  all_digits a = true → all_digits b = true → no_leading_zero a → no_leading_zero b →
  sval a = sval b → a = b.
Proof.
  intros Ha Hb Za Zb Hv.
  destruct (Z.lt_trichotomy (slen a) (slen b)) as [?|[Hl|?]].
  - pose proof (shorter_is_smaller a b). intuition lia.
  - apply str_cmp_eq. rewrite str_cmp_digits by done. by apply Z.compare_eq_iff.
  - pose proof (shorter_is_smaller b a). intuition lia.
Qed.

Lemma trim_start_zeros_spec s : all_digits s = true →
  all_digits (trim_start_zeros s) = true ∧ sval (trim_start_zeros s) = sval s ∧
  no_leading_zero (trim_start_zeros s).
Proof.
  induction s as [|c s IH]; cbn [str_all trim_start_zeros]; [done|].
  intros H. pose proof H as [Hc Hs]%andb_true_iff.
  destruct (Ascii.eqb_spec c char_0) as [->|Hne].
  - destruct (IH Hs) as (? & E & ?). split; [done|]. split; [|done].
    rewrite E, sval_cons. change (byte_val char_0) with 48. lia.
  - split; [done|]. by split.
Qed.

Lemma next_or_zero_spec m s c s' : all_digits s = true → slen s ≤ m + 1 → 0 ≤ m →
  next_or_zero s = (c, s') →
  is_ascii_digit c = true ∧ all_digits s' = true ∧ slen s' ≤ m ∧
  sval s * 10 ^ (m + 1 - slen s) = (byte_val c - 48) * 10 ^ m + sval s' * 10 ^ (m - slen s').
Proof.
  destruct s as [|d s]; cbn [next_or_zero str_all].
  - intros _ _ Hm [= <- <-]. change (sval EmptyString) with 0. change (slen EmptyString) with 0.
    change (byte_val char_0) with 48. split; [done|]. split; [done|]. split; [done|]. lia.
  - intros [Hc Hs]%andb_true_iff Hl Hm [= <- <-]. rewrite slen_cons in *.
    split; [done|]. split; [done|]. split; [lia|]. rewrite sval_cons.
    replace (m + 1 - (slen s + 1)) with (m - slen s) by lia.
    rewrite Z.mul_add_distr_r, <- Z.mul_assoc, <- Z.pow_add_r by (pose proof (slen_nonneg s); lia).
    by replace (slen s + (m - slen s)) with m by lia.
Qed.

Lemma frac_bound m s : all_digits s = true → slen s ≤ m →
  0 ≤ sval s * 10 ^ (m - slen s) < 10 ^ m.
Proof.
  intros Hd Hl. pose proof (sval_bound s Hd) as Hb.
  pose proof (pow10_pos (m - slen s) ltac:(lia)).
  replace m with (slen s + (m - slen s)) at 3 by lia.
  rewrite Z.pow_add_r by (pose proof (slen_nonneg s); lia). nia.
Qed.

Lemma cmp_frac_spec m fa fb :
  all_digits fa = true → all_digits fb = true →
  slen fa ≤ Z.of_nat m → slen fb ≤ Z.of_nat m →
  cmp_frac m fa fb =
    (sval fa * 10 ^ (Z.of_nat m - slen fa) ?= sval fb * 10 ^ (Z.of_nat m - slen fb)).
Proof.
  revert fa fb. induction m as [|m IH]; intros fa fb Ha Hb La Lb.
  { destruct fa, fb; rewrite ?slen_cons in *; pose proof slen_nonneg;
      try (by specialize (H fa); lia); try (by specialize (H fb); lia). done. }
  cbn [cmp_frac]. rewrite Nat2Z.inj_succ, <- Z.add_1_r in *.
  destruct (next_or_zero fa) as [ca fa'] eqn:Ea, (next_or_zero fb) as [cb fb'] eqn:Eb.
  apply (next_or_zero_spec (Z.of_nat m)) in Ea as (Hca & Ha' & La' & ->); [|done|lia|lia].
  apply (next_or_zero_spec (Z.of_nat m)) in Eb as (Hcb & Hb' & Lb' & ->); [|done|lia|lia].
  rewrite lex_compare by (by apply frac_bound).
  rewrite <- digit_compare. by rewrite IH.
Qed.

(** ** Splitting an amount into its integer and fraction digits *)

Definition canonical_int (s : string) : Prop :=
  s = "0" ∨ (s ≠ EmptyString ∧ no_leading_zero s).

Lemma slen_take n s : (n ≤ String.length s)%nat → slen (str_take n s) = Z.of_nat n.
Proof. intros. unfold slen. rewrite str_take_length. lia. Qed.
Lemma slen_drop n s : slen (str_drop n s) = Z.of_nat (String.length s - n).
Proof. unfold slen. by rewrite str_drop_length. Qed.

Lemma all_digits_split n s : all_digits s = true →
  all_digits (str_take n s) = true ∧ all_digits (str_drop n s) = true.
Proof.
  intros H. rewrite <- (str_take_drop n s), str_all_app in H. by apply andb_true_iff in H.
Qed.

Lemma no_leading_zero_take n s : no_leading_zero s → no_leading_zero (str_take n s).
Proof. by destruct n, s. Qed.

Lemma decimal_digits_spec a i f : amount_wf a → decimal_digits a = (i, f) →
  all_digits i = true ∧ all_digits f = true ∧ slen f = scale a ∧ canonical_int i ∧
  mantissa a = sval i * 10 ^ scale a + sval f.
Proof.
  intros [Hm Hs] E. unfold decimal_digits in E.
  destruct (u128_to_string_spec _ Hm) as (D1 & D2 & D3 & D4 & D5).
  set (ds := u128_to_string (mantissa a)) in *.
  destruct (Nat.eqb_spec (Z.to_nat (scale a)) 0) as [Z0|Z0].
  { injection E as <- <-. assert (scale a = 0) as -> by lia.
    split; [done|]. split; [done|]. split; [done|]. split; [|change (sval EmptyString) with 0; lia].
    destruct (decide (mantissa a = 0)) as [E0|]; [left; unfold ds; by rewrite E0|].
    right. split; [intros Ee; rewrite Ee in D3; unfold slen in D3; simpl in D3; lia|].
    apply D4. unfold in_u128 in Hm. lia. }
  destruct (Nat.ltb_spec (Z.to_nat (scale a)) (String.length ds)) as [Hlt|Hge]; injection E as <- <-.
  - set (n := (String.length ds - Z.to_nat (scale a))%nat) in *.
    destruct (all_digits_split n ds D1) as [T1 T2].
    assert (slen (str_drop n ds) = scale a) as L by (rewrite slen_drop; lia).
    split; [done|]. split; [done|]. split; [done|]. split.
    + right. split.
      * intros Ee. pose proof (slen_take n ds ltac:(lia)) as Ht. rewrite Ee in Ht.
        unfold slen in Ht. simpl in Ht. lia.
      * apply no_leading_zero_take, D4.
        destruct (decide (mantissa a < 10)) as [h|]; [|lia]. specialize (D5 h).
        unfold slen in D5. lia.
    + rewrite <- L, <- sval_app, str_take_drop. done.
  - unfold pad_left_zeros. destruct (zeros_facts (Z.to_nat (scale a) - String.length ds)) as (F1 & F2 & F3).
    rewrite str_all_app, F1, D1, slen_app, sval_app, F2, D2.
    split; [done|]. split; [done|]. split; [unfold slen; rewrite F3; lia|].
    split; [by left|]. change (sval "0") with 0. lia.
Qed.

(** The integer part and fraction of an amount, in units of [10^-18]. *)
Lemma aval_split a i f : amount_wf a → decimal_digits a = (i, f) →
  aval a = sval i * 10 ^ MAX_SCALE + sval f * 10 ^ (MAX_SCALE - scale a) ∧
  0 ≤ sval f * 10 ^ (MAX_SCALE - scale a) < 10 ^ MAX_SCALE.
Proof.
  intros Hw E. pose proof (decimal_digits_spec _ _ _ Hw E) as (D1 & D2 & D3 & _ & D5).
  destruct Hw as [_ Hs]. split.
  - unfold aval. rewrite D5, Z.mul_add_distr_r, <- Z.mul_assoc, <- Z.pow_add_r by lia.
    by replace (scale a + (MAX_SCALE - scale a)) with MAX_SCALE by lia.
  - rewrite <- D3. apply frac_bound; [done|lia].
Qed.

Lemma cmp_unsigned_spec ia fa ib fb :
  all_digits ia = true → all_digits fa = true → all_digits ib = true → all_digits fb = true →
  slen fa ≤ MAX_SCALE → slen fb ≤ MAX_SCALE →
  cmp_unsigned ia fa ib fb =
    match sval ia ?= sval ib with
    | Eq => sval fa * 10 ^ (MAX_SCALE - slen fa) ?= sval fb * 10 ^ (MAX_SCALE - slen fb)
    | o => o
    end.
Proof.
  intros Hia Hfa Hib Hfb La Lb. unfold cmp_unsigned.
  destruct (trim_start_zeros_spec ia Hia) as (A1 & <- & A3).
  destruct (trim_start_zeros_spec ib Hib) as (B1 & <- & B3).
  set (a := trim_start_zeros ia) in *. set (b := trim_start_zeros ib) in *.
  destruct (Nat.eqb_spec (String.length a) (String.length b)) as [El|Nl]; cbn [negb].
  - rewrite str_cmp_digits by (done || unfold slen; lia).
    destruct (sval a ?= sval b); try done.
    set (m := Nat.max (String.length fa) (String.length fb)).
    rewrite cmp_frac_spec by (done || unfold slen; lia).
    assert (Hm : Z.of_nat m ≤ MAX_SCALE) by (unfold slen in *; lia).
    assert (Hla : slen fa ≤ Z.of_nat m) by (unfold slen; lia).
    assert (Hlb : slen fb ≤ Z.of_nat m) by (unfold slen; lia).
    rewrite <- (compare_scale (10 ^ (MAX_SCALE - Z.of_nat m))) by (apply pow10_pos; lia).
    rewrite <- !Z.mul_assoc, <- !Z.pow_add_r by lia. f_equal; do 2 f_equal; lia.
  - destruct (Nat.compare_spec (String.length a) (String.length b)) as [?|?|?]; [lia| |]; symmetry.
    + assert (sval a < sval b) as ->%Z.compare_lt_iff; [|done].
      apply shorter_is_smaller; (done || unfold slen; lia).
    + assert (sval b < sval a) as ->%Z.compare_gt_iff; [|done].
      apply shorter_is_smaller; (done || unfold slen; lia).
Qed.

Lemma amount_cmp_spec a b : amount_wf a → amount_wf b →
  amount_cmp a b = (aval a ?= aval b).
Proof.
  intros Ha Hb. unfold amount_cmp.
  destruct (decimal_digits a) as [ia fa] eqn:Ea, (decimal_digits b) as [ib fb] eqn:Eb.
  destruct (aval_split _ _ _ Ha Ea) as [-> Ba], (aval_split _ _ _ Hb Eb) as [-> Bb].
  apply decimal_digits_spec in Ea as (A1 & A2 & A3 & _); [|done].
  apply decimal_digits_spec in Eb as (B1 & B2 & B3 & _); [|done].
  rewrite cmp_unsigned_spec, A3, B3 by (try done; destruct Ha, Hb; lia).
  by rewrite lex_compare.
Qed.

Lemma amount_eqb_spec a b : amount_wf a → amount_wf b →
  amount_eqb a b = true ↔ aval a = aval b.
Proof.
  intros. unfold amount_eqb. rewrite amount_cmp_spec by done.
  destruct (Z.compare_spec (aval a) (aval b)); split; done || lia.
Qed.

Lemma amount_ltb_spec a b : amount_wf a → amount_wf b →
  amount_ltb a b = true ↔ aval a < aval b.
Proof.
  intros. unfold amount_ltb. rewrite amount_cmp_spec by done.
  destruct (Z.compare_spec (aval a) (aval b)); split; done || lia.
Qed.

Lemma amount_min_spec a b : amount_wf a → amount_wf b →
  amount_wf (amount_min a b) ∧ aval (amount_min a b) = Z.min (aval a) (aval b).
Proof.
  intros Ha Hb. unfold amount_min. destruct (amount_ltb a b) eqn:E.
  - apply amount_ltb_spec in E; [|done..]. split; [done|lia].
  - split; [done|]. assert (¬ aval a < aval b); [|lia].
    rewrite <- amount_ltb_spec by done. by rewrite E.
Qed.

Lemma is_zero_spec a : amount_wf a → is_zero a = true ↔ aval a = 0.
Proof.
  intros [Hm Hs]. unfold is_zero, aval. pose proof (pow10_pos (MAX_SCALE - scale a) ltac:(lia)).
  rewrite Z.eqb_eq. nia.
Qed.

Lemma aval_nonneg a : amount_wf a → 0 ≤ aval a.
Proof. intros [[] ?]. unfold aval. pose proof (pow10_pos (MAX_SCALE - scale a) ltac:(lia)). nia. Qed.

(** ** Checked arithmetic is exact *)

Lemma rescale_loop_spec n m : 0 ≤ m →
  rescale_loop n m =
    if m * 10 ^ Z.of_nat n <=? U128_MAX then Some (m * 10 ^ Z.of_nat n)
    else if (n =? 0)%nat then Some m else None.
Proof.
  revert m. induction n as [|n IH]; intros m Hm; cbn [rescale_loop].
  { change (10 ^ Z.of_nat 0) with 1. rewrite Z.mul_1_r. by destruct (_ <=? _). }
  rewrite Nat2Z.inj_succ, Z.pow_succ_r, Z.mul_assoc by lia. unfold checked_mul_u128.
  pose proof (pow10_pos (Z.of_nat n) ltac:(lia)).
  destruct (checked_op U128_MAX (m * 10)) as [v|] eqn:E; cbn.
  - apply checked_op_Some in E as [-> E]. rewrite IH by lia.
    destruct (_ <=? _) eqn:E2; [done|]. destruct n; [|done].
    change (10 ^ Z.of_nat 0) with 1 in E2. lia.
  - apply checked_op_None in E. destruct (_ <=? _) eqn:E2; [nia|done].
Qed.

(** The aligned operand: its mantissa at the larger scale [s]. *)
Lemma checked_rescale_spec a s : amount_wf a → scale a ≤ s ≤ MAX_SCALE →
  checked_rescale a s =
    let m := mantissa a * 10 ^ (s - scale a) in
    if m <=? U128_MAX then Some (mkAmount m s) else None.
Proof.
  intros [Hm Hsc] Hs. unfold checked_rescale. destruct a as [m sc]; cbn [mantissa scale] in *.
  destruct (Z.eqb_spec s sc) as [->|Hne].
  { rewrite Z.sub_diag, Z.mul_1_r. unfold in_u128 in Hm. cbn.
    by destruct (_ <=? _) eqn:E; [|lia]. }
  destruct (Z.ltb_spec s sc); [lia|].
  rewrite rescale_loop_spec by (unfold in_u128 in Hm; lia).
  rewrite Z2Nat.id by lia. cbn zeta. destruct (_ <=? _); [done|].
  destruct (Nat.eqb_spec (Z.to_nat (s - sc)) 0); [lia|done].
Qed.

Lemma aval_at_scale a s : 0 ≤ scale a ≤ s → s ≤ MAX_SCALE →
  aval a = mantissa a * 10 ^ (s - scale a) * 10 ^ (MAX_SCALE - s).
Proof.
  intros. unfold aval. rewrite <- Z.mul_assoc, <- Z.pow_add_r by lia.
  do 2 f_equal. lia.
Qed.

(** Both operands aligned at the larger scale [s], in units of [10^-s]. *)
Lemma align a b s : amount_wf a → amount_wf b → s = Z.max (scale a) (scale b) →
  ∃ x y, 0 ≤ x ∧ 0 ≤ y ∧ 0 ≤ s ≤ MAX_SCALE ∧
    aval a = x * 10 ^ (MAX_SCALE - s) ∧ aval b = y * 10 ^ (MAX_SCALE - s) ∧
    0 < 10 ^ (MAX_SCALE - s) ∧
    checked_rescale a s = (if x <=? U128_MAX then Some (mkAmount x s) else None) ∧
    checked_rescale b s = (if y <=? U128_MAX then Some (mkAmount y s) else None).
Proof.
  intros Ha Hb Hs.
  assert (scale a ≤ s ∧ scale b ≤ s ∧ 0 ≤ s ≤ MAX_SCALE) by (destruct Ha, Hb; lia).
  exists (mantissa a * 10 ^ (s - scale a)), (mantissa b * 10 ^ (s - scale b)).
  rewrite !checked_rescale_spec by (done || lia).
  rewrite <- !aval_at_scale by (destruct Ha, Hb; lia).
  pose proof (pow10_pos (MAX_SCALE - s) ltac:(lia)).
  pose proof (pow10_pos (s - scale a) ltac:(lia)). pose proof (pow10_pos (s - scale b) ltac:(lia)).
  destruct Ha as [[] _], Hb as [[] _]. repeat split; try done; nia.
Qed.

Lemma checked_add_spec a b : amount_wf a → amount_wf b →
  let s := Z.max (scale a) (scale b) in
  match checked_add a b with
  | Some r => amount_wf r ∧ scale r = s ∧ aval r = aval a + aval b
  | None => U128_MAX * 10 ^ (MAX_SCALE - s) < aval a + aval b
  end.
Proof.
  intros Ha Hb s. unfold checked_add. fold s.
  destruct (align a b s Ha Hb eq_refl) as (x & y & Hx & Hy & Hs & -> & -> & Hp & -> & ->).
  destruct (Z.leb_spec x U128_MAX); cbn; [|nia].
  destruct (Z.leb_spec y U128_MAX); cbn; [|nia].
  unfold checked_add_u128. destruct (checked_op U128_MAX (x + y)) as [m|] eqn:E; cbn.
  - apply checked_op_Some in E as [-> E]. unfold amount_wf, in_u128, aval; cbn. lia.
  - apply checked_op_None in E. nia.
Qed.

Lemma checked_sub_spec a b : amount_wf a → amount_wf b →
  let s := Z.max (scale a) (scale b) in
  match checked_sub a b with
  | Some r => amount_wf r ∧ scale r = s ∧ aval r = aval a - aval b
  | None => aval a < aval b ∨ U128_MAX * 10 ^ (MAX_SCALE - s) < aval a
  end.
Proof.
  intros Ha Hb s. unfold checked_sub. fold s.
  destruct (align a b s Ha Hb eq_refl) as (x & y & Hx & Hy & Hs & -> & -> & Hp & -> & ->).
  destruct (Z.leb_spec x U128_MAX); cbn; [|nia].
  destruct (Z.leb_spec y U128_MAX); cbn; [|nia].
  unfold checked_sub_u128. destruct (checked_op U128_MAX (x - y)) as [m|] eqn:E; cbn.
  - apply checked_op_Some in E as [-> E]. unfold amount_wf, in_u128, aval; cbn. lia.
  - apply checked_op_None in E. nia.
Qed.

(** When each of the two refuses: the bounds of the specifications are exact. *)
Lemma checked_add_None a b : amount_wf a → amount_wf b →
  checked_add a b = None ↔
  U128_MAX * 10 ^ (MAX_SCALE - Z.max (scale a) (scale b)) < aval a + aval b.
Proof.
  intros Ha Hb. pose proof (checked_add_spec a b Ha Hb) as H. cbn zeta in H.
  destruct (checked_add a b) as [r|]; [|done]. destruct H as (([_ Hm] & Hs1) & Hs & <-).
  split; [done|]. rewrite <- Hs. unfold aval.
  pose proof (pow10_pos (MAX_SCALE - scale r) ltac:(lia)). nia.
Qed.

Lemma checked_sub_None a b : amount_wf a → amount_wf b →
  checked_sub a b = None ↔
  aval a < aval b ∨ U128_MAX * 10 ^ (MAX_SCALE - Z.max (scale a) (scale b)) < aval a.
Proof.
  intros Ha Hb. pose proof (checked_sub_spec a b Ha Hb) as H. cbn zeta in H.
  destruct (checked_sub a b) as [r|] eqn:E; [|done]. destruct H as (([H0 _] & Hs1) & Hs & Hv).
  split; [done|]. unfold checked_sub in E.
  destruct (align a b _ Ha Hb eq_refl) as (x & y & _ & _ & _ & Hx & _ & Hp & R & _).
  rewrite R in E. destruct (Z.leb_spec x U128_MAX); [|done]. clear E.
  intros [Hlt|Hbig]; [|nia]. unfold aval in Hv at 1.
  pose proof (pow10_pos (MAX_SCALE - scale r) ltac:(lia)). nia.
Qed.

(** ** The canonical string *)

Lemma to_canonical_string_split a i f : amount_wf a → decimal_digits a = (i, f) →
  to_canonical_string a = format_fixed i f.
Proof.
  intros [_ Hs]. unfold decimal_digits, to_canonical_string.
  destruct (Z.eqb_spec (scale a) 0) as [E|E], (Nat.eqb_spec (Z.to_nat (scale a)) 0); try lia.
  - by intros [= <- <-].
  - by destruct (_ <? _)%nat; intros [= <- <-].
Qed.

Definition trim_cons (c : ascii) (t : string) : string :=
  match t with
  | EmptyString => if Ascii.eqb c char_0 then EmptyString else String c EmptyString
  | _ => String c t
  end.

Lemma trim_end_zeros_next s c s' :
  next_or_zero s = (c, s') → trim_end_zeros s = trim_cons c (trim_end_zeros s').
Proof. destruct s as [|a s]; intros [= <- <-]; [done|]. simpl. by destruct (trim_end_zeros s). Qed.

(** Fractions of equal value are equal once trailing zeros are stripped. *)
Lemma trim_end_zeros_unique m f g :
  all_digits f = true → all_digits g = true → slen f ≤ Z.of_nat m → slen g ≤ Z.of_nat m →
  sval f * 10 ^ (Z.of_nat m - slen f) = sval g * 10 ^ (Z.of_nat m - slen g) →
  trim_end_zeros f = trim_end_zeros g.
Proof.
  revert f g. induction m as [|m IH]; intros f g Hf Hg Lf Lg Hv.
  { destruct f as [|c f]; [|rewrite slen_cons in Lf; pose proof (slen_nonneg f); lia].
    destruct g as [|d g]; [done|]. rewrite slen_cons in Lg. pose proof (slen_nonneg g). lia. }
  rewrite Nat2Z.inj_succ, <- Z.add_1_r in *.
  destruct (next_or_zero f) as [c f'] eqn:Ef, (next_or_zero g) as [d g'] eqn:Eg.
  rewrite (trim_end_zeros_next _ _ _ Ef), (trim_end_zeros_next _ _ _ Eg).
  apply (next_or_zero_spec (Z.of_nat m)) in Ef as (Hc & Hf' & Lf' & Vf); [|done|lia|lia].
  apply (next_or_zero_spec (Z.of_nat m)) in Eg as (Hd & Hg' & Lg' & Vg); [|done|lia|lia].
  rewrite Vf, Vg in Hv. apply Z.compare_eq_iff in Hv.
  rewrite lex_compare in Hv by (by apply frac_bound).
  destruct (_ ?= _) eqn:E1 in Hv; try done.
  apply Z.compare_eq_iff in E1, Hv. assert (c = d) as -> by (apply byte_val_inj; lia).
  by rewrite (IH f' g').
Qed.

Lemma trim_end_zeros_decomp s : ∃ k, s = trim_end_zeros s +:+ zeros k.
Proof.
  induction s as [|c s [k IH]]; [by exists O|]. cbn [trim_end_zeros].
  destruct (trim_end_zeros s) as [|d t].
  - destruct (Ascii.eqb_spec c char_0) as [->|].
    + exists (S k). by rewrite IH.
    + exists k. by rewrite IH.
  - exists k. rewrite str_app_cons. by rewrite <- IH.
Qed.

Lemma trim_end_zeros_spec m s : all_digits s = true → slen s ≤ m →
  all_digits (trim_end_zeros s) = true ∧ slen (trim_end_zeros s) ≤ m ∧
  sval s * 10 ^ (m - slen s) = sval (trim_end_zeros s) * 10 ^ (m - slen (trim_end_zeros s)).
Proof.
  destruct (trim_end_zeros_decomp s) as [k E]. revert E.
  generalize (trim_end_zeros s). intros t ->.
  destruct (zeros_facts k) as (_ & Z2 & Z3).
  rewrite str_all_app, slen_app, sval_app, Z2. intros [Ht _]%andb_true_iff Hl.
  pose proof (slen_nonneg t). pose proof (slen_nonneg (zeros k)).
  split; [done|]. split; [lia|].
  rewrite Z.add_0_r, <- Z.mul_assoc, <- Z.pow_add_r by lia. do 2 f_equal. lia.
Qed.

(** A digit string followed by nothing or by a point is split in one way. *)
Definition frac_suffix (t : string) : string :=
  if str_is_empty t then EmptyString else String "."%char t.

Lemma format_fixed_suffix i f : format_fixed i f = i +:+ frac_suffix (trim_end_zeros f).
Proof.
  unfold format_fixed, frac_suffix. destruct (str_is_empty _); [by rewrite str_app_nil_r|done].
Qed.

Lemma split_at_point i j t u : all_digits i = true → all_digits j = true →
  i +:+ frac_suffix t = j +:+ frac_suffix u → i = j ∧ t = u.
Proof.
  assert (Hdot : ∀ c s v, is_ascii_digit c = true → String c s = frac_suffix v → False).
  { intros c s v Hc. unfold frac_suffix. destruct v; simpl; [done|]. intros [= -> _]. done. }
  revert j. induction i as [|c i IH]; intros [|d j]; cbn [str_all];
    rewrite ?str_app_nil, ?str_app_cons.
  - intros _ _ H. split; [done|]. destruct t, u; by simplify_eq/=.
  - intros _ [Hd _]%andb_true_iff H. symmetry in H. by apply Hdot in H.
  - intros [Hc _]%andb_true_iff _ H. by apply Hdot in H.
  - intros [_ Hi]%andb_true_iff [_ Hj]%andb_true_iff [= -> H].
    destruct (IH j Hi Hj H) as [-> ->]. done.
Qed.

Lemma canonical_int_unique i j :
  all_digits i = true → all_digits j = true → canonical_int i → canonical_int j →
  sval i = sval j → i = j.
Proof.
  assert (Hpos : ∀ s, all_digits s = true → s ≠ EmptyString → no_leading_zero s → 0 < sval s).
  { intros s Hs Hne Hz. pose proof (sval_no_leading_zero s Hs Hne Hz).
    assert (0 < slen s) by (destruct s; [done|]; rewrite slen_cons; pose proof (slen_nonneg s); lia).
    pose proof (pow10_pos (slen s - 1) ltac:(lia)). lia. }
  intros Hi Hj [->|[Ni Zi]] [->|[Nj Zj]] Hv; [done| | |by apply canonical_digits_unique].
  - specialize (Hpos j Hj Nj Zj). change (sval "0") with 0 in Hv. lia.
  - specialize (Hpos i Hi Ni Zi). change (sval "0") with 0 in Hv. lia.
Qed.

Lemma canonical_string_eq a b : amount_wf a → amount_wf b →
  to_canonical_string a = to_canonical_string b ↔ aval a = aval b.
Proof.
  intros Ha Hb.
  destruct (decimal_digits a) as [i f] eqn:Ea, (decimal_digits b) as [j g] eqn:Eb.
  rewrite (to_canonical_string_split _ _ _ Ha Ea), (to_canonical_string_split _ _ _ Hb Eb).
  destruct (aval_split _ _ _ Ha Ea) as [-> Ba], (aval_split _ _ _ Hb Eb) as [-> Bb].
  apply decimal_digits_spec in Ea as (A1 & A2 & A3 & A4 & _); [|done].
  apply decimal_digits_spec in Eb as (B1 & B2 & B3 & B4 & _); [|done].
  rewrite <- A3, <- B3 in *. destruct Ha as [_ Ha], Hb as [_ Hb]. rewrite !format_fixed_suffix.
  split.
  - intros [-> E]%split_at_point; [|done..].
    destruct (trim_end_zeros_spec MAX_SCALE f A2 ltac:(lia)) as (_ & _ & ->).
    destruct (trim_end_zeros_spec MAX_SCALE g B2 ltac:(lia)) as (_ & _ & ->). by rewrite E.
  - intros E. apply Z.compare_eq_iff in E. rewrite lex_compare in E by done.
    destruct (_ ?= _) eqn:E1 in E; try done. apply Z.compare_eq_iff in E1, E.
    rewrite (canonical_int_unique i j) by done.
    by rewrite (trim_end_zeros_unique 18 f g) by (done || unfold MAX_SCALE in *; lia).
Qed.

Lemma try_from_str_rejects s : all_digits s = false → ∃ e, try_from_str s = Err e.
Proof.
  intros Hd. unfold try_from_str. destruct (_ <? _); [eauto|].
  destruct (str_is_empty s); [eauto|]. rewrite Hd. eauto.
Qed.

Lemma canonical_int_length i : all_digits i = true → canonical_int i → sval i ≤ U128_MAX →
  i ≠ EmptyString ∧ slen i ≤ MAX_MANTISSA_DIGITS.
Proof.
  intros Hd [->|[Hne Hz]] Hv; [done|]. split; [done|].
  pose proof (sval_no_leading_zero i Hd Hne Hz). pose proof U128_MAX_digits.
  destruct (Z.le_gt_cases (slen i) MAX_MANTISSA_DIGITS) as [|Hgt]; [done|].
  pose proof (Z.pow_le_mono_r 10 39 (slen i - 1) ltac:(lia) ltac:(unfold MAX_MANTISSA_DIGITS in *; lia)).
  lia.
Qed.

Lemma trim_end_zeros_empty f : all_digits f = true →
  str_is_empty (trim_end_zeros f) = true ↔ sval f = 0.
Proof.
  intros Hf. rewrite str_is_empty_true. split.
  - intros E. destruct (trim_end_zeros_spec (slen f) f Hf ltac:(lia)) as (_ & _ & Hv).
    rewrite E, Z.sub_diag in Hv. change (sval EmptyString) with 0 in Hv. lia.
  - intros E. change EmptyString with (trim_end_zeros EmptyString).
    apply (trim_end_zeros_unique (String.length f)); try done; [unfold slen; simpl; lia|].
    rewrite E. done.
Qed.

Lemma fraction_is_zero a i f : amount_wf a → decimal_digits a = (i, f) →
  sval f = 0 ↔ (10 ^ scale a | mantissa a).
Proof.
  intros Hw E. pose proof (decimal_digits_spec _ _ _ Hw E) as (_ & F & L & _ & ->).
  pose proof (sval_bound f F) as Hb. rewrite L in Hb. split.
  - intros ->. exists (sval i). lia.
  - intros [k Hk]. assert (E2 : sval f = (k - sval i) * 10 ^ scale a) by lia.
    assert (k - sval i = 0 ∨ k - sval i < 0 ∨ 1 ≤ k - sval i) as [E0|[?|?]] by lia;
      [rewrite E2, E0; lia|nia|nia].
Qed.

(** ** Properties *)

(** C2: comparison, equality and [min] of amounts are those of the numbers they
    denote, whatever the two scales are: the digit-string comparison of [Ord::cmp]
    agrees with the numeric order on all well-formed amounts, so no pair of
    mantissas, however large, is misordered. *)
Theorem amount_order_by_value (a b : Amount) : amount_wf a → amount_wf b →
  amount_cmp a b = (aval a ?= aval b) ∧
  (amount_eqb a b = true ↔ aval a = aval b) ∧
  aval (amount_min a b) = Z.min (aval a) (aval b).
Proof.
  intros Ha Hb. split; [by apply amount_cmp_spec|].
  split; [by apply amount_eqb_spec | by apply amount_min_spec].
Qed.

Lemma amount_order_by_value_witness :
  amount_cmp (mkAmount 12 1) (mkAmount 120 2) = Eq ∧
  amount_cmp (mkAmount U128_MAX 18) (mkAmount U128_MAX 0) = Lt.
Proof.
  split.
  - rewrite (proj1 (amount_order_by_value (mkAmount 12 1) (mkAmount 120 2)
      ltac:(by vm_compute) ltac:(by vm_compute))). reflexivity.
  - rewrite (proj1 (amount_order_by_value (mkAmount U128_MAX 18) (mkAmount U128_MAX 0)
      ltac:(by vm_compute) ltac:(by vm_compute))). reflexivity.
Defined.

(** C3: [checked_add] and [checked_sub] are exact.  A result is well formed, carries
    the larger of the two scales and denotes exactly the sum or the difference.  An
    addition returns [None] exactly when the sum does not fit a [u128] mantissa at the
    larger scale.  A subtraction returns [None] exactly when the difference is negative
    or the minuend itself does not fit a [u128] mantissa at the larger scale, in which
    case it is refused even where the difference would fit. *)
Theorem amount_arith_exact (a b : Amount) : amount_wf a → amount_wf b →
  let s := Z.max (scale a) (scale b) in
  (∀ r, checked_add a b = Some r →
     amount_wf r ∧ scale r = s ∧ aval r = aval a + aval b) ∧
  (checked_add a b = None ↔ U128_MAX * 10 ^ (MAX_SCALE - s) < aval a + aval b) ∧
  (∀ r, checked_sub a b = Some r →
     amount_wf r ∧ scale r = s ∧ aval r = aval a - aval b) ∧
  (checked_sub a b = None ↔
     aval a < aval b ∨ U128_MAX * 10 ^ (MAX_SCALE - s) < aval a).
Proof.
  intros Ha Hb s. split; [|split; [by apply checked_add_None|split; [|by apply checked_sub_None]]].
  - intros r E. pose proof (checked_add_spec a b Ha Hb) as H. by rewrite E in H.
  - intros r E. pose proof (checked_sub_spec a b Ha Hb) as H. by rewrite E in H.
Qed.

Lemma amount_arith_exact_witness :
  aval (mkAmount 225 2) = aval (mkAmount 12 1) + aval (mkAmount 105 2) ∧
  checked_add (mkAmount U128_MAX 0) (mkAmount 1 0) = None ∧
  aval (mkAmount 15 2) = aval (mkAmount 12 1) - aval (mkAmount 105 2) ∧
  checked_sub (mkAmount 34028236692093846346337460743176821146 0) (mkAmount 100 1) = None.
Proof.
  destruct (amount_arith_exact (mkAmount 12 1) (mkAmount 105 2)
    ltac:(by vm_compute) ltac:(by vm_compute)) as (H1 & _ & H2 & _).
  split; [apply (H1 (mkAmount 225 2)); reflexivity|].
  split; [apply (amount_arith_exact (mkAmount U128_MAX 0) (mkAmount 1 0)); by vm_compute|].
  split; [apply (H2 (mkAmount 15 2)); reflexivity|].
  apply (amount_arith_exact (mkAmount 34028236692093846346337460743176821146 0)
    (mkAmount 100 1)); [by vm_compute | by vm_compute | right; by vm_compute].
Defined.

(** The canonical string identifies the value.  Two well-formed amounts print
    the same string exactly when they denote the same number, across scales. *)
Theorem canonical_string_iff_value (a b : Amount) : amount_wf a → amount_wf b →
  to_canonical_string a = to_canonical_string b ↔ aval a = aval b.
Proof. apply canonical_string_eq. Qed.

Lemma canonical_string_iff_value_witness :
  to_canonical_string (mkAmount 1255 1) = to_canonical_string (mkAmount 125500 3) ∧
  to_canonical_string (mkAmount 125500 3) = "125.5".
Proof.
  split; [|reflexivity].
  apply (canonical_string_iff_value (mkAmount 1255 1) (mkAmount 125500 3));
    by vm_compute.
Defined.

(** The wire round trip.  Reading back the serialized form of a well-formed
    amount gives the same value, at scale 0, when the amount is a whole number, and
    is an error when it has a fraction: fractional amounts do not survive the wire
    form. *)
Theorem wire_roundtrip (a : Amount) : amount_wf a →
  match deserialize (serialize a) with
  | Ok b => (10 ^ scale a | mantissa a) ∧ amount_wf b ∧ scale b = 0 ∧ aval b = aval a
  | Err _ => ¬ (10 ^ scale a | mantissa a)
  end.
Proof.
  intros Hw. destruct (decimal_digits a) as [i f] eqn:E.
  unfold deserialize, serialize. rewrite (to_canonical_string_split _ _ _ Hw E).
  destruct (aval_split _ _ _ Hw E) as [Hv _]. pose proof (fraction_is_zero _ _ _ Hw E) as Hz.
  apply decimal_digits_spec in E as (I1 & F1 & L & C & M); [|done].
  pose proof (trim_end_zeros_empty f F1) as He. unfold format_fixed.
  destruct (str_is_empty (trim_end_zeros f)) eqn:Em.
  - assert (sval f = 0) as F0 by tauto. destruct Hw as [[H0 H1] Hs].
    pose proof (sval_bound i I1) as Bi. pose proof (pow10_pos (scale a) ltac:(lia)).
    assert (sval i ≤ U128_MAX) by nia.
    destruct (canonical_int_length i I1 C ltac:(done)) as [Hne Hl].
    rewrite try_from_str_digits by done.
    split; [tauto|]. split; [split; cbn; unfold in_u128, MAX_SCALE; lia|].
    split; [done|]. rewrite Hv, F0. unfold aval; cbn [mantissa scale]. rewrite Z.sub_0_r. lia.
  - destruct (try_from_str_rejects (i +:+ "." +:+ trim_end_zeros f)) as [e ->].
    { rewrite str_all_app. simpl. by rewrite andb_false_r. }
    intros Hdiv%Hz%He. done.
Qed.

Lemma wire_roundtrip_witness :
  match deserialize (serialize (mkAmount 125000 3)) with
  | Ok b => (10 ^ 3 | 125000) ∧ amount_wf b ∧ scale b = 0 ∧ aval b = aval (mkAmount 125000 3)
  | Err _ => ¬ (10 ^ 3 | 125000)
  end ∧ ¬ (10 ^ 2 | 135).
Proof.
  split; [exact (wire_roundtrip (mkAmount 125000 3) ltac:(by vm_compute))|].
  exact (wire_roundtrip (mkAmount 135 2) ltac:(by vm_compute)).
Defined.

(** [try_from_str] accepts exactly the non-empty strings of at most 39 ASCII
    digits whose value fits a [u128], and returns that value at scale 0. *)
Theorem try_from_str_accepts (text : string) (a : Amount) :
  try_from_str text = Ok a ↔
    text ≠ EmptyString ∧ all_digits text = true ∧ slen text ≤ MAX_MANTISSA_DIGITS ∧
    sval text ≤ U128_MAX ∧ a = mkAmount (sval text) 0.
Proof.
  split.
  - intros H. destruct (str_all is_ascii_digit text) eqn:Hd;
      [|destruct (try_from_str_rejects text Hd); congruence].
    unfold try_from_str in H. fold (slen text) in H.
    destruct (Z.ltb_spec MAX_MANTISSA_DIGITS (slen text)); [done|].
    destruct text as [|c text]; [done|]. cbn [str_is_empty] in H. rewrite Hd in H. cbn [negb] in H.
    rewrite parse_digits_spec in H by (done || (unfold U128_MAX; lia)).
    change (dval 0 ?s) with (sval s) in H.
    destruct (Z.leb_spec (sval (String c text)) U128_MAX); [|done]. by injection H as <-.
  - intros (? & ? & ? & ? & ->). by apply try_from_str_digits.
Qed.
