(* ===== verification/RateLimit.v ===== *)
(** * Token-bucket rate limiting

    Models [crates/statechronicle-core/src/rate_limit.rs].  A bucket is its
    configuration and the pair the mutex guards; a call returns the decision and the
    bucket it leaves behind.  A poisoned mutex, the error side of [lock()], is a
    flag of the bucket or limiter. *)

From Stdlib Require Import ZArith Lia String.
From stdpp Require Import prelude gmap strings.
From S2P Require Import Prelude.
Open Scope Z_scope.

Definition MAX_QUOTA_KEY_BYTES : Z := 512.

Record RateLimitDecision := mkDecision {
  allowed : bool;
  remaining : Z;
  retry_after_ms : Z;
}.

(** [tokens] and [last_ms] are the two halves of [state: Mutex<(u64, u64)>]. *)
Record TokenBucket := mkBucket {
  capacity : Z;
  refill_per_second : Z;
  tokens : Z;
  last_ms : Z;
  poisoned : bool;
}.

Definition set_state (b : TokenBucket) (st : Z * Z) : TokenBucket :=
  mkBucket (capacity b) (refill_per_second b) st.1 st.2 (poisoned b).

(** [TokenBucket::new]. *)
Definition bucket_new (cap refill : Z) : TokenBucket :=
  let cap := Z.max cap 1 in mkBucket cap (Z.max refill 1) cap 0 false.

(** The tokens earned since [last]. *)
Definition refill_amount (now last refill : Z) : Z :=
  div_or_u64 (saturating_mul_u64 (saturating_sub_u64 now last) refill) 1000 U64_MAX.

Definition refill_state (st : Z * Z) (now refill cap : Z) : Z * Z :=
  let r := refill_amount now st.2 refill in
  if 0 <? r then (Z.min (saturating_add_u64 st.1 r) cap, now) else st.

(** Milliseconds until a deficit of [n - have] tokens is made up. *)
Definition retry_for (n have refill : Z) : Z :=
  div_or_u64
    (saturating_add_u64 (saturating_mul_u64 (saturating_sub_u64 n have) 1000)
       (saturating_sub_u64 refill 1))
    refill 1000.

Definition denied_closed : RateLimitDecision := mkDecision false 0 1000.

Definition available (b : TokenBucket) (now : Z) : Z :=
  if poisoned b then 0
  else Z.min (saturating_add_u64 (tokens b)
                (refill_amount now (last_ms b) (refill_per_second b))) (capacity b).

(** [TokenBucket::try_acquire_n]. *)
Definition bucket_acquire (b : TokenBucket) (now n : Z) : RateLimitDecision * TokenBucket :=
  if n =? 0 then (mkDecision true (available b now) 0, b)
  else if capacity b <? n then (mkDecision false (capacity b) U64_MAX, b)
  else if poisoned b then (denied_closed, b)
  else
    let st := refill_state (tokens b, last_ms b) now (refill_per_second b) (capacity b) in
    if n <=? st.1 then
      let left := saturating_sub_u64 st.1 n in
      (mkDecision true left 0, set_state b (left, st.2))
    else (mkDecision false st.1 (retry_for n st.1 (refill_per_second b)), set_state b st).

(** [TokenBucket::try_acquire]. *)
Definition bucket_try_acquire (b : TokenBucket) (now : Z) := bucket_acquire b now 1.

Record KeyedRateLimiter := mkLimiter {
  l_capacity : Z;
  l_refill : Z;
  max_keys : Z;
  buckets : gmap string TokenBucket;
  l_poisoned : bool;
}.

Definition set_buckets (l : KeyedRateLimiter) (bs : gmap string TokenBucket) :=
  mkLimiter (l_capacity l) (l_refill l) (max_keys l) bs (l_poisoned l).

(** [KeyedRateLimiter::new]. *)
Definition limiter_new (cap refill keys : Z) : KeyedRateLimiter :=
  mkLimiter (Z.max cap 1) (Z.max refill 1) (Z.max keys 1) ∅ false.

Definition key_rejected (key : string) : bool :=
  str_is_empty key || (MAX_QUOTA_KEY_BYTES <? Z.of_nat (String.length key)).

Definition key_len (l : KeyedRateLimiter) : Z := Z.of_nat (size (buckets l)).

(** [KeyedRateLimiter::key_count]. *)
Definition key_count (l : KeyedRateLimiter) : Z := if l_poisoned l then 0 else key_len l.

(** [KeyedRateLimiter::try_acquire_n]. *)
Definition limiter_acquire (l : KeyedRateLimiter) (key : string) (now n : Z)
    : RateLimitDecision * KeyedRateLimiter :=
  if key_rejected key then (denied_closed, l)
  else if n =? 0 then (mkDecision true (l_capacity l) 0, l)
  else if l_capacity l <? n then (mkDecision false (l_capacity l) U64_MAX, l)
  else if l_poisoned l then (denied_closed, l)
  else
    let fresh := match buckets l !! key with None => true | Some _ => false end in
    if fresh && (max_keys l <=? key_len l) then (denied_closed, l)
    else
      let bs := if fresh then <[key := bucket_new (l_capacity l) (l_refill l)]> (buckets l)
                else buckets l in
      match bs !! key with
      | None => (denied_closed, set_buckets l bs)
      | Some b =>
          let (d, b') := bucket_acquire b now n in (d, set_buckets l (<[key := b']> bs))
      end.

(** [entry(key).or_insert_with(..)] for every key. *)
Definition ensure_buckets (cap refill : Z) (keys : list string) (bs : gmap string TokenBucket) :=
  foldl (fun bs key =>
    match bs !! key with Some _ => bs | None => <[key := bucket_new cap refill]> bs end) bs keys.

(** The preflight loop: refill every bucket, and track the smallest balance and the
    longest wait.  [None] is an early return. *)
Fixpoint preflight (l : KeyedRateLimiter) (now n : Z) (keys : list string)
    (bs : gmap string TokenBucket) (min_rem max_retry : Z)
    : gmap string TokenBucket * option (Z * Z) :=
  match keys with
  | [] => (bs, Some (min_rem, max_retry))
  | key :: keys' =>
      match bs !! key with
      | None => (bs, None)
      | Some b =>
          if poisoned b then (bs, None)
          else
            let st := refill_state (tokens b, last_ms b) now (l_refill l) (l_capacity l) in
            preflight l now n keys' (<[key := set_state b st]> bs)
              (Z.min min_rem st.1)
              (if st.1 <? n then Z.max max_retry (retry_for n st.1 (l_refill l)) else max_retry)
      end
  end.

(** The consume loop. *)
Definition consume_all (n : Z) (keys : list string) (bs : gmap string TokenBucket) :=
  foldl (fun bs key =>
    match bs !! key with
    | Some b =>
        if poisoned b then bs
        else <[key := set_state b (saturating_sub_u64 (tokens b) n, last_ms b)]> bs
    | None => bs
    end) bs keys.

Definition count_new (bs : gmap string TokenBucket) (keys : list string) : Z :=
  Z.of_nat (length (List.filter (fun k => match bs !! k with None => true | Some _ => false end) keys)).

Definition try_acquire_many (l : KeyedRateLimiter) (keys : list string) (now n : Z)
    : RateLimitDecision * KeyedRateLimiter :=
  if match keys with [] => true | _ => false end || existsb key_rejected keys
  then (denied_closed, l)
  else if n =? 0 then (mkDecision true (l_capacity l) 0, l)
  else if l_capacity l <? n then (mkDecision false (l_capacity l) U64_MAX, l)
  else
    let unique := bset_of_list keys in
    if l_poisoned l then (denied_closed, l)
    else if max_keys l <? key_len l + count_new (buckets l) unique then (denied_closed, l)
    else
      let bs := ensure_buckets (l_capacity l) (l_refill l) unique (buckets l) in
      match preflight l now n unique bs U64_MAX 0 with
      | (bs1, None) => (denied_closed, set_buckets l bs1)
      | (bs1, Some (min_rem, max_retry)) =>
          if negb (max_retry =? 0) then (mkDecision false min_rem max_retry, set_buckets l bs1)
          else (mkDecision true (saturating_sub_u64 min_rem n) 0,
                set_buckets l (consume_all n unique bs1))
      end.

(** ** Invariants *)

Definition bucket_wf (b : TokenBucket) : Prop :=
  1 ≤ capacity b ≤ U64_MAX ∧ 1 ≤ refill_per_second b ≤ U64_MAX ∧
  0 ≤ tokens b ≤ capacity b ∧ 0 ≤ last_ms b.

(** Every bucket of a limiter is well formed and carries the limiter's rate, and
    there are at most [max_keys] of them. *)
Definition bucket_of (l : KeyedRateLimiter) (b : TokenBucket) : Prop :=
  bucket_wf b ∧ capacity b = l_capacity l ∧ refill_per_second b = l_refill l.

Definition limiter_wf (l : KeyedRateLimiter) : Prop :=
  1 ≤ l_capacity l ≤ U64_MAX ∧ 1 ≤ l_refill l ≤ U64_MAX ∧
  map_Forall (fun _ b => bucket_of l b) (buckets l) ∧ key_len l ≤ max_keys l.

Ltac unfold_sat :=
  unfold saturating_add_u64, saturating_sub_u64, saturating_mul_u64, div_or_u64 in *.

Lemma refill_amount_bound now last refill : 0 ≤ now → 0 ≤ last → 1 ≤ refill →
  0 ≤ refill_amount now last refill ∧
  1000 * refill_amount now last refill ≤ refill * Z.max 0 (now - last).
Proof.
  intros. unfold refill_amount, div_or_u64. simpl. unfold_sat.
  set (x := Z.min _ U64_MAX).
  assert (0 ≤ x ≤ Z.max (now - last) 0 * refill) as Hx by (unfold x, U64_MAX; nia).
  pose proof (Z.mul_div_le x 1000 ltac:(lia)). pose proof (Z.div_pos x 1000 ltac:(lia) ltac:(lia)). nia.
Qed.

(** Refilling earns at most [refill] tokens per second and never overflows the
    bucket. *)
Lemma refill_state_spec t l now refill cap :
  0 ≤ t ≤ cap → cap ≤ U64_MAX → 0 ≤ now → 0 ≤ l → 1 ≤ refill →
  let st := refill_state (t, l) now refill cap in
  t ≤ st.1 ≤ cap ∧ l ≤ st.2 ≤ Z.max l now ∧ 1000 * (st.1 - t) ≤ refill * (st.2 - l).
Proof.
  intros Ht Hc Hn Hl Hr. unfold refill_state; cbn [fst snd].
  destruct (refill_amount_bound now l refill Hn Hl Hr) as [H0 H1].
  destruct (Z.ltb_spec 0 (refill_amount now l refill)); cbn [fst snd]; [|nia].
  unfold_sat. nia.
Qed.

Lemma retry_for_pos n have refill : have < n → 1 ≤ refill ≤ U64_MAX → 1 ≤ retry_for n have refill.
Proof.
  intros. unfold retry_for, div_or_u64. destruct (Z.eqb_spec refill 0); [lia|].
  apply Z.div_le_lower_bound; [lia|]. unfold_sat. unfold U64_MAX in *. lia.
Qed.

Lemma bucket_new_wf cap refill : cap ≤ U64_MAX → refill ≤ U64_MAX → bucket_wf (bucket_new cap refill).
Proof. unfold bucket_wf, bucket_new, U64_MAX; simpl. lia. Qed.

Lemma set_state_wf b t l : bucket_wf b → 0 ≤ t ≤ capacity b → 0 ≤ l → bucket_wf (set_state b (t, l)).
Proof. unfold bucket_wf; simpl. lia. Qed.

(** What one call does: it earns at most the refill rate, charges [n] exactly when
    it is allowed, and keeps the bucket's configuration. *)
Lemma bucket_acquire_spec b now n d b' :
  bucket_wf b → 0 ≤ now → 0 ≤ n → bucket_acquire b now n = (d, b') →
  bucket_wf b' ∧ capacity b' = capacity b ∧ refill_per_second b' = refill_per_second b ∧
  last_ms b ≤ last_ms b' ≤ Z.max (last_ms b) now ∧
  1000 * (tokens b' + (if allowed d then n else 0) - tokens b)
    ≤ refill_per_second b * (last_ms b' - last_ms b).
Proof.
  intros Hw Hnow Hn E. unfold bucket_acquire in E. pose proof Hw as (Hc & Hr & Ht & Hl).
  destruct (Z.eqb_spec n 0); [simplify_eq/=; split; [done|lia]|].
  destruct (Z.ltb_spec (capacity b) n); [simplify_eq/=; split; [done|lia]|].
  destruct (poisoned b); [simplify_eq/=; split; [done|lia]|].
  pose proof (refill_state_spec (tokens b) (last_ms b) now (refill_per_second b) (capacity b)
    Ht ltac:(lia) Hnow Hl ltac:(lia)) as (H1 & H2 & H3).
  destruct (refill_state _ _ _ _) as [t l]; cbn [fst snd] in *.
  destruct (Z.leb_spec n t); simplify_eq/=; unfold_sat;
    (split; [apply set_state_wf; lia || done|]); lia.
Qed.

(** ** Multi-dimension acquisition, loop by loop *)

Definition refilled (l : KeyedRateLimiter) (now : Z) (b : TokenBucket) : TokenBucket :=
  set_state b (refill_state (tokens b, last_ms b) now (l_refill l) (l_capacity l)).

Definition charge (n : Z) (b : TokenBucket) : TokenBucket :=
  if poisoned b then b else set_state b (saturating_sub_u64 (tokens b) n, last_ms b).

Lemma ensure_buckets_lookup cap refill keys bs k :
  ensure_buckets cap refill keys bs !! k =
    match bs !! k with
    | Some b => Some b
    | None => if decide (k ∈ keys) then Some (bucket_new cap refill) else None
    end.
Proof.
  unfold ensure_buckets. revert bs. induction keys as [|x keys IH]; intros bs; cbn [foldl].
  { case_match; [done|]. by rewrite decide_False by set_solver. }
  rewrite IH. destruct (bs !! x) as [b|] eqn:Ex.
  - destruct (bs !! k) eqn:Ek; [done|]. apply decide_ext. set_solver.
  - destruct (decide (k = x)) as [->|Hne].
    + rewrite lookup_insert_eq, Ex. by rewrite decide_True by set_solver.
    + rewrite lookup_insert_ne by done. destruct (bs !! k); [done|]. apply decide_ext. set_solver.
Qed.

Lemma ensure_buckets_size cap refill keys bs : NoDup keys →
  Z.of_nat (size (ensure_buckets cap refill keys bs)) = Z.of_nat (size bs) + count_new bs keys.
Proof.
  unfold ensure_buckets, count_new. revert bs.
  induction keys as [|x keys IH]; intros bs Hnd; cbn [foldl List.filter length]; [lia|].
  apply NoDup_cons in Hnd as [Hx Hnd]. rewrite IH by done.
  destruct (bs !! x) as [b|] eqn:Ex; [done|]. rewrite map_size_insert_None by done.
  rewrite (List.filter_ext_in _ (fun k => match bs !! k with None => true | Some _ => false end)).
  { cbn [length]. lia. }
  intros k Hk%list_elem_of_In. by rewrite lookup_insert_ne by congruence.
Qed.

Lemma consume_all_lookup n keys bs k : NoDup keys →
  consume_all n keys bs !! k = if decide (k ∈ keys) then charge n <$> bs !! k else bs !! k.
Proof.
  unfold consume_all, charge. revert bs.
  induction keys as [|x keys IH]; intros bs Hnd; cbn [foldl]; [done|].
  apply NoDup_cons in Hnd as [Hx Hnd]. rewrite IH by done.
  destruct (decide (k = x)) as [->|Hne].
  - rewrite decide_False by done. rewrite decide_True by set_solver.
    destruct (bs !! x) as [b|] eqn:Ex; [|done]. simpl.
    destruct (poisoned b); [done|]. by rewrite lookup_insert_eq.
  - rewrite (decide_ext (k ∈ x :: keys) (k ∈ keys)) by set_solver.
    destruct (bs !! x) as [b|]; [|done].
    destruct (poisoned b); [done|]. by rewrite lookup_insert_ne.
Qed.

(** The preflight only ever refills the buckets it visits; if it completes, it has
    refilled all of them, and no wait is recorded exactly when each can pay. *)
Lemma preflight_spec l now n keys bs mr xr bs1 r :
  NoDup keys → 1 ≤ l_refill l ≤ U64_MAX → 0 ≤ xr →
  (∀ k, k ∈ keys → is_Some (bs !! k)) →
  preflight l now n keys bs mr xr = (bs1, r) →
  (∀ k, k ∉ keys → bs1 !! k = bs !! k) ∧
  (∀ k b, k ∈ keys → bs !! k = Some b → bs1 !! k = Some b ∨ bs1 !! k = Some (refilled l now b)) ∧
  (∀ mr' xr', r = Some (mr', xr') →
     (∀ k b, k ∈ keys → bs !! k = Some b →
        poisoned b = false ∧ bs1 !! k = Some (refilled l now b)) ∧
     0 ≤ xr' ∧
     (xr' = 0 ↔ xr = 0 ∧
        ∀ k b, k ∈ keys → bs !! k = Some b → n ≤ tokens (refilled l now b))).
Proof.
  intros Hnd Hr. revert bs mr xr. induction keys as [|x keys IH]; intros bs mr xr Hx Hdom E; cbn [preflight] in E.
  { simplify_eq. split; [done|]. split; [set_solver|]. intros ? ? [= -> ->].
    split; [set_solver|]. split; [done|]. set_solver. }
  apply NoDup_cons in Hnd as [Hnin Hnd].
  destruct (Hdom x ltac:(set_solver)) as [b Hb]. rewrite Hb in E.
  destruct (poisoned b) eqn:Hp.
  { simplify_eq. split; [done|]. split; [naive_solver|done]. }
  fold (refilled l now b) in E.
  change (refill_state _ _ _ _).1 with (tokens (refilled l now b)) in E.
  apply IH in E as (H1 & H2 & H3); clear IH; [|done| |].
  2: { destruct (_ <? _); [|done]. lia. }
  2: { intros k Hk. rewrite lookup_insert_ne by set_solver. apply Hdom. set_solver. }
  assert (Hx1 : bs1 !! x = Some (refilled l now b)) by (rewrite H1 by done; apply lookup_insert_eq).
  split; [intros k Hk; rewrite H1, lookup_insert_ne by set_solver; done|]. split.
  - intros k b0 [->|Hk]%elem_of_cons Hb0; [naive_solver|].
    apply H2; [done|]. rewrite lookup_insert_ne by set_solver. done.
  - intros mr' xr' Hr'. destruct (H3 _ _ Hr') as (G1 & G2 & G3). split; [|split; [done|]].
    + intros k b0 [->|Hk]%elem_of_cons Hb0; [naive_solver|].
      apply G1; [done|]. rewrite lookup_insert_ne by set_solver. done.
    + rewrite G3. split.
      * intros [Hz Ha]. destruct (Z.ltb_spec (tokens (refilled l now b)) n) as [Hlt|Hge].
        { pose proof (retry_for_pos n (tokens (refilled l now b)) (l_refill l) Hlt Hr). lia. }
        split; [done|]. intros k b0 [->|Hk]%elem_of_cons Hb0; [naive_solver|].
        apply (Ha k b0 Hk). rewrite lookup_insert_ne by set_solver. done.
      * intros [-> Ha]. pose proof (Ha x b ltac:(set_solver) Hb).
        destruct (Z.ltb_spec (tokens (refilled l now b)) n); [lia|]. split; [done|].
        intros k b0 Hk Hb0. rewrite lookup_insert_ne in Hb0 by set_solver.
        apply (Ha k b0); [set_solver|done].
Qed.

(** ** Limiter operations *)

(** The bucket a key has, or would be given. *)
Definition bucket_at (l : KeyedRateLimiter) (k : string) : TokenBucket :=
  default (bucket_new (l_capacity l) (l_refill l)) (buckets l !! k).

Lemma bucket_new_of l : limiter_wf l → bucket_of l (bucket_new (l_capacity l) (l_refill l)).
Proof.
  intros (Hc & Hr & _). split; [apply bucket_new_wf; lia|]. unfold bucket_new; simpl. lia.
Qed.

Lemma bucket_at_of l k : limiter_wf l → bucket_of l (bucket_at l k).
Proof.
  intros Hw. unfold bucket_at. destruct (buckets l !! k) as [b|] eqn:E; simpl.
  - by apply Hw in E.
  - by apply bucket_new_of.
Qed.

Lemma refilled_of l now b : bucket_of l b → 0 ≤ now → bucket_of l (refilled l now b).
Proof.
  intros (Hw & Hc & Hr) Hnow. unfold refilled. pose proof Hw as (H1 & H2 & H3 & H4).
  pose proof (refill_state_spec (tokens b) (last_ms b) now (l_refill l) (l_capacity l)
    ltac:(lia) ltac:(lia) Hnow H4 ltac:(lia)) as (G1 & G2 & _).
  destruct (refill_state _ _ _ _) as [t lm]; cbn [fst snd] in *.
  split; [|done]. apply set_state_wf; [done|lia|lia].
Qed.

Lemma charge_of l n b : bucket_of l b → 0 ≤ n → bucket_of l (charge n b).
Proof.
  intros (Hw & Hc & Hr) Hn. unfold charge. destruct (poisoned b); [done|].
  split; [|done]. pose proof Hw as (H1 & H2 & H3 & H4). apply set_state_wf; [done| |lia].
  unfold_sat. lia.
Qed.

Lemma same_keys_size (m1 m2 : gmap string TokenBucket) :
  (∀ k, is_Some (m1 !! k) ↔ is_Some (m2 !! k)) → size m1 = size m2.
Proof.
  intros H. rewrite <- !size_dom. f_equal. apply leibniz_equiv. intros k. by rewrite !elem_of_dom.
Qed.

Lemma consume_all_size n u bs : NoDup u → size (consume_all n u bs) = size bs.
Proof.
  intros Hnd. apply same_keys_size. intros k. rewrite consume_all_lookup by done.
  destruct (decide (k ∈ u)); [|done]. by rewrite fmap_is_Some.
Qed.

(** The ensured map holds every key's bucket and nothing else new. *)
Lemma ensure_buckets_at l u :
  let bs := ensure_buckets (l_capacity l) (l_refill l) u (buckets l) in
  (∀ k, k ∈ u → bs !! k = Some (bucket_at l k)) ∧ (∀ k, k ∉ u → bs !! k = buckets l !! k).
Proof.
  split; intros k Hk; rewrite ensure_buckets_lookup; unfold bucket_at;
    destruct (buckets l !! k); try done; [by rewrite decide_True | by rewrite decide_False].
Qed.

Lemma preflight_size l now n u bs mr bs1 r : NoDup u → 1 ≤ l_refill l ≤ U64_MAX →
  (∀ k, k ∈ u → bs !! k = Some (bucket_at l k)) →
  preflight l now n u bs mr 0 = (bs1, r) → size bs1 = size bs.
Proof.
  intros Hnd Hr Hat Ep. apply same_keys_size.
  destruct (preflight_spec l now n u bs mr 0 bs1 r Hnd Hr ltac:(lia)
    ltac:(intros k Hk; rewrite Hat; eauto) Ep) as (P1 & P2 & _).
  intros k. destruct (decide (k ∈ u)) as [Hk|Hk]; [|by rewrite P1].
  destruct (P2 k (bucket_at l k) Hk (Hat k Hk)) as [-> | ->]; rewrite (Hat k Hk); by split.
Qed.

(** What the completed map of a [try_acquire_many] call holds, key by key. *)
Lemma try_acquire_many_lookup l keys now n d l' :
  limiter_wf l → 0 ≤ n → try_acquire_many l keys now n = (d, l') →
  (l' = l ∧ (allowed d = true → n = 0)) ∨
  (l' = set_buckets l (buckets l') ∧ key_len l' ≤ max_keys l ∧
   ∀ k,
     (k ∉ keys → buckets l' !! k = buckets l !! k) ∧
     (k ∈ keys →
        let b := bucket_at l k in
        if allowed d
        then poisoned b = false ∧ n ≤ tokens (refilled l now b) ∧
             buckets l' !! k = Some (charge n (refilled l now b))
        else buckets l' !! k = Some b ∨ buckets l' !! k = Some (refilled l now b))).
Proof.
  intros Hw Hn E. unfold try_acquire_many in E.
  destruct (_ || _); [left; by simplify_eq|].
  destruct (Z.eqb_spec n 0); [left; by simplify_eq|].
  destruct (Z.ltb_spec (l_capacity l) n); [left; by simplify_eq|].
  destruct (l_poisoned l); [left; by simplify_eq|].
  pose proof (bset_of_list_elem) as Hel. pose proof (bset_of_list_NoDup keys) as Hnd.
  specialize (fun x => Hel x keys). set (u := bset_of_list keys) in *. clearbody u.
  destruct (Z.ltb_spec (max_keys l) (key_len l + count_new (buckets l) u));
    [left; by simplify_eq|]. right.
  pose proof (ensure_buckets_size (l_capacity l) (l_refill l) u (buckets l) Hnd) as Hes.
  destruct (ensure_buckets_at l u) as [Hat Hout].
  set (bs := ensure_buckets _ _ u _) in *. clearbody bs.
  destruct (preflight l now n u bs U64_MAX 0) as [bs1 r] eqn:Ep.
  pose proof (preflight_size _ _ _ _ _ _ _ _ Hnd (proj1 (proj2 Hw)) Hat Ep) as Hs1.
  destruct (preflight_spec l now n u bs U64_MAX 0 bs1 r Hnd (proj1 (proj2 Hw)) ltac:(lia)
    ltac:(intros k Hk; rewrite Hat; eauto) Ep) as (P1 & P2 & P3).
  assert (Hden : key_len (set_buckets l bs1) ≤ max_keys l ∧ ∀ k,
    (k ∉ keys → bs1 !! k = buckets l !! k) ∧
    (k ∈ keys → bs1 !! k = Some (bucket_at l k) ∨ bs1 !! k = Some (refilled l now (bucket_at l k)))).
  { split; [unfold key_len in *; cbn; lia|].
    intros k. rewrite <- Hel. split; intros Hk; [rewrite P1; auto | apply P2; auto]. }
  destruct r as [[mr xr]|]; [|by simplify_eq/=].
  destruct (P3 mr xr eq_refl) as (G1 & G2 & G3).
  destruct (Z.eqb_spec xr 0) as [Ez|Ez]; [|by simplify_eq/=]. simplify_eq/=.
  split; [done|]. split; [unfold key_len in *; cbn; rewrite consume_all_size by done; lia|].
  intros k. rewrite consume_all_lookup, <- Hel by done. split; intros Hk.
  { rewrite decide_False, P1 by done. auto. }
  rewrite decide_True by done. destruct (G1 k _ Hk (Hat k Hk)) as [-> ->].
  split; [done|]. split; [|done]. apply (proj2 (proj1 G3 eq_refl) k _ Hk). auto.
Qed.

Lemma limiter_new_wf cap refill keys : cap ≤ U64_MAX → refill ≤ U64_MAX → limiter_wf (limiter_new cap refill keys).
Proof.
  intros. unfold limiter_wf, limiter_new, key_len, U64_MAX in *; cbn.
  split; [lia|]. split; [lia|]. split; [apply map_Forall_empty|]. rewrite map_size_empty. lia.
Qed.

Lemma try_acquire_many_wf l keys now n :
  limiter_wf l → 0 ≤ now → 0 ≤ n → limiter_wf (try_acquire_many l keys now n).2.
Proof.
  intros Hw Hnow Hn.
  destruct (try_acquire_many l keys now n) as [d l'] eqn:E. cbn [snd].
  pose proof Hw as (W1 & W2 & W3 & W4).
  apply try_acquire_many_lookup in E as [[-> _]|(El & Hsz & Hk)]; [done| |done|done].
  rewrite El. split; [done|]. split; [done|]. split; [|exact Hsz].
  cbn. intros k b Hb. specialize (Hk k) as [Hout Hin].
  destruct (decide (k ∈ keys)) as [Hi|Hi]; [|rewrite Hout in Hb by done; by apply W3 in Hb].
  specialize (Hin Hi). cbn zeta in Hin. pose proof (bucket_at_of l k Hw) as Hof.
  change (bucket_of (set_buckets l (buckets l')) b) with (bucket_of l b).
  destruct (allowed d).
  + destruct Hin as (_ & _ & Hin). simplify_eq. apply charge_of; [by apply refilled_of|done].
  + destruct Hin as [Hin|Hin]; simplify_eq; [done|]. by apply refilled_of.
Qed.

(** ** Properties *)

(** The total a sequence of calls [(now, n)] is granted, and the bucket it leaves. *)
Fixpoint run_bucket (b : TokenBucket) (calls : list (Z * Z)) : Z * TokenBucket :=
  match calls with
  | [] => (0, b)
  | (now, n) :: calls' =>
      let (d, b') := bucket_acquire b now n in
      let (g, b'') := run_bucket b' calls' in
      ((if allowed d then n else 0) + g, b'')
  end.

(** C36: the rate bound.  Whatever the calls, their costs and the order of their
    timestamps up to [T], the tokens a bucket grants are at most the tokens it held
    plus what [refill_per_second] earns from its last refill to [T]. *)
Theorem bucket_rate_bound (b : TokenBucket) (calls : list (Z * Z)) (T : Z) :
  bucket_wf b → last_ms b ≤ T → Forall (fun c => 0 ≤ c.1 ≤ T ∧ 0 ≤ c.2) calls →
  1000 * (run_bucket b calls).1 ≤ 1000 * tokens b + refill_per_second b * (T - last_ms b).
Proof.
  intros Hw HT Hc. revert b Hw HT. induction Hc as [|[now n] calls [H1 H2] Hc IH]; intros b Hw HT; cbn [run_bucket].
  { destruct Hw as (? & ? & ? & ?). simpl. nia. }
  destruct (bucket_acquire b now n) as [d b'] eqn:E.
  apply bucket_acquire_spec in E as (Hw' & Hcap & Hr & Hl & Hb); [|done|simpl in *; lia..].
  specialize (IH b' Hw' ltac:(simpl in *; lia)).
  destruct (run_bucket b' calls) as [g b'']. simpl in *. rewrite Hr in IH.
  destruct Hw' as (? & ? & ? & ?). nia.
Qed.

Lemma bucket_rate_bound_witness :
  1000 * (run_bucket (bucket_new 5 2) [(0, 5); (100, 1); (3000, 4); (3000, 3)]).1
    ≤ 1000 * 5 + 2 * (3000 - 0)
  ∧ (run_bucket (bucket_new 5 2) [(0, 5); (100, 1); (3000, 4); (3000, 3)]).1 = 9.
Proof.
  split; [|reflexivity].
  apply (bucket_rate_bound (bucket_new 5 2) [(0, 5); (100, 1); (3000, 4); (3000, 3)] 3000);
    [vm_compute; intuition discriminate | vm_compute; discriminate |].
  repeat constructor; vm_compute; discriminate.
Defined.

(** C39: the retry hint is honest.  Take a well-formed bucket whose lock is not poisoned, a
    clock that has not run backwards and a request of [n] tokens the capacity could serve,
    with products that do not saturate.  When the bucket denies the request, the hint is at
    least one millisecond and the same request made that many milliseconds later is
    allowed: the hint is the time until all [n] tokens are there, where the field's comment
    speaks of the time until one token ([hint_is_for_all_tokens]). *)
Theorem retry_hint_honest (b b' : TokenBucket) (now n : Z) (d : RateLimitDecision) :
  bucket_wf b → poisoned b = false → last_ms b ≤ now → 0 < n ≤ capacity b →
  1000 * n + refill_per_second b ≤ U64_MAX →
  bucket_acquire b now n = (d, b') → allowed d = false →
  1 ≤ retry_after_ms d ∧
  (refill_per_second b * (now + retry_after_ms d) ≤ U64_MAX →
   allowed (bucket_acquire b' (now + retry_after_ms d) n).1 = true).
Proof.
  intros Hw Hp Hl Hn Hsat E Hd. pose proof Hw as (Hc & Hr & Ht & Hl0).
  unfold bucket_acquire in E. destruct (Z.eqb_spec n 0); [lia|].
  destruct (Z.ltb_spec (capacity b) n); [lia|]. rewrite Hp in E.
  pose proof (refill_state_spec (tokens b) (last_ms b) now (refill_per_second b) (capacity b)
    Ht ltac:(lia) ltac:(lia) Hl0 ltac:(lia)) as (H1 & H2 & _).
  destruct (refill_state _ _ _ _) as [t l]; cbn [fst snd] in *.
  destruct (Z.leb_spec n t); simplify_eq/=.
  split; [apply retry_for_pos; lia|]. intros Hns. unfold bucket_acquire; cbn.
  destruct (Z.eqb_spec n 0); [lia|]. destruct (Z.ltb_spec (capacity b) n); [lia|]. rewrite Hp.
  set (r := retry_for n t (refill_per_second b)) in *.
  assert (Hrr : 1000 * (n - t) ≤ refill_per_second b * r).
  { unfold r, retry_for, div_or_u64. destruct (Z.eqb_spec (refill_per_second b) 0); [lia|]. unfold_sat.
    rewrite !Z.min_l, !Z.max_l by lia.
    pose proof (Z.mul_succ_div_gt ((n - t) * 1000 + (refill_per_second b - 1)) (refill_per_second b)). nia. }
  assert (Hre : n - t ≤ refill_amount (now + r) l (refill_per_second b)).
  { unfold refill_amount, div_or_u64. simpl. unfold_sat.
    rewrite Z.max_l by nia. rewrite Z.min_l by nia. apply Z.div_le_lower_bound; nia. }
  unfold refill_state; cbn [fst snd].
  destruct (Z.ltb_spec 0 (refill_amount (now + r) l (refill_per_second b))); [|lia].
  assert (n ≤ Z.min (saturating_add_u64 t (refill_amount (now + r) l (refill_per_second b)))
    (capacity b)) as Hok%Z.leb_le by (unfold_sat; lia).
  cbn [fst snd]. by rewrite Hok.
Qed.

Lemma retry_hint_honest_witness :
  let b := mkBucket 5 2 1 1000 false in
  let d := (bucket_acquire b 1100 4).1 in
  allowed d = false ∧ retry_after_ms d = 1500 ∧
  allowed (bucket_acquire (bucket_acquire b 1100 4).2 (1100 + 1500) 4).1 = true.
Proof.
  split; [reflexivity|]. split; [reflexivity|].
  refine (proj2 (retry_hint_honest (mkBucket 5 2 1 1000 false)
    (bucket_acquire (mkBucket 5 2 1 1000 false) 1100 4).2 1100 4
    (bucket_acquire (mkBucket 5 2 1 1000 false) 1100 4).1 _ _ _ _ _ _ _) _);
    try reflexivity; vm_compute; intuition discriminate.
Defined.

(** One token is expected after a second, and a request of three is told to wait for three:
    the hint is not the time until one token is expected, as the field's comment says. *)
Example hint_is_for_all_tokens :
  let b := mkBucket 5 1 0 1000 false in
  retry_after_ms (bucket_acquire b 1000 3).1 = 3000 ∧
  retry_after_ms (bucket_acquire b 1000 1).1 = 1000 ∧
  allowed (bucket_acquire b 2000 1).1 = true.
Proof. split_and!; vm_compute; reflexivity. Qed.

(** A multi-dimension charge is all or nothing.  If it is allowed (for a
    positive cost), every distinct key named was charged exactly once, from a
    refilled balance that covered the cost; if it is denied, no bucket lost a token:
    each is as it was, or only refilled.  Keys not named are untouched either way. *)
Theorem try_acquire_many_atomic (l l' : KeyedRateLimiter) (keys : list string)
    (now n : Z) (d : RateLimitDecision) (k : string) :
  limiter_wf l → 0 < n → try_acquire_many l keys now n = (d, l') →
  let b := bucket_at l k in
  (k ∉ keys → buckets l' !! k = buckets l !! k) ∧
  (k ∈ keys →
     if allowed d
     then n ≤ tokens (refilled l now b) ∧
          tokens (bucket_at l' k) = tokens (refilled l now b) - n
     else bucket_at l' k = b ∨ bucket_at l' k = refilled l now b).
Proof.
  intros Hw Hn E. apply try_acquire_many_lookup in E as [[-> Hd]|(El & _ & Hk)]; [| |done|lia].
  - split; [done|]. intros _. destruct (allowed d); [specialize (Hd eq_refl); lia|by left].
  - specialize (Hk k) as [Hout Hin]. split; [done|]. intros Hk. specialize (Hin Hk). cbn zeta in Hin.
    assert (Hat : ∀ b, buckets l' !! k = Some b → bucket_at l' k = b)
      by (intros b Hb; unfold bucket_at at 1; by rewrite Hb).
    destruct (allowed d).
    + destruct Hin as (Hp & Hle & ->%Hat). split; [done|]. unfold charge.
      assert (poisoned (refilled l now (bucket_at l k)) = false) as -> by done.
      change (tokens (set_state ?b (?x, ?y))) with x. unfold_sat. lia.
    + by destruct Hin as [-> %Hat| -> %Hat]; [left|right].
Qed.

Lemma try_acquire_many_atomic_witness :
  let l := limiter_new 3 1 10 in
  let r1 := try_acquire_many l ["acct"; "tenant"; "acct"] 0 2 in
  let r2 := try_acquire_many r1.2 ["acct"; "op"] 0 2 in
  tokens (bucket_at r1.2 "acct") = 1 ∧ allowed r2.1 = false ∧
  (bucket_at r2.2 "op" = bucket_at r1.2 "op" ∨
   bucket_at r2.2 "op" = refilled r1.2 0 (bucket_at r1.2 "op")).
Proof.
  split; [vm_compute; reflexivity|]. split; [vm_compute; reflexivity|].
  set (l := (try_acquire_many (limiter_new 3 1 10) ["acct"; "tenant"; "acct"] 0 2).2).
  refine (proj2 (try_acquire_many_atomic l (try_acquire_many l ["acct"; "op"] 0 2).2
    ["acct"; "op"] 0 2 (try_acquire_many l ["acct"; "op"] 0 2).1 "op" _ _ _) _).
  - by apply try_acquire_many_wf; [apply limiter_new_wf|..].
  - reflexivity.
  - symmetry. apply surjective_pairing.
  - set_solver.
Defined.

(** The limiter's invariant.  Both operations keep every bucket within its
    capacity and at the limiter's own rate, and never track more than [max_keys]
    keys, whatever keys, times and costs they are called with. *)
Theorem limiter_invariant (l : KeyedRateLimiter) (key : string) (keys : list string) (now n : Z) :
  limiter_wf l → 0 ≤ now → 0 ≤ n →
  limiter_wf (limiter_acquire l key now n).2 ∧ limiter_wf (try_acquire_many l keys now n).2.
Proof.
  intros Hw Hnow Hn. split.
  - unfold limiter_acquire. destruct (key_rejected key); [done|].
    destruct (n =? 0); [done|]. destruct (_ <? _); [done|]. destruct (l_poisoned l); [done|].
    set (fresh := match buckets l !! key with None => true | Some _ => false end).
    destruct (fresh && (max_keys l <=? key_len l)) eqn:Hf; [done|].
    set (bs := if fresh then _ else _).
    assert (bs !! key = Some (bucket_at l key)) as Eb.
    { unfold bs, fresh, bucket_at. destruct (buckets l !! key) eqn:Ek; [done|]. apply lookup_insert_eq. }
    rewrite Eb. destruct (bucket_acquire (bucket_at l key) now n) as [d b'] eqn:E. cbn [snd].
    destruct (bucket_at_of l key Hw) as (Bw & Bc & Br). pose proof (bucket_new_of l Hw) as Bn.
    apply bucket_acquire_spec in E as (Hw' & Hc & Hr & _); [|done..].
    destruct Hw as (W1 & W2 & W3 & W4). split; [done|]. split; [done|]. split.
    + apply map_Forall_insert_2; [by repeat split; try apply Hw'; etrans|].
      unfold bs. destruct fresh; [|done]. by apply map_Forall_insert_2.
    + unfold key_len in *; cbn. rewrite map_size_insert, Eb. unfold bs, fresh in *.
      destruct (buckets l !! key) eqn:Ek; cbn in *; [done|].
      rewrite map_size_insert_None by done. lia.
  - by apply try_acquire_many_wf.
Qed.

Lemma limiter_invariant_witness :
  limiter_wf (try_acquire_many (limiter_new 3 1 10) ["a"; "b"] 5 2).2.
Proof.
  refine (proj2 (limiter_invariant (limiter_new 3 1 10) "a" ["a"; "b"] 5 2 _ _ _));
    [|discriminate..].
  by apply limiter_new_wf.
Defined.
