(* ===== verification/Domain.v ===== *)
(** * Domain types

    Models the data of [crates/statechronicle-domain/src]: JSON inputs, state types,
    the typed resource payloads, projections, intents, events and the validation of
    identifiers, operation names and statuses.  Newtypes over strings
    ([SubjectId], [TenantId], [ResourceId], [Operation], [Status], the prefixed ids)
    are strings; a timestamp is a [Z] (nanoseconds); a [ContentDigest] is its raw
    bytes, since its text form is derived from them. *)

From Stdlib Require Import ZArith Lia Ascii String.
From stdpp Require Import prelude gmap strings.
From S2P Require Import Prelude Amount.
Open Scope Z_scope.

Notation SubjectId := string (only parsing).
Notation TenantId := string (only parsing).
Notation ResourceId := string (only parsing).
Notation Operation := string (only parsing).
Notation Status := string (only parsing).
Notation IntentId := string (only parsing).
Notation EventId := string (only parsing).
Notation CommitId := string (only parsing).
Notation ProfileId := string (only parsing).
Notation ContentDigest := string (only parsing).
Notation DateTime := Z (only parsing).

Definition MAX_ID_LENGTH : Z := 128.

(** ** JSON values

    [serde_json::Value] as the code reads it.  A number keeps serde's three
    representations; a float is its bit pattern. *)

Inductive Value :=
| VNull
| VBool (b : bool)
| VPosInt (n : Z)
| VNegInt (n : Z)
| VFloat (bits : Z)
| VString (s : string)
| VArray (l : list Value)
| VObject (m : list (string * Value)).

#[export] Instance Value_eq_dec : EqDecision Value.
Proof.
  refine (fix go v1 v2 := let _ : EqDecision _ := @go in
    match v1, v2 with
    | VNull, VNull => left _
    | VBool a, VBool b => cast_if (decide (a = b))
    | VPosInt a, VPosInt b => cast_if (decide (a = b))
    | VNegInt a, VNegInt b => cast_if (decide (a = b))
    | VFloat a, VFloat b => cast_if (decide (a = b))
    | VString a, VString b => cast_if (decide (a = b))
    | VArray a, VArray b => cast_if (decide (a = b))
    | VObject a, VObject b => cast_if (decide (a = b))
    | _, _ => right _
    end); congruence.
Defined.

Definition as_str (v : Value) : option string :=
  match v with VString s => Some s | _ => None end.
Definition as_bool (v : Value) : option bool :=
  match v with VBool b => Some b | _ => None end.
Definition as_u64 (v : Value) : option Z :=
  match v with VPosInt n => Some n | _ => None end.

Notation Inputs := (gmap string Value).

(** ** Validation of names *)

(** The core crate's error; an external serializer's error is its rendered text. *)
Inductive StateChronicleError :=
| Canonicalization (message source : string)
| InvalidDigest (msg : string)
| SignatureVerification (msg : string)
| SizeLimitExceeded (name : string) (limit actual : Z).

Definition core_error_to_string (e : StateChronicleError) : string :=
  match e with
  | Canonicalization message _ => "canonicalization failed: " +:+ message
  | InvalidDigest m => "invalid content digest: " +:+ m
  | SignatureVerification m => "signature verification failed: " +:+ m
  | SizeLimitExceeded name limit actual =>
      "size limit exceeded for `" +:+ name +:+ "`: length " +:+ u128_to_string actual
      +:+ " exceeds limit " +:+ u128_to_string limit
  end.

(** [limits::check_size]. *)
Definition check_size (name : string) (limit actual : Z) : result unit StateChronicleError :=
  if limit <? actual then Err (SizeLimitExceeded name limit actual) else Ok tt.

Definition MAX_INTENT_BYTES : Z := 64 * 1024.
Definition MAX_JSON_DEPTH : Z := 32.

Inductive DomainError :=
| InvalidId (kind value expected_prefix : string)
| InvalidOperation (msg : string)
| InvalidStatus (msg : string)
| InvalidKeyId (msg : string)
| InvalidProfile (msg : string)
| InvalidNonce (msg : string)
| BuilderFieldMissing (field : string)
| Core (e : StateChronicleError).

(** [Display] of the error. *)
Definition domain_error_to_string (e : DomainError) : string :=
  match e with
  | InvalidId kind value prefix =>
      "invalid " +:+ kind +:+ " id: `" +:+ value +:+ "` must start with `" +:+ prefix
      +:+ "` and be ≤ 128 chars"
  | InvalidOperation m => "invalid operation: " +:+ m
  | InvalidStatus m => "invalid status: " +:+ m
  | InvalidKeyId m => "invalid key id: " +:+ m
  | InvalidProfile m => "invalid profile id: " +:+ m
  | InvalidNonce m => "invalid nonce: " +:+ m
  | BuilderFieldMissing f => "missing required intent builder field `" +:+ f +:+ "`"
  | Core e => core_error_to_string e
  end.

(** [validate_id]: exact prefix, non-empty remainder, no control characters, length
    bound. *)
Definition validate_id (kind prefix value : string) : result unit DomainError :=
  let bad := InvalidId kind value prefix in
  let? remainder := ok_or (str_strip_prefix prefix value) bad in
  if str_is_empty remainder then Err bad
  else if has_control value then Err bad
  else if MAX_ID_LENGTH <? char_count value then Err bad
  else Ok tt.

Definition validate_operation (value : string) : result unit DomainError :=
  if str_is_empty value then Err (InvalidOperation "operation must not be empty")
  else if has_control value then
    Err (InvalidOperation "operation must not contain control characters")
  else if MAX_ID_LENGTH <? char_count value then
    Err (InvalidOperation ("operation must be at most 128 chars, got "
           +:+ u128_to_string (char_count value)))
  else Ok tt.

Definition validate_status (value : string) : result unit DomainError :=
  if str_is_empty value then Err (InvalidStatus "status must not be empty")
  else if has_control value then
    Err (InvalidStatus "status must not contain control characters")
  else if MAX_ID_LENGTH <? char_count value then
    Err (InvalidStatus ("status must be at most 128 chars, got "
           +:+ u128_to_string (char_count value)))
  else Ok tt.

Definition validate_profile_id (value : string) : result unit DomainError :=
  if str_is_empty value then Err (InvalidProfile "profile id must not be empty")
  else if has_control value then
    Err (InvalidProfile "profile id must not contain control characters")
  else if MAX_ID_LENGTH <? char_count value then
    Err (InvalidProfile ("profile id must be at most 128 chars, got "
           +:+ u128_to_string (char_count value)))
  else Ok tt.

Definition profile_id_new (value : string) : result ProfileId DomainError :=
  validate_profile_id value ;? Ok value.

(** [Status::try_from_str]. *)
Definition status_try_from_str (value : string) : result Status DomainError :=
  validate_status value ;? Ok value.

Definition operation_new (value : string) : result Operation DomainError :=
  validate_operation value ;? Ok value.

Definition validate_key_id (value : string) : result unit DomainError :=
  if str_is_empty value then Err (InvalidKeyId "key id must not be empty")
  else if has_control value then
    Err (InvalidKeyId "key id must not contain control characters")
  else if MAX_ID_LENGTH <? char_count value then
    Err (InvalidKeyId ("key id must be at most 128 chars, got "
           +:+ u128_to_string (char_count value)))
  else Ok tt.

Definition key_id_new (value : string) : result string DomainError :=
  validate_key_id value ;? Ok value.

(** [IntentId::new], [EventId::new] and [CommitId::new]. *)
Definition intent_id_new (value : string) : result IntentId DomainError :=
  validate_id "intent" "int_" value ;? Ok value.
Definition event_id_new (value : string) : result EventId DomainError :=
  validate_id "event" "evt_" value ;? Ok value.
Definition commit_id_new (value : string) : result CommitId DomainError :=
  validate_id "commit" "cmt_" value ;? Ok value.

(** ** State types and payloads *)

Inductive StateType :=
| StUniqueAsset | StConsumableStack | StFungibleBalance | StEntitlement
| StMeteredResource | StListing | StEscrow | StCustom.

#[export] Instance StateType_eq_dec : EqDecision StateType.
Proof. solve_decision. Defined.

Definition state_type_as_str (t : StateType) : string :=
  match t with
  | StUniqueAsset => "unique_asset"
  | StConsumableStack => "consumable_stack"
  | StFungibleBalance => "fungible_balance"
  | StEntitlement => "entitlement"
  | StMeteredResource => "metered_resource"
  | StListing => "listing"
  | StEscrow => "escrow"
  | StCustom => "custom"
  end.

(** [Operation::state_type_hint]. *)
Definition state_type_hint (op : Operation) : option StateType :=
  if starts_with "asset." op then Some StUniqueAsset
  else if starts_with "stack." op then Some StConsumableStack
  else if starts_with "balance." op then Some StFungibleBalance
  else if starts_with "entitlement." op then Some StEntitlement
  else if starts_with "meter." op then Some StMeteredResource
  else if starts_with "listing." op then Some StListing
  else if starts_with "escrow." op then Some StEscrow
  else None.

Record UniqueAssetState := mkUnique {
  ua_owner : SubjectId; ua_status : Status; ua_trade_id : option string }.
Record ConsumableStackState := mkStack {
  cs_subject : SubjectId; cs_quantity : Amount; cs_unit : string }.
Record FungibleBalanceState := mkBalance {
  fb_subject : SubjectId; fb_balance : Amount; fb_unit : string }.
Record EntitlementState := mkEntitlement {
  en_subject : SubjectId; en_status : Status; en_transferable : bool }.
Record MeterState := mkMeter {
  mt_subject : SubjectId; mt_remaining : Amount; mt_maximum : Amount }.
Record ListingState := mkListing { li_seller : SubjectId; li_status : Status }.
Record EscrowState := mkEscrow {
  es_buyer : SubjectId; es_seller : SubjectId; es_status : Status }.
Record CustomState := mkCustom {
  cu_domain : ProfileId; cu_schema_version : Z; cu_payload : string }.

Inductive ResourceState :=
| RUniqueAsset (v : UniqueAssetState)
| RConsumableStack (v : ConsumableStackState)
| RFungibleBalance (v : FungibleBalanceState)
| REntitlement (v : EntitlementState)
| RMeteredResource (v : MeterState)
| RListing (v : ListingState)
| REscrow (v : EscrowState)
| RCustom (v : CustomState).

(** [ResourceState::state_type], [subject], [owner], [status] and [amount]. *)
Definition rs_state_type (s : ResourceState) : StateType :=
  match s with
  | RUniqueAsset _ => StUniqueAsset
  | RConsumableStack _ => StConsumableStack
  | RFungibleBalance _ => StFungibleBalance
  | REntitlement _ => StEntitlement
  | RMeteredResource _ => StMeteredResource
  | RListing _ => StListing
  | REscrow _ => StEscrow
  | RCustom _ => StCustom
  end.

Definition rs_subject (s : ResourceState) : option SubjectId :=
  match s with
  | RConsumableStack v => Some (cs_subject v)
  | RFungibleBalance v => Some (fb_subject v)
  | REntitlement v => Some (en_subject v)
  | RMeteredResource v => Some (mt_subject v)
  | RUniqueAsset _ | RListing _ | REscrow _ | RCustom _ => None
  end.

Definition rs_owner (s : ResourceState) : option SubjectId :=
  match s with RUniqueAsset v => Some (ua_owner v) | _ => None end.

Definition rs_status (s : ResourceState) : option Status :=
  match s with
  | RUniqueAsset v => Some (ua_status v)
  | REntitlement v => Some (en_status v)
  | RListing v => Some (li_status v)
  | REscrow v => Some (es_status v)
  | RConsumableStack _ | RFungibleBalance _ | RMeteredResource _ | RCustom _ => None
  end.

Definition rs_amount (s : ResourceState) (key : string) : option Amount :=
  match s with
  | RConsumableStack v => if String.eqb key "quantity" then Some (cs_quantity v) else None
  | RFungibleBalance v => if String.eqb key "balance" then Some (fb_balance v) else None
  | RMeteredResource v =>
      if String.eqb key "remaining" then Some (mt_remaining v)
      else if String.eqb key "maximum" then Some (mt_maximum v) else None
  | _ => None
  end.

(** The amounts of a payload are well formed: the representation invariant of the
    private fields of [Amount]. *)
Definition state_wf (s : ResourceState) : Prop :=
  match s with
  | RConsumableStack v => amount_wf (cs_quantity v)
  | RFungibleBalance v => amount_wf (fb_balance v)
  | RMeteredResource v => amount_wf (mt_remaining v) ∧ amount_wf (mt_maximum v)
  | _ => True
  end.

Record StateProjection := mkProjection {
  p_tenant_id : TenantId;
  p_resource_id : ResourceId;
  p_state_type : StateType;
  p_version : Z;
  p_last_event_id : EventId;
  p_last_commit_id : CommitId;
  p_state_hash : ContentDigest;
  p_state : ResourceState;
}.

(** ** Authority, intents and events *)

Inductive EvaluationResult := Allow | Deny.

#[export] Instance EvaluationResult_eq_dec : EqDecision EvaluationResult.
Proof. solve_decision. Defined.

Record AuthorityProof := mkAuthorityProof {
  ap_kind : string;
  ap_evaluation_digest : ContentDigest;
  ap_result : EvaluationResult;
  ap_evaluated_at : DateTime;
}.

#[export] Instance AuthorityProof_eq_dec : EqDecision AuthorityProof.
Proof. solve_decision. Defined.

Inductive AggregationPolicy := RequireAll | AnyOf.

Record TrustGrantOutcome := mkOutcome {
  tg_evaluation_digest : ContentDigest;
  tg_result : EvaluationResult;
  tg_evaluated_at : DateTime;
}.

Definition INTENT_SCHEMA : string := "statechronicle.intent.v0".
Definition EVENT_SCHEMA : string := "statechronicle.event.v0".
Definition MAX_NONCE_BYTES : Z := 64.

Record Intent := mkIntent {
  i_schema : string;
  i_tenant_id : TenantId;
  i_intent_id : IntentId;
  i_operation : Operation;
  i_actor : SubjectId;
  i_resource_id : ResourceId;
  i_state_type : option StateType;
  i_expected_version : Z;
  i_inputs : Inputs;
  i_authority : option AuthorityProof;
  i_created_at : DateTime;
  i_expires_at : option DateTime;
  i_nonce : string;
}.

#[export] Instance Intent_eq_dec : EqDecision Intent.
Proof. solve_decision. Defined.

(** A detached signature: algorithm (Ed25519 is the only one), key and raw bytes. *)
Inductive SignatureAlg := Ed25519.

Record SignatureBlock := mkSignature {
  sb_alg : SignatureAlg;
  sb_key_id : string;
  sb_sig : string;
}.

Record StateCommitment := mkCommitment {
  c_version : Z;
  c_state_hash : ContentDigest;
  c_state : ResourceState;
}.

Record Event := mkEvent {
  e_schema : string;
  e_tenant_id : TenantId;
  e_event_id : EventId;
  e_intent_id : IntentId;
  e_operation : Operation;
  e_resource_id : ResourceId;
  e_actor : SubjectId;
  e_before : StateCommitment;
  e_after : StateCommitment;
  e_authority : option AuthorityProof;
  e_executor : SubjectId;
  e_created_at : DateTime;
}.

(** [Intent::new] and [Event::new] set the schema identifier. *)
Definition intent_new tenant intent_id operation actor resource_id state_type expected_version
    inputs authority created_at expires_at nonce : Intent :=
  mkIntent INTENT_SCHEMA tenant intent_id operation actor resource_id state_type
    expected_version inputs authority created_at expires_at nonce.

Definition event_new tenant event_id intent_id operation resource_id actor before after
    authority executor created_at : Event :=
  mkEvent EVENT_SCHEMA tenant event_id intent_id operation resource_id actor before after
    authority executor created_at.

(** [IntentBuilder]: named optional fields and defaults. *)
Record IntentBuilder := mkIntentBuilder {
  b_tenant : option TenantId;
  b_intent_id : option IntentId;
  b_operation : option Operation;
  b_actor : option SubjectId;
  b_resource_id : option ResourceId;
  b_expected_version : Z;
  b_state_type : option StateType;
  b_inputs : Inputs;
  b_authority : option AuthorityProof;
  b_created_at : option DateTime;
  b_expires_at : option DateTime;
  b_nonce : option string;
}.

Definition intent_build (b : IntentBuilder) : result Intent DomainError :=
  let? tenant := ok_or (b_tenant b) (BuilderFieldMissing "tenant") in
  let? intent_id := ok_or (b_intent_id b) (BuilderFieldMissing "intent_id") in
  let? operation := ok_or (b_operation b) (BuilderFieldMissing "operation") in
  let? actor := ok_or (b_actor b) (BuilderFieldMissing "actor") in
  let? resource_id := ok_or (b_resource_id b) (BuilderFieldMissing "resource_id") in
  let? created_at := ok_or (b_created_at b) (BuilderFieldMissing "created_at") in
  let? nonce := ok_or (b_nonce b) (BuilderFieldMissing "nonce") in
  Ok (intent_new tenant intent_id operation actor resource_id (b_state_type b)
        (b_expected_version b) (b_inputs b) (b_authority b) created_at (b_expires_at b) nonce).

(** ** Facts about names *)

Lemma status_try_from_str_Ok v s :
  status_try_from_str v = Ok s ↔ s = v ∧ validate_status v = Ok tt.
Proof.
  unfold status_try_from_str. rewrite rbind_Ok. split.
  - intros ([] & H & [= ->]). done.
  - intros [-> H]. by exists tt.
Qed.
