(* ===== verification/Profile.v ===== *)
(** * Profile rule helpers

    Models [crates/statechronicle-profiles/src/error.rs], [keys.rs] and the readers
    and guards of [registry.rs] that every profile's [check] is written with: typed
    reads of the intent's inputs and of the projected payload, and the guards on the
    resource's existence and status. *)

From Stdlib Require Import ZArith Lia Ascii String.
From stdpp Require Import prelude gmap strings.
From S2P Require Import Prelude Amount Domain.
Open Scope Z_scope.

Inductive ProfileError :=
| ActorMismatch (expected actual : string)
| ResourceLocked (resource : string)
| AtomicityViolation (msg : string)
| TransferMismatch (msg : string)
| ValueLegSettleRouting (intent_id : string)
| UnknownOperation (op : string)
| InvalidTransition (from operation : string)
| PInvalidInput (msg : string)
| NonPositiveAmount
| InsufficientQuantity (available requested : Amount)
| HardDeleteForbidden
| FloatForbidden
| OwnershipMismatch (expected actual : string)
| NotTransferable.

Notation presult A := (result A ProfileError).

(** A name in backticks, as the messages quote it. *)
Definition tick (s : string) : string := "`" +:+ s +:+ "`".

(** Membership of an operation or status in a static slice. *)
Definition contains (l : list string) (s : string) : bool := existsb (String.eqb s) l.

Definition contains_key (inputs : Inputs) (key : string) : bool :=
  match inputs !! key with Some _ => true | None => false end.

Definition input_str (inputs : Inputs) (key : string) : presult string :=
  let? value := ok_or (inputs !! key) (PInvalidInput ("missing input " +:+ tick key)) in
  let? text := ok_or (as_str value)
    (PInvalidInput ("input " +:+ tick key +:+ " must be a string")) in
  if str_is_empty text then
    Err (PInvalidInput ("input " +:+ tick key +:+ " must not be empty"))
  else Ok text.

Definition no_field (key : string) : ProfileError :=
  PInvalidInput ("state payload has no " +:+ tick key).

Definition state_str (projection : StateProjection) (key : string) : presult string :=
  let? text :=
    match p_state projection with
    | RUniqueAsset v =>
        if String.eqb key "owner" then Ok (ua_owner v)
        else if String.eqb key "status" then Ok (ua_status v) else Err (no_field key)
    | RConsumableStack v =>
        if String.eqb key "subject" then Ok (cs_subject v)
        else if String.eqb key "unit" then Ok (cs_unit v) else Err (no_field key)
    | RFungibleBalance v =>
        if String.eqb key "subject" then Ok (fb_subject v)
        else if String.eqb key "unit" then Ok (fb_unit v) else Err (no_field key)
    | REntitlement v =>
        if String.eqb key "subject" then Ok (en_subject v)
        else if String.eqb key "status" then Ok (en_status v) else Err (no_field key)
    | RMeteredResource v =>
        if String.eqb key "subject" then Ok (mt_subject v) else Err (no_field key)
    | RListing v =>
        if String.eqb key "seller" then Ok (li_seller v)
        else if String.eqb key "status" then Ok (li_status v) else Err (no_field key)
    | RCustom _ => Err (no_field key)
    | REscrow v =>
        if String.eqb key "buyer" then Ok (es_buyer v)
        else if String.eqb key "seller" then Ok (es_seller v)
        else if String.eqb key "status" then Ok (es_status v) else Err (no_field key)
    end in
  if str_is_empty text then Err (PInvalidInput (tick key +:+ " must not be empty"))
  else Ok text.

Definition state_trade_id (projection : StateProjection) : presult string :=
  match p_state projection with
  | RUniqueAsset v => ok_or (ua_trade_id v) (PInvalidInput "state has no `trade_id`")
  | _ => Err (PInvalidInput "state has no `trade_id`")
  end.

Definition state_amount (projection : StateProjection) (key : string) : presult Amount :=
  match p_state projection with
  | RConsumableStack v => if String.eqb key "quantity" then Ok (cs_quantity v) else Err (no_field key)
  | RFungibleBalance v => if String.eqb key "balance" then Ok (fb_balance v) else Err (no_field key)
  | RMeteredResource v =>
      if String.eqb key "remaining" then Ok (mt_remaining v)
      else if String.eqb key "maximum" then Ok (mt_maximum v) else Err (no_field key)
  | _ => Err (no_field key)
  end.

Definition state_bool (projection : StateProjection) (key : string) : presult bool :=
  match p_state projection with
  | REntitlement v => if String.eqb key "transferable" then Ok (en_transferable v) else Err (no_field key)
  | _ => Err (no_field key)
  end.

(** The characters whose presence marks a float-formatted amount. *)
Definition is_float_char (c : ascii) : bool :=
  Ascii.eqb c "."%char || Ascii.eqb c "e"%char || Ascii.eqb c "E"%char.

Definition parse_amount_str (value : Value) (key : string) : presult Amount :=
  let bad := PInvalidInput (tick key +:+ " must be an integer string") in
  let? text := ok_or (as_str value) bad in
  if str_is_empty text then Err bad
  else if str_any is_float_char text then Err FloatForbidden
  else map_err (fun _ => bad) (Amount.try_from_str text).

Definition input_amount (inputs : Inputs) (key : string) : presult Amount :=
  let? value := ok_or (inputs !! key) (PInvalidInput ("missing input " +:+ tick key)) in
  parse_amount_str value key.

Definition require_current (current : option StateProjection) (operation : string)
    : presult StateProjection :=
  ok_or current (InvalidTransition "unborn" operation).

Definition require_unborn (current : option StateProjection) (operation : string) : presult unit :=
  match current with
  | Some _ => Err (InvalidTransition "existing" operation)
  | None => Ok tt
  end.

Definition require_from (current : option StateProjection) (operation : string)
    (allowed_from : list Status) : presult StateProjection :=
  let? projection := require_current current operation in
  let? from := state_str projection "status" in
  let? from_status := map_err (fun _ => PInvalidInput from) (status_try_from_str from) in
  if negb (contains allowed_from from_status) then Err (InvalidTransition from operation)
  else Ok projection.

(** The [single_from] of the unique-asset, entitlement and marketplace rules. *)
Definition single_from (current : option StateProjection) (operation : string)
    (allowed_from : list Status) : presult unit :=
  require_from current operation allowed_from ;? Ok tt.

(** The [require_positive] and [require_positive_available] of the stack and balance
    rules. *)
Definition require_positive (amount : Amount) : presult unit :=
  if is_zero amount then Err NonPositiveAmount else Ok tt.

Definition require_positive_available (requested available : Amount) : presult unit :=
  if is_zero requested then Err NonPositiveAmount
  else if amount_ltb available requested then Err (InsufficientQuantity available requested)
  else Ok tt.

(** ** Facts about the helpers *)

Lemma contains_true l s : contains l s = true ↔ s ∈ l.
Proof.
  unfold contains. rewrite existsb_exists. split.
  - intros (x & Hx & ->%String.eqb_eq). by apply list_elem_of_In.
  - intros Hs. exists s. split; [by apply list_elem_of_In | apply String.eqb_refl].
Qed.

Lemma input_str_Ok inputs key s :
  input_str inputs key = Ok s ↔ inputs !! key = Some (VString s) ∧ s ≠ EmptyString.
Proof.
  unfold input_str. destruct (inputs !! key) as [[| | | | |t| |]|]; simpl;
    try (split; [discriminate|intros [? _]; discriminate]).
  destruct t; simpl; naive_solver.
Qed.

Lemma parse_amount_str_Ok v key a :
  parse_amount_str v key = Ok a ↔
    ∃ s, v = VString s ∧ str_any is_float_char s = false ∧ Amount.try_from_str s = Ok a.
Proof.
  unfold parse_amount_str. destruct v as [| | | | |s| |]; simpl;
    try (split; [discriminate|intros (? & ? & _); discriminate]).
  destruct s as [|c s]; [split; [discriminate|intros (? & [= <-] & _ & H); discriminate H]|].
  cbn [str_is_empty]. destruct (str_any is_float_char (String c s)) eqn:E.
  - split; [discriminate|]. intros (? & [= <-] & ? & _). congruence.
  - rewrite map_err_Ok. split; [eauto|]. by intros (? & [= <-] & _ & ?).
Qed.

Lemma try_from_str_wf s a : Amount.try_from_str s = Ok a → amount_wf a ∧ scale a = 0.
Proof.
  intros H. destruct (str_all is_ascii_digit s) eqn:Hd;
    [|destruct (try_from_str_rejects s Hd); congruence].
  unfold try_from_str in H. destruct (_ <? _); [done|]. destruct (str_is_empty s); [done|].
  rewrite Hd in H. cbn [negb] in H. res_inv H. subst a.
  rewrite parse_digits_spec in Ha by (done || unfold U128_MAX; lia).
  destruct (Z.leb_spec (dval 0 s) U128_MAX); [|done]. injection Ha as <-.
  change (dval 0 s) with (sval s) in *. pose proof (sval_bound s Hd).
  split; [|done]. split; [split; cbn; lia | cbn; unfold MAX_SCALE; lia].
Qed.

Lemma input_amount_wf inputs key a : input_amount inputs key = Ok a → amount_wf a ∧ scale a = 0.
Proof.
  unfold input_amount. intros H. res_inv H. apply parse_amount_str_Ok in H as (s & _ & _ & H).
  by apply try_from_str_wf in H.
Qed.

Lemma require_current_Ok cur op p : require_current cur op = Ok p ↔ cur = Some p.
Proof. apply ok_or_Ok. Qed.

Lemma require_unborn_Ok cur op : require_unborn cur op = Ok tt ↔ cur = None.
Proof. destruct cur; simpl; naive_solver. Qed.

Lemma require_positive_Ok a : require_positive a = Ok tt ↔ is_zero a = false.
Proof. unfold require_positive. destruct (is_zero a); naive_solver. Qed.

Lemma require_positive_available_Ok r a : amount_wf r → amount_wf a →
  require_positive_available r a = Ok tt ↔ 0 < aval r ≤ aval a.
Proof.
  intros Hr Ha. unfold require_positive_available.
  pose proof (is_zero_spec r Hr). pose proof (amount_ltb_spec a r Ha Hr). pose proof (aval_nonneg r Hr).
  destruct (is_zero r); [split; [done|]; intros; assert (aval r = 0) by tauto; lia|].
  assert (aval r ≠ 0) by (intros E; by apply H in E).
  destruct (amount_ltb a r).
  - split; [done|]. intros. assert (aval a < aval r) by tauto. lia.
  - assert (¬ aval a < aval r) by (intros E; by apply H0 in E). split; [lia|done].
Qed.

(** What a successful status guard says: the resource exists and its status is one
    of those listed. *)
Lemma require_from_Ok cur op l p :
  require_from cur op l = Ok p →
  cur = Some p ∧ ∃ st, state_str p "status" = Ok st ∧ st ∈ l.
Proof.
  unfold require_from. intros H. res_inv H. subst.
  apply require_current_Ok in Ha. apply status_try_from_str_Ok in Ha1 as [-> _].
  split; [by rewrite Ha|]. eexists. split; [done|].
  apply negb_false_iff, contains_true in Hb. done.
Qed.

Lemma single_from_Ok cur op l :
  single_from cur op l = Ok tt →
  ∃ p st, cur = Some p ∧ state_str p "status" = Ok st ∧ st ∈ l.
Proof.
  unfold single_from. intros H. res_inv H. apply require_from_Ok in Ha as (-> & st & H1 & H2). eauto.
Qed.
