(* ===== verification/Admission.v ===== *)
(** * Intent admission

    Models [crates/statechronicle-intent/src]: the raw payload, its validation into a
    typed intent ([validate.rs]), the safe constructor for already typed intents
    ([validated.rs]) and the nonce and signature block parsers of
    [statechronicle-domain/src/intent.rs].  JSON decoding, RFC 3339, base64url and BCS
    come from libraries: they are the fields of [Codecs]. *)

From Stdlib Require Import ZArith Lia Ascii String.
From stdpp Require Import prelude gmap strings.
From S2P Require Import Prelude Amount Domain Profile.
Open Scope Z_scope.

Inductive IntentError :=
| ISizeLimitExceeded (name : string) (limit actual : Z)
| InvalidJson (source : string)
| InvalidSchema (found expected : string)
| InvalidField (msg : string)
| InvalidExpiry (msg : string)
| IDomain (e : DomainError).

Notation iresult A := (result A IntentError).

(** [From<StateChronicleError>] and [From<DomainError>]. *)
Definition intent_of_core (e : StateChronicleError) : IntentError :=
  match e with
  | SizeLimitExceeded name limit actual => ISizeLimitExceeded name limit actual
  | other => IDomain (Core other)
  end.

Definition intent_error_to_string (e : IntentError) : string :=
  match e with
  | ISizeLimitExceeded name limit actual =>
      "size limit exceeded for `" +:+ name +:+ "`: length " +:+ u128_to_string actual
      +:+ " exceeds limit " +:+ u128_to_string limit
  | InvalidJson source => "intent payload is not valid JSON: " +:+ source
  | InvalidSchema found expected =>
      "unsupported intent schema " +:+ tick found +:+ "; expected " +:+ tick expected
  | InvalidField m => "invalid intent field: " +:+ m
  | InvalidExpiry m => "invalid intent expiry: " +:+ m
  | IDomain e => domain_error_to_string e
  end.

(** ** Data *)

Record RawSignature := mkRawSignature { rsig_alg : string; rsig_key_id : string; rsig_sig : string }.

Record RawIntent := mkRaw {
  raw_schema : string;
  raw_tenant_id : string;
  raw_intent_id : string;
  raw_operation : string;
  raw_actor : string;
  raw_resource_id : string;
  raw_state_type : option Value;
  raw_expected_version : Z;
  raw_inputs : Inputs;
  raw_authority : option Value;
  raw_created_at : string;
  raw_expires_at : option string;
  raw_nonce : string;
  raw_signature : option RawSignature;
}.

Record IdempotencyKey := mkIdem {
  ik_tenant_id : TenantId;
  ik_intent_id : IntentId;
  ik_actor : SubjectId;
  ik_resource_id : ResourceId;
  ik_operation : Operation;
}.

Record ValidatedIntent := mkValidated {
  v_intent : Intent;
  v_idempotency_key : IdempotencyKey;
  v_signature : option SignatureBlock;
}.

(** The library decoders: an error is its rendered text.  [show_time] is the
    [Display] of a timestamp. *)
Record Codecs := mkCodecs {
  state_type_from_value : Value → result StateType string;
  authority_from_value : Value → result AuthorityProof string;
  parse_from_rfc3339 : string → result DateTime string;
  show_time : DateTime → string;
  b64u_decode : string → result string string;
  canonicalize : Intent → result string StateChronicleError;
}.

(** ** Parsers *)

(** [json_depth], the same in [parse.rs] and [validated.rs]; depths stay far below the
    width of [usize], so the saturation never shows. *)
Fixpoint json_depth (value : Value) : Z :=
  match value with
  | VArray values => 1 + foldr Z.max 0 (map json_depth values)
  | VObject fields => 1 + foldr Z.max 0 (map (fun f => json_depth f.2) fields)
  | _ => 0
  end.

(** The maximum depth of the input values. *)
Definition input_depth (inputs : Inputs) : Z :=
  foldr Z.max 0 (map (fun f => json_depth f.2) (map_to_list inputs)).

Section WithCodecs.
Context (codecs : Codecs).

(** [Nonce::from_bytes] and [Nonce::from_b64u_str]. *)
Definition nonce_from_bytes (bytes : string) : result string DomainError :=
  if MAX_NONCE_BYTES <? slen bytes then
    Err (InvalidNonce ("nonce must be at most 64 bytes, got " +:+ u128_to_string (slen bytes)))
  else Ok bytes.

Definition nonce_from_b64u_str (value : string) : result string DomainError :=
  let? encoded := ok_or (str_strip_prefix "b64u:" value)
    (InvalidNonce "nonce must start with `b64u:`") in
  let? decoded := map_err (fun source => InvalidNonce ("nonce is not valid base64url: " +:+ source))
    (b64u_decode codecs encoded) in
  nonce_from_bytes decoded.

(** [Deserialize for Signature], with the deserializer's error text. *)
Definition B64U_PREFIX : string := "b64u:".
Definition SIGNATURE_BYTE_LEN : Z := 64.

Definition signature_deserialize (value : string) : result string string :=
  let? encoded := ok_or (str_strip_prefix B64U_PREFIX value) ("signature must start with `" +:+ B64U_PREFIX +:+ "`") in
  let? decoded := map_err (fun source => "signature is not valid base64url: " +:+ source) (b64u_decode codecs encoded) in
  if negb (slen decoded =? SIGNATURE_BYTE_LEN) then
    Err ("signature must be exactly 64 bytes, got " +:+ u128_to_string (slen decoded))
  else Ok decoded.

Definition parse_timestamp (field value : string) : iresult DateTime :=
  map_err (fun source => InvalidField ("invalid " +:+ field +:+ " " +:+ tick value +:+ ": " +:+ source))
    (parse_from_rfc3339 codecs value).

Definition parse_signature (raw : RawSignature) : iresult SignatureBlock :=
  let? alg := if String.eqb (rsig_alg raw) "ed25519" then Ok Ed25519
    else Err (InvalidField ("unsupported signature alg " +:+ tick (rsig_alg raw))) in
  let? key_id := map_err IDomain (key_id_new (rsig_key_id raw)) in
  let? sig := map_err (fun source =>
      InvalidField ("invalid signature " +:+ tick (rsig_sig raw) +:+ ": " +:+ source))
    (signature_deserialize (rsig_sig raw)) in
  Ok (mkSignature alg key_id sig).

(** [Option::map(..).transpose()?]. *)
Definition transpose {A B} (f : A → iresult B) (o : option A) : iresult (option B) :=
  match o with
  | None => Ok None
  | Some a => let? b := f a in Ok (Some b)
  end.

Definition expiry_after (created : DateTime) (expires : option DateTime) : bool :=
  match expires with Some expiry => created <? expiry | None => true end.

(** [ValidatedIntent::from_intent]. *)
Definition from_intent (intent : Intent) (signature : option SignatureBlock) : ValidatedIntent :=
  mkValidated intent
    (mkIdem (i_tenant_id intent) (i_intent_id intent) (i_actor intent) (i_resource_id intent)
       (i_operation intent))
    signature.

(** [validate]. *)
Definition validate (raw : RawIntent) : iresult ValidatedIntent :=
  if negb (String.eqb (raw_schema raw) INTENT_SCHEMA) then
    Err (InvalidSchema (raw_schema raw) INTENT_SCHEMA)
  else
    let? intent_id := map_err IDomain (intent_id_new (raw_intent_id raw)) in
    let? operation := map_err IDomain (operation_new (raw_operation raw)) in
    let? state_type := transpose (fun value =>
        map_err (fun source => InvalidField ("invalid state_type: " +:+ source))
          (state_type_from_value codecs value)) (raw_state_type raw) in
    let? authority := transpose (fun value =>
        map_err (fun source => InvalidField ("invalid authority proof: " +:+ source))
          (authority_from_value codecs value)) (raw_authority raw) in
    let? created_at := parse_timestamp "created_at" (raw_created_at raw) in
    let? expires_at := transpose (parse_timestamp "expires_at") (raw_expires_at raw) in
    if negb (expiry_after created_at expires_at) then
      Err (InvalidExpiry ("expires_at " +:+ tick (default EmptyString (show_time codecs <$> expires_at))
        +:+ " must be after created_at " +:+ tick (show_time codecs created_at)))
    else
      let? nonce := map_err IDomain (nonce_from_b64u_str (raw_nonce raw)) in
      let? signature := transpose parse_signature (raw_signature raw) in
      let intent := intent_new (raw_tenant_id raw) intent_id operation (raw_actor raw)
        (raw_resource_id raw) state_type (raw_expected_version raw) (raw_inputs raw) authority
        created_at expires_at nonce in
      Ok (mkValidated intent
            (mkIdem (raw_tenant_id raw) intent_id (raw_actor raw) (raw_resource_id raw) operation)
            signature).

(** The identifier loop of [try_from_intent]. *)
Definition check_identifier (f : string * string) : iresult unit :=
  let (name, value) := f in
  if str_is_empty value then Err (InvalidField (name +:+ " identifier must not be empty"))
  else if MAX_ID_LENGTH <? char_count value then
    Err (InvalidField (name +:+ " identifier exceeds 128 characters"))
  else if has_control value then
    Err (InvalidField (name +:+ " identifier must not contain control characters"))
  else Ok tt.

Definition try_from_intent (intent : Intent) (signature : option SignatureBlock) : iresult ValidatedIntent :=
  if negb (String.eqb (i_schema intent) INTENT_SCHEMA) then
    Err (InvalidSchema (i_schema intent) INTENT_SCHEMA)
  else
    rforeach check_identifier
      [("tenant", i_tenant_id intent); ("actor", i_actor intent); ("resource", i_resource_id intent)] ;?
    if negb (expiry_after (i_created_at intent) (i_expires_at intent)) then
      Err (InvalidExpiry "expires_at must be after created_at")
    else if MAX_JSON_DEPTH <? input_depth (i_inputs intent) then
      Err (InvalidField "intent input nesting depth exceeds limit 32")
    else
      let? bytes := map_err intent_of_core (canonicalize codecs intent) in
      let size := slen bytes in
      if MAX_INTENT_BYTES <? size then Err (ISizeLimitExceeded "intent" MAX_INTENT_BYTES size)
      else Ok (from_intent intent signature).

(** [ValidatedIntent::is_expired]. *)
Definition is_expired (v : ValidatedIntent) (now : DateTime) : bool :=
  match i_expires_at (v_intent v) with Some expiry => expiry <=? now | None => false end.

(** ** Properties *)

Lemma expiry_after_is_expired i sig :
  expiry_after (i_created_at i) (i_expires_at i) = negb (is_expired (from_intent i sig) (i_created_at i)).
Proof. unfold expiry_after, is_expired. cbn. destruct (i_expires_at i); [|done]. by rewrite Z.ltb_antisym. Qed.

(** What the typed route asks beyond schema and expiry. *)
Definition transportable (i : Intent) : Prop :=
  Forall (fun f => check_identifier f = Ok tt)
    [("tenant", i_tenant_id i); ("actor", i_actor i); ("resource", i_resource_id i)] ∧
  input_depth (i_inputs i) ≤ MAX_JSON_DEPTH ∧
  ∃ bytes, canonicalize codecs i = Ok bytes ∧ slen bytes ≤ MAX_INTENT_BYTES.

Lemma try_from_intent_Ok i sig v : try_from_intent i sig = Ok v ↔
  v = from_intent i sig ∧ i_schema i = INTENT_SCHEMA ∧
  expiry_after (i_created_at i) (i_expires_at i) = true ∧ transportable i.
Proof.
  unfold try_from_intent, transportable. rewrite <- rforeach_Ok.
  destruct (String.eqb_spec (i_schema i) INTENT_SCHEMA); cbn [negb]; [|naive_solver].
  destruct (rforeach _ _) as [[]|]; cbn [rbind]; [|naive_solver].
  destruct (expiry_after _ _); cbn [negb]; [|naive_solver].
  destruct (Z.ltb_spec MAX_JSON_DEPTH (input_depth (i_inputs i))); [split; [done|naive_solver lia]|].
  destruct (canonicalize codecs i) as [b|]; cbn [map_err rbind]; [|naive_solver].
  destruct (Z.ltb_spec MAX_INTENT_BYTES (slen b)).
  - split; [done|]. intros (_ & _ & _ & _ & _ & b' & [= <-] & ?). lia.
  - split; [intros [= <-]; eauto 10|by intros (-> & _)].
Qed.

(** ** What admission reads *)

(** An optional field is absent on both sides, or read by [dec]. *)
Definition reads {A B} (dec : A → B → Prop) (o : option A) (o' : option B) : Prop :=
  match o, o' with
  | None, None => True
  | Some a, Some b => dec a b
  | _, _ => False
  end.

(** [text] is the prefix [b64u:] followed by the base64url encoding of [bytes]. *)
Definition b64u_text (text bytes : string) : Prop :=
  ∃ encoded, str_strip_prefix B64U_PREFIX text = Some encoded ∧ b64u_decode codecs encoded = Ok bytes.

Definition reads_signature (raw : RawSignature) (block : SignatureBlock) : Prop :=
  rsig_alg raw = "ed25519" ∧ sb_alg block = Ed25519 ∧
  sb_key_id block = rsig_key_id raw ∧ validate_key_id (sb_key_id block) = Ok tt ∧
  b64u_text (rsig_sig raw) (sb_sig block) ∧ slen (sb_sig block) = SIGNATURE_BYTE_LEN.

(** The intent a raw payload denotes, field by field. *)
Record denotes (raw : RawIntent) (i : Intent) : Prop := {
  dn_schema : raw_schema raw = INTENT_SCHEMA ∧ i_schema i = INTENT_SCHEMA;
  dn_copied : i_tenant_id i = raw_tenant_id raw ∧ i_intent_id i = raw_intent_id raw ∧
    i_operation i = raw_operation raw ∧ i_actor i = raw_actor raw ∧
    i_resource_id i = raw_resource_id raw ∧ i_expected_version i = raw_expected_version raw ∧
    i_inputs i = raw_inputs raw;
  dn_ids : validate_id "intent" "int_" (i_intent_id i) = Ok tt ∧ validate_operation (i_operation i) = Ok tt;
  dn_state_type : reads (fun a b => state_type_from_value codecs a = Ok b) (raw_state_type raw) (i_state_type i);
  dn_authority : reads (fun a b => authority_from_value codecs a = Ok b) (raw_authority raw) (i_authority i);
  dn_created : parse_from_rfc3339 codecs (raw_created_at raw) = Ok (i_created_at i);
  dn_expires : reads (fun a b => parse_from_rfc3339 codecs a = Ok b) (raw_expires_at raw) (i_expires_at i);
  dn_expiry : ∀ expiry, i_expires_at i = Some expiry → i_created_at i < expiry;
  dn_nonce : b64u_text (raw_nonce raw) (i_nonce i) ∧ slen (i_nonce i) ≤ MAX_NONCE_BYTES;
}.

Lemma transpose_Ok {A B} (f : A → iresult B) (dec : A → B → Prop) o o' :
  (∀ a b, f a = Ok b ↔ dec a b) → transpose f o = Ok o' ↔ reads dec o o'.
Proof.
  intros Hf. destruct o as [a|]; cbn.
  - rewrite rbind_Ok. destruct o' as [b|]; [|split; [by intros (b & _ & [=])|done]].
    rewrite <- Hf. split; [by intros (c & -> & [= ->])|intros ->; eauto].
  - destruct o'; split; intros; by simplify_eq.
Qed.

Lemma nonce_Ok s n : nonce_from_b64u_str s = Ok n ↔ b64u_text s n ∧ slen n ≤ MAX_NONCE_BYTES.
Proof.
  unfold nonce_from_b64u_str, nonce_from_bytes, b64u_text. change "b64u:" with B64U_PREFIX.
  destruct (str_strip_prefix B64U_PREFIX s) as [enc|]; cbn [ok_or rbind]; [|naive_solver].
  destruct (b64u_decode codecs enc) as [d|] eqn:E; cbn [map_err rbind]; [|naive_solver congruence].
  destruct (Z.ltb_spec MAX_NONCE_BYTES (slen d)).
  - split; [done|]. intros [(enc' & [= <-] & E') ?]. rewrite E in E'. injection E' as ->. lia.
  - split; [intros [= <-]; eauto|]. intros [(enc' & [= <-] & E') ?]. congruence.
Qed.

Lemma signature_Ok raw block : parse_signature raw = Ok block ↔ reads_signature raw block.
Proof.
  unfold parse_signature, reads_signature, b64u_text, signature_deserialize, key_id_new.
  destruct block as [alg key sig]. cbn [sb_alg sb_key_id sb_sig].
  destruct (String.eqb_spec (rsig_alg raw) "ed25519"); cbn [rbind]; [|naive_solver].
  destruct (validate_key_id (rsig_key_id raw)) as [[]|] eqn:Ek; cbn [rbind map_err];
    [|split; [done|]; intros (_ & _ & -> & ? & _); congruence].
  destruct (str_strip_prefix B64U_PREFIX (rsig_sig raw)) as [enc|]; cbn [ok_or rbind map_err]; [|naive_solver].
  destruct (b64u_decode codecs enc) as [d|] eqn:E; cbn [rbind map_err];
    [|split; [done|]; intros (_ & _ & _ & _ & (enc' & [= <-] & ?) & _); congruence].
  destruct (Z.eqb_spec (slen d) SIGNATURE_BYTE_LEN); cbn [negb map_err rbind].
  - split; [intros; simplify_eq; destruct alg; eauto 10|].
    intros (_ & -> & -> & _ & (enc' & [= <-] & E') & _). congruence.
  - split; [done|]. intros (_ & _ & _ & _ & (enc' & [= <-] & E') & ?). congruence.
Qed.

Lemma expiry_after_true created expires :
  expiry_after created expires = true ↔ ∀ expiry, expires = Some expiry → created < expiry.
Proof.
  unfold expiry_after. destruct expires as [e|]; [|done]. rewrite Z.ltb_lt. naive_solver.
Qed.

Lemma parse_timestamp_Ok field s t : parse_timestamp field s = Ok t ↔ parse_from_rfc3339 codecs s = Ok t.
Proof. unfold parse_timestamp. apply map_err_Ok. Qed.

(** Admission accepts exactly the payloads that denote an intent and a signature. *)
Lemma validate_iff raw v : validate raw = Ok v ↔
  v = from_intent (v_intent v) (v_signature v) ∧ denotes raw (v_intent v) ∧
  reads reads_signature (raw_signature raw) (v_signature v).
Proof.
  pose proof (transpose_Ok _ _ (raw_signature raw) (v_signature v) signature_Ok) as Tsig.
  pose proof (fun o o' => transpose_Ok _ _ o o' (parse_timestamp_Ok "expires_at")) as Tex.
  pose proof (fun o o' f => transpose_Ok _ _ o o' (fun a b => map_err_Ok f (state_type_from_value codecs a) b)) as Tst.
  pose proof (fun o o' f => transpose_Ok _ _ o o' (fun a b => map_err_Ok f (authority_from_value codecs a) b)) as Tau.
  split.
  - intros E. unfold validate in E. res_inv E. subst v. cbn [v_intent v_signature from_intent] in *.
    apply rbind_Ok in Ha as ([] & Hid & [= <-]). apply rbind_Ok in Ha0 as ([] & Hop & [= <-]).
    apply negb_false_iff in Hb, Hb0. apply String.eqb_eq in Hb.
    split; [done|]. split; [|by apply Tsig].
    split; cbn; try done; [by eapply Tst|by eapply Tau|by eapply parse_timestamp_Ok|by apply Tex
      |by apply expiry_after_true|by apply nonce_Ok].
  - intros (Hv & [[S1 S2] (C1 & C2 & C3 & C4 & C5 & C6 & C7) [I1 I2] Hst Hau Hcr Hex Hexp Hn] & Hsig).
    unfold validate, intent_id_new, operation_new. rewrite S1, String.eqb_refl. cbn [negb].
    rewrite <- C2, I1, <- C3, I2. cbn [rbind map_err].
    rewrite (proj2 (Tst _ _ _) Hst). cbn [rbind]. rewrite (proj2 (Tau _ _ _) Hau). cbn [rbind].
    rewrite (proj2 (parse_timestamp_Ok "created_at" _ _) Hcr). cbn [rbind].
    rewrite (proj2 (Tex _ _) Hex). cbn [rbind].
    rewrite (proj2 (expiry_after_true _ _) Hexp). cbn [negb]. rewrite (proj2 (nonce_Ok _ _) Hn). cbn [rbind map_err].
    rewrite (proj2 Tsig Hsig). cbn [rbind]. f_equal. symmetry.
    etrans; [exact Hv|]. unfold from_intent, intent_new. rewrite <- C1, <- C4, <- C5, <- C6, <- C7, <- S2.
    by destruct (v_intent v).
Qed.

(** The shape of an admitted intent. *)
Lemma validate_Ok raw v : validate raw = Ok v →
  i_inputs (v_intent v) = raw_inputs raw ∧ v = from_intent (v_intent v) (v_signature v) ∧
  i_schema (v_intent v) = INTENT_SCHEMA ∧ expiry_after (i_created_at (v_intent v)) (i_expires_at (v_intent v)) = true.
Proof. intros (Hv & [[_ ?] (_ & _ & _ & _ & _ & _ & ?) _ _ _ _ _ ? _] & _)%validate_iff. by rewrite expiry_after_true. Qed.

(** C40: admission accepts exactly the payloads that denote an intent, and returns it.  A raw
    payload is admitted as [v] exactly when every field of the intent of [v] is what the
    payload's field says: schema, tenant, intent id, operation, actor, resource, version and
    inputs are copied, state type, authority proof, timestamps and nonce are what their
    decoders read (an optional field is absent on both sides or read), the intent id and the
    operation pass their validators, the expiry is after the creation and the nonce has at
    most 64 bytes; when the signature of [v] is the one the payload carries, with algorithm,
    key id and 64 bytes; and when the idempotency key is the tuple of the intent's own fields.
    The typed route admits the same intent with the same result exactly when the identifiers,
    nesting depth and canonical size are within its bounds. *)
Theorem admission_sound (raw : RawIntent) (v : ValidatedIntent) :
  (validate raw = Ok v ↔
     v = from_intent (v_intent v) (v_signature v) ∧ denotes raw (v_intent v) ∧
     reads reads_signature (raw_signature raw) (v_signature v)) ∧
  (validate raw = Ok v →
     is_expired v (i_created_at (v_intent v)) = false ∧
     (try_from_intent (v_intent v) (v_signature v) = Ok v ↔ transportable (v_intent v))).
Proof.
  split; [apply validate_iff|]. intros E. apply validate_Ok in E as (_ & Hv & Hsch & Hexp). split.
  - rewrite Hv at 1. by rewrite (expiry_after_is_expired _ (v_signature v)), negb_true_iff in Hexp.
  - rewrite try_from_intent_Ok. split; [by intros (_ & _ & _ & ?)|done].
Qed.
End WithCodecs.

(** ** Sample payloads *)

Module AdmissionSamples.
(** Decoders good enough for the samples: a timestamp is its text's length. *)
Definition codecs : Codecs := {|
  state_type_from_value _ := Ok StFungibleBalance;
  authority_from_value _ := Err "unsupported";
  parse_from_rfc3339 s := Ok (slen s);
  show_time := u128_to_string;
  b64u_decode s := Ok s;
  canonicalize i := Ok (i_intent_id i);
|}.
Definition raw (tenant : string) : RawIntent :=
  mkRaw INTENT_SCHEMA tenant "int_1" "balance.credit" "alice" "gold" (Some (VString "fungible_balance")) 0 ∅ None
    "now" (Some "later") "b64u:AA" None.
Definition validated (tenant : string) : ValidatedIntent :=
  from_intent (intent_new tenant "int_1" "balance.credit" "alice" "gold" (Some StFungibleBalance) 0 ∅ None
    3 (Some 5) "AA") None.
End AdmissionSamples.

Lemma admission_sound_witness :
  validate AdmissionSamples.codecs (AdmissionSamples.raw "acme") = Ok (AdmissionSamples.validated "acme") ∧
  denotes AdmissionSamples.codecs (AdmissionSamples.raw "acme") (v_intent (AdmissionSamples.validated "acme")) ∧
  try_from_intent AdmissionSamples.codecs (v_intent (AdmissionSamples.validated "acme")) None =
    Ok (AdmissionSamples.validated "acme").
Proof.
  assert (validate AdmissionSamples.codecs (AdmissionSamples.raw "acme") = Ok (AdmissionSamples.validated "acme"))
    as E by (vm_compute; reflexivity).
  destruct (admission_sound AdmissionSamples.codecs (AdmissionSamples.raw "acme") (AdmissionSamples.validated "acme"))
    as [[Hd _] Ht].
  split; [exact E|]. split; [apply (Hd E)|]. apply (Ht E).
  split; [repeat constructor|]. split; [vm_compute; done|]. eexists. split; [reflexivity|]. vm_compute. done.
Defined.

(** The raw route does not look at tenant, actor and resource identifiers: an empty tenant,
    which the typed route refuses, is admitted. *)
Example raw_route_admits_empty_tenant :
  validate AdmissionSamples.codecs (AdmissionSamples.raw EmptyString) = Ok (AdmissionSamples.validated EmptyString) ∧
  try_from_intent AdmissionSamples.codecs (v_intent (AdmissionSamples.validated EmptyString)) None =
    Err (InvalidField "tenant identifier must not be empty").
Proof. by vm_compute. Qed.
