(* ===== verification/UniqueAsset.v ===== *)
(** * Unique asset rules

    Models [crates/statechronicle-profiles/src/unique_asset.rs]: the statuses, the
    operations and [UniqueAssetRules::check]. *)

From Stdlib Require Import ZArith String.
From stdpp Require Import prelude gmap strings.
From S2P Require Import Prelude Amount Domain Profile.
Open Scope Z_scope.

Module status.
Definition active : Status := "active".
Definition locked : Status := "locked".
Definition listed : Status := "listed".
Definition escrowed : Status := "escrowed".
Definition redeemed : Status := "redeemed".
Definition burned : Status := "burned".
Definition trade_held : Status := "trade_held".
Definition restricted : Status := "restricted".
Definition quarantined : Status := "quarantined".
Definition unsupported : Status := "unsupported".
Definition tombstoned : Status := "tombstoned".
End status.

Module op.
Definition asset_mint : Operation := "asset.mint".
Definition asset_transfer : Operation := "asset.transfer".
Definition asset_burn : Operation := "asset.burn".
Definition asset_lock : Operation := "asset.lock".
Definition asset_unlock : Operation := "asset.unlock".
Definition asset_redeem : Operation := "asset.redeem".
Definition asset_list : Operation := "asset.list".
Definition asset_delist : Operation := "asset.delist".
Definition asset_escrow : Operation := "asset.escrow".
Definition asset_release : Operation := "asset.release".
Definition asset_attach_content : Operation := "asset.attach_content".
Definition asset_detach_content : Operation := "asset.detach_content".
Definition asset_update_metadata : Operation := "asset.update_metadata".
Definition asset_restrict : Operation := "asset.restrict".
Definition asset_restore : Operation := "asset.restore".
Definition trade_lock : Operation := "trade.lock".
Definition trade_unlock : Operation := "trade.unlock".
Definition trade_settle : Operation := "trade.settle".

Definition all : list Operation :=
  [asset_mint; asset_transfer; asset_burn; asset_lock; asset_unlock; asset_redeem;
   asset_list; asset_delist; asset_escrow; asset_release; asset_attach_content;
   asset_detach_content; asset_update_metadata; asset_restrict; asset_restore;
   trade_lock; trade_unlock; trade_settle].

Definition authority_required : list Operation := [asset_transfer; asset_burn; trade_settle].
End op.

Definition check_mint (current : option StateProjection) (inputs : Inputs) : presult unit :=
  match current with
  | Some current =>
      let? from := state_str current "status" in
      Err (InvalidTransition from "asset.mint")
  | None => input_str inputs "to_owner" ;? Ok tt
  end.

Definition check_transfer (current : option StateProjection) (inputs : Inputs) : presult unit :=
  let? current := require_from current "asset.transfer" [status.active] in
  let? from_owner := input_str inputs "from_owner" in
  input_str inputs "to_owner" ;?
  let? owner := state_str current "owner" in
  if negb (String.eqb from_owner owner) then Err (OwnershipMismatch owner from_owner) else Ok tt.

Definition check_burn (current : option StateProjection) (inputs : Inputs) : presult unit :=
  let? current := require_from current "asset.burn" [status.active] in
  let? from_owner := input_str inputs "from_owner" in
  let? owner := state_str current "owner" in
  if negb (String.eqb from_owner owner) then Err (OwnershipMismatch owner from_owner) else Ok tt.

Definition check_trade_lock (current : option StateProjection) (inputs : Inputs) : presult unit :=
  let? current := require_from current "trade.lock" [status.active] in
  let? from_owner := input_str inputs "from_owner" in
  input_str inputs "trade_id" ;?
  let? owner := state_str current "owner" in
  if negb (String.eqb from_owner owner) then Err (OwnershipMismatch owner from_owner) else Ok tt.

Definition trade_id_mismatch (trade_id : string) : ProfileError :=
  PInvalidInput ("trade_id " +:+ tick trade_id +:+ " does not match stored trade_id").

Definition check_trade_unlock (current : option StateProjection) (inputs : Inputs) : presult unit :=
  let? current := require_from current "trade.unlock" [status.trade_held] in
  let? trade_id := input_str inputs "trade_id" in
  let? stored := state_trade_id current in
  if negb (String.eqb trade_id stored) then Err (trade_id_mismatch trade_id) else Ok tt.

Definition check_value_leg (inputs : Inputs) : presult unit :=
  let declared := contains_key inputs "value_resource" || contains_key inputs "value_amount"
                  || contains_key inputs "value_to_subject" in
  if negb declared then Ok tt
  else
    input_str inputs "value_resource" ;?
    input_amount inputs "value_amount" ;?
    input_str inputs "value_to_subject" ;?
    Ok tt.

Definition check_trade_settle (current : option StateProjection) (inputs : Inputs) : presult unit :=
  let? current := require_from current "trade.settle" [status.trade_held] in
  let? from_owner := input_str inputs "from_owner" in
  input_str inputs "to_owner" ;?
  let? trade_id := input_str inputs "trade_id" in
  check_value_leg inputs ;?
  let? owner := state_str current "owner" in
  let? stored := state_trade_id current in
  if negb (String.eqb from_owner owner) then Err (OwnershipMismatch owner from_owner)
  else if negb (String.eqb trade_id stored) then Err (trade_id_mismatch trade_id)
  else Ok tt.

Definition restrictable : list Status :=
  [status.active; status.locked; status.listed; status.escrowed; status.trade_held].

(** [UniqueAssetRules::check]. *)
Definition check (operation : Operation) (current : option StateProjection) (inputs : Inputs)
    : presult unit :=
  if negb (contains op.all operation) then Err (UnknownOperation operation)
  else if String.eqb operation op.asset_mint then check_mint current inputs
  else if String.eqb operation op.asset_transfer then check_transfer current inputs
  else if String.eqb operation op.asset_burn then check_burn current inputs
  else if String.eqb operation op.asset_lock then single_from current "asset.lock" [status.active]
  else if String.eqb operation op.asset_unlock then single_from current "asset.unlock" [status.locked]
  else if String.eqb operation op.asset_list then single_from current "asset.list" [status.active]
  else if String.eqb operation op.asset_delist then single_from current "asset.delist" [status.listed]
  else if String.eqb operation op.asset_escrow then single_from current "asset.escrow" [status.active]
  else if String.eqb operation op.asset_release then single_from current "asset.release" [status.escrowed]
  else if String.eqb operation op.asset_redeem then single_from current "asset.redeem" [status.listed]
  else if String.eqb operation op.asset_attach_content then
    single_from current "asset.attach_content" [status.active]
  else if String.eqb operation op.asset_detach_content then
    single_from current "asset.detach_content" [status.active]
  else if String.eqb operation op.asset_update_metadata then
    single_from current "asset.update_metadata" [status.active]
  else if String.eqb operation op.asset_restrict then
    single_from current "asset.restrict" restrictable
  else if String.eqb operation op.asset_restore then
    single_from current "asset.restore" [status.restricted; status.quarantined; status.unsupported]
  else if String.eqb operation op.trade_lock then check_trade_lock current inputs
  else if String.eqb operation op.trade_unlock then check_trade_unlock current inputs
  else if String.eqb operation op.trade_settle then check_trade_settle current inputs
  else Err (UnknownOperation operation).

Definition requires_authority (operation : Operation) : bool :=
  contains op.authority_required operation.
