(* ===== verification/PaidUniqueAsset.v ===== *)
(** * Paid unique asset rules

    Models [crates/statechronicle-profiles/src/paid_unique_asset.rs], the overlay over
    the unique asset rules: owner consent, exceptional statuses and hard deletion. *)

From Stdlib Require Import ZArith String.
From stdpp Require Import prelude gmap strings.
From S2P Require Import Prelude Amount Domain Profile UniqueAsset.
Open Scope Z_scope.

Module exceptional_status.
Definition legal_hold : Status := "legal_hold".
Definition fraud_lock : Status := "fraud_lock".
Definition policy_restricted : Status := "policy_restricted".
End exceptional_status.

Module paid_op.
Definition asset_hard_delete : Operation := "asset.hard_delete".

Definition all : list Operation :=
  [op.asset_mint; op.asset_transfer; op.asset_burn; op.asset_lock; op.asset_unlock;
   op.asset_redeem; op.asset_list; op.asset_delist; op.asset_escrow; op.asset_release;
   op.asset_attach_content; op.asset_detach_content; op.asset_update_metadata;
   op.asset_restrict; op.asset_restore; asset_hard_delete; op.trade_lock; op.trade_unlock;
   op.trade_settle].

Definition authority_required : list Operation :=
  [op.asset_transfer; op.asset_burn; asset_hard_delete; op.asset_restrict; op.asset_restore;
   op.trade_settle].
End paid_op.

Definition exceptional_statuses : list Status :=
  [status.restricted; status.quarantined; status.unsupported;
   exceptional_status.legal_hold; exceptional_status.fraud_lock;
   exceptional_status.policy_restricted].

(** [inputs.get("authorized_by_owner").and_then(as_bool) == Some(true)]. *)
Definition owner_consents (inputs : Inputs) : bool :=
  match inputs !! "authorized_by_owner" ≫= as_bool with Some true => true | _ => false end.

Definition check_hard_delete (current : option StateProjection) (inputs : Inputs) : presult unit :=
  let? current := require_current current "asset.hard_delete" in
  let? owner := state_str current "owner" in
  let? actor := input_str inputs "actor" in
  if negb (String.eqb actor owner) then Err (OwnershipMismatch owner actor)
  else if negb (owner_consents inputs) then Err HardDeleteForbidden
  else Ok tt.

Definition check_owner_consent_overlay (current : option StateProjection) (inputs : Inputs)
    (operation : string) (allowed_from : list Status) : presult unit :=
  let? current := require_from current operation allowed_from in
  let? owner := state_str current "owner" in
  match inputs !! "actor" ≫= as_str with
  | None => Ok tt
  | Some actor =>
      if String.eqb actor owner then Ok tt
      else if negb (owner_consents inputs) then Err (OwnershipMismatch owner actor)
      else Ok tt
  end.

Definition check_transfer_overlay (current : option StateProjection) (inputs : Inputs) : presult unit :=
  let? current := require_from current "asset.transfer" [status.active] in
  let? owner := state_str current "owner" in
  match inputs !! "actor" ≫= as_str with
  | None => Ok tt
  | Some actor =>
      if String.eqb actor owner then Ok tt
      else if negb (owner_consents inputs) then Err (OwnershipMismatch owner actor)
      else Ok tt
  end.

Definition check_trade_lock_overlay (current : option StateProjection) (inputs : Inputs) :=
  check_owner_consent_overlay current inputs "trade.lock" [status.active].
Definition check_trade_settle_overlay (current : option StateProjection) (inputs : Inputs) :=
  check_owner_consent_overlay current inputs "trade.settle" [status.trade_held].

Definition check_restrict_overlay (current : option StateProjection) (inputs : Inputs) : presult unit :=
  let? current := require_from current "asset.restrict" restrictable in
  let? owner := state_str current "owner" in
  match inputs !! "owner" ≫= as_str with
  | Some provided =>
      if negb (String.eqb provided owner) then Err (OwnershipMismatch owner provided) else Ok tt
  | None => Ok tt
  end ;?
  match inputs !! "status" ≫= as_str with
  | Some target =>
      let bad := PInvalidInput ("`status` " +:+ tick target +:+ " is not an exceptional status") in
      match status_try_from_str target with
      | Err _ => Err bad
      | Ok target_status =>
          if negb (contains exceptional_statuses target_status) then Err bad else Ok tt
      end
  | None => Ok tt
  end.

Definition check_paid_restore (current : option StateProjection) : presult unit :=
  require_from current "asset.restore" exceptional_statuses ;? Ok tt.

(** [PaidUniqueAssetRules::check]. *)
Definition check (operation : Operation) (current : option StateProjection) (inputs : Inputs)
    : presult unit :=
  if String.eqb operation paid_op.asset_hard_delete then check_hard_delete current inputs
  else if String.eqb operation op.asset_restore then check_paid_restore current
  else if negb (contains op.all operation) then Err (UnknownOperation operation)
  else
    UniqueAsset.check operation current inputs ;?
    if String.eqb operation op.asset_transfer then check_transfer_overlay current inputs
    else if String.eqb operation op.asset_restrict then check_restrict_overlay current inputs
    else if String.eqb operation op.trade_lock then check_trade_lock_overlay current inputs
    else if String.eqb operation op.trade_settle then check_trade_settle_overlay current inputs
    else Ok tt.

Definition requires_authority (operation : Operation) : bool :=
  contains paid_op.authority_required operation.
