(* ===== verification/ConsumableStack.v ===== *)
(** * Consumable stack rules

    Models [crates/statechronicle-profiles/src/consumable_stack.rs]. *)

From Stdlib Require Import ZArith String.
From stdpp Require Import prelude gmap strings.
From S2P Require Import Prelude Amount Domain Profile.
Open Scope Z_scope.

Module op.
Definition stack_create : Operation := "stack.create".
Definition stack_credit : Operation := "stack.credit".
Definition stack_debit : Operation := "stack.debit".
Definition stack_consume : Operation := "stack.consume".
Definition stack_transfer : Operation := "stack.transfer".
Definition stack_reserve : Operation := "stack.reserve".
Definition stack_release : Operation := "stack.release".
Definition stack_expire : Operation := "stack.expire".
Definition stack_adjust : Operation := "stack.adjust".

Definition all : list Operation :=
  [stack_create; stack_credit; stack_debit; stack_consume; stack_transfer; stack_reserve;
   stack_release; stack_expire; stack_adjust].
End op.

Definition current_quantity (current : StateProjection) : presult Amount :=
  state_amount current "quantity".

Definition check_create (current : option StateProjection) (inputs : Inputs) : presult unit :=
  require_unborn current "stack.create" ;?
  input_str inputs "subject" ;?
  input_str inputs "unit" ;?
  input_amount inputs "quantity" ;?
  Ok tt.

Definition check_credit (current : option StateProjection) (inputs : Inputs) : presult unit :=
  require_current current "stack.credit" ;?
  input_amount inputs "quantity" ;?
  Ok tt.

Definition check_debit (current : option StateProjection) (inputs : Inputs) : presult unit :=
  let? current := require_current current "stack.debit" in
  let? available := current_quantity current in
  let? requested := input_amount inputs "quantity" in
  require_positive_available requested available.

Definition check_consume (current : option StateProjection) (inputs : Inputs) : presult unit :=
  let? current := require_current current "stack.consume" in
  let? available := current_quantity current in
  let? requested := input_amount inputs "quantity" in
  require_positive_available requested available.

Definition check_transfer (current : option StateProjection) (inputs : Inputs) : presult unit :=
  let? current := require_current current "stack.transfer" in
  input_str inputs "to_subject" ;?
  let? available := current_quantity current in
  let? requested := input_amount inputs "quantity" in
  require_positive_available requested available.

Definition check_reserve (current : option StateProjection) (inputs : Inputs) : presult unit :=
  let? current := require_current current "stack.reserve" in
  let? available := current_quantity current in
  let? requested := input_amount inputs "quantity" in
  require_positive_available requested available.

Definition check_release (current : option StateProjection) (inputs : Inputs) : presult unit :=
  require_current current "stack.release" ;?
  let? requested := input_amount inputs "quantity" in
  if is_zero requested then Err NonPositiveAmount else Ok tt.

Definition check_expire (current : option StateProjection) : presult unit :=
  require_current current "stack.expire" ;? Ok tt.

Definition check_adjust (current : option StateProjection) (inputs : Inputs) : presult unit :=
  require_current current "stack.adjust" ;?
  input_amount inputs "quantity" ;?
  Ok tt.

(** [ConsumableStackRules::check]. *)
Definition check (operation : Operation) (current : option StateProjection) (inputs : Inputs)
    : presult unit :=
  if negb (contains op.all operation) then Err (UnknownOperation operation)
  else if String.eqb operation op.stack_create then check_create current inputs
  else if String.eqb operation op.stack_credit then check_credit current inputs
  else if String.eqb operation op.stack_debit then check_debit current inputs
  else if String.eqb operation op.stack_consume then check_consume current inputs
  else if String.eqb operation op.stack_transfer then check_transfer current inputs
  else if String.eqb operation op.stack_reserve then check_reserve current inputs
  else if String.eqb operation op.stack_release then check_release current inputs
  else if String.eqb operation op.stack_expire then check_expire current
  else if String.eqb operation op.stack_adjust then check_adjust current inputs
  else Err (UnknownOperation operation).
