(* ===== verification/FungibleBalance.v ===== *)
(** * Fungible balance rules

    Models [crates/statechronicle-profiles/src/fungible_balance.rs]. *)

From Stdlib Require Import ZArith String.
From stdpp Require Import prelude gmap strings.
From S2P Require Import Prelude Amount Domain Profile.
Open Scope Z_scope.

Module op.
Definition balance_create : Operation := "balance.create".
Definition balance_mint : Operation := "balance.mint".
Definition balance_credit : Operation := "balance.credit".
Definition balance_debit : Operation := "balance.debit".
Definition balance_transfer : Operation := "balance.transfer".
Definition balance_reserve : Operation := "balance.reserve".
Definition balance_release : Operation := "balance.release".
Definition balance_spend : Operation := "balance.spend".
Definition balance_burn : Operation := "balance.burn".
Definition balance_convert : Operation := "balance.convert".

Definition all : list Operation :=
  [balance_create; balance_mint; balance_credit; balance_debit; balance_transfer;
   balance_reserve; balance_release; balance_spend; balance_burn; balance_convert].
End op.

Definition current_balance (current : StateProjection) : presult Amount :=
  state_amount current "balance".

Definition check_create (current : option StateProjection) (inputs : Inputs) : presult unit :=
  require_unborn current "balance.create" ;?
  input_str inputs "subject" ;?
  input_str inputs "unit" ;?
  input_amount inputs "balance" ;?
  Ok tt.

Definition check_mint (current : option StateProjection) (inputs : Inputs) : presult unit :=
  let? current := require_current current "balance.mint" in
  input_str inputs "authorized_by" ;?
  let? amount := input_amount inputs "amount" in
  current_balance current ;?
  require_positive amount.

Definition check_credit (current : option StateProjection) (inputs : Inputs) : presult unit :=
  let? current := require_current current "balance.credit" in
  let? amount := input_amount inputs "amount" in
  current_balance current ;?
  require_positive amount.

Definition check_release (current : option StateProjection) (inputs : Inputs) : presult unit :=
  let? current := require_current current "balance.release" in
  let? amount := input_amount inputs "amount" in
  current_balance current ;?
  require_positive amount.

Definition check_debit (current : option StateProjection) (inputs : Inputs) : presult unit :=
  let? current := require_current current "balance.debit" in
  let? balance := current_balance current in
  let? amount := input_amount inputs "amount" in
  require_positive_available amount balance.

Definition check_transfer (current : option StateProjection) (inputs : Inputs) : presult unit :=
  let? current := require_current current "balance.transfer" in
  input_str inputs "to_subject" ;?
  let? balance := current_balance current in
  let? amount := input_amount inputs "amount" in
  require_positive_available amount balance.

Definition check_reserve (current : option StateProjection) (inputs : Inputs) : presult unit :=
  let? current := require_current current "balance.reserve" in
  let? balance := current_balance current in
  let? amount := input_amount inputs "amount" in
  require_positive_available amount balance.

Definition check_spend (current : option StateProjection) (inputs : Inputs) : presult unit :=
  let? current := require_current current "balance.spend" in
  let? balance := current_balance current in
  let? amount := input_amount inputs "amount" in
  require_positive_available amount balance.

Definition check_burn (current : option StateProjection) (inputs : Inputs) : presult unit :=
  let? current := require_current current "balance.burn" in
  input_str inputs "authorized_by" ;?
  let? balance := current_balance current in
  let? amount := input_amount inputs "amount" in
  require_positive_available amount balance.

Definition check_convert (current : option StateProjection) (inputs : Inputs) : presult unit :=
  let? current := require_current current "balance.convert" in
  input_str inputs "to_unit" ;?
  let? balance := current_balance current in
  let? amount := input_amount inputs "amount" in
  require_positive_available amount balance.

(** [FungibleBalanceRules::check]. *)
Definition check (operation : Operation) (current : option StateProjection) (inputs : Inputs)
    : presult unit :=
  if negb (contains op.all operation) then Err (UnknownOperation operation)
  else if String.eqb operation op.balance_create then check_create current inputs
  else if String.eqb operation op.balance_mint then check_mint current inputs
  else if String.eqb operation op.balance_credit then check_credit current inputs
  else if String.eqb operation op.balance_debit then check_debit current inputs
  else if String.eqb operation op.balance_transfer then check_transfer current inputs
  else if String.eqb operation op.balance_reserve then check_reserve current inputs
  else if String.eqb operation op.balance_release then check_release current inputs
  else if String.eqb operation op.balance_spend then check_spend current inputs
  else if String.eqb operation op.balance_burn then check_burn current inputs
  else if String.eqb operation op.balance_convert then check_convert current inputs
  else Err (UnknownOperation operation).
