(* ===== verification/Entitlement.v ===== *)
(** * Entitlement rules

    Models [crates/statechronicle-profiles/src/entitlement.rs]. *)

From Stdlib Require Import ZArith String.
From stdpp Require Import prelude gmap strings.
From S2P Require Import Prelude Amount Domain Profile.
Open Scope Z_scope.

Module status.
Definition granted : Status := "granted".
Definition active : Status := "active".
Definition suspended : Status := "suspended".
Definition expired : Status := "expired".
Definition revoked : Status := "revoked".
End status.

Module op.
Definition entitlement_grant : Operation := "entitlement.grant".
Definition entitlement_activate : Operation := "entitlement.activate".
Definition entitlement_suspend : Operation := "entitlement.suspend".
Definition entitlement_restore : Operation := "entitlement.restore".
Definition entitlement_expire : Operation := "entitlement.expire".
Definition entitlement_revoke : Operation := "entitlement.revoke".
Definition entitlement_transfer : Operation := "entitlement.transfer".

Definition all : list Operation :=
  [entitlement_grant; entitlement_activate; entitlement_suspend; entitlement_restore;
   entitlement_expire; entitlement_revoke; entitlement_transfer].
End op.

(** [Value::is_boolean]. *)
Definition is_boolean (v : Value) : bool := match v with VBool _ => true | _ => false end.

Definition check_grant (current : option StateProjection) (inputs : Inputs) : presult unit :=
  require_unborn current "entitlement.grant" ;?
  input_str inputs "subject" ;?
  match inputs !! "transferable" with
  | Some value =>
      if negb (is_boolean value) then Err (PInvalidInput "`transferable` must be a boolean")
      else Ok tt
  | None => Ok tt
  end.

Definition is_transferable (current : StateProjection) : presult bool :=
  state_bool current "transferable".

Definition check_transfer (current : option StateProjection) (inputs : Inputs) : presult unit :=
  let? current := require_from current "entitlement.transfer" [status.granted; status.active] in
  let? transferable := is_transferable current in
  if negb transferable then Err NotTransferable
  else input_str inputs "to_subject" ;? Ok tt.

(** [EntitlementRules::check]. *)
Definition check (operation : Operation) (current : option StateProjection) (inputs : Inputs)
    : presult unit :=
  if negb (contains op.all operation) then Err (UnknownOperation operation)
  else if String.eqb operation op.entitlement_grant then check_grant current inputs
  else if String.eqb operation op.entitlement_activate then
    single_from current "entitlement.activate" [status.granted]
  else if String.eqb operation op.entitlement_suspend then
    single_from current "entitlement.suspend" [status.active]
  else if String.eqb operation op.entitlement_restore then
    single_from current "entitlement.restore" [status.suspended]
  else if String.eqb operation op.entitlement_expire then
    single_from current "entitlement.expire" [status.granted; status.active; status.suspended]
  else if String.eqb operation op.entitlement_revoke then
    single_from current "entitlement.revoke" [status.granted; status.active]
  else if String.eqb operation op.entitlement_transfer then check_transfer current inputs
  else Err (UnknownOperation operation).
