(* ===== verification/Meter.v ===== *)
(** * Meter rules

    Models [crates/statechronicle-profiles/src/meter.rs]. *)

From Stdlib Require Import ZArith String.
From stdpp Require Import prelude gmap strings.
From S2P Require Import Prelude Amount Domain Profile.
Open Scope Z_scope.

Module op.
Definition meter_create : Operation := "meter.create".
Definition meter_consume : Operation := "meter.consume".
Definition meter_refill : Operation := "meter.refill".
Definition meter_set_maximum : Operation := "meter.set_maximum".
Definition meter_reset : Operation := "meter.reset".
Definition meter_expire : Operation := "meter.expire".

Definition all : list Operation :=
  [meter_create; meter_consume; meter_refill; meter_set_maximum; meter_reset; meter_expire].
End op.

Definition current_remaining (current : StateProjection) : presult Amount :=
  state_amount current "remaining".
Definition current_maximum (current : StateProjection) : presult Amount :=
  state_amount current "maximum".

Definition check_create (current : option StateProjection) (inputs : Inputs) : presult unit :=
  require_unborn current "meter.create" ;?
  input_str inputs "subject" ;?
  let? remaining := input_amount inputs "remaining" in
  let? maximum := input_amount inputs "maximum" in
  if amount_ltb maximum remaining then
    Err (PInvalidInput "`remaining` must not exceed `maximum`")
  else Ok tt.

Definition check_consume (current : option StateProjection) (inputs : Inputs) : presult unit :=
  let? current := require_current current "meter.consume" in
  let? remaining := current_remaining current in
  let? amount := input_amount inputs "amount" in
  if is_zero amount then Err NonPositiveAmount
  else if amount_ltb remaining amount then Err (InsufficientQuantity remaining amount)
  else Ok tt.

Definition check_refill (current : option StateProjection) : presult unit :=
  let? current := require_current current "meter.refill" in
  current_remaining current ;?
  current_maximum current ;?
  Ok tt.

Definition check_set_maximum (current : option StateProjection) (inputs : Inputs) : presult unit :=
  require_current current "meter.set_maximum" ;?
  input_amount inputs "maximum" ;?
  Ok tt.

Definition check_reset (current : option StateProjection) : presult unit :=
  require_current current "meter.reset" ;? Ok tt.

Definition check_expire (current : option StateProjection) : presult unit :=
  require_current current "meter.expire" ;? Ok tt.

(** [MeterRules::check]. *)
Definition check (operation : Operation) (current : option StateProjection) (inputs : Inputs)
    : presult unit :=
  if negb (contains op.all operation) then Err (UnknownOperation operation)
  else if String.eqb operation op.meter_create then check_create current inputs
  else if String.eqb operation op.meter_consume then check_consume current inputs
  else if String.eqb operation op.meter_refill then check_refill current
  else if String.eqb operation op.meter_set_maximum then check_set_maximum current inputs
  else if String.eqb operation op.meter_reset then check_reset current
  else if String.eqb operation op.meter_expire then check_expire current
  else Err (UnknownOperation operation).
