(* ===== verification/Marketplace.v ===== *)
(** * Listing and escrow rules

    Models [crates/statechronicle-profiles/src/marketplace.rs]. *)

From Stdlib Require Import ZArith String.
From stdpp Require Import prelude gmap strings.
From S2P Require Import Prelude Amount Domain Profile.
Open Scope Z_scope.

Module listing_status.
Definition listed : Status := "listed".
Definition cancelled : Status := "cancelled".
Definition sold : Status := "sold".
Definition expired : Status := "expired".
End listing_status.

Module escrow_status.
Definition locked : Status := "locked".
Definition released : Status := "released".
Definition refunded : Status := "refunded".
End escrow_status.

Module op.
Definition listing_create : Operation := "listing.create".
Definition listing_cancel : Operation := "listing.cancel".
Definition listing_buy : Operation := "listing.buy".
Definition listing_expire : Operation := "listing.expire".
Definition escrow_lock : Operation := "escrow.lock".
Definition escrow_release : Operation := "escrow.release".
Definition escrow_refund : Operation := "escrow.refund".

Definition listing_operations : list Operation :=
  [listing_create; listing_cancel; listing_buy; listing_expire].
Definition escrow_operations : list Operation := [escrow_lock; escrow_release; escrow_refund].
End op.

Definition check_listing_create (current : option StateProjection) (inputs : Inputs) : presult unit :=
  require_unborn current "listing.create" ;?
  input_str inputs "seller" ;?
  Ok tt.

Definition check_listing_buy (current : option StateProjection) (inputs : Inputs) : presult unit :=
  require_from current "listing.buy" [listing_status.listed] ;?
  input_str inputs "buyer" ;?
  Ok tt.

Definition check_escrow_lock (current : option StateProjection) (inputs : Inputs) : presult unit :=
  require_unborn current "escrow.lock" ;?
  input_str inputs "buyer" ;?
  input_str inputs "seller" ;?
  Ok tt.

(** [ListingRules::check]. *)
Definition check_listing (operation : Operation) (current : option StateProjection) (inputs : Inputs)
    : presult unit :=
  if negb (contains op.listing_operations operation) then Err (UnknownOperation operation)
  else if String.eqb operation op.listing_create then check_listing_create current inputs
  else if String.eqb operation op.listing_cancel then
    single_from current "listing.cancel" [listing_status.listed]
  else if String.eqb operation op.listing_buy then check_listing_buy current inputs
  else if String.eqb operation op.listing_expire then
    single_from current "listing.expire" [listing_status.listed]
  else Err (UnknownOperation operation).

(** [EscrowRules::check]. *)
Definition check_escrow (operation : Operation) (current : option StateProjection) (inputs : Inputs)
    : presult unit :=
  if negb (contains op.escrow_operations operation) then Err (UnknownOperation operation)
  else if String.eqb operation op.escrow_lock then check_escrow_lock current inputs
  else if String.eqb operation op.escrow_release then
    single_from current "escrow.release" [escrow_status.locked]
  else if String.eqb operation op.escrow_refund then
    single_from current "escrow.refund" [escrow_status.locked]
  else Err (UnknownOperation operation).
