(* ===== verification/Transition.v ===== *)
(** * After-state rules

    Models [crates/statechronicle-profiles/src/transition.rs]: the deterministic
    reducer [apply] with one function per state type, and the destination credit of a
    transfer.  The module has its own readers of inputs and payloads, which differ from
    the registry's in their errors and in the fields they expose; they are the
    [Helpers] below. *)

From Stdlib Require Import ZArith Lia Ascii String.
From stdpp Require Import prelude gmap strings.
From S2P Require Import Prelude Amount Domain Profile UniqueAsset PaidUniqueAsset.
From S2P Require Import ConsumableStack FungibleBalance Entitlement Meter Marketplace.
Open Scope Z_scope.

Module Helpers.
Definition require_current (before : option StateProjection) (operation : Operation)
    : presult StateProjection :=
  ok_or before (PInvalidInput ("operation " +:+ tick operation +:+ " requires an existing resource")).

Definition input_str (inputs : Inputs) (key : string) : presult string :=
  let? value := ok_or (inputs !! key) (PInvalidInput ("missing input " +:+ tick key)) in
  let? text := ok_or (as_str value)
    (PInvalidInput ("input " +:+ tick key +:+ " must be a string")) in
  if str_is_empty text then
    Err (PInvalidInput ("input " +:+ tick key +:+ " must not be empty"))
  else Ok text.

Definition parse_amount_str (value : Value) (key : string) : presult Amount :=
  let bad := PInvalidInput (tick key +:+ " must be an integer string") in
  let? text := ok_or (as_str value) bad in
  if str_is_empty text then Err bad
  else if str_any is_float_char text then
    Err (PInvalidInput (tick key +:+ " must be an integer string (floats are forbidden)"))
  else map_err (fun _ => bad) (Amount.try_from_str text).

Definition input_amount (inputs : Inputs) (key : string) : presult Amount :=
  let? value := ok_or (inputs !! key) (PInvalidInput ("missing input " +:+ tick key)) in
  parse_amount_str value key.

Definition state_str (projection : StateProjection) (key : string) : presult string :=
  let? text :=
    match p_state projection with
    | RUniqueAsset v =>
        if String.eqb key "owner" then Ok (ua_owner v)
        else if String.eqb key "status" then Ok (ua_status v) else Err (no_field key)
    | RConsumableStack v =>
        if String.eqb key "subject" then Ok (cs_subject v)
        else if String.eqb key "unit" then Ok (cs_unit v) else Err (no_field key)
    | RFungibleBalance v =>
        if String.eqb key "subject" then Ok (fb_subject v)
        else if String.eqb key "unit" then Ok (fb_unit v) else Err (no_field key)
    | REntitlement v =>
        if String.eqb key "subject" then Ok (en_subject v)
        else if String.eqb key "status" then Ok (en_status v) else Err (no_field key)
    | RMeteredResource v =>
        if String.eqb key "subject" then Ok (mt_subject v) else Err (no_field key)
    | RListing v =>
        if String.eqb key "seller" then Ok (li_seller v) else Err (no_field key)
    | RCustom _ => Err (no_field key)
    | REscrow v =>
        if String.eqb key "buyer" then Ok (es_buyer v)
        else if String.eqb key "seller" then Ok (es_seller v) else Err (no_field key)
    end in
  if str_is_empty text then Err (PInvalidInput (tick key +:+ " must not be empty"))
  else Ok text.

(** [Status::new(..).map_err(|error| invalid_input(error.to_string()))]. *)
Definition status_new (status : string) : presult Status :=
  map_err (fun e => PInvalidInput (domain_error_to_string e)) (status_try_from_str status).

Definition overflow (field : string) : ProfileError := PInvalidInput (tick field +:+ " overflow").
Definition underflow (field : string) : ProfileError := PInvalidInput (tick field +:+ " underflow").
End Helpers.
Import Helpers.

Definition state_type_of (before : option StateProjection) (operation : Operation)
    : presult StateType :=
  match before with
  | Some current => Ok (p_state_type current)
  | None =>
      ok_or (state_type_hint operation)
        (PInvalidInput ("cannot determine state type for operation " +:+ tick operation))
  end.

(** ** Payload builders *)

Definition unique_asset (owner status : string) (trade_id : option string) : presult ResourceState :=
  let? st := status_new status in Ok (RUniqueAsset (mkUnique owner st trade_id)).

Definition listing (seller status : string) : presult ResourceState :=
  let? st := status_new status in Ok (RListing (mkListing seller st)).

Definition escrow (buyer seller status : string) : presult ResourceState :=
  let? st := status_new status in Ok (REscrow (mkEscrow buyer seller st)).

Definition entitlement_with_status (before : option StateProjection) (operation : Operation)
    (status : string) : presult ResourceState :=
  let? current := require_current before operation in
  let? subject := state_str current "subject" in
  let? transferable := state_bool current "transferable" in
  let? st := status_new status in
  Ok (REntitlement (mkEntitlement subject st transferable)).

Definition listing_with_status (before : option StateProjection) (operation : Operation)
    (status : string) : presult ResourceState :=
  let? current := require_current before operation in
  let? seller := state_str current "seller" in
  listing seller status.

Definition escrow_with_status (before : option StateProjection) (operation : Operation)
    (status : string) : presult ResourceState :=
  let? current := require_current before operation in
  let? buyer := state_str current "buyer" in
  let? seller := state_str current "seller" in
  escrow buyer seller status.

(** ** One reducer per state type *)

Definition apply_unique_asset (before : option StateProjection) (operation : Operation)
    (inputs : Inputs) : presult ResourceState :=
  let? owner :=
    match before with Some current => state_str current "owner" | None => Ok EmptyString end in
  let op_is := String.eqb operation in
  if op_is UniqueAsset.op.asset_mint || op_is UniqueAsset.op.asset_transfer then
    let? to_owner := input_str inputs "to_owner" in
    unique_asset to_owner UniqueAsset.status.active None
  else if op_is UniqueAsset.op.asset_burn then unique_asset owner UniqueAsset.status.burned None
  else if op_is UniqueAsset.op.asset_lock then unique_asset owner UniqueAsset.status.locked None
  else if op_is UniqueAsset.op.asset_unlock then unique_asset owner UniqueAsset.status.active None
  else if op_is UniqueAsset.op.asset_list then unique_asset owner UniqueAsset.status.listed None
  else if op_is UniqueAsset.op.asset_delist then unique_asset owner UniqueAsset.status.active None
  else if op_is UniqueAsset.op.asset_escrow then unique_asset owner UniqueAsset.status.escrowed None
  else if op_is UniqueAsset.op.asset_release then unique_asset owner UniqueAsset.status.active None
  else if op_is UniqueAsset.op.asset_redeem then unique_asset owner UniqueAsset.status.redeemed None
  else if op_is UniqueAsset.op.asset_restrict then
    let target := default "restricted" (inputs !! "status" ≫= as_str) in
    unique_asset owner target None
  else if op_is UniqueAsset.op.asset_restore then unique_asset owner UniqueAsset.status.active None
  else if op_is paid_op.asset_hard_delete then unique_asset owner UniqueAsset.status.tombstoned None
  else if op_is UniqueAsset.op.trade_lock then
    let? current := require_current before operation in
    input_str inputs "from_owner" ;?
    let? trade_id := input_str inputs "trade_id" in
    let? current_owner := state_str current "owner" in
    unique_asset current_owner UniqueAsset.status.trade_held (Some trade_id)
  else if op_is UniqueAsset.op.trade_unlock then
    let? current := require_current before operation in
    input_str inputs "trade_id" ;?
    let? current_owner := state_str current "owner" in
    unique_asset current_owner UniqueAsset.status.active None
  else if op_is UniqueAsset.op.trade_settle then
    require_current before operation ;?
    input_str inputs "from_owner" ;?
    let? to_owner := input_str inputs "to_owner" in
    input_str inputs "trade_id" ;?
    unique_asset to_owner UniqueAsset.status.active None
  else if op_is UniqueAsset.op.asset_attach_content || op_is UniqueAsset.op.asset_detach_content
       || op_is UniqueAsset.op.asset_update_metadata then
    match before with
    | Some current => Ok (p_state current)
    | None => Err (PInvalidInput "operation requires an existing resource")
    end
  else Err (PInvalidInput ("unknown unique asset operation " +:+ tick operation)).

Definition apply_stack (before : option StateProjection) (operation : Operation)
    (inputs : Inputs) : presult ResourceState :=
  let op_is := String.eqb operation in
  if op_is ConsumableStack.op.stack_create then
    let? subject := input_str inputs "subject" in
    let? unit := input_str inputs "unit" in
    let? quantity := input_amount inputs "quantity" in
    Ok (RConsumableStack (mkStack subject quantity unit))
  else if op_is ConsumableStack.op.stack_credit || op_is ConsumableStack.op.stack_release then
    let? current := require_current before operation in
    let? subject := state_str current "subject" in
    let? unit := state_str current "unit" in
    let? quantity := state_amount current "quantity" in
    let? amount := input_amount inputs "quantity" in
    let? next := ok_or (checked_add quantity amount) (overflow "stack quantity") in
    Ok (RConsumableStack (mkStack subject next unit))
  else if op_is ConsumableStack.op.stack_debit || op_is ConsumableStack.op.stack_consume
       || op_is ConsumableStack.op.stack_reserve then
    let? current := require_current before operation in
    let? subject := state_str current "subject" in
    let? unit := state_str current "unit" in
    let? quantity := state_amount current "quantity" in
    let? amount := input_amount inputs "quantity" in
    let? next := ok_or (checked_sub quantity amount) (underflow "stack quantity") in
    Ok (RConsumableStack (mkStack subject next unit))
  else if op_is ConsumableStack.op.stack_transfer then
    let? current := require_current before operation in
    input_str inputs "to_subject" ;?
    let? subject := state_str current "subject" in
    let? unit := state_str current "unit" in
    let? quantity := state_amount current "quantity" in
    let? amount := input_amount inputs "quantity" in
    let? next := ok_or (checked_sub quantity amount) (underflow "stack quantity") in
    Ok (RConsumableStack (mkStack subject next unit))
  else if op_is ConsumableStack.op.stack_adjust then
    let? current := require_current before operation in
    let? subject := state_str current "subject" in
    let? unit := state_str current "unit" in
    let? quantity := input_amount inputs "quantity" in
    Ok (RConsumableStack (mkStack subject quantity unit))
  else if op_is ConsumableStack.op.stack_expire then
    let? current := require_current before operation in
    let? subject := state_str current "subject" in
    let? unit := state_str current "unit" in
    Ok (RConsumableStack (mkStack subject ZERO unit))
  else Err (PInvalidInput ("unknown consumable stack operation " +:+ tick operation)).

Definition apply_balance (before : option StateProjection) (operation : Operation)
    (inputs : Inputs) : presult ResourceState :=
  let op_is := String.eqb operation in
  if op_is FungibleBalance.op.balance_create then
    let? subject := input_str inputs "subject" in
    let? unit := input_str inputs "unit" in
    let? balance := input_amount inputs "balance" in
    Ok (RFungibleBalance (mkBalance subject balance unit))
  else if op_is FungibleBalance.op.balance_mint || op_is FungibleBalance.op.balance_credit
       || op_is FungibleBalance.op.balance_release then
    let? current := require_current before operation in
    let? subject := state_str current "subject" in
    let? unit := state_str current "unit" in
    let? balance := state_amount current "balance" in
    let? amount := input_amount inputs "amount" in
    let? next := ok_or (checked_add balance amount) (overflow "balance") in
    Ok (RFungibleBalance (mkBalance subject next unit))
  else if op_is FungibleBalance.op.balance_debit || op_is FungibleBalance.op.balance_spend
       || op_is FungibleBalance.op.balance_reserve || op_is FungibleBalance.op.balance_burn then
    let? current := require_current before operation in
    let? subject := state_str current "subject" in
    let? unit := state_str current "unit" in
    let? balance := state_amount current "balance" in
    let? amount := input_amount inputs "amount" in
    let? next := ok_or (checked_sub balance amount) (underflow "balance") in
    Ok (RFungibleBalance (mkBalance subject next unit))
  else if op_is FungibleBalance.op.balance_transfer then
    let? current := require_current before operation in
    input_str inputs "to_subject" ;?
    let? subject := state_str current "subject" in
    let? unit := state_str current "unit" in
    let? balance := state_amount current "balance" in
    let? amount := input_amount inputs "amount" in
    let? next := ok_or (checked_sub balance amount) (underflow "balance") in
    Ok (RFungibleBalance (mkBalance subject next unit))
  else if op_is FungibleBalance.op.balance_convert then
    let? current := require_current before operation in
    let? subject := state_str current "subject" in
    let? to_unit := input_str inputs "to_unit" in
    let? balance := state_amount current "balance" in
    let? amount := input_amount inputs "amount" in
    let? next := ok_or (checked_sub balance amount) (underflow "balance") in
    Ok (RFungibleBalance (mkBalance subject next to_unit))
  else Err (PInvalidInput ("unknown fungible balance operation " +:+ tick operation)).

Definition apply_entitlement (before : option StateProjection) (operation : Operation)
    (inputs : Inputs) : presult ResourceState :=
  let op_is := String.eqb operation in
  if op_is Entitlement.op.entitlement_grant then
    let? subject := input_str inputs "subject" in
    let transferable := default false (inputs !! "transferable" ≫= as_bool) in
    Ok (REntitlement (mkEntitlement subject Entitlement.status.granted transferable))
  else if op_is Entitlement.op.entitlement_activate then
    entitlement_with_status before operation Entitlement.status.active
  else if op_is Entitlement.op.entitlement_suspend then
    entitlement_with_status before operation Entitlement.status.suspended
  else if op_is Entitlement.op.entitlement_restore then
    entitlement_with_status before operation Entitlement.status.active
  else if op_is Entitlement.op.entitlement_expire then
    entitlement_with_status before operation Entitlement.status.expired
  else if op_is Entitlement.op.entitlement_revoke then
    entitlement_with_status before operation Entitlement.status.revoked
  else if op_is Entitlement.op.entitlement_transfer then
    let? current := require_current before operation in
    let? to_subject := input_str inputs "to_subject" in
    let? status := state_str current "status" in
    let? transferable := state_bool current "transferable" in
    let? st := status_new status in
    Ok (REntitlement (mkEntitlement to_subject st transferable))
  else Err (PInvalidInput ("unknown entitlement operation " +:+ tick operation)).

Definition apply_meter (before : option StateProjection) (operation : Operation)
    (inputs : Inputs) : presult ResourceState :=
  let op_is := String.eqb operation in
  if op_is Meter.op.meter_create then
    let? subject := input_str inputs "subject" in
    let? remaining := input_amount inputs "remaining" in
    let? maximum := input_amount inputs "maximum" in
    Ok (RMeteredResource (mkMeter subject remaining maximum))
  else if op_is Meter.op.meter_consume then
    let? current := require_current before operation in
    let? subject := state_str current "subject" in
    let? maximum := state_amount current "maximum" in
    let? remaining := state_amount current "remaining" in
    let? amount := input_amount inputs "amount" in
    let? next := ok_or (checked_sub remaining amount) (underflow "meter remaining") in
    Ok (RMeteredResource (mkMeter subject next maximum))
  else if op_is Meter.op.meter_refill then
    let? current := require_current before operation in
    let? subject := state_str current "subject" in
    let? maximum := state_amount current "maximum" in
    Ok (RMeteredResource (mkMeter subject maximum maximum))
  else if op_is Meter.op.meter_set_maximum then
    let? current := require_current before operation in
    let? subject := state_str current "subject" in
    let? remaining := state_amount current "remaining" in
    let? maximum := input_amount inputs "maximum" in
    let clamped := amount_min remaining maximum in
    Ok (RMeteredResource (mkMeter subject clamped maximum))
  else if op_is Meter.op.meter_reset || op_is Meter.op.meter_expire then
    let? current := require_current before operation in
    let? subject := state_str current "subject" in
    let? maximum := state_amount current "maximum" in
    Ok (RMeteredResource (mkMeter subject ZERO maximum))
  else Err (PInvalidInput ("unknown meter operation " +:+ tick operation)).

Definition apply_listing (before : option StateProjection) (operation : Operation)
    (inputs : Inputs) : presult ResourceState :=
  let op_is := String.eqb operation in
  if op_is Marketplace.op.listing_create then
    let? seller := input_str inputs "seller" in
    listing seller listing_status.listed
  else if op_is Marketplace.op.listing_cancel then
    listing_with_status before operation listing_status.cancelled
  else if op_is Marketplace.op.listing_buy then
    listing_with_status before operation listing_status.sold
  else if op_is Marketplace.op.listing_expire then
    listing_with_status before operation listing_status.expired
  else Err (PInvalidInput ("unknown listing operation " +:+ tick operation)).

Definition apply_escrow (before : option StateProjection) (operation : Operation)
    (inputs : Inputs) : presult ResourceState :=
  let op_is := String.eqb operation in
  if op_is Marketplace.op.escrow_lock then
    let? buyer := input_str inputs "buyer" in
    let? seller := input_str inputs "seller" in
    escrow buyer seller escrow_status.locked
  else if op_is Marketplace.op.escrow_release then
    escrow_with_status before operation escrow_status.released
  else if op_is Marketplace.op.escrow_refund then
    escrow_with_status before operation escrow_status.refunded
  else Err (PInvalidInput ("unknown escrow operation " +:+ tick operation)).

(** ** The reducer and the destination credit *)

Definition apply (before : option StateProjection) (operation : Operation) (inputs : Inputs)
    : presult ResourceState :=
  let? state_type := state_type_of before operation in
  match state_type with
  | StUniqueAsset => apply_unique_asset before operation inputs
  | StConsumableStack => apply_stack before operation inputs
  | StFungibleBalance => apply_balance before operation inputs
  | StEntitlement => apply_entitlement before operation inputs
  | StMeteredResource => apply_meter before operation inputs
  | StListing => apply_listing before operation inputs
  | StEscrow => apply_escrow before operation inputs
  | StCustom => Err (PInvalidInput "custom reducer required")
  end.

Definition transfer_after_state (source : StateProjection) (destination : option StateProjection)
    (operation : Operation) (inputs : Inputs) : presult ResourceState :=
  let op_is := String.eqb operation in
  if op_is ConsumableStack.op.stack_transfer then
    let? to_subject := input_str inputs "to_subject" in
    let? unit := state_str source "unit" in
    let? amount := input_amount inputs "quantity" in
    let? existing :=
      match destination with Some p => state_amount p "quantity" | None => Ok ZERO end in
    let? next := ok_or (checked_add existing amount) (overflow "stack quantity") in
    Ok (RConsumableStack (mkStack to_subject next unit))
  else if op_is FungibleBalance.op.balance_transfer then
    let? to_subject := input_str inputs "to_subject" in
    let? unit := state_str source "unit" in
    let? amount := input_amount inputs "amount" in
    let? existing :=
      match destination with Some p => state_amount p "balance" | None => Ok ZERO end in
    let? next := ok_or (checked_add existing amount) (overflow "balance") in
    Ok (RFungibleBalance (mkBalance to_subject next unit))
  else Err (PInvalidInput ("destination credit not defined for operation " +:+ tick operation)).
