(* ===== verification/Atomicity.v ===== *)
(** * Atomic event groups

    Models [crates/statechronicle-profiles/src/atomicity.rs]: the consistency of an
    event batch, the net-zero transfer pair, the shape of a settlement batch (value
    legs and bundles) and the two cross-tenant validators.  A [BTreeMap] keyed by
    intent id is an association list in key order. *)

From Stdlib Require Import ZArith Lia Ascii String.
From stdpp Require Import prelude gmap strings.
From S2P Require Import Prelude Amount Domain Profile UniqueAsset ConsumableStack FungibleBalance.
Open Scope Z_scope.

Notation trade_settle := UniqueAsset.op.trade_settle.
Notation stack_transfer := ConsumableStack.op.stack_transfer.
Notation balance_transfer := FungibleBalance.op.balance_transfer.

(** ** Grouping by intent id *)

(** [entry(key).or_default().push(event)] on the ordered map. *)
Fixpoint group_push {A} (key : string) (e : A) (l : list (string * list A))
    : list (string * list A) :=
  match l with
  | [] => [(key, [e])]
  | (k, es) :: l' =>
      match str_cmp key k with
      | Lt => (key, [e]) :: l
      | Eq => (k, es ++ [e]) :: l'
      | Gt => (k, es) :: group_push key e l'
      end
  end.

(** The map a loop of such pushes builds. *)
Definition group_by {A} (key : A → string) (l : list A) : list (string * list A) :=
  foldl (fun groups a => group_push (key a) a groups) [] l.

Definition group_by_intent (events : list Event) : list (IntentId * list Event) :=
  group_by e_intent_id events.

(** ** The transfer pair *)

Definition duplicate_intent_error (intent_id : IntentId) : ProfileError :=
  AtomicityViolation ("duplicate intent id " +:+ tick intent_id
    +:+ " in batch (only transfer pairs may share an intent id)").

Definition transfer_field (operation : Operation) : option string :=
  if String.eqb operation stack_transfer then Some "quantity"
  else if String.eqb operation balance_transfer then Some "balance"
  else None.

(** A missing field reads as zero. *)
Definition commitment_amount (commitment : StateCommitment) (field : string) : Amount :=
  default ZERO (rs_amount (c_state commitment) field).

Definition debit_overflow : ProfileError := TransferMismatch "debit overflow".
Definition credit_overflow : ProfileError := TransferMismatch "credit overflow".

(** The accumulation loop of [validate_transfer_pair]. *)
Fixpoint pair_totals (field : string) (group : list Event) (debit credit : Amount)
    : presult (Amount * Amount) :=
  match group with
  | [] => Ok (debit, credit)
  | event :: group' =>
      let before := commitment_amount (e_before event) field in
      let after := commitment_amount (e_after event) field in
      if negb (amount_ltb before after) then
        let? delta := ok_or (checked_sub before after) debit_overflow in
        let? debit := ok_or (checked_add debit delta) debit_overflow in
        pair_totals field group' debit credit
      else
        let? delta := ok_or (checked_sub after before) credit_overflow in
        let? credit := ok_or (checked_add credit delta) credit_overflow in
        pair_totals field group' debit credit
  end.

Definition validate_transfer_pair (intent_id : IntentId) (group : list Event) : presult unit :=
  match group with
  | [first; second] =>
      match transfer_field (e_operation first) with
      | None => Err (duplicate_intent_error intent_id)
      | Some field =>
          if negb (bool_decide (transfer_field (e_operation second) = Some field)) then
            Err (duplicate_intent_error intent_id)
          else if negb (String.eqb (e_operation first) (e_operation second)) then
            Err (duplicate_intent_error intent_id)
          else if negb (String.eqb (e_resource_id first) (e_resource_id second)) then
            Err (duplicate_intent_error intent_id)
          else
            let? totals := pair_totals field group ZERO ZERO in
            let (debit, credit) := (totals : Amount * Amount) in
            if amount_eqb debit ZERO || negb (amount_eqb debit credit) then
              Err (TransferMismatch ("net-zero violated for intent " +:+ tick intent_id
                +:+ ": debit " +:+ to_canonical_string debit
                +:+ " != credit " +:+ to_canonical_string credit))
            else Ok tt
      end
  | _ => Err (duplicate_intent_error intent_id)
  end.

(** ** Batch consistency *)

(** The first loop of [validate_batch_consistency]: distinct event ids, one tenant. *)
Fixpoint check_ids_and_tenant (events : list Event) (seen : gset EventId)
    (first_tenant : option TenantId) : presult unit :=
  match events with
  | [] => Ok tt
  | event :: events' =>
      if decide (e_event_id event ∈ seen) then
        Err (AtomicityViolation ("duplicate event id " +:+ tick (e_event_id event) +:+ " in batch"))
      else
        match first_tenant with
        | Some first =>
            if negb (String.eqb first (e_tenant_id event)) then
              Err (AtomicityViolation ("mixed tenant scopes in batch (first tenant "
                +:+ tick first +:+ ")"))
            else check_ids_and_tenant events' ({[e_event_id event]} ∪ seen) (Some first)
        | None =>
            check_ids_and_tenant events' ({[e_event_id event]} ∪ seen) (Some (e_tenant_id event))
        end
  end.

Definition check_group (g : IntentId * list Event) : presult unit :=
  match g.2 with
  | [_] => Ok tt
  | group => validate_transfer_pair g.1 group
  end.

Definition validate_batch_consistency (events : list Event) : presult unit :=
  check_ids_and_tenant events ∅ None ;?
  rforeach check_group (group_by_intent events).

(** ** Value legs *)

Definition declares_value_leg (intent : Intent) : bool :=
  contains_key (i_inputs intent) "value_resource" || contains_key (i_inputs intent) "value_amount"
  || contains_key (i_inputs intent) "value_to_subject".

Definition declares_bundle (intent : Intent) : bool :=
  contains_key (i_inputs intent) "bundle_size".

Notation ValueTuple := (Amount * string * option string)%type.

Definition settle_intent_error (intent : Intent) (what : string) : ProfileError :=
  AtomicityViolation ("settle intent " +:+ tick (i_intent_id intent) +:+ what).

Definition declared_value_leg_tuple (intent : Intent) : presult ValueTuple :=
  let get key := i_inputs intent !! (key : string) in
  let? resource := ok_or (get "value_resource")
    (settle_intent_error intent " declares a value leg but is missing `value_resource`") in
  let? to_subject := ok_or (get "value_to_subject")
    (settle_intent_error intent " declares a value leg but is missing `value_to_subject`") in
  let? resource_text := ok_or (as_str resource)
    (settle_intent_error intent " has a non-string `value_resource`") in
  let? to_subject_text := ok_or (as_str to_subject)
    (settle_intent_error intent " has a non-string `value_to_subject`") in
  if str_is_empty resource_text || str_is_empty to_subject_text then
    Err (settle_intent_error intent " has an empty value-leg member")
  else
    let? amount_value := ok_or (get "value_amount")
      (settle_intent_error intent " declares a value leg but is missing `value_amount`") in
    let? amount_text := ok_or (as_str amount_value)
      (settle_intent_error intent " has a non-string `value_amount`") in
    let? amount := map_err (fun _ => TransferMismatch ("settle intent " +:+ tick (i_intent_id intent)
                     +:+ " declares a malformed `value_amount`")) (Amount.try_from_str amount_text) in
    Ok (amount, resource_text, Some to_subject_text).

Fixpoint value_pair_debit (group : list Event) (debit : Amount) : presult Amount :=
  match group with
  | [] => Ok debit
  | event :: group' =>
      let before := commitment_amount (e_before event) "balance" in
      let after := commitment_amount (e_after event) "balance" in
      if amount_ltb after before then
        let? delta := ok_or (checked_sub before after) debit_overflow in
        let? debit := ok_or (checked_add debit delta) debit_overflow in
        value_pair_debit group' debit
      else value_pair_debit group' debit
  end.

Record RecoveredValuePair := mkPair {
  rp_intent_id : IntentId;
  rp_debit : Amount;
  rp_resource : ResourceId;
  rp_credited_subject : option SubjectId;
}.

(** The last event of the group that credits, if any, names the recipient. *)
Definition credited_subject (group : list Event) : option SubjectId :=
  foldl (fun acc event =>
    let before := commitment_amount (e_before event) "balance" in
    let after := commitment_amount (e_after event) "balance" in
    if amount_ltb before after then rs_subject (c_state (e_after event)) else acc) None group.

Fixpoint recover_pairs_loop (groups : list (IntentId * list Event))
    : presult (list RecoveredValuePair) :=
  match groups with
  | [] => Ok []
  | (intent_id, group) :: groups' =>
      match group with
      | first :: _ =>
          if String.eqb (e_operation first) balance_transfer then
            if negb (length group =? 2)%nat then
              Err (AtomicityViolation ("balance.transfer intent " +:+ tick intent_id
                +:+ " in batch is not an atomic debit + credit pair"))
            else
              let? debit := value_pair_debit group ZERO in
              let? rest := recover_pairs_loop groups' in
              Ok (mkPair intent_id debit (e_resource_id first) (credited_subject group) :: rest)
          else recover_pairs_loop groups'
      | [] => recover_pairs_loop groups'
      end
  end.

Definition recover_value_pairs (events : list Event) : presult (list RecoveredValuePair) :=
  recover_pairs_loop (group_by_intent events).

(** [Ord] and [Eq] on the value tuples, and [Vec::sort]. *)
Definition option_cmp (a b : option string) : comparison :=
  match a, b with
  | None, None => Eq
  | None, Some _ => Lt
  | Some _, None => Gt
  | Some x, Some y => str_cmp x y
  end.
Definition tuple_cmp (a b : ValueTuple) : comparison :=
  match amount_cmp a.1.1 b.1.1 with
  | Eq => match str_cmp a.1.2 b.1.2 with Eq => option_cmp a.2 b.2 | o => o end
  | o => o
  end.
Definition tuple_eqb (a b : ValueTuple) : bool :=
  match tuple_cmp a b with Eq => true | _ => false end.

Fixpoint sort_insert {A} (cmp : A → A → comparison) (x : A) (l : list A) : list A :=
  match l with
  | [] => [x]
  | y :: l' => match cmp x y with Gt => y :: sort_insert cmp x l' | _ => x :: l end
  end.
Definition sort_by {A} (cmp : A → A → comparison) (l : list A) : list A :=
  foldr (sort_insert cmp) [] l.

Definition pair_tuple (p : RecoveredValuePair) : ValueTuple :=
  (rp_debit p, rp_resource p, rp_credited_subject p).

(** ** Settlement batches *)

Definition nat_str (n : nat) : string := u128_to_string (Z.of_nat n).

(** (d): one tenant scope across the batch. *)
Fixpoint check_settle_tenant (events : list Event) (first_tenant : option TenantId) : presult unit :=
  match events with
  | [] => Ok tt
  | event :: events' =>
      match first_tenant with
      | Some first =>
          if negb (String.eqb first (e_tenant_id event)) then
            Err (AtomicityViolation ("mixed tenant scopes in settle batch (first tenant "
              +:+ tick first +:+ ")"))
          else check_settle_tenant events' (Some first)
      | None => check_settle_tenant events' (Some (e_tenant_id event))
      end
  end.

Definition is_settle (event : Event) : bool := String.eqb (e_operation event) trade_settle.

Definition settle_count (events : list Event) : nat := length (List.filter is_settle events).

Definition bundle_intent_error (intent : Intent) (what : string) : ProfileError :=
  AtomicityViolation ("bundle settle intent " +:+ tick (i_intent_id intent) +:+ what).

(** The declared size and trade of one bundle settle intent. *)
Definition bundle_declaration (intent : Intent) : presult (Z * string) :=
  let? size_value := ok_or (i_inputs intent !! "bundle_size")
    (bundle_intent_error intent " is missing `bundle_size`") in
  let? size := ok_or (as_u64 size_value)
    (bundle_intent_error intent " has a non-integer `bundle_size`") in
  if size =? 0 then Err (bundle_intent_error intent " declares a non-positive `bundle_size`")
  else
    let? trade_value := ok_or (i_inputs intent !! "trade_id")
      (bundle_intent_error intent " is missing `trade_id`") in
    let? trade_id := ok_or (as_str trade_value)
      (bundle_intent_error intent " has a non-string `trade_id`") in
    if str_is_empty trade_id then Err (bundle_intent_error intent " has an empty `trade_id`")
    else Ok (size, trade_id).

(** No resource id appears twice among the settle events. *)
Fixpoint check_distinct_assets (events : list Event) (seen : gset string) : presult unit :=
  match events with
  | [] => Ok tt
  | event :: events' =>
      if is_settle event then
        if decide (e_resource_id event ∈ seen) then
          Err (AtomicityViolation ("duplicate asset " +:+ tick (e_resource_id event)
            +:+ " in bundle settle batch"))
        else check_distinct_assets events' ({[e_resource_id event]} ∪ seen)
      else check_distinct_assets events' seen
  end.

(** [usize::try_from(u64)] is total on the 64-bit targets the crate supports. *)
Definition check_bundle_shape (settle_intents : list Intent) (settle_event_count : nat)
    (events : list Event) : presult unit :=
  if existsb (fun i => negb (declares_bundle i)) settle_intents then
    Err (AtomicityViolation
      "partial bundle declaration: some settle intents declare `bundle_size` but not all")
  else
    let? decls := rmap bundle_declaration settle_intents in
    match decls with
    | [] => Err (AtomicityViolation "empty bundle settle intent set")
    | (first_size, first_trade) :: _ =>
        if existsb (fun d : Z * string => negb (d.1 =? first_size)) decls then
          Err (AtomicityViolation "inconsistent `bundle_size` across the bundle settle intents")
        else if existsb (fun d : Z * string => negb (String.eqb d.2 first_trade)) decls then
          Err (AtomicityViolation "mixed `trade_id` across the bundle settle intents")
        else if negb (Z.of_nat settle_event_count =? first_size) then
          Err (AtomicityViolation ("bundle settle batch has " +:+ nat_str settle_event_count
            +:+ " trade.settle event(s) but declares bundle_size " +:+ u128_to_string first_size))
        else check_distinct_assets events ∅
    end.

(** The value legs the settle intents declare. *)
Definition declared_tuples (settle_intents : list Intent) : presult (list ValueTuple) :=
  rmap declared_value_leg_tuple (List.filter declares_value_leg settle_intents).

Definition validate_settle_batch (events : list Event) (settle_intents : list Intent) : presult unit :=
  check_settle_tenant events None ;?
  (if existsb declares_bundle settle_intents then
     check_bundle_shape settle_intents (settle_count events) events
   else if negb (settle_count events =? length settle_intents)%nat then
     Err (AtomicityViolation ("settle batch has " +:+ nat_str (settle_count events)
       +:+ " trade.settle event(s) for " +:+ nat_str (length settle_intents) +:+ " settle intent(s)"))
   else Ok tt) ;?
  let? value_pairs := recover_value_pairs events in
  let value_ids := map rp_intent_id value_pairs in
  rforeach (fun g : IntentId * list Event =>
    if (1 <? length g.2)%nat && negb (contains value_ids g.1) then
      Err (AtomicityViolation ("undeclared multi-event intent group " +:+ tick g.1
        +:+ " in settle batch"))
    else Ok tt) (group_by_intent events) ;?
  rforeach (fun p =>
    if contains (map i_intent_id settle_intents) (rp_intent_id p) then
      Err (AtomicityViolation ("value leg intent id " +:+ tick (rp_intent_id p)
        +:+ " collides with a settle intent id"))
    else Ok tt) value_pairs ;?
  let? declared_values := declared_tuples settle_intents in
  if negb (length value_pairs =? length declared_values)%nat then
    Err (AtomicityViolation ("settle batch declares " +:+ nat_str (length declared_values)
      +:+ " value-leg settle(s) but has " +:+ nat_str (length value_pairs)
      +:+ " balance.transfer pair(s)"))
  else if negb (list_eqb tuple_eqb (sort_by tuple_cmp declared_values)
                  (sort_by tuple_cmp (map pair_tuple value_pairs))) then
    Err (AtomicityViolation "settle batch value-leg multiset mismatch: declared (amount, resource, recipient) value legs do not match the batch's balance.transfer pairs")
  else Ok tt.

(** ** Cross-tenant groups *)

Record TenantEventGroup := mkGroup { g_tenant : TenantId; g_events : list Event }.

Record SettleLeg := mkSettleLeg { sl_asset : ResourceId; sl_settle_intent_id : IntentId }.
Record ValueLeg := mkValueLeg {
  vl_resource : ResourceId; vl_amount : string; vl_to_subject : SubjectId }.
Record TradeManifest := mkManifest {
  tm_trade_id : string; tm_settle_legs : list SettleLeg; tm_value_legs : list ValueLeg }.

(** Every event of a group is scoped to the group's tenant. *)
Definition check_partition (what : string) (group : TenantEventGroup) : presult unit :=
  rforeach (fun event =>
    if negb (String.eqb (e_tenant_id event) (g_tenant group)) then
      Err (AtomicityViolation ("tenant mismatch in cross-tenant " +:+ what +:+ " (event tenant "
        +:+ tick (e_tenant_id event) +:+ ", group tenant " +:+ tick (g_tenant group) +:+ ")"))
    else Ok tt) (g_events group).

Definition check_tenant_group (what : string) (group : TenantEventGroup) : presult unit :=
  check_partition what group ;? validate_batch_consistency (g_events group).

(** The distinct tenants whose groups contain an event of [intent_id]. *)
Definition intent_tenants (groups : list TenantEventGroup) (intent_id : IntentId) : list TenantId :=
  bset_of_list (map g_tenant
    (List.filter (fun g => existsb (fun e => String.eqb (e_intent_id e) intent_id) (g_events g)) groups)).

Definition validate_cross_tenant_consistency (groups : list TenantEventGroup) : presult unit :=
  rforeach (check_tenant_group "batch") groups ;?
  let ids := flat_map (fun g => map e_intent_id (g_events g)) groups in
  if negb (existsb (fun id => (2 <=? length (intent_tenants groups id))%nat) ids) then
    Err (AtomicityViolation "cross-tenant batch has no cross-tenant intent linkage")
  else Ok tt.

(** Distinct assets and settle intents across the declared legs, each leg's intent
    among those executed. *)
Fixpoint check_settle_legs (legs : list SettleLeg) (seen_assets seen_ids : gset string)
    (settle_intents : list Intent) : presult unit :=
  match legs with
  | [] => Ok tt
  | leg :: legs' =>
      if decide (sl_asset leg ∈ seen_assets) then
        Err (AtomicityViolation ("duplicate settle asset " +:+ tick (sl_asset leg)
          +:+ " across the declared settle legs"))
      else if decide (sl_settle_intent_id leg ∈ seen_ids) then
        Err (AtomicityViolation ("duplicate settle intent id " +:+ tick (sl_settle_intent_id leg)
          +:+ " across the declared settle legs"))
      else if negb (contains (map i_intent_id settle_intents) (sl_settle_intent_id leg)) then
        Err (AtomicityViolation ("manifest settle intent " +:+ tick (sl_settle_intent_id leg)
          +:+ " is not among the batch's settle intents"))
      else check_settle_legs legs' ({[sl_asset leg]} ∪ seen_assets)
             ({[sl_settle_intent_id leg]} ∪ seen_ids) settle_intents
  end.

Definition str_pair_cmp (a b : string * string) : comparison :=
  match str_cmp a.1 b.1 with Eq => str_cmp a.2 b.2 | o => o end.
Definition str_pair_eqb (a b : string * string) : bool :=
  String.eqb a.1 b.1 && String.eqb a.2 b.2.

Definition manifest_tuple (leg : ValueLeg) : presult ValueTuple :=
  let? amount := map_err (fun _ => TransferMismatch ("manifest value leg declares a malformed amount "
                   +:+ tick (vl_amount leg))) (Amount.try_from_str (vl_amount leg)) in
  Ok (amount, vl_resource leg, Some (vl_to_subject leg)).

(** [position(..)] and [swap_remove]: the hole is filled with the last element. *)
Fixpoint position (t : ValueTuple) (l : list ValueTuple) : option nat :=
  match l with
  | [] => None
  | x :: l' => if tuple_eqb x t then Some O else S <$> position t l'
  end.
Definition swap_remove (pos : nat) (l : list ValueTuple) : list ValueTuple :=
  match last l with
  | Some x => take (length l - 1) (<[pos := x]> l)
  | None => l
  end.

(** (c2): every value leg a settle intent declares is backed by a manifest leg. *)
Fixpoint consume_declared (settle_intents : list Intent) (legs : list ValueTuple) : presult unit :=
  match settle_intents with
  | [] => Ok tt
  | intent :: rest =>
      if declares_value_leg intent then
        let? tuple := declared_value_leg_tuple intent in
        match position tuple legs with
        | None => Err (AtomicityViolation "cross-tenant trade settle-intent value-leg declarations do not match the manifest's value legs")
        | Some pos => consume_declared rest (swap_remove pos legs)
        end
      else consume_declared rest legs
  end.

Definition validate_cross_tenant_trade (groups : list TenantEventGroup) (manifest : TradeManifest)
    (settle_intents : list Intent) : presult unit :=
  if (length (bset_of_list (map g_tenant groups)) <? 2)%nat then
    Err (AtomicityViolation "cross-tenant trade requires at least two distinct tenants")
  else
  rforeach (check_tenant_group "trade") groups ;?
  let all_events := flat_map g_events groups in
  if match tm_settle_legs manifest with [] => true | _ => false end then
    Err (AtomicityViolation "cross-tenant trade manifest declares no settle legs (at least one required)")
  else
  check_settle_legs (tm_settle_legs manifest) ∅ ∅ settle_intents ;?
  let declared_settle := map (fun leg => (sl_asset leg, sl_settle_intent_id leg)) (tm_settle_legs manifest) in
  let actual_settle := map (fun e => (e_resource_id e, e_intent_id e)) (List.filter is_settle all_events) in
  if negb (list_eqb str_pair_eqb (sort_by str_pair_cmp actual_settle)
             (sort_by str_pair_cmp declared_settle)) then
    Err (AtomicityViolation "cross-tenant trade settle events do not match the declared settle legs exactly (a declared leg is missing, duplicated, or an undeclared settle event is present)")
  else
  let? value_pairs := recover_value_pairs all_events in
  if negb (length value_pairs =? length (tm_value_legs manifest))%nat then
    Err (AtomicityViolation ("cross-tenant trade declares " +:+ nat_str (length (tm_value_legs manifest))
      +:+ " value leg(s) but the batch has " +:+ nat_str (length value_pairs)
      +:+ " balance.transfer pair(s)"))
  else
  let? declared_values := rmap manifest_tuple (tm_value_legs manifest) in
  let declared_values := sort_by tuple_cmp declared_values in
  if negb (list_eqb tuple_eqb declared_values (sort_by tuple_cmp (map pair_tuple value_pairs))) then
    Err (AtomicityViolation "cross-tenant trade value-leg multiset mismatch: declared (amount, resource, recipient) value legs do not match the batch's balance.transfer pairs")
  else
  consume_declared settle_intents declared_values ;?
  let settle_ids := map sl_settle_intent_id (tm_settle_legs manifest) in
  let value_ids := bset_of_list (map rp_intent_id value_pairs) in
  rforeach (fun id =>
    if contains settle_ids id then
      Err (AtomicityViolation ("value leg intent id " +:+ tick id +:+ " collides with a settle leg intent id"))
    else Ok tt) value_ids ;?
  rforeach (fun g : IntentId * list Event =>
    if negb (contains settle_ids g.1) && negb (contains value_ids g.1) then
      Err (AtomicityViolation ("undeclared intent id " +:+ tick g.1
        +:+ " in cross-tenant trade (every intent must resolve to a declared settle leg or value leg)"))
    else Ok tt) (group_by_intent all_events).
