(* ===== verification/SortFacts.v ===== *)
(** * Sorting by a comparison

    Facts about the stable sort [sort_by] ([slice::sort_by] and [sort_by_key]): it permutes,
    it orders, it keeps the order of equal elements, and it is determined by the elements
    when only equal elements compare equal. *)

From Stdlib Require Import ZArith Lia String Sorted.
From stdpp Require Import prelude gmap strings sorting.
From S2P Require Import Prelude Amount Domain Profile Atomicity.

(** What [sort_by] relies on of a comparison. *)
Class CmpOrder {A} (cmp : A → A → comparison) : Prop := {
  cmp_opp : ∀ a b, cmp b a = CompOpp (cmp a b);
  cmp_trans : ∀ a b c, cmp a b ≠ Gt → cmp b c ≠ Gt → cmp a c ≠ Gt;
}.

#[export] Instance str_cmp_order : CmpOrder str_cmp.
Proof.
  split; [apply str_cmp_antisym|]. intros a b c H1 H2.
  destruct (str_cmp a b) eqn:E1; [by apply str_cmp_eq in E1 as ->| |done].
  destruct (str_cmp b c) eqn:E2; [apply str_cmp_eq in E2 as <-; congruence| |done].
  by rewrite (str_cmp_lt_trans _ _ _ E1 E2).
Qed.

#[export] Instance Z_compare_order : CmpOrder Z.compare.
Proof.
  split; [intros a b; apply Z.compare_antisym|]. intros a b c. rewrite !Z.compare_gt_iff. lia.
Qed.

(** Comparing by a key, and [Ordering::then_with]. *)
Lemma key_order {A B} (c : B → B → comparison) (key : A → B) `{!CmpOrder c} :
  CmpOrder (fun a b => c (key a) (key b)).
Proof. split; intros *; [apply cmp_opp|apply cmp_trans]. Qed.

Definition then_with (o o' : comparison) : comparison := match o with Eq => o' | _ => o end.

Lemma then_with_order {A} (c c' : A → A → comparison) `{!CmpOrder c, !CmpOrder c'} :
  CmpOrder (fun a b => then_with (c a b) (c' a b)).
Proof.
  split.
  - intros a b. rewrite (cmp_opp (cmp:=c) a b), (cmp_opp (cmp:=c') a b). by destruct (c a b).
  - intros x y z H1 H2. unfold then_with in *.
    pose proof (cmp_trans (cmp:=c) x y z) as T. pose proof (cmp_trans (cmp:=c') x y z) as T'.
    pose proof (cmp_trans (cmp:=c) z x y) as Tzxy. pose proof (cmp_trans (cmp:=c) y z x) as Tyzx.
    rewrite (cmp_opp (cmp:=c) x z), (cmp_opp (cmp:=c) x y), (cmp_opp (cmp:=c) y z) in *.
    destruct (c x y), (c y z), (c x z); cbn in *; naive_solver.
Qed.

Section Sort.
Context {A : Type} (cmp : A → A → comparison).

Lemma sort_insert_perm x l : sort_insert cmp x l ≡ₚ x :: l.
Proof.
  induction l as [|y l IH]; cbn [sort_insert]; [done|]. destruct (cmp x y); [done..|].
  rewrite IH. apply Permutation_swap.
Qed.

Lemma sort_by_perm l : sort_by cmp l ≡ₚ l.
Proof. unfold sort_by. induction l as [|x l IH]; cbn [foldr]; [done|]. by rewrite sort_insert_perm, IH. Qed.

Lemma sort_by_length l : length (sort_by cmp l) = length l.
Proof. apply Permutation_length, sort_by_perm. Qed.

(** A selection within which nothing is out of order comes out in its original order. *)
Lemma sort_by_filter (P : A → Prop) `{∀ a, Decision (P a)} l :
  (∀ a b, P a → P b → cmp a b ≠ Gt) → filter P (sort_by cmp l) = filter P l.
Proof.
  intros HP. unfold sort_by. induction l as [|x l IH]; cbn [foldr]; [done|].
  rewrite filter_cons, <- IH. generalize (foldr (sort_insert cmp) [] l). intros s.
  induction s as [|y s IHs]; cbn [sort_insert]; [by rewrite filter_cons|].
  destruct (cmp x y) eqn:E; [by rewrite filter_cons..|].
  rewrite !(filter_cons _ y), IHs. destruct (decide (P x)) as [Hx|], (decide (P y)) as [Hy|]; try done.
  by destruct (HP x y Hx Hy).
Qed.

Definition cmp_le (a b : A) : Prop := cmp a b ≠ Gt.

Context `{!CmpOrder cmp}.

Lemma sort_by_sorted l : StronglySorted cmp_le (sort_by cmp l).
Proof.
  unfold sort_by. induction l as [|x l IH]; cbn [foldr]; [constructor|].
  induction IH as [|y k Hk IHk Hy]; cbn [sort_insert]; [repeat constructor|].
  destruct (cmp x y) eqn:E.
  1,2: constructor; [by constructor|]; constructor; [unfold cmp_le; by rewrite E|];
    eapply Forall_impl; [done|]; intros z; apply cmp_trans; unfold cmp_le; by rewrite E.
  constructor; [done|]. rewrite Forall_forall in *. intros z Hz.
  rewrite sort_insert_perm in Hz. apply elem_of_cons in Hz as [->|Hz]; [|auto].
  unfold cmp_le. by rewrite cmp_opp, E.
Qed.

Lemma cmp_le_antisym a b : cmp_le a b → cmp_le b a → cmp a b = Eq.
Proof. unfold cmp_le. rewrite (cmp_opp (cmp:=cmp) a b). by destruct (cmp a b). Qed.

(** Two sorted arrangements of the same elements agree when only equal elements compare
    equal. *)
Lemma sorted_perm_eq l l' : StronglySorted cmp_le l → StronglySorted cmp_le l' → l ≡ₚ l' →
  (∀ a b, a ∈ l → b ∈ l → cmp a b = Eq → a = b) → l = l'.
Proof.
  intros S1. revert l'. induction S1 as [|a k Hk IH Ha]; intros k' S2 Hs Heq.
  { symmetry in Hs. by apply Permutation_nil_r in Hs as ->. }
  destruct S2 as [|b k' Hk' Hb]; [by apply Permutation_nil_r in Hs|].
  assert (a = b) as <-.
  { rewrite Forall_forall in Ha, Hb.
    assert (a ∈ b :: k') as Hin by (rewrite <- Hs; left). assert (b ∈ a :: k) as Hin' by (rewrite Hs; left).
    apply elem_of_cons in Hin as [|Hin]; [done|]. apply elem_of_cons in Hin' as [|Hin']; [done|].
    apply Heq; [left|by right|]. apply cmp_le_antisym; auto. }
  f_equal. apply IH; [done|by apply Permutation_cons_inv in Hs|].
  intros x y Hx Hy. apply Heq; by right.
Qed.

(** Sorting forgets the input order when only equal elements of the list compare equal. *)
Lemma sort_by_unique l l' : l ≡ₚ l' →
  (∀ a b, a ∈ l → b ∈ l → cmp a b = Eq → a = b) → sort_by cmp l = sort_by cmp l'.
Proof.
  intros Hp Heq. apply sorted_perm_eq; [apply sort_by_sorted..|by rewrite !sort_by_perm|].
  intros a b. rewrite !sort_by_perm. apply Heq.
Qed.
End Sort.
