(* ===== verification/Resource.v ===== *)
(** * Execution policies

    Models [crates/statechronicle-profiles/src/execution.rs] and [resource.rs]: the
    interface through which the executor asks a profile for addressing, access gates
    and companion mutations, its default (native) policy and the baseline resource
    policy with its status gate. *)

From Stdlib Require Import ZArith Lia String.
From stdpp Require Import prelude gmap strings.
From S2P Require Import Prelude Amount Domain Profile UniqueAsset PaidUniqueAsset.
From S2P Require Import ConsumableStack FungibleBalance Entitlement Marketplace Transition Atomicity.
Open Scope Z_scope.

Record StateAddress := mkAddress { sa_resource : ResourceId; sa_subject : option SubjectId }.

(** The [ExecutionPolicy] trait object. *)
Record ExecutionPolicy := mkPolicy {
  validate_events : list Event → presult unit;
  primary_subject : Intent → option SubjectId;
  current_subject : Intent → option StateProjection → option SubjectId;
  check_access : Intent → option StateProjection → presult unit;
  validate_route : Intent → bool → presult unit;
  unborn_state : ResourceState → presult ResourceState;
  companion_target : Intent → presult (option StateAddress);
  apply_companion : Intent → StateProjection → option StateProjection → presult ResourceState;
}.

(** ** The native policy: the trait's default methods *)

Definition native_unborn_state (after : ResourceState) : presult ResourceState :=
  match after with
  | RCustom c => Ok (RCustom (mkCustom (cu_domain c) (cu_schema_version c) EmptyString))
  | _ => Err (PInvalidInput "profile must define its unborn state")
  end.

Definition NATIVE_EXECUTION : ExecutionPolicy := {|
  validate_events events :=
    if negb (length events =? 1)%nat then
      Err (AtomicityViolation "profile requires one event per intent")
    else Ok tt;
  primary_subject _ := None;
  current_subject _ _ := None;
  check_access _ _ := Ok tt;
  validate_route _ _ := Ok tt;
  unborn_state := native_unborn_state;
  companion_target _ := Ok None;
  apply_companion _ _ _ := Err (PInvalidInput "profile has no additional transition");
|}.

(** ** Statuses *)

Definition free_statuses : list Status := [UniqueAsset.status.active; Entitlement.status.granted].

Definition terminal_statuses : list Status :=
  [UniqueAsset.status.burned; listing_status.expired; UniqueAsset.status.tombstoned;
   Entitlement.status.revoked; UniqueAsset.status.redeemed; listing_status.sold;
   listing_status.cancelled; escrow_status.released; escrow_status.refunded].

Definition gate_exceptional_statuses : list Status :=
  [UniqueAsset.status.restricted; UniqueAsset.status.quarantined; UniqueAsset.status.unsupported;
   exceptional_status.legal_hold; exceptional_status.fraud_lock;
   exceptional_status.policy_restricted].

Definition status_escapes (status : Status) : list Operation :=
  if String.eqb status UniqueAsset.status.locked then
    [UniqueAsset.op.asset_unlock; UniqueAsset.op.asset_restrict;
     Marketplace.op.escrow_release; Marketplace.op.escrow_refund]
  else if String.eqb status UniqueAsset.status.escrowed then
    [UniqueAsset.op.asset_release; UniqueAsset.op.asset_restrict]
  else if String.eqb status UniqueAsset.status.trade_held then
    [UniqueAsset.op.trade_unlock; UniqueAsset.op.trade_settle; UniqueAsset.op.asset_restrict]
  else if String.eqb status UniqueAsset.status.listed then
    [UniqueAsset.op.asset_delist; UniqueAsset.op.asset_redeem; UniqueAsset.op.asset_restrict;
     Marketplace.op.listing_buy; Marketplace.op.listing_cancel; Marketplace.op.listing_expire]
  else if String.eqb status Entitlement.status.suspended then
    [Entitlement.op.entitlement_restore; Entitlement.op.entitlement_expire]
  else if String.eqb status Entitlement.status.granted then
    [Entitlement.op.entitlement_activate; Entitlement.op.entitlement_expire;
     Entitlement.op.entitlement_revoke; Entitlement.op.entitlement_transfer]
  else [].

Definition blocked (current : StateProjection) : ProfileError := ResourceLocked (p_resource_id current).

Definition check_owner (current : option StateProjection) (inputs : Inputs) : presult unit :=
  match current with
  | None => Ok tt
  | Some projection =>
      match inputs !! "from_owner" ≫= as_str with
      | None => Ok tt
      | Some actual =>
          match (match rs_owner (p_state projection) with
                 | Some o => Some o | None => rs_subject (p_state projection) end) with
          | None => Ok tt
          | Some expected =>
              if negb (String.eqb actual expected) then Err (ActorMismatch expected actual) else Ok tt
          end
      end
  end.

Definition check_resource_availability (current : StateProjection) (operation : Operation)
    : presult unit :=
  match rs_status (p_state current) with
  | None => Ok tt
  | Some status_str =>
      match status_try_from_str status_str with
      | Err _ => Err (blocked current)
      | Ok status =>
          if contains free_statuses status then Ok tt
          else if contains terminal_statuses status then Err (blocked current)
          else if contains gate_exceptional_statuses status
               && String.eqb operation UniqueAsset.op.asset_restore then Ok tt
          else if contains (status_escapes status) operation then Ok tt
          else Err (blocked current)
      end
  end.

(** ** Addressing *)

Definition subject_held (state_type : StateType) : bool :=
  match state_type with
  | StConsumableStack | StFungibleBalance | StEntitlement | StMeteredResource => true
  | StUniqueAsset | StListing | StEscrow | StCustom => false
  end.

Definition subject_for (intent : Intent) (state_type : StateType) : option SubjectId :=
  if subject_held state_type then Some (i_actor intent) else None.

Definition holder_for (current : option StateProjection) (intent : Intent) (state_type : StateType)
    : option SubjectId :=
  if subject_held state_type then
    match current ≫= (fun p => rs_subject (p_state p)) with
    | Some subject => if str_is_empty subject then Some (i_actor intent) else Some subject
    | None => Some (i_actor intent)
    end
  else None.

Definition empty_state_for (state_type : StateType) : presult ResourceState :=
  let subject := EmptyString in
  let status := "active" in
  match state_type with
  | StUniqueAsset => Ok (RUniqueAsset (mkUnique subject status None))
  | StConsumableStack => Ok (RConsumableStack (mkStack subject ZERO EmptyString))
  | StFungibleBalance => Ok (RFungibleBalance (mkBalance subject ZERO EmptyString))
  | StEntitlement => Ok (REntitlement (mkEntitlement subject status false))
  | StMeteredResource => Ok (RMeteredResource (mkMeter subject ZERO ZERO))
  | StListing => Ok (RListing (mkListing subject status))
  | StCustom => Err (PInvalidInput "custom unborn state requires domain/schema")
  | StEscrow => Ok (REscrow (mkEscrow subject subject status))
  end.

Definition is_transfer_operation (operation : Operation) : bool :=
  String.eqb operation stack_transfer || String.eqb operation balance_transfer.

Definition destination_holder (inputs : Inputs) : presult SubjectId :=
  let missing := PInvalidInput "missing input `to_subject`" in
  let? subject := ok_or (inputs !! "to_subject" ≫= as_str) missing in
  if str_is_empty subject then Err missing else Ok subject.

(** ** The baseline resource policy ([ResourceExecution]) *)

Definition resource_check_access (intent : Intent) (current : option StateProjection) : presult unit :=
  check_owner current (i_inputs intent) ;?
  match current with
  | Some state => check_resource_availability state (i_operation intent)
  | None => Ok tt
  end.

Definition resource_validate_route (intent : Intent) (coordinated : bool) : presult unit :=
  if negb coordinated && String.eqb (i_operation intent) trade_settle && declares_value_leg intent
  then Err (ValueLegSettleRouting (i_intent_id intent)) else Ok tt.

Definition resource_companion_target (intent : Intent) : presult (option StateAddress) :=
  if negb (is_transfer_operation (i_operation intent)) then Ok None
  else
    let? holder := destination_holder (i_inputs intent) in
    Ok (Some (mkAddress (i_resource_id intent) (Some holder))).

Definition resource_validate_events (events : list Event) : presult unit :=
  if (length events =? 1)%nat then Ok tt else validate_batch_consistency events.

Definition ResourceExecution (state_type : StateType) : ExecutionPolicy := {|
  validate_events := resource_validate_events;
  primary_subject intent := subject_for intent state_type;
  current_subject intent current := holder_for current intent state_type;
  check_access := resource_check_access;
  validate_route := resource_validate_route;
  unborn_state _ := empty_state_for state_type;
  companion_target := resource_companion_target;
  apply_companion intent primary current :=
    transfer_after_state primary current (i_operation intent) (i_inputs intent);
|}.

(** [resource::policy]. *)
Definition policy (state_type : StateType) : ExecutionPolicy :=
  match state_type with
  | StCustom => NATIVE_EXECUTION
  | _ => ResourceExecution state_type
  end.
