(* ===== verification/Registry.v ===== *)
(** * The profile registry

    Models the [ProfileRules] trait and [ProfileRegistry] of
    [crates/statechronicle-profiles/src/registry.rs]: the baseline rule sets as trait
    objects, registration of consumer-defined profiles and resolution. *)

From Stdlib Require Import ZArith Lia String.
From stdpp Require Import prelude gmap strings.
From S2P Require Import Prelude Amount Domain Profile UniqueAsset PaidUniqueAsset.
From S2P Require Import ConsumableStack FungibleBalance Entitlement Meter Marketplace Transition Resource.
Open Scope Z_scope.

(** The [ProfileRules] trait object. *)
Record ProfileRules := mkRules {
  execution_policy : ExecutionPolicy;
  pr_state_type : StateType;
  profile_id : string;
  allowed_operations : list Operation;
  pr_check : Operation → option StateProjection → Inputs → presult unit;
  pr_apply : option StateProjection → Operation → Inputs → presult ResourceState;
  schema_version : Z;
  validate_registration : presult unit;
  pr_requires_authority : Operation → bool;
  authority_policy : Operation → AggregationPolicy;
}.

(** A baseline rule set: the trait's defaults for reducer, schema, registration and
    aggregation. *)
Definition baseline_rules (st : StateType) (id : string) (ops : list Operation)
    (check : Operation → option StateProjection → Inputs → presult unit)
    (authority : Operation → bool) : ProfileRules :=
  mkRules (policy st) st id ops check apply 0 (Ok tt) authority (fun _ => RequireAll).

Definition no_authority (_ : Operation) : bool := false.

Definition UniqueAssetRules := baseline_rules StUniqueAsset "unique_asset" UniqueAsset.op.all
  UniqueAsset.check UniqueAsset.requires_authority.
Definition PaidUniqueAssetRules := baseline_rules StUniqueAsset "paid_unique_asset" paid_op.all
  PaidUniqueAsset.check PaidUniqueAsset.requires_authority.
Definition ConsumableStackRules := baseline_rules StConsumableStack "consumable_stack"
  ConsumableStack.op.all ConsumableStack.check no_authority.
Definition FungibleBalanceRules := baseline_rules StFungibleBalance "fungible_balance"
  FungibleBalance.op.all FungibleBalance.check no_authority.
Definition EntitlementRules := baseline_rules StEntitlement "entitlement"
  Entitlement.op.all Entitlement.check no_authority.
Definition MeterRules := baseline_rules StMeteredResource "meter" Meter.op.all Meter.check no_authority.
Definition ListingRules := baseline_rules StListing "listing" Marketplace.op.listing_operations
  check_listing no_authority.
Definition EscrowRules := baseline_rules StEscrow "escrow" Marketplace.op.escrow_operations
  check_escrow no_authority.

Record ProfileRegistry := mkRegistry {
  custom : list ProfileRules;
  unique_asset_rules : ProfileRules;
  consumable_stack_rules : ProfileRules;
  fungible_balance_rules : ProfileRules;
  entitlement_rules : ProfileRules;
  metered_resource_rules : ProfileRules;
  listing_rules : ProfileRules;
  escrow_rules : ProfileRules;
  paid_unique_asset : ProfileRules;
}.

Definition baseline_with (custom : list ProfileRules) : ProfileRegistry :=
  mkRegistry custom UniqueAssetRules ConsumableStackRules FungibleBalanceRules EntitlementRules
    MeterRules ListingRules EscrowRules PaidUniqueAssetRules.
Definition baseline : ProfileRegistry := baseline_with [].

Definition get (r : ProfileRegistry) (state_type : StateType) : option ProfileRules :=
  match state_type with
  | StUniqueAsset => Some (unique_asset_rules r)
  | StConsumableStack => Some (consumable_stack_rules r)
  | StFungibleBalance => Some (fungible_balance_rules r)
  | StEntitlement => Some (entitlement_rules r)
  | StMeteredResource => Some (metered_resource_rules r)
  | StListing => Some (listing_rules r)
  | StEscrow => Some (escrow_rules r)
  | StCustom => None
  end.

Definition profile_id_of (value : string) : presult ProfileId :=
  map_err (fun e => PInvalidInput (domain_error_to_string e)) (profile_id_new value).

(** One registered operation: well formed and outside the baseline prefixes. *)
Definition check_custom_operation (operation : Operation) : presult unit :=
  map_err (fun e => PInvalidInput (domain_error_to_string e)) (operation_new operation) ;?
  match state_type_hint operation with
  | Some _ => Err (PInvalidInput "reserved operation prefix")
  | None => Ok tt
  end.

(** One pair of registrations: distinct domain/schema, disjoint operations across
    domains. *)
Definition check_against (id : ProfileId) (rules other : ProfileRules) : presult unit :=
  let? other_id := profile_id_of (profile_id other) in
  if String.eqb other_id id && (schema_version other =? schema_version rules) then
    Err (PInvalidInput "duplicate domain/schema")
  else if negb (String.eqb other_id id)
       && existsb (contains (allowed_operations rules)) (allowed_operations other) then
    Err (PInvalidInput "operation shared by different domains")
  else Ok tt.

Definition check_custom (earlier : list ProfileRules) (rules : ProfileRules) : presult unit :=
  validate_registration rules ;?
  let? id := profile_id_of (profile_id rules) in
  if negb (bool_decide (pr_state_type rules = StCustom)) || (schema_version rules =? 0)
     || match allowed_operations rules with [] => true | _ => false end then
    Err (PInvalidInput "invalid custom profile")
  else
    rforeach check_custom_operation (allowed_operations rules) ;?
    rforeach (check_against id rules) earlier.

Fixpoint check_customs (earlier rest : list ProfileRules) : presult unit :=
  match rest with
  | [] => Ok tt
  | rules :: rest' => check_custom earlier rules ;? check_customs (earlier ++ [rules]) rest'
  end.

Definition with_custom (custom : list ProfileRules) : presult ProfileRegistry :=
  check_customs [] custom ;? Ok (baseline_with custom).

(** [u32::try_from(value).ok()]. *)
Definition u32_of_u64 (v : Z) : option Z := if v <=? U32_MAX then Some v else None.

Fixpoint resolve_custom (l : list ProfileRules) (id : ProfileId) (schema : Z) : presult ProfileRules :=
  match l with
  | [] => Err (PInvalidInput "unregistered domain/schema")
  | rules :: l' =>
      let? registered_id := profile_id_of (profile_id rules) in
      if String.eqb registered_id id && (schema_version rules =? schema) then Ok rules
      else resolve_custom l' id schema
  end.

Definition resolve (r : ProfileRegistry) (state_type : StateType) (inputs : Inputs)
    : presult ProfileRules :=
  if negb (bool_decide (state_type = StCustom)) then
    ok_or (get r state_type) (PInvalidInput "unknown state type")
  else
    let? text := input_str inputs "profile" in
    let? id := profile_id_of text in
    let? schema := ok_or ((inputs !! "schema_version" ≫= as_u64) ≫= u32_of_u64)
      (PInvalidInput "invalid schema_version") in
    resolve_custom (custom r) id schema.
