(* ===== verification/Lifecycle.v ===== *)
(** * Lifecycle theorems

    What the status gate, the profile checks and the reducers do together.  The
    transition tables documented on the rule sets are the step relation [table]; the
    theorems relate every accepted transition of the four status-bearing profiles to
    it, and show that the executor's status gate and the profile rules agree. *)

From Stdlib Require Import ZArith Lia String.
From stdpp Require Import prelude gmap strings.
From S2P Require Import Prelude Amount Domain Profile UniqueAsset PaidUniqueAsset.
From S2P Require Import ConsumableStack FungibleBalance Entitlement Meter Marketplace.
From S2P Require Import Transition Resource Registry.
Open Scope Z_scope.

(** The part of the pipeline that a profile owns: access gate, rules, reducer. *)
Definition gated_step (rules : ProfileRules) (intent : Intent) (current : option StateProjection)
    : presult ResourceState :=
  check_access (execution_policy rules) intent current ;?
  pr_check rules (i_operation intent) current (i_inputs intent) ;?
  pr_apply rules current (i_operation intent) (i_inputs intent).

(** ** The documented tables *)

Inductive table : StateType → Operation → option Status → Status → Prop :=
| t_mint : table StUniqueAsset "asset.mint" None "active"
| t_transfer : table StUniqueAsset "asset.transfer" (Some "active") "active"
| t_burn : table StUniqueAsset "asset.burn" (Some "active") "burned"
| t_lock : table StUniqueAsset "asset.lock" (Some "active") "locked"
| t_unlock : table StUniqueAsset "asset.unlock" (Some "locked") "active"
| t_list : table StUniqueAsset "asset.list" (Some "active") "listed"
| t_delist : table StUniqueAsset "asset.delist" (Some "listed") "active"
| t_escrow : table StUniqueAsset "asset.escrow" (Some "active") "escrowed"
| t_release : table StUniqueAsset "asset.release" (Some "escrowed") "active"
| t_redeem : table StUniqueAsset "asset.redeem" (Some "listed") "redeemed"
| t_content op : op ∈ ["asset.attach_content"; "asset.detach_content"; "asset.update_metadata"] →
    table StUniqueAsset op (Some "active") "active"
| t_restrict from : from ∈ ["active"; "locked"; "listed"; "escrowed"; "trade_held"] →
    table StUniqueAsset "asset.restrict" (Some from) "restricted"
| t_restore from : from ∈ ["restricted"; "quarantined"; "unsupported"] →
    table StUniqueAsset "asset.restore" (Some from) "active"
| t_trade_lock : table StUniqueAsset "trade.lock" (Some "active") "trade_held"
| t_trade_unlock : table StUniqueAsset "trade.unlock" (Some "trade_held") "active"
| t_trade_settle : table StUniqueAsset "trade.settle" (Some "trade_held") "active"
| t_grant : table StEntitlement "entitlement.grant" None "granted"
| t_activate : table StEntitlement "entitlement.activate" (Some "granted") "active"
| t_suspend : table StEntitlement "entitlement.suspend" (Some "active") "suspended"
| t_en_restore : table StEntitlement "entitlement.restore" (Some "suspended") "active"
| t_en_expire from : from ∈ ["granted"; "active"; "suspended"] →
    table StEntitlement "entitlement.expire" (Some from) "expired"
| t_revoke from : from ∈ ["granted"; "active"] →
    table StEntitlement "entitlement.revoke" (Some from) "revoked"
| t_en_transfer from : from ∈ ["granted"; "active"] →
    table StEntitlement "entitlement.transfer" (Some from) from
| t_li_create : table StListing "listing.create" None "listed"
| t_li_cancel : table StListing "listing.cancel" (Some "listed") "cancelled"
| t_li_buy : table StListing "listing.buy" (Some "listed") "sold"
| t_li_expire : table StListing "listing.expire" (Some "listed") "expired"
| t_es_lock : table StEscrow "escrow.lock" None "locked"
| t_es_release : table StEscrow "escrow.release" (Some "locked") "released"
| t_es_refund : table StEscrow "escrow.refund" (Some "locked") "refunded".

#[export] Hint Constructors table : core.

(** The status written where the table says [doc].  It is [doc], with one exception:
    [asset.restrict] with a [status] string among its inputs writes that status instead
    of the documented [restricted] (see [restrict_can_burn] below). *)
Definition written (op : Operation) (inp : Inputs) (doc : Status) : Status :=
  if String.eqb op "asset.restrict" then default doc (inp !! "status" ≫= as_str) else doc.

(** ** Case analysis on a checked operation *)

(** Split a membership in a concrete list into its cases. *)
Ltac elem_cases H :=
  repeat (apply elem_of_cons in H as [H|H]); [..|by apply elem_of_nil in H].

(** From a successful [check], the operation is one of the profile's. *)
Lemma checked_op (l : list string) (op : string) (e : ProfileError) (rest : presult unit) :
  (if negb (contains l op) then Err e else rest) = Ok tt → op ∈ l ∧ rest = Ok tt.
Proof. destruct (contains l op) eqn:E; [|done]. intros H. by apply contains_true in E. Qed.

Lemma status_of p st : state_str p "status" = Ok st → rs_status (p_state p) = Some st.
Proof.
  unfold state_str. intros H. destruct (p_state p); cbn in H; res_inv H; subst; done.
Qed.

Lemma helpers_state_str_Ok p key s : Helpers.state_str p key = Ok s → state_str p key = Ok s.
Proof.
  unfold Helpers.state_str, state_str. destruct (p_state p); try done.
  - destruct (String.eqb key "seller"); [done|]. done.
  - destruct (String.eqb key "buyer"); [done|]. destruct (String.eqb key "seller"); done.
Qed.

Lemma status_new_Ok s st : Helpers.status_new s = Ok st → st = s.
Proof. unfold Helpers.status_new. intros H. res_inv H. by apply status_try_from_str_Ok in H as [-> _]. Qed.

Lemma unique_asset_Ok owner status t s : unique_asset owner status t = Ok s →
  s = RUniqueAsset (mkUnique owner status t).
Proof. unfold unique_asset. intros H. res_inv H. apply status_new_Ok in Ha as ->. done. Qed.

Lemma listing_Ok seller status s : listing seller status = Ok s → s = RListing (mkListing seller status).
Proof. unfold listing. intros H. res_inv H. apply status_new_Ok in Ha as ->. done. Qed.

Lemma escrow_Ok b sl status s : escrow b sl status = Ok s → s = REscrow (mkEscrow b sl status).
Proof. unfold escrow. intros H. res_inv H. apply status_new_Ok in Ha as ->. done. Qed.

(** The statuses a unique asset operation may start from. *)
Definition unique_sources (op : Operation) : list Status :=
  if String.eqb op "asset.unlock" then ["locked"]
  else if contains ["asset.delist"; "asset.redeem"] op then ["listed"]
  else if String.eqb op "asset.release" then ["escrowed"]
  else if String.eqb op "asset.restrict" then ["active"; "locked"; "listed"; "escrowed"; "trade_held"]
  else if String.eqb op "asset.restore" then ["restricted"; "quarantined"; "unsupported"]
  else if contains ["trade.unlock"; "trade.settle"] op then ["trade_held"]
  else ["active"].

Ltac from_guard H :=
  first [ apply single_from_Ok in H as (p & st & -> & Hst & Hin)
        | let X := fresh "X" in
          apply rbind_Ok in H as (p & X & H); apply require_from_Ok in X as (-> & st & Hst & Hin) ].

Lemma unique_check_source op cur inp : UniqueAsset.check op cur inp = Ok tt →
  op ∈ UniqueAsset.op.all ∧
  ((op = "asset.mint" ∧ cur = None) ∨
   (op ≠ "asset.mint" ∧ ∃ p st, cur = Some p ∧ rs_status (p_state p) = Some st ∧ st ∈ unique_sources op)).
Proof.
  unfold UniqueAsset.check. intros [Hop H]%checked_op. split; [done|].
  unfold UniqueAsset.op.all in Hop. elem_cases Hop; subst op; cbn in H;
    [left; split; [done|]; destruct cur as [p|]; [|done]; cbn in H; res_inv H; done|..];
    right; (split; [done|]); from_guard H; exists p, st; (split; [done|]);
    (split; [by apply status_of|done]).
Qed.

(** What the reducer does to a unique asset, once the rules accepted the operation. *)
Lemma unique_apply_status op p inp s :
  op ∈ UniqueAsset.op.all → op ≠ "asset.mint" →
  rs_status (p_state p) ≠ None →
  apply_unique_asset (Some p) op inp = Ok s →
  (∃ v, s = RUniqueAsset v ∧
     ∀ from, from ∈ unique_sources op → rs_status (p_state p) = Some from →
       ∃ doc, table StUniqueAsset op (Some from) doc ∧ ua_status v = written op inp doc) ∨
  (s = p_state p ∧ op ∈ ["asset.attach_content"; "asset.detach_content"; "asset.update_metadata"]).
Proof.
  intros Hop Hne Hst H. unfold apply_unique_asset in H. res_inv H.
  unfold UniqueAsset.op.all in Hop.
  elem_cases Hop; subst op; cbn in H; try done;
    try (right; injection H as <-; split; [done|set_solver]);
    left; res_inv H; apply unique_asset_Ok in H as ->; (eexists; split; [reflexivity|]);
    intros from Hf Hs; cbn in Hf; elem_cases Hf; subst from; eexists; (split; [|reflexivity]);
    eauto; constructor; set_solver.
Qed.

(** The executor's type guard: the loaded projection has the intent's state type. *)
Definition typed (st : StateType) (cur : option StateProjection) : Prop :=
  ∀ p, cur = Some p → p_state_type p = st ∧ rs_state_type (p_state p) = st.

Definition status_of_current (cur : option StateProjection) : option Status :=
  cur ≫= fun p => rs_status (p_state p).

(** The shape of the result each profile's lemma establishes: there is a documented row
    for the operation from the current status, and the payload has the row's status, or
    the one [asset.restrict] was given in its inputs. *)
Definition follows_table (st : StateType) (op : Operation) (inp : Inputs)
    (cur : option StateProjection) (s : ResourceState) : Prop :=
  rs_state_type s = st ∧
  ∃ doc, table st op (status_of_current cur) doc ∧ rs_status s = Some (written op inp doc).

Lemma unique_follows_table op cur inp s : typed StUniqueAsset cur →
  UniqueAsset.check op cur inp = Ok tt → apply cur op inp = Ok s →
  follows_table StUniqueAsset op inp cur s.
Proof.
  intros Ht [Hop [[-> ->]|(Hne & p & st & -> & Hst & Hin)]]%unique_check_source H.
  - cbn in H. res_inv H. apply unique_asset_Ok in H as ->. split; [done|]. cbn; eauto.
  - destruct (Ht p eq_refl) as [T1 T2]. unfold apply in H. cbn in H. rewrite T1 in H.
    apply unique_apply_status in H as [(v & -> & Hv)|[-> Hc]]; [| |done|done|by rewrite Hst].
    + split; [done|]. cbn. rewrite Hst. destruct (Hv st Hin Hst) as (doc & Hd & ->). eauto.
    + split; [done|]. exists st. cbn. rewrite Hst.
      elem_cases Hc; subst op; cbn in Hin; elem_cases Hin; subst st;
        (split; [constructor; set_solver|done]).
Qed.

Lemma entitlement_check_source op cur inp : Entitlement.check op cur inp = Ok tt →
  op ∈ Entitlement.op.all ∧
  ((op = "entitlement.grant" ∧ cur = None) ∨
   (∃ p st, cur = Some p ∧ rs_status (p_state p) = Some st ∧ table StEntitlement op (Some st)
      (if String.eqb op "entitlement.activate" || String.eqb op "entitlement.restore" then "active"
       else if String.eqb op "entitlement.suspend" then "suspended"
       else if String.eqb op "entitlement.expire" then "expired"
       else if String.eqb op "entitlement.revoke" then "revoked" else st))).
Proof.
  unfold Entitlement.check. intros [Hop H]%checked_op. split; [done|].
  unfold Entitlement.op.all in Hop. elem_cases Hop; subst op; cbn in H;
    [left; split; [done|]; by destruct cur|..];
    right; from_guard H; exists p, st; (split; [done|]); (split; [by apply status_of|]);
    first [by constructor | elem_cases Hin; subst st; constructor].
Qed.

Lemma entitlement_follows_table op cur inp s : typed StEntitlement cur →
  Entitlement.check op cur inp = Ok tt → apply cur op inp = Ok s →
  follows_table StEntitlement op inp cur s.
Proof.
  intros Ht [Hop [[-> ->]|(p & st & -> & Hst & Htab)]]%entitlement_check_source H.
  - cbn in H. res_inv H. subst s. split; [done|]. cbn; eauto.
  - destruct (Ht p eq_refl) as [T1 T2]. unfold apply in H. cbn in H. rewrite T1 in H.
    unfold follows_table. cbn. rewrite Hst.
    unfold Entitlement.op.all in Hop. elem_cases Hop; subst op; cbn in H, Htab;
      [by inversion Htab|..]; unfold entitlement_with_status in H; res_inv H;
      repeat match goal with E : Helpers.status_new _ = Ok _ |- _ => apply status_new_Ok in E; subst end;
      subst; (split; [done|]); cbn; eexists; (split; [exact Htab|]); try done.
    match goal with E : Helpers.state_str p "status" = Ok _ |- _ =>
      apply helpers_state_str_Ok, status_of in E; by rewrite Hst in E end.
Qed.

Lemma listing_follows_table op cur inp s : typed StListing cur →
  check_listing op cur inp = Ok tt → apply cur op inp = Ok s → follows_table StListing op inp cur s.
Proof.
  intros Ht H0 H. unfold check_listing in H0. apply checked_op in H0 as [Hop H0].
  unfold Marketplace.op.listing_operations in Hop.
  elem_cases Hop; subst op; cbn in H0;
    [destruct cur; [done|]; cbn in H; res_inv H; apply listing_Ok in H as ->; split; [done|]; cbn; eauto|..];
    from_guard H0; elem_cases Hin; subst st; apply status_of in Hst; destruct (Ht p eq_refl) as [T1 T2];
    unfold apply in H; cbn in H; rewrite T1 in H; cbn in H; unfold listing_with_status in H; res_inv H;
    apply listing_Ok in H as ->; (split; [done|]); cbn; rewrite Hst; eauto.
Qed.

Lemma escrow_follows_table op cur inp s : typed StEscrow cur →
  check_escrow op cur inp = Ok tt → apply cur op inp = Ok s → follows_table StEscrow op inp cur s.
Proof.
  intros Ht H0 H. unfold check_escrow in H0. apply checked_op in H0 as [Hop H0].
  unfold Marketplace.op.escrow_operations in Hop.
  elem_cases Hop; subst op; cbn in H0;
    [destruct cur; [done|]; cbn in H; res_inv H; apply escrow_Ok in H as ->; split; [done|]; cbn; eauto|..];
    from_guard H0; elem_cases Hin; subst st; apply status_of in Hst; destruct (Ht p eq_refl) as [T1 T2];
    unfold apply in H; cbn in H; rewrite T1 in H; cbn in H; unfold escrow_with_status in H; res_inv H;
    apply escrow_Ok in H as ->; (split; [done|]); cbn; rewrite Hst; eauto.
Qed.

Lemma gated_step_inv rules intent cur s : gated_step rules intent cur = Ok s →
  check_access (execution_policy rules) intent cur = Ok tt ∧
  pr_check rules (i_operation intent) cur (i_inputs intent) = Ok tt ∧
  pr_apply rules cur (i_operation intent) (i_inputs intent) = Ok s.
Proof. unfold gated_step. intros H. res_inv H. by destruct a, a0. Qed.

(** The resource types whose payload carries a status. *)
Definition status_types : list StateType := [StUniqueAsset; StEntitlement; StListing; StEscrow].

Lemma typed_has_status st p : typed st (Some p) → st ∈ status_types → rs_status (p_state p) ≠ None.
Proof.
  intros Ht Hst E. destruct (Ht p eq_refl) as [_ T]. unfold status_types in Hst.
  elem_cases Hst; subst st; by destruct (p_state p).
Qed.

(** ** The gate *)

Lemma terminal_blocked p st op : rs_status (p_state p) = Some st → st ∈ terminal_statuses →
  ∃ e, check_resource_availability p op = Err e.
Proof.
  intros Hs Ht. unfold check_resource_availability. rewrite Hs.
  destruct (status_try_from_str st) as [st'|] eqn:E; [|eauto].
  apply status_try_from_str_Ok in E as [-> _].
  unfold terminal_statuses in Ht. elem_cases Ht; subst st; cbn; eauto.
Qed.

(** A table row that leaves from [from] is let through by the gate. *)
Lemma table_passes_gate st op p from to : table st op (Some from) to →
  rs_status (p_state p) = Some from → check_resource_availability p op = Ok tt.
Proof.
  intros Ht Hs. unfold check_resource_availability. rewrite Hs. clear Hs.
  inversion Ht as [| | | | | | | | | |? Hin|? Hin|? Hin| | | | | | | |? Hin|? Hin|? Hin| | | | | | |];
    subst; try reflexivity; elem_cases Hin; subst; reflexivity.
Qed.

(** ** Unique assets: owner and trade binding *)

Definition asset_rules : list ProfileRules := [UniqueAssetRules; PaidUniqueAssetRules].

(** Both asset rule sets accept an operation only from a source the base table or the
    paid overlay names, and check ownership of the two transferring operations. *)
Lemma unique_check_owner op p inp v : p_state p = RUniqueAsset v →
  UniqueAsset.check op (Some p) inp = Ok tt → op ∈ ["asset.transfer"; "trade.settle"] →
  inp !! "from_owner" = Some (VString (ua_owner v)).
Proof.
  intros Hv H Hop. assert (Hs : ∀ o, state_str p "owner" = Ok o → o = ua_owner v).
  { unfold state_str. rewrite Hv. cbn. intros o Ho. res_inv Ho. done. }
  elem_cases Hop; subst op; cbn in H; unfold UniqueAsset.check_transfer, check_trade_settle in H; res_inv H;
    repeat match goal with
    | E : require_from (Some p) _ _ = Ok _ |- _ => apply require_from_Ok in E as ([= <-] & _)
    | E : input_str _ _ = Ok _ |- _ => apply input_str_Ok in E as [? _]
    | E : state_str p "owner" = Ok _ |- _ => apply Hs in E; subst
    | E : negb (String.eqb _ _) = false |- _ => apply negb_false_iff, String.eqb_eq in E; subst
    end; done.
Qed.

Lemma paid_check_inv op cur inp : PaidUniqueAsset.check op cur inp = Ok tt →
  (op = "asset.hard_delete" ∧ check_hard_delete cur inp = Ok tt) ∨
  (op = "asset.restore" ∧ check_paid_restore cur = Ok tt) ∨
  (op ≠ "asset.restore" ∧ UniqueAsset.check op cur inp = Ok tt ∧
   (op = "asset.transfer" → check_transfer_overlay cur inp = Ok tt) ∧
   (op = "asset.restrict" → check_restrict_overlay cur inp = Ok tt)).
Proof.
  unfold PaidUniqueAsset.check.
  destruct (String.eqb_spec op paid_op.asset_hard_delete) as [->|N1]; [by left|].
  destruct (String.eqb_spec op UniqueAsset.op.asset_restore) as [->|N2]; [by right; left|].
  intros [Hop H]%checked_op. res_inv H. destruct a. right; right. split; [done|]. split; [done|].
  split; intros ->; exact H.
Qed.

(** The owner and the trade binding of the payload each accepted operation writes. *)
Lemma unique_apply_inv op p inp s v : p_state p = RUniqueAsset v →
  apply_unique_asset (Some p) op inp = Ok s →
  ∃ v', s = RUniqueAsset v' ∧
    (op ∉ ["asset.mint"; "asset.transfer"; "trade.settle"] → ua_owner v' = ua_owner v) ∧
    (op ∈ ["asset.transfer"; "trade.settle"] → inp !! "to_owner" = Some (VString (ua_owner v'))) ∧
    (v' = v ∨ ua_trade_id v' = None ∨ (op = "trade.lock" ∧ ua_status v' = "trade_held")) ∧
    (op = "trade.lock" → is_Some (ua_trade_id v')) ∧
    (op ∉ ["trade.lock"; "asset.restrict"] → v' = v ∨ ua_status v' ≠ "trade_held") ∧
    (op = "asset.restrict" →
     ua_status v' = default "restricted" (inp !! "status" ≫= as_str) ∧ ua_trade_id v' = None).
Proof.
  intros Hv H. unfold apply_unique_asset in H. cbn zeta in H. res_inv H.
  assert (Hs : ∀ o, Helpers.state_str p "owner" = Ok o → o = ua_owner v).
  { unfold Helpers.state_str. rewrite Hv. cbn. intros o Ho. res_inv Ho. done. }
  apply Hs in Ha as ->.
  assert (Hi : ∀ t, Helpers.input_str inp "to_owner" = Ok t → inp !! "to_owner" = Some (VString t)).
  { intros t Et. by apply (input_str_Ok inp "to_owner" t) in Et as [? _]. }
  repeat match type of H with
  | (if ?b then _ else _) = Ok _ =>
      let E := fresh "E" in destruct b eqn:E;
        rewrite ?orb_true_iff, ?String.eqb_eq in E
  end; try discriminate H; res_inv H;
    try (apply unique_asset_Ok in H as ->);
    try match goal with E : Helpers.state_str p "owner" = Ok _ |- _ => apply Hs in E as -> end;
    try (rewrite <- H, Hv);
    (eexists; split; [reflexivity|]); cbn;
    repeat split; intros; subst; try set_solver; try naive_solver.
Qed.

(** Operations of the two asset rule sets on an existing asset. *)
Lemma asset_step_inv rules intent p s v : rules ∈ asset_rules →
  p_state p = RUniqueAsset v → p_state_type p = StUniqueAsset →
  gated_step rules intent (Some p) = Ok s →
  apply_unique_asset (Some p) (i_operation intent) (i_inputs intent) = Ok s ∧
  i_operation intent ≠ "asset.mint" ∧
  (i_operation intent ∈ ["asset.transfer"; "trade.settle"] →
   i_inputs intent !! "from_owner" = Some (VString (ua_owner v))).
Proof.
  intros Hr Hv Ht (_ & H1 & H2)%gated_step_inv. unfold asset_rules in Hr.
  assert (Happ : apply (Some p) (i_operation intent) (i_inputs intent) = Ok s)
    by (elem_cases Hr; subst rules; exact H2).
  unfold apply in Happ. cbn in Happ. rewrite Ht in Happ. split; [done|].
  assert (Hbase : UniqueAsset.check (i_operation intent) (Some p) (i_inputs intent) = Ok tt ∨
    i_operation intent ∈ ["asset.hard_delete"; "asset.restore"]).
  { elem_cases Hr; subst rules; [by left|].
    apply paid_check_inv in H1 as [[-> _]|[[-> _]|(_ & ? & _)]]; [right; set_solver..|by left]. }
  destruct Hbase as [Hc|Ho].
  - split; [|by eapply unique_check_owner].
    apply unique_check_source in Hc as [_ [[_ ?]|[? _]]]; done.
  - split; [intros E; rewrite E in Ho; set_solver|]. intros Ho'. elem_cases Ho; rewrite Ho in Ho'; set_solver.
Qed.

Lemma asset_born rules intent s : rules ∈ asset_rules → gated_step rules intent None = Ok s →
  ∃ o, s = RUniqueAsset (mkUnique o "active" None).
Proof.
  intros Hr (_ & H1 & H2)%gated_step_inv. unfold asset_rules in Hr.
  assert (i_operation intent = "asset.mint") as E.
  { elem_cases Hr; subst rules.
    - by apply unique_check_source in H1 as [_ [[? _]|(_ & ? & ? & ? & _)]].
    - apply paid_check_inv in H1 as [[_ ?]|[[_ ?]|(_ & Hc & _)]]; [done..|].
      by apply unique_check_source in Hc as [_ [[? _]|(_ & ? & ? & ? & _)]]. }
  assert (Happ : apply None (i_operation intent) (i_inputs intent) = Ok s)
    by (elem_cases Hr; subst rules; exact H2).
  rewrite E in Happ. cbn in Happ. res_inv Happ. apply unique_asset_Ok in Happ as ->. eauto.
Qed.

(** The payloads that accepted operations can produce. *)
Inductive asset_reachable (rules : ProfileRules) : ResourceState → Prop :=
| reach_born intent s :
    gated_step rules intent None = Ok s → asset_reachable rules s
| reach_step intent p s :
    asset_reachable rules (p_state p) → p_state_type p = StUniqueAsset →
    gated_step rules intent (Some p) = Ok s → asset_reachable rules s.

Lemma asset_reachable_unique rules s : rules ∈ asset_rules → asset_reachable rules s →
  ∃ v, s = RUniqueAsset v ∧ (is_Some (ua_trade_id v) → ua_status v = "trade_held").
Proof.
  intros Hr. induction 1 as [intent s H|intent p s _ IH Ht H].
  - apply asset_born in H as [o ->]; [|done]. eexists. split; [done|]. cbn. by intros [? ?].
  - destruct IH as (v & Hv & IH). destruct (asset_step_inv _ _ _ _ v Hr Hv Ht H) as (Ha & _).
    eapply unique_apply_inv in Ha as (v' & -> & _ & _ & Htid & _); [|done].
    eexists. split; [done|]. destruct Htid as [->|[E|[_ E]]]; [done| |done].
    rewrite E. by intros [? ?].
Qed.

Lemma paid_restrict_target cur inp : check_restrict_overlay cur inp = Ok tt →
  default "restricted" (inp !! "status" ≫= as_str) ∈ PaidUniqueAsset.exceptional_statuses.
Proof.
  unfold check_restrict_overlay. intros H. res_inv H.
  destruct (inp !! "status" ≫= as_str) as [target|]; cbn; [|by left].
  destruct (status_try_from_str target) as [t|] eqn:E; [|done].
  apply status_try_from_str_Ok in E as [-> _]. res_inv H.
  apply negb_false_iff in Hb. by apply contains_true.
Qed.

(** ** Properties *)

(** C1: the documented transition tables are what the code implements.  Every
    transition the gate, the rules and the reducer accept, for the four profiles whose
    payload carries a status, keeps the state type and follows a row of the table
    documented for the profile: the row leaves from the current status (or from the
    unborn resource), and the payload produced has the row's target status.  The one
    exception is written into [written]: [asset.restrict] with a [status] among its
    inputs starts from a documented source but writes the status it was given. *)
Theorem lifecycle_refines_table (st : StateType) (rules : ProfileRules) (intent : Intent)
    (cur : option StateProjection) (s : ResourceState) :
  get baseline st = Some rules → st ∈ status_types → typed st cur →
  gated_step rules intent cur = Ok s →
  follows_table st (i_operation intent) (i_inputs intent) cur s.
Proof.
  intros Hr Hst Ht H. unfold status_types in Hst. apply gated_step_inv in H as (_ & H1 & H2).
  elem_cases Hst; subst st; injection Hr as <-.
  - by eapply unique_follows_table.
  - by eapply entitlement_follows_table.
  - by eapply listing_follows_table.
  - by eapply escrow_follows_table.
Qed.

(** The gate and the rules agree.  An operation that a status-bearing profile's
    rules accept on an existing resource is never refused by the executor's status
    gate, and the rules themselves never accept an operation from a terminal status. *)
Theorem status_gate_agrees (st : StateType) (rules : ProfileRules) (op : Operation)
    (p : StateProjection) (inp : Inputs) (s : ResourceState) :
  get baseline st = Some rules → st ∈ status_types → typed st (Some p) →
  pr_check rules op (Some p) inp = Ok tt → pr_apply rules (Some p) op inp = Ok s →
  check_resource_availability p op = Ok tt ∧
  ∀ from, rs_status (p_state p) = Some from → from ∉ terminal_statuses.
Proof.
  intros Hr Hst Ht H1 H2.
  assert (Hf : follows_table st op inp (Some p) s).
  { unfold status_types in Hst. elem_cases Hst; subst st; injection Hr as <-;
      [by eapply unique_follows_table | by eapply entitlement_follows_table
      | by eapply listing_follows_table | by eapply escrow_follows_table]. }
  destruct Hf as (_ & to & Htab & _). cbn in Htab.
  destruct (rs_status (p_state p)) as [from|] eqn:E; [|by destruct (typed_has_status st p Ht Hst)].
  pose proof (table_passes_gate _ _ _ _ _ Htab E) as Hg. split; [done|].
  intros from' [= <-] Hterm. destruct (terminal_blocked p from op E Hterm) as [e He]. congruence.
Qed.

(** Terminal statuses are final.  From a status documented as terminal, every
    operation of every baseline rule set, the paid overlay and its hard delete
    included, is refused. *)
Theorem terminal_is_final (rules : ProfileRules) (intent : Intent) (p : StateProjection) (st : Status) :
  rules ∈ [UniqueAssetRules; PaidUniqueAssetRules; EntitlementRules; ListingRules; EscrowRules] →
  rs_status (p_state p) = Some st → st ∈ terminal_statuses →
  ∃ e, gated_step rules intent (Some p) = Err e.
Proof.
  intros Hr Hs Ht. destruct (terminal_blocked p st (i_operation intent) Hs Ht) as [e He].
  assert (∃ e, check_access (execution_policy rules) intent (Some p) = Err e) as [e' He'].
  { elem_cases Hr; subst rules; cbn; unfold resource_check_access; rewrite He;
      destruct (check_owner (Some p) (i_inputs intent)) as [[]|e']; cbn; eauto. }
  exists e'. unfold gated_step. by rewrite He'.
Qed.

(** Ownership moves only by an owner-checked transfer.  On an existing unique
    asset, under the plain or the paid rules, an accepted operation keeps the owner
    unless it is [asset.transfer] or [trade.settle]; those two name the current owner
    as [from_owner] and give the asset to [to_owner]. *)
Theorem asset_ownership (rules : ProfileRules) (intent : Intent) (p : StateProjection)
    (v : UniqueAssetState) (s : ResourceState) :
  rules ∈ asset_rules → p_state p = RUniqueAsset v → p_state_type p = StUniqueAsset →
  gated_step rules intent (Some p) = Ok s →
  ∃ v', s = RUniqueAsset v' ∧
    if contains ["asset.transfer"; "trade.settle"] (i_operation intent)
    then i_inputs intent !! "from_owner" = Some (VString (ua_owner v)) ∧
         i_inputs intent !! "to_owner" = Some (VString (ua_owner v'))
    else ua_owner v' = ua_owner v.
Proof.
  intros Hr Hv Ht H. destruct (asset_step_inv _ _ _ _ v Hr Hv Ht H) as (Ha & Hm & Hf).
  eapply unique_apply_inv in Ha as (v' & -> & Ho & Hto & _); [|done].
  eexists. split; [done|]. destruct (contains _ _) eqn:E.
  - apply contains_true in E. auto.
  - apply Ho. assert (i_operation intent ∉ ["asset.transfer"; "trade.settle"]) as Hn
      by (intros Hin%contains_true; congruence). set_solver.
Qed.

(** Hard deletion of a paid asset needs the owner's consent.  An accepted
    [asset.hard_delete] names the current owner as actor and carries
    [authorized_by_owner: true], starts from a status that is not terminal, and leaves
    a tombstone that still records the owner; a paid transfer by anyone who is named
    as actor and is not the owner carries the owner's consent too. *)
Theorem paid_consent (intent : Intent) (p : StateProjection) (v : UniqueAssetState) (s : ResourceState) :
  p_state p = RUniqueAsset v → p_state_type p = StUniqueAsset →
  gated_step PaidUniqueAssetRules intent (Some p) = Ok s →
  (i_operation intent = "asset.hard_delete" →
     i_inputs intent !! "actor" = Some (VString (ua_owner v)) ∧
     owner_consents (i_inputs intent) = true ∧
     ua_status v ∉ terminal_statuses ∧
     s = RUniqueAsset (mkUnique (ua_owner v) "tombstoned" None)) ∧
  (i_operation intent = "asset.transfer" →
     ∀ a, i_inputs intent !! "actor" = Some (VString a) → a ≠ ua_owner v →
     owner_consents (i_inputs intent) = true).
Proof.
  intros Hv Ht H. pose proof (gated_step_inv _ _ _ _ H) as (Hacc & Hchk & Happ).
  assert (Hown : ∀ o, state_str p "owner" = Ok o → o = ua_owner v).
  { unfold state_str. rewrite Hv. cbn. intros o Ho. res_inv Ho. done. }
  cbn in Hchk. apply paid_check_inv in Hchk as Hc. split; intros Eop.
  - destruct Hc as [[_ Hc]|[[E _]|(_ & Hc & _)]]; [|by rewrite Eop in E|].
    2: { apply unique_check_source in Hc as [Hin _]. rewrite Eop in Hin.
         by apply contains_true in Hin. }
    unfold check_hard_delete in Hc. res_inv Hc. apply Hown in Ha as ->. apply input_str_Ok in Ha0 as [Hact _].
    apply negb_false_iff, String.eqb_eq in Hb as ->. apply negb_false_iff in Hb0.
    split; [done|]. split; [done|]. split.
    + intros Hterm. destruct (terminal_blocked p (ua_status v) (i_operation intent)) as [e He];
        [by rewrite Hv|done|]. cbn in Hacc. unfold resource_check_access in Hacc.
      rewrite He in Hacc. by res_inv Hacc.
    + cbn in Happ. unfold apply in Happ. cbn in Happ. rewrite Ht, Eop in Happ.
      unfold apply_unique_asset in Happ. cbn in Happ. res_inv Happ.
      apply unique_asset_Ok in Happ as ->. apply helpers_state_str_Ok, Hown in Ha as ->. done.
  - intros a Hact Hne. destruct Hc as [[E _]|[[E _]|(_ & _ & Hc & _)]]; [by rewrite Eop in E..|].
    specialize (Hc Eop). unfold check_transfer_overlay in Hc. res_inv Hc.
    apply require_from_Ok in Ha as ([= <-] & _). apply Hown in Ha0 as ->.
    rewrite Hact in Hc. cbn in Hc. destruct (String.eqb_spec a (ua_owner v)); [done|].
    res_inv Hc. by apply negb_false_iff in Hb.
Qed.

(** C38: the trade binding.  On every payload reachable from a mint by accepted
    operations, a unique asset carries a [trade_id] only while it is [trade_held]; under
    the paid rules the two coincide. *)
Theorem trade_binding_invariant (rules : ProfileRules) (s : ResourceState) :
  rules ∈ asset_rules → asset_reachable rules s →
  ∃ v, s = RUniqueAsset v ∧ (is_Some (ua_trade_id v) → ua_status v = "trade_held") ∧
    (rules = PaidUniqueAssetRules → ua_status v = "trade_held" → is_Some (ua_trade_id v)).
Proof.
  intros Hr Hreach. destruct (asset_reachable_unique _ _ Hr Hreach) as (v & Hv & H1).
  exists v. split; [done|]. split; [done|]. intros ->. revert v Hv H1.
  induction Hreach as [intent s H|intent p s Hp IH Ht H]; intros v Hv _.
  - apply asset_born in H as [o ->]; [|done]. injection Hv as <-. done.
  - destruct (asset_reachable_unique _ _ Hr Hp) as (w & Hw & H1). specialize (IH w Hw H1).
    pose proof (gated_step_inv _ _ _ _ H) as (_ & Hchk & _).
    destruct (asset_step_inv _ _ _ _ w Hr Hw Ht H) as (Ha & _).
    eapply unique_apply_inv in Ha as (v' & -> & _ & _ & _ & Hl & Hs & Hres); [|done].
    injection Hv as ->.
    destruct (decide (i_operation intent = "trade.lock")) as [El|Nl]; [intros; by apply Hl|].
    destruct (decide (i_operation intent = "asset.restrict")) as [Er|Nr].
    + destruct (Hres Er) as [Est _]. cbn in Hchk.
      apply paid_check_inv in Hchk as [[E _]|[[E _]|(_ & _ & _ & Hc)]]; [congruence..|].
      specialize (Hc Er). apply paid_restrict_target in Hc. rewrite <- Est in Hc.
      intros E. rewrite E in Hc. by apply contains_true in Hc.
    + destruct Hs as [-> | Hs]; [set_solver|done|done].
Qed.

(** ** Witnesses *)

Module Samples.
Definition intent (st : StateType) (op : Operation) (inputs : list (string * Value)) : Intent :=
  intent_new "acme" "int_1" op "alice" "asset:sword" (Some st) 1 (list_to_map inputs) None 0 None "n".
Definition projection (st : StateType) (s : ResourceState) : StateProjection :=
  mkProjection "acme" "asset:sword" st 1 "evt_1" "cmt_1" "h" s.
Definition asset (status : Status) : StateProjection :=
  projection StUniqueAsset (RUniqueAsset (mkUnique "alice" status None)).
Definition transfer : Intent :=
  intent StUniqueAsset "asset.transfer" [("from_owner", VString "alice"); ("to_owner", VString "bob")].
Definition hard_delete : Intent :=
  intent StUniqueAsset "asset.hard_delete" [("actor", VString "alice"); ("authorized_by_owner", VBool true)].
Definition trade_lock : Intent :=
  intent StUniqueAsset "trade.lock" [("from_owner", VString "alice"); ("trade_id", VString "t1")].
Definition mint : Intent := intent StUniqueAsset "asset.mint" [("to_owner", VString "alice")].
End Samples.

Lemma lifecycle_refines_table_witness :
  follows_table StUniqueAsset "asset.transfer" (i_inputs Samples.transfer)
    (Some (Samples.asset "active")) (RUniqueAsset (mkUnique "bob" "active" None)) ∧
  follows_table StEscrow "escrow.release" ∅
    (Some (Samples.projection StEscrow (REscrow (mkEscrow "b" "s" "locked"))))
    (REscrow (mkEscrow "b" "s" "released")).
Proof.
  split.
  - refine (lifecycle_refines_table StUniqueAsset UniqueAssetRules Samples.transfer
      (Some (Samples.asset "active")) _ _ _ _ _);
      [reflexivity | repeat constructor | by intros p [= <-] | vm_compute; reflexivity].
  - refine (lifecycle_refines_table StEscrow EscrowRules (Samples.intent StEscrow "escrow.release" [])
      (Some (Samples.projection StEscrow (REscrow (mkEscrow "b" "s" "locked")))) _ _ _ _ _);
      [reflexivity | repeat constructor | by intros p [= <-] | vm_compute; reflexivity].
Defined.

Lemma status_gate_agrees_witness :
  check_resource_availability (Samples.asset "listed") "asset.redeem" = Ok tt.
Proof.
  refine (proj1 (status_gate_agrees StUniqueAsset UniqueAssetRules "asset.redeem"
    (Samples.asset "listed") ∅ (RUniqueAsset (mkUnique "alice" "redeemed" None)) _ _ _ _ _));
    [reflexivity | repeat constructor | by intros p [= <-] | vm_compute; reflexivity
    | vm_compute; reflexivity].
Defined.

Lemma terminal_is_final_witness :
  ∃ e, gated_step PaidUniqueAssetRules Samples.hard_delete (Some (Samples.asset "burned")) = Err e.
Proof.
  refine (terminal_is_final PaidUniqueAssetRules Samples.hard_delete (Samples.asset "burned")
    "burned" _ _ _); [repeat constructor | reflexivity | repeat constructor].
Defined.

Lemma asset_ownership_witness :
  ∃ v', RUniqueAsset (mkUnique "bob" "active" None) = RUniqueAsset v' ∧
    i_inputs Samples.transfer !! "to_owner" = Some (VString (ua_owner v')).
Proof.
  destruct (asset_ownership UniqueAssetRules Samples.transfer (Samples.asset "active")
    (mkUnique "alice" "active" None) (RUniqueAsset (mkUnique "bob" "active" None)))
    as (v' & H1 & _ & H2);
    [repeat constructor | reflexivity | reflexivity | vm_compute; reflexivity | eauto].
Defined.

Lemma paid_consent_witness :
  owner_consents (i_inputs Samples.hard_delete) = true ∧
  i_inputs Samples.hard_delete !! "actor" = Some (VString "alice").
Proof.
  destruct (paid_consent Samples.hard_delete (Samples.asset "active") (mkUnique "alice" "active" None)
    (RUniqueAsset (mkUnique "alice" "tombstoned" None))) as [H _];
    [reflexivity | reflexivity | vm_compute; reflexivity |].
  destruct (H eq_refl) as (H1 & H2 & _). auto.
Defined.

Lemma trade_binding_invariant_witness :
  ∃ v, RUniqueAsset (mkUnique "alice" "trade_held" (Some "t1")) = RUniqueAsset v ∧
    is_Some (ua_trade_id v).
Proof.
  destruct (trade_binding_invariant PaidUniqueAssetRules
    (RUniqueAsset (mkUnique "alice" "trade_held" (Some "t1")))) as (v & H1 & _ & H2).
  - right. left.
  - apply (reach_step _ Samples.trade_lock (Samples.asset "active"));
      [|reflexivity | vm_compute; reflexivity].
    apply (reach_born _ Samples.mint). vm_compute; reflexivity.
  - exists v. split; [exact H1|]. apply H2; [reflexivity|]. injection H1 as <-. reflexivity.
Defined.

(** The plain rules do not look at the [status] input of [asset.restrict]: the table
    documents [restricted] as the target, the reducer writes whatever valid status the
    intent names, a terminal one included. *)
Example restrict_can_burn :
  gated_step UniqueAssetRules
    (Samples.intent StUniqueAsset "asset.restrict" [("status", VString "burned")])
    (Some (Samples.asset "locked")) = Ok (RUniqueAsset (mkUnique "alice" "burned" None)).
Proof. vm_compute. reflexivity. Qed.
