(* ===== verification/Economy.v ===== *)
(** * Quantities: balances, stacks, meters and transfers

    What the rules and reducers of the three quantity profiles do to the numbers they
    hold, the conservation of an atomic transfer, and the soundness of the batch
    validator that admits it. *)

From Stdlib Require Import ZArith Lia String Sorted.
From stdpp Require Import prelude gmap strings.
From S2P Require Import Prelude Amount Domain Profile UniqueAsset.
From S2P Require Import ConsumableStack FungibleBalance Meter Transition Atomicity Resource Registry Lifecycle.
Open Scope Z_scope.

(** ** Readers *)

Lemma helpers_input_amount inp key a :
  Helpers.input_amount inp key = Ok a ↔ input_amount inp key = Ok a.
Proof.
  unfold Helpers.input_amount, input_amount. destruct (inp !! key) as [v|]; [|done]. cbn.
  unfold Helpers.parse_amount_str, parse_amount_str. destruct (as_str v) as [t|]; [|done]. cbn.
  destruct (str_is_empty t); [done|]. destruct (str_any is_float_char t); done.
Qed.

Lemma helpers_input_amount_wf inp key a :
  Helpers.input_amount inp key = Ok a → amount_wf a ∧ scale a = 0.
Proof. intros H%helpers_input_amount. by apply input_amount_wf in H. Qed.

Lemma ZERO_wf : amount_wf ZERO.
Proof. split; cbn; unfold in_u128, U128_MAX, MAX_SCALE; lia. Qed.

Lemma aval_ZERO : aval ZERO = 0.
Proof. done. Qed.

Lemma amount_fits a : amount_wf a → aval a ≤ U128_MAX * 10 ^ (MAX_SCALE - scale a).
Proof.
  intros [[] ?]. unfold aval. pose proof (pow10_pos (MAX_SCALE - scale a) ltac:(lia)). nia.
Qed.

(** Subtraction succeeds when it stays non-negative and the minuend has the larger
    scale; adding to zero always succeeds. *)
Lemma checked_sub_ok a b : amount_wf a → amount_wf b → scale b ≤ scale a → aval b ≤ aval a →
  ∃ r, checked_sub a b = Some r ∧ amount_wf r ∧ scale r = scale a ∧ aval r = aval a - aval b.
Proof.
  intros Ha Hb Hs Hv. pose proof (checked_sub_spec a b Ha Hb) as H. cbn zeta in H.
  rewrite Z.max_l in H by lia. destruct (checked_sub a b) as [r|]; [eauto|].
  pose proof (amount_fits a Ha). lia.
Qed.

Lemma checked_add_zero d : amount_wf d →
  ∃ r, checked_add ZERO d = Some r ∧ amount_wf r ∧ scale r = scale d ∧ aval r = aval d.
Proof.
  intros Hd. pose proof (checked_add_spec ZERO d ZERO_wf Hd) as H. cbn zeta in H.
  assert (scale ZERO = 0) as E by done. rewrite E in H. rewrite Z.max_r in H by (destruct Hd; lia).
  rewrite aval_ZERO in H. destruct (checked_add ZERO d) as [r|]; [eexists; split; [done|]; naive_solver|].
  pose proof (amount_fits d Hd). lia.
Qed.

(** ** One quantity operation *)

(** How an operation moves the quantity: by how much the after-value exceeds the
    before-value, in units of the input. *)
Definition quantity_sign (op : Operation) : option Z :=
  if contains ["balance.mint"; "balance.credit"; "balance.release"; "stack.credit"; "stack.release"] op
  then Some 1
  else if contains ["balance.debit"; "balance.spend"; "balance.reserve"; "balance.burn";
                    "balance.transfer"; "balance.convert"; "stack.debit"; "stack.consume";
                    "stack.reserve"; "stack.transfer"] op
  then Some (-1) else None.

(** Close a reducer case: the checked operation found in the context is exact. *)
Ltac quantity_finish inp key Hw :=
  match goal with E : Helpers.input_amount inp key = Ok ?a |- _ =>
    let Hwa := fresh in let Hsa := fresh in let Hadd := fresh in let Hsb := fresh in
    pose proof (helpers_input_amount_wf _ _ _ E) as [Hwa Hsa]; apply helpers_input_amount in E;
    pose proof (checked_add_spec _ _ Hw Hwa) as Hadd; pose proof (checked_sub_spec _ _ Hw Hwa) as Hsb;
    repeat match goal with
    | E : checked_add _ _ = Some _ |- _ => rewrite E in Hadd
    | E : checked_sub _ _ = Some _ |- _ => rewrite E in Hsb
    end; cbn zeta in *;
    rewrite Z.max_l in * by (destruct Hw; lia);
    do 2 eexists; (split; [reflexivity|]); (split; [eassumption|]); cbn; naive_solver lia
  end.

Lemma balance_apply_exact op p inp s v sign :
  p_state p = RFungibleBalance v → amount_wf (fb_balance v) →
  op ∈ FungibleBalance.op.all → quantity_sign op = Some sign →
  apply_balance (Some p) op inp = Ok s →
  ∃ v' a, s = RFungibleBalance v' ∧ input_amount inp "amount" = Ok a ∧
    fb_subject v' = fb_subject v ∧ amount_wf (fb_balance v') ∧ scale (fb_balance v') = scale (fb_balance v) ∧
    aval (fb_balance v') = aval (fb_balance v) + sign * aval a ∧
    (if String.eqb op "balance.convert" then inp !! "to_unit" = Some (VString (fb_unit v'))
     else fb_unit v' = fb_unit v).
Proof.
  intros Hv Hw Hop Hsg H.
  assert (Hsub : ∀ o, Helpers.state_str p "subject" = Ok o → o = fb_subject v)
    by (unfold Helpers.state_str; rewrite Hv; cbn; intros o Ho; by res_inv Ho).
  assert (Hun : ∀ o, Helpers.state_str p "unit" = Ok o → o = fb_unit v)
    by (unfold Helpers.state_str; rewrite Hv; cbn; intros o Ho; by res_inv Ho).
  assert (Hbal : ∀ b, state_amount p "balance" = Ok b → b = fb_balance v)
    by (unfold state_amount; rewrite Hv; cbn; by intros b [= <-]).
  assert (Hto : ∀ t, Helpers.input_str inp "to_unit" = Ok t → inp !! "to_unit" = Some (VString t))
    by (intros t Et; by apply (input_str_Ok inp "to_unit" t) in Et as [? _]).
  unfold FungibleBalance.op.all in Hop.
  elem_cases Hop; subst op; cbn in Hsg; try discriminate Hsg; injection Hsg as <-;
    unfold apply_balance in H; cbn in H; res_inv H; subst s;
    repeat match goal with
    | E : Helpers.state_str p "subject" = Ok _ |- _ => apply Hsub in E; subst
    | E : Helpers.state_str p "unit" = Ok _ |- _ => apply Hun in E; subst
    | E : state_amount p "balance" = Ok _ |- _ => apply Hbal in E; subst
    | E : Helpers.input_str inp "to_unit" = Ok _ |- _ => apply Hto in E
    end;
    quantity_finish inp "amount" Hw.
Qed.

Lemma stack_apply_exact op p inp s v sign :
  p_state p = RConsumableStack v → amount_wf (cs_quantity v) →
  op ∈ ConsumableStack.op.all → quantity_sign op = Some sign →
  apply_stack (Some p) op inp = Ok s →
  ∃ v' a, s = RConsumableStack v' ∧ input_amount inp "quantity" = Ok a ∧
    cs_subject v' = cs_subject v ∧ amount_wf (cs_quantity v') ∧
    scale (cs_quantity v') = scale (cs_quantity v) ∧
    aval (cs_quantity v') = aval (cs_quantity v) + sign * aval a ∧ cs_unit v' = cs_unit v.
Proof.
  intros Hv Hw Hop Hsg H.
  assert (Hsub : ∀ o, Helpers.state_str p "subject" = Ok o → o = cs_subject v)
    by (unfold Helpers.state_str; rewrite Hv; cbn; intros o Ho; by res_inv Ho).
  assert (Hun : ∀ o, Helpers.state_str p "unit" = Ok o → o = cs_unit v)
    by (unfold Helpers.state_str; rewrite Hv; cbn; intros o Ho; by res_inv Ho).
  assert (Hbal : ∀ b, state_amount p "quantity" = Ok b → b = cs_quantity v)
    by (unfold state_amount; rewrite Hv; cbn; by intros b [= <-]).
  unfold ConsumableStack.op.all in Hop.
  elem_cases Hop; subst op; cbn in Hsg; try discriminate Hsg; injection Hsg as <-;
    unfold apply_stack in H; cbn in H; res_inv H; subst s;
    repeat match goal with
    | E : Helpers.state_str p "subject" = Ok _ |- _ => apply Hsub in E; subst
    | E : Helpers.state_str p "unit" = Ok _ |- _ => apply Hun in E; subst
    | E : state_amount p "quantity" = Ok _ |- _ => apply Hbal in E; subst
    end; quantity_finish inp "quantity" Hw.
Qed.

(** What the rules guarantee of an accepted decrease: a positive amount the holder
    has. *)
Lemma balance_check_debit op p inp v a :
  p_state p = RFungibleBalance v → amount_wf (fb_balance v) →
  quantity_sign op = Some (-1) → FungibleBalance.check op (Some p) inp = Ok tt →
  input_amount inp "amount" = Ok a → 0 < aval a ≤ aval (fb_balance v).
Proof.
  intros Hv Hw Hsg Hc Ha. pose proof (input_amount_wf _ _ _ Ha) as [Hwa _].
  assert (Hbal : ∀ b, current_balance p = Ok b → b = fb_balance v)
    by (unfold current_balance, state_amount; rewrite Hv; cbn; by intros b [= <-]).
  unfold FungibleBalance.check in Hc. apply checked_op in Hc as [Hop Hc]. unfold FungibleBalance.op.all in Hop.
  elem_cases Hop; subst op; cbn in Hsg; try discriminate Hsg; cbn in Hc;
    unfold FungibleBalance.check_debit, FungibleBalance.check_transfer, FungibleBalance.check_reserve,
      FungibleBalance.check_spend, FungibleBalance.check_burn, FungibleBalance.check_convert in Hc;
    res_inv Hc;
    repeat match goal with
    | E : current_balance p = Ok _ |- _ => apply Hbal in E; subst
    | E : input_amount inp "amount" = Ok ?b |- _ => rewrite Ha in E; injection E as <-
    end; by apply require_positive_available_Ok in Hc.
Qed.

Lemma stack_check_debit op p inp v a :
  p_state p = RConsumableStack v → amount_wf (cs_quantity v) →
  quantity_sign op = Some (-1) → ConsumableStack.check op (Some p) inp = Ok tt →
  input_amount inp "quantity" = Ok a → 0 < aval a ≤ aval (cs_quantity v).
Proof.
  intros Hv Hw Hsg Hc Ha. pose proof (input_amount_wf _ _ _ Ha) as [Hwa _].
  assert (Hbal : ∀ b, current_quantity p = Ok b → b = cs_quantity v)
    by (unfold current_quantity, state_amount; rewrite Hv; cbn; by intros b [= <-]).
  unfold ConsumableStack.check in Hc. apply checked_op in Hc as [Hop Hc]. unfold ConsumableStack.op.all in Hop.
  elem_cases Hop; subst op; cbn in Hsg; try discriminate Hsg; cbn in Hc;
    unfold ConsumableStack.check_debit, ConsumableStack.check_transfer, ConsumableStack.check_reserve,
      ConsumableStack.check_consume in Hc;
    res_inv Hc;
    repeat match goal with
    | E : current_quantity p = Ok _ |- _ => apply Hbal in E; subst
    | E : input_amount inp "quantity" = Ok ?b |- _ => rewrite Ha in E; injection E as <-
    end; by apply require_positive_available_Ok in Hc.
Qed.

(** The two quantity profiles: rules, state type, payload field, input field. *)
Definition quantity_profiles : list (ProfileRules * StateType * string * string) :=
  [(FungibleBalanceRules, StFungibleBalance, "balance", "amount");
   (ConsumableStackRules, StConsumableStack, "quantity", "quantity")].

Definition rs_unit (s : ResourceState) : option string :=
  match s with
  | RConsumableStack v => Some (cs_unit v)
  | RFungibleBalance v => Some (fb_unit v)
  | _ => None
  end.

Lemma typed_balance p : typed StFungibleBalance (Some p) →
  p_state_type p = StFungibleBalance ∧ ∃ v, p_state p = RFungibleBalance v.
Proof. intros H. destruct (H p eq_refl) as [H1 H2]. split; [done|]. destruct (p_state p); naive_solver. Qed.

Lemma typed_stack p : typed StConsumableStack (Some p) →
  p_state_type p = StConsumableStack ∧ ∃ v, p_state p = RConsumableStack v.
Proof. intros H. destruct (H p eq_refl) as [H1 H2]. split; [done|]. destruct (p_state p); naive_solver. Qed.

Lemma balance_check_op op cur inp : FungibleBalance.check op cur inp = Ok tt → op ∈ FungibleBalance.op.all.
Proof. unfold FungibleBalance.check. by intros [? _]%checked_op. Qed.
Lemma stack_check_op op cur inp : ConsumableStack.check op cur inp = Ok tt → op ∈ ConsumableStack.op.all.
Proof. unfold ConsumableStack.check. by intros [? _]%checked_op. Qed.

(** ** Transfers *)

Lemma balance_credit_exact p dest inp q v a :
  p_state p = RFungibleBalance v → (∀ d, dest = Some d → state_wf (p_state d)) →
  input_amount inp "amount" = Ok a → transfer_after_state p dest "balance.transfer" inp = Ok q →
  let y := default ZERO (dest ≫= fun d => rs_amount (p_state d) "balance") in
  ∃ w, q = RFungibleBalance w ∧ amount_wf y ∧ amount_wf (fb_balance w) ∧ scale (fb_balance w) = scale y ∧
    aval (fb_balance w) = aval y + aval a ∧ fb_unit w = fb_unit v ∧
    inp !! "to_subject" = Some (VString (fb_subject w)).
Proof.
  intros Hv Hd Hin Hq. unfold transfer_after_state in Hq. cbn in Hq. res_inv Hq. subst q.
  apply helpers_input_amount in Ha1. rewrite Hin in Ha1. injection Ha1 as <-.
  pose proof (input_amount_wf _ _ _ Hin) as [Hwa Hsa].
  apply (input_str_Ok inp "to_subject") in Ha as [Hto _].
  assert (Hy : default ZERO (dest ≫= fun d => rs_amount (p_state d) "balance") = a3 ∧ amount_wf a3).
  { destruct dest as [d|]; cbn; [|injection Ha2 as <-; split; [done|apply ZERO_wf]].
    specialize (Hd d eq_refl). unfold state_amount in Ha2.
    destruct (p_state d); cbn in *; try discriminate Ha2. by injection Ha2 as <-. }
  destruct Hy as [-> Hwy]. pose proof (checked_add_spec _ _ Hwy Hwa) as Hadd. rewrite Ha3 in Hadd.
  cbn zeta in Hadd. rewrite Z.max_l in Hadd by (destruct Hwy; lia). destruct Hadd as (W2 & S2 & V2).
  assert (a1 = fb_unit v) as -> by (unfold Helpers.state_str in Ha0; rewrite Hv in Ha0; cbn in Ha0; by res_inv Ha0).
  eexists. split; [reflexivity|]. done.
Qed.

Lemma stack_credit_exact p dest inp q v a :
  p_state p = RConsumableStack v → (∀ d, dest = Some d → state_wf (p_state d)) →
  input_amount inp "quantity" = Ok a → transfer_after_state p dest "stack.transfer" inp = Ok q →
  let y := default ZERO (dest ≫= fun d => rs_amount (p_state d) "quantity") in
  ∃ w, q = RConsumableStack w ∧ amount_wf y ∧ amount_wf (cs_quantity w) ∧ scale (cs_quantity w) = scale y ∧
    aval (cs_quantity w) = aval y + aval a ∧ cs_unit w = cs_unit v ∧
    inp !! "to_subject" = Some (VString (cs_subject w)).
Proof.
  intros Hv Hd Hin Hq. unfold transfer_after_state in Hq. cbn in Hq. res_inv Hq. subst q.
  apply helpers_input_amount in Ha1. rewrite Hin in Ha1. injection Ha1 as <-.
  pose proof (input_amount_wf _ _ _ Hin) as [Hwa Hsa].
  apply (input_str_Ok inp "to_subject") in Ha as [Hto _].
  assert (Hy : default ZERO (dest ≫= fun d => rs_amount (p_state d) "quantity") = a3 ∧ amount_wf a3).
  { destruct dest as [d|]; cbn; [|injection Ha2 as <-; split; [done|apply ZERO_wf]].
    specialize (Hd d eq_refl). unfold state_amount in Ha2.
    destruct (p_state d); cbn in *; try discriminate Ha2. by injection Ha2 as <-. }
  destruct Hy as [-> Hwy]. pose proof (checked_add_spec _ _ Hwy Hwa) as Hadd. rewrite Ha3 in Hadd.
  cbn zeta in Hadd. rewrite Z.max_l in Hadd by (destruct Hwy; lia). destruct Hadd as (W2 & S2 & V2).
  assert (a1 = cs_unit v) as -> by (unfold Helpers.state_str in Ha0; rewrite Hv in Ha0; cbn in Ha0; by res_inv Ha0).
  eexists. split; [reflexivity|]. done.
Qed.

Lemma apply_balance_of p op inp : p_state_type p = StFungibleBalance →
  apply (Some p) op inp = apply_balance (Some p) op inp.
Proof. intros E. unfold apply, state_type_of, rbind. by rewrite E. Qed.
Lemma apply_stack_of p op inp : p_state_type p = StConsumableStack →
  apply (Some p) op inp = apply_stack (Some p) op inp.
Proof. intros E. unfold apply, state_type_of, rbind. by rewrite E. Qed.

(** The two payloads a transfer writes: the debited source and the credited
    destination. *)
Lemma transfer_after_exact rules st key inkey p dest intent s q :
  (rules, st, key, inkey) ∈ quantity_profiles → typed st (Some p) → state_wf (p_state p) →
  (∀ d, dest = Some d → state_wf (p_state d)) →
  is_transfer_operation (i_operation intent) = true →
  gated_step rules intent (Some p) = Ok s →
  transfer_after_state p dest (i_operation intent) (i_inputs intent) = Ok q →
  let y := default ZERO (dest ≫= fun d => rs_amount (p_state d) key) in
  transfer_field (i_operation intent) = Some key ∧
  ∃ x x' y' a, rs_amount (p_state p) key = Some x ∧ rs_amount s key = Some x' ∧ rs_amount q key = Some y' ∧
    amount_wf x ∧ amount_wf x' ∧ amount_wf y ∧ amount_wf y' ∧ scale x' = scale x ∧ scale y' = scale y ∧
    0 < aval a ∧ aval x' = aval x - aval a ∧ aval y' = aval y + aval a ∧
    rs_unit q = rs_unit (p_state p) ∧ i_inputs intent !! "to_subject" = VString <$> rs_subject q.
Proof.
  intros Hr Ht Hw Hd Htr Hs Hq. apply gated_step_inv in Hs as (_ & Hc & Ha).
  apply orb_true_iff in Htr. rewrite !String.eqb_eq in Htr.
  unfold quantity_profiles in Hr. elem_cases Hr; injection Hr as -> -> -> ->;
    change (apply (Some p) (i_operation intent) (i_inputs intent) = Ok s) in Ha.
  - destruct (typed_balance p Ht) as [Hpt [v Hv]]. rewrite Hv in Hw |- *.
    pose proof (balance_check_op _ _ _ Hc) as Hop.
    destruct Htr as [E|E]; [rewrite E in Hop; by apply contains_true in Hop|].
    rewrite apply_balance_of in Ha by done. rewrite E in *.
    eapply balance_apply_exact with (sign := -1) in Ha as (v' & a & -> & Hin & _ & W1 & S1 & V1 & _); [|done..].
    pose proof (balance_check_debit balance_transfer _ _ _ _ Hv Hw eq_refl Hc Hin) as [Hpos _].
    eapply balance_credit_exact in Hq as (w & -> & W2 & W3 & S2 & V2 & U & T); [|done..].
    split; [done|]. exists (fb_balance v), (fb_balance v'), (fb_balance w), a.
    cbn. rewrite U, T. repeat (split; [done || lia|]). done.
  - destruct (typed_stack p Ht) as [Hpt [v Hv]]. rewrite Hv in Hw |- *.
    pose proof (stack_check_op _ _ _ Hc) as Hop.
    destruct Htr as [E|E]; [|rewrite E in Hop; by apply contains_true in Hop].
    rewrite apply_stack_of in Ha by done. rewrite E in *.
    eapply stack_apply_exact with (sign := -1) in Ha as (v' & a & -> & Hin & _ & W1 & S1 & V1 & _); [|done..].
    pose proof (stack_check_debit stack_transfer _ _ _ _ Hv Hw eq_refl Hc Hin) as [Hpos _].
    eapply stack_credit_exact in Hq as (w & -> & W2 & W3 & S2 & V2 & U & T); [|done..].
    split; [done|]. exists (cs_quantity v), (cs_quantity v'), (cs_quantity w), a.
    cbn. rewrite U, T. repeat (split; [done || lia|]). done.
Qed.

(** ** The pair validator *)

Definition event_wf (e : Event) : Prop :=
  state_wf (c_state (e_before e)) ∧ state_wf (c_state (e_after e)).

Lemma rs_amount_wf s key a : state_wf s → rs_amount s key = Some a → amount_wf a.
Proof.
  destruct s; cbn; try done; intros Hw; repeat case_match; try done; intros [= <-]; naive_solver.
Qed.

Lemma commitment_amount_wf c field : state_wf (c_state c) → amount_wf (commitment_amount c field).
Proof.
  intros Hw. unfold commitment_amount. destruct (rs_amount (c_state c) field) as [a|] eqn:E; cbn;
    [by eapply rs_amount_wf|apply ZERO_wf].
Qed.

(** What an event moves on a field: after minus before. *)
Definition event_delta (field : string) (e : Event) : Z :=
  aval (commitment_amount (e_after e) field) - aval (commitment_amount (e_before e) field).

Fixpoint zsum (l : list Z) : Z := match l with [] => 0 | x :: l' => x + zsum l' end.

Lemma pair_totals_sound field group d c d' c' :
  Forall event_wf group → amount_wf d → amount_wf c →
  pair_totals field group d c = Ok (d', c') →
  amount_wf d' ∧ amount_wf c' ∧
  aval d' = aval d + zsum (map (fun e => Z.max 0 (- event_delta field e)) group) ∧
  aval c' = aval c + zsum (map (fun e => Z.max 0 (event_delta field e)) group).
Proof.
  intros Hw. revert d c. induction Hw as [|e group [We1 We2] Hw IH]; intros d c Hd Hc H; cbn in H.
  { injection H as <- <-. cbn. split; [done|]. split; [done|]. lia. }
  pose proof (commitment_amount_wf (e_before e) field We1) as Wb.
  pose proof (commitment_amount_wf (e_after e) field We2) as Wa.
  pose proof (amount_ltb_spec _ _ Wb Wa) as L.
  cbn [map zsum]. unfold event_delta at 1 3.
  destruct (amount_ltb (commitment_amount (e_before e) field) (commitment_amount (e_after e) field)) eqn:El;
    cbn [negb] in H; res_inv H.
  - pose proof (proj1 L eq_refl).
    pose proof (checked_sub_spec _ _ Wa Wb) as S1. rewrite Ha in S1. destruct S1 as (W1 & _ & V1).
    pose proof (checked_add_spec _ _ Hc W1) as S2. rewrite Ha0 in S2. destruct S2 as (W2 & _ & V2).
    apply IH in H as (? & ? & ? & ?); [|done..]. split; [done|]. split; [done|]. lia.
  - assert (¬ aval (commitment_amount (e_before e) field) < aval (commitment_amount (e_after e) field))
      by (intros Hlt%L; done).
    pose proof (checked_sub_spec _ _ Wb Wa) as S1. rewrite Ha in S1. destruct S1 as (W1 & _ & V1).
    pose proof (checked_add_spec _ _ Hd W1) as S2. rewrite Ha0 in S2. destruct S2 as (W2 & _ & V2).
    apply IH in H as (? & ? & ? & ?); [|done..]. split; [done|]. split; [done|]. lia.
Qed.

(** A debit then a credit of the same positive value passes. *)
Lemma pair_totals_complete field e1 e2 x x' y y' v :
  commitment_amount (e_before e1) field = x → commitment_amount (e_after e1) field = x' →
  commitment_amount (e_before e2) field = y → commitment_amount (e_after e2) field = y' →
  amount_wf x → amount_wf x' → amount_wf y → amount_wf y' → scale x' = scale x → scale y' = scale y →
  0 < v → aval x' = aval x - v → aval y' = aval y + v →
  ∃ d c, pair_totals field [e1; e2] ZERO ZERO = Ok (d, c) ∧ amount_wf d ∧ amount_wf c ∧
    aval d = v ∧ aval c = v.
Proof.
  intros E1 E2 E3 E4 Wx Wx' Wy Wy' Sx Sy Hv Vx Vy. cbn [pair_totals]. rewrite E1, E2, E3, E4.
  pose proof (amount_ltb_spec x x' Wx Wx') as L1. pose proof (amount_ltb_spec y y' Wy Wy') as L2.
  destruct (amount_ltb x x'); [assert (aval x < aval x') by tauto; lia|]. cbn [negb].
  destruct (checked_sub_ok x x' Wx Wx' ltac:(lia) ltac:(lia)) as (d1 & -> & Wd & _ & Vd).
  cbn [ok_or rbind]. destruct (checked_add_zero d1 Wd) as (d & -> & Wd' & _ & Vd').
  cbn [ok_or rbind]. destruct (amount_ltb y y') eqn:Ey; cbn [negb].
  - destruct (checked_sub_ok y' y Wy' Wy ltac:(lia) ltac:(lia)) as (c1 & -> & Wc & _ & Vc).
    cbn [ok_or rbind]. destruct (checked_add_zero c1 Wc) as (c & -> & Wc' & _ & Vc').
    cbn [ok_or rbind]. exists d, c. repeat (split; [done || lia|]). lia.
  - exfalso. assert (aval y < aval y') as Hlt by lia. apply L2 in Hlt. congruence.
Qed.

Lemma transfer_pair_sound id group : Forall event_wf group →
  validate_transfer_pair id group = Ok tt →
  ∃ e1 e2 field, group = [e1; e2] ∧ transfer_field (e_operation e1) = Some field ∧
    e_operation e1 = e_operation e2 ∧ e_resource_id e1 = e_resource_id e2 ∧
    event_delta field e1 + event_delta field e2 = 0 ∧ event_delta field e1 ≠ 0.
Proof.
  intros Hw H. destruct group as [|e1 [|e2 [|]]]; try discriminate H. cbn in H.
  destruct (transfer_field (e_operation e1)) as [field|] eqn:Ef; [|done].
  res_inv H. apply negb_false_iff in Hb, Hb0, Hb1. apply String.eqb_eq in Hb0, Hb1.
  destruct a as [d c]. res_inv H.
  pose proof (pair_totals_sound field [e1; e2] ZERO ZERO d c Hw ZERO_wf ZERO_wf Ha) as (Wd & Wc & Hd & Hc).
  apply orb_false_iff in Hb2 as [Z1 Z2]. apply negb_false_iff in Z2.
  apply amount_eqb_spec in Z2; [|done..].
  assert (aval d ≠ 0)
    by (intros E; rewrite <- aval_ZERO in E; apply amount_eqb_spec in E; [congruence|done|apply ZERO_wf]).
  exists e1, e2, field. split; [done|]. split; [done|]. split; [done|]. split; [done|].
  cbn in Hd, Hc. rewrite aval_ZERO in *. lia.
Qed.

(** ** Grouping *)

Fixpoint alookup {A} (id : string) (l : list (string * list A)) : list A :=
  match l with
  | [] => []
  | (k, es) :: l' => if String.eqb id k then es else alookup id l'
  end.

Notation keys_sorted l := (StronglySorted str_lt (map fst l)).

Lemma alookup_below {A} k (l : list (string * list A)) : Forall (str_lt k) (map fst l) → alookup k l = [].
Proof.
  induction l as [|[k' es] l IH]; cbn; [done|]. intros [Hk Hl]%Forall_cons.
  destruct (String.eqb_spec k k') as [->|]; [|auto]. unfold str_lt in Hk. by rewrite str_cmp_refl in Hk.
Qed.

Lemma group_push_keys {A} k (e : A) l x : x ∈ map fst (group_push k e l) ↔ x = k ∨ x ∈ map fst l.
Proof.
  induction l as [|[k' es] l IH]; cbn; [set_solver|].
  destruct (str_cmp k k') eqn:E; cbn; [|set_solver|rewrite !elem_of_cons, IH; tauto].
  apply str_cmp_eq in E as ->. set_solver.
Qed.

Lemma group_push_sorted {A} k (e : A) l : keys_sorted l → keys_sorted (group_push k e l).
Proof.
  induction l as [|[k' es] l IH]; cbn; [repeat constructor|].
  intros Hs. inversion Hs as [|? ? Hl Hk]; subst. destruct (str_cmp k k') eqn:E; cbn; [done| |].
  - constructor; [done|]. constructor; [done|]. rewrite Forall_forall in *. intros z Hz.
    eapply str_cmp_lt_trans; [done|by apply Hk].
  - constructor; [auto|]. rewrite Forall_forall in *. intros z [->|Hz]%group_push_keys; [|auto].
    unfold str_lt. by rewrite str_cmp_antisym, E.
Qed.

Lemma group_push_lookup {A} k (e : A) l id : keys_sorted l →
  alookup id (group_push k e l) = if String.eqb id k then alookup id l ++ [e] else alookup id l.
Proof.
  induction l as [|[k' es] l IH]; cbn; [by destruct (String.eqb id k)|].
  intros Hs. inversion Hs as [|? ? Hl Hk]; subst. destruct (str_cmp k k') eqn:E; cbn.
  - apply str_cmp_eq in E as ->. by destruct (String.eqb id k').
  - destruct (String.eqb_spec id k) as [Eid|]; [rewrite Eid|done].
    destruct (String.eqb_spec k k') as [->|]; [by rewrite str_cmp_refl in E|].
    rewrite alookup_below; [done|]. rewrite Forall_forall in *. intros z Hz.
    eapply str_cmp_lt_trans; [done|by apply Hk].
  - rewrite IH by done. destruct (String.eqb_spec id k') as [Eid|]; [rewrite Eid|done].
    destruct (String.eqb_spec k' k) as [->|]; [by rewrite str_cmp_refl in E|done].
Qed.

Definition of_intent (id : IntentId) (e : Event) : bool := String.eqb id (e_intent_id e).

(** A group holds the elements of its key, in list order. *)
Lemma group_by_spec {A} (key : A → string) (l : list A) :
  keys_sorted (group_by key l) ∧
  ∀ id, alookup id (group_by key l) = List.filter (fun a => String.eqb id (key a)) l.
Proof.
  unfold group_by.
  enough (H : ∀ g, keys_sorted g →
    keys_sorted (foldl (fun g a => group_push (key a) a g) g l) ∧
    ∀ id, alookup id (foldl (fun g a => group_push (key a) a g) g l) =
          alookup id g ++ List.filter (fun a => String.eqb id (key a)) l)
    by (apply (H []); constructor).
  induction l as [|a l IH]; intros g Hg; cbn [foldl List.filter].
  { split; [done|]. intros. by rewrite app_nil_r. }
  destruct (IH (group_push (key a) a g)) as [H1 H2]; [by apply group_push_sorted|].
  split; [done|]. intros id. rewrite H2, group_push_lookup by done.
  destruct (String.eqb id (key a)); [by rewrite <- app_assoc|done].
Qed.

Lemma group_by_intent_spec events :
  keys_sorted (group_by_intent events) ∧
  ∀ id, alookup id (group_by_intent events) = List.filter (of_intent id) events.
Proof. apply group_by_spec. Qed.

Lemma alookup_In {A} id (g : list A) l : keys_sorted l → (id, g) ∈ l → alookup id l = g.
Proof.
  induction l as [|[k es] l IH]; cbn; [set_solver|].
  intros Hs [[= -> ->]|Hin]%elem_of_cons; [by rewrite String.eqb_refl|].
  inversion Hs as [|? ? Hl Hk]; subst. destruct (String.eqb_spec id k) as [->|]; [|auto].
  rewrite Forall_forall in Hk. exfalso. specialize (Hk k). unfold str_lt in Hk. rewrite str_cmp_refl in Hk.
  enough (k ∈ map fst l) by naive_solver. apply list_elem_of_fmap. by exists (k, g).
Qed.

Lemma alookup_nonempty {A} id (l : list (string * list A)) : alookup id l ≠ [] → (id, alookup id l) ∈ l.
Proof.
  induction l as [|[k es] l IH]; cbn; [done|].
  destruct (String.eqb_spec id k) as [->|]; [by left|]. intros H. right. auto.
Qed.

Lemma check_ids_and_tenant_sound events seen first :
  check_ids_and_tenant events seen first = Ok tt →
  NoDup (map e_event_id events) ∧ (∀ e, e ∈ events → e_event_id e ∉ seen) ∧
  (∀ t e, first = Some t → e ∈ events → e_tenant_id e = t) ∧
  (∀ e1 e2, e1 ∈ events → e2 ∈ events → e_tenant_id e1 = e_tenant_id e2).
Proof.
  revert seen first. induction events as [|e events IH]; intros seen first H; cbn in H.
  { split; [constructor|]. set_solver. }
  destruct (decide (e_event_id e ∈ seen)); [done|].
  set (t := match first with Some t => t | None => e_tenant_id e end).
  assert (check_ids_and_tenant events ({[e_event_id e]} ∪ seen) (Some t) = Ok tt ∧ e_tenant_id e = t)
    as [H' Et].
  { unfold t. destruct first as [t0|]; [|done]. res_inv H.
    apply negb_false_iff, String.eqb_eq in Hb. by subst. }
  apply IH in H' as (H1 & H2 & H3 & _).
  assert (Hall : ∀ e', e' ∈ e :: events → e_tenant_id e' = t).
  { intros e' [->|He']%elem_of_cons; [done|]. by eapply H3. }
  split; [|split; [|split]].
  - cbn. constructor; [|done]. intros Hin. apply list_elem_of_fmap in Hin as (e' & Ee & He').
    specialize (H2 e' He'). rewrite <- Ee in H2. set_solver.
  - intros e' [->|He']%elem_of_cons; [done|]. specialize (H2 e' He'). set_solver.
  - intros t' e' -> He'. by apply Hall.
  - intros e1 e2 He1 He2. by rewrite (Hall e1 He1), (Hall e2 He2).
Qed.

Lemma batch_groups_checked events id : validate_batch_consistency events = Ok tt →
  let g := List.filter (of_intent id) events in
  (length g ≤ 1)%nat ∨ validate_transfer_pair id g = Ok tt.
Proof.
  unfold validate_batch_consistency. intros H. res_inv H. apply rforeach_Ok in H.
  destruct (group_by_intent_spec events) as [Hs Hl]. cbn zeta. rewrite <- Hl.
  set (g := alookup id (group_by_intent events)). destruct g as [|e1 [|e2 g']] eqn:Eg; [left; cbn; lia..|].
  right. rewrite Forall_forall in H. specialize (H (id, e1 :: e2 :: g')).
  apply H. unfold g in Eg. rewrite <- Eg. apply alookup_nonempty. by rewrite Eg.
Qed.

(** ** Meters *)

Definition meter_ok (s : ResourceState) : Prop :=
  ∃ v, s = RMeteredResource v ∧ amount_wf (mt_remaining v) ∧ amount_wf (mt_maximum v) ∧
    aval (mt_remaining v) ≤ aval (mt_maximum v).

Inductive meter_reachable : ResourceState → Prop :=
| meter_born intent s : gated_step MeterRules intent None = Ok s → meter_reachable s
| meter_step intent p s :
    meter_reachable (p_state p) → p_state_type p = StMeteredResource →
    gated_step MeterRules intent (Some p) = Ok s → meter_reachable s.

Lemma meter_create_ok intent s : gated_step MeterRules intent None = Ok s → meter_ok s.
Proof.
  intros (_ & Hc & Ha)%gated_step_inv.
  change (Meter.check (i_operation intent) None (i_inputs intent) = Ok tt) in Hc.
  change (apply None (i_operation intent) (i_inputs intent) = Ok s) in Ha.
  unfold Meter.check in Hc. apply checked_op in Hc as [Hop Hc]. unfold Meter.op.all in Hop.
  elem_cases Hop; rewrite Hop in *; cbn in Hc; try discriminate Hc.
  res_inv Hc. cbn in Ha. res_inv Ha. subst s.
  apply helpers_input_amount in Ha4, Ha5. rewrite Ha1 in Ha4. rewrite Ha2 in Ha5. simplify_eq.
  pose proof (input_amount_wf _ _ _ Ha1) as [W1 _]. pose proof (input_amount_wf _ _ _ Ha2) as [W2 _].
  eexists. split; [reflexivity|]. cbn. split; [done|]. split; [done|].
  pose proof (amount_ltb_spec _ _ W2 W1) as L.
  apply Z.le_ngt. intros Hlt%L. congruence.
Qed.

Lemma meter_step_ok intent p s v : p_state p = RMeteredResource v → p_state_type p = StMeteredResource →
  meter_ok (p_state p) → gated_step MeterRules intent (Some p) = Ok s → meter_ok s.
Proof.
  intros Hv Ht (v0 & Hv0 & W1 & W2 & Hle) (_ & Hc & Ha)%gated_step_inv.
  rewrite Hv in Hv0. injection Hv0 as <-.
  change (Meter.check (i_operation intent) (Some p) (i_inputs intent) = Ok tt) in Hc.
  change (apply (Some p) (i_operation intent) (i_inputs intent) = Ok s) in Ha.
  assert (Hrem : ∀ b, state_amount p "remaining" = Ok b → b = mt_remaining v)
    by (unfold state_amount; rewrite Hv; cbn; by intros b [= <-]).
  assert (Hmax : ∀ b, state_amount p "maximum" = Ok b → b = mt_maximum v)
    by (unfold state_amount; rewrite Hv; cbn; by intros b [= <-]).
  unfold apply, state_type_of, rbind in Ha. rewrite Ht in Ha.
  unfold Meter.check in Hc. apply checked_op in Hc as [Hop Hc]. unfold Meter.op.all in Hop.
  elem_cases Hop; rewrite Hop in *; cbn in Hc; try discriminate Hc; clear Hc;
    unfold apply_meter in Ha; cbn in Ha; res_inv Ha; subst s;
    repeat match goal with
    | E : state_amount p "remaining" = Ok _ |- _ => apply Hrem in E; subst
    | E : state_amount p "maximum" = Ok _ |- _ => apply Hmax in E; subst
    | E : Helpers.input_amount _ _ = Ok _ |- _ => apply helpers_input_amount_wf in E as [? ?]
    end; eexists; (split; [reflexivity|]); cbn.
  - pose proof (checked_sub_spec (mt_remaining v) _ W1 ltac:(eassumption)) as S1.
    match goal with E : checked_sub _ _ = Some _ |- _ => rewrite E in S1 end.
    destruct S1 as (W3 & _ & V3). split; [done|]. split; [done|].
    match goal with A : amount_wf ?x, B : scale ?x = 0 |- _ => pose proof (aval_nonneg x A) end. lia.
  - split; [done|]. split; [done|]. lia.
  - match goal with A : amount_wf ?x, B : scale ?x = 0 |- _ =>
      destruct (amount_min_spec (mt_remaining v) x W1 A) as [W3 ->] end.
    split; [done|]. split; [done|]. lia.
  - split; [apply ZERO_wf|]. split; [done|]. rewrite aval_ZERO. by apply aval_nonneg.
  - split; [apply ZERO_wf|]. split; [done|]. rewrite aval_ZERO. by apply aval_nonneg.
Qed.

(** ** Progress of accepted debits *)

Lemma balance_debit_inputs op cur inp :
  quantity_sign op = Some (-1) → FungibleBalance.check op cur inp = Ok tt →
  ∃ a, input_amount inp "amount" = Ok a ∧
    (op = "balance.transfer" → ∃ t, Helpers.input_str inp "to_subject" = Ok t) ∧
    (op = "balance.convert" → ∃ t, Helpers.input_str inp "to_unit" = Ok t).
Proof.
  intros Hsg Hc. unfold FungibleBalance.check in Hc. apply checked_op in Hc as [Hop Hc].
  unfold FungibleBalance.op.all in Hop.
  elem_cases Hop; subst op; cbn in Hsg; try discriminate Hsg; cbn in Hc;
    unfold FungibleBalance.check_debit, FungibleBalance.check_transfer, FungibleBalance.check_reserve,
      FungibleBalance.check_spend, FungibleBalance.check_burn, FungibleBalance.check_convert in Hc;
    res_inv Hc; eexists; (split; [eassumption|]); split; intros [=]; eauto.
Qed.

Lemma stack_debit_inputs op cur inp :
  quantity_sign op = Some (-1) → ConsumableStack.check op cur inp = Ok tt →
  ∃ a, input_amount inp "quantity" = Ok a ∧
    (op = "stack.transfer" → ∃ t, Helpers.input_str inp "to_subject" = Ok t).
Proof.
  intros Hsg Hc. unfold ConsumableStack.check in Hc. apply checked_op in Hc as [Hop Hc].
  unfold ConsumableStack.op.all in Hop.
  elem_cases Hop; subst op; cbn in Hsg; try discriminate Hsg; cbn in Hc;
    unfold ConsumableStack.check_debit, ConsumableStack.check_transfer, ConsumableStack.check_reserve,
      ConsumableStack.check_consume in Hc;
    res_inv Hc; eexists; (split; [eassumption|]); intros [=]; eauto.
Qed.

(** Run a reducer whose readers are all known to succeed. *)
Ltac run_reducer :=
  repeat (first
    [ match goal with E : ?x = Ok _ |- context [?x] => rewrite E end
    | match goal with E : ?x = Some _ |- context [?x] => rewrite E end ];
    cbn [rbind ok_or Helpers.require_current]); eauto.

Lemma balance_debit_total op p inp v :
  p_state p = RFungibleBalance v → amount_wf (fb_balance v) → fb_subject v ≠ EmptyString →
  fb_unit v ≠ EmptyString → quantity_sign op = Some (-1) →
  FungibleBalance.check op (Some p) inp = Ok tt → ∃ s, apply_balance (Some p) op inp = Ok s.
Proof.
  intros Hv Hw Hsub Hun Hsg Hc.
  destruct (balance_debit_inputs _ _ _ Hsg Hc) as (a & Hin & Hto & Hcv).
  pose proof (balance_check_debit _ _ _ _ _ Hv Hw Hsg Hc Hin) as Hpos.
  pose proof (input_amount_wf _ _ _ Hin) as [Wa Sa].
  destruct (checked_sub_ok (fb_balance v) a Hw Wa) as (r & Hsb & _); [destruct Hw; lia|lia|].
  apply helpers_input_amount in Hin.
  assert (Hss : Helpers.state_str p "subject" = Ok (fb_subject v))
    by (unfold Helpers.state_str; rewrite Hv; cbn; by destruct (fb_subject v)).
  assert (Hsu : Helpers.state_str p "unit" = Ok (fb_unit v))
    by (unfold Helpers.state_str; rewrite Hv; cbn; by destruct (fb_unit v)).
  assert (Hsa : state_amount p "balance" = Ok (fb_balance v)) by (unfold state_amount; by rewrite Hv).
  apply balance_check_op in Hc as Hop. clear Hc. unfold FungibleBalance.op.all in Hop.
  elem_cases Hop; subst op; cbn in Hsg; try discriminate Hsg; clear Hsg;
    try destruct (Hto eq_refl) as [t Ht']; try destruct (Hcv eq_refl) as [t Ht']; clear Hto Hcv;
    unfold apply_balance; cbn -[Helpers.input_str Helpers.input_amount Helpers.state_str state_amount checked_sub]; run_reducer.
Qed.

Lemma stack_debit_total op p inp v :
  p_state p = RConsumableStack v → amount_wf (cs_quantity v) → cs_subject v ≠ EmptyString →
  cs_unit v ≠ EmptyString → quantity_sign op = Some (-1) →
  ConsumableStack.check op (Some p) inp = Ok tt → ∃ s, apply_stack (Some p) op inp = Ok s.
Proof.
  intros Hv Hw Hsub Hun Hsg Hc.
  destruct (stack_debit_inputs _ _ _ Hsg Hc) as (a & Hin & Hto).
  pose proof (stack_check_debit _ _ _ _ _ Hv Hw Hsg Hc Hin) as Hpos.
  pose proof (input_amount_wf _ _ _ Hin) as [Wa Sa].
  destruct (checked_sub_ok (cs_quantity v) a Hw Wa) as (r & Hsb & _); [destruct Hw; lia|lia|].
  apply helpers_input_amount in Hin.
  assert (Hss : Helpers.state_str p "subject" = Ok (cs_subject v))
    by (unfold Helpers.state_str; rewrite Hv; cbn; by destruct (cs_subject v)).
  assert (Hsu : Helpers.state_str p "unit" = Ok (cs_unit v))
    by (unfold Helpers.state_str; rewrite Hv; cbn; by destruct (cs_unit v)).
  assert (Hsa : state_amount p "quantity" = Ok (cs_quantity v)) by (unfold state_amount; by rewrite Hv).
  apply stack_check_op in Hc as Hop. clear Hc. unfold ConsumableStack.op.all in Hop.
  elem_cases Hop; subst op; cbn in Hsg; try discriminate Hsg; clear Hsg;
    try destruct (Hto eq_refl) as [t Ht']; clear Hto; unfold apply_stack;
    cbn -[Helpers.input_str Helpers.input_amount Helpers.state_str state_amount checked_sub]; run_reducer.
Qed.

(** ** A transfer's events *)

Lemma transfer_pair_valid rules st key inkey (p : StateProjection) (dest : option StateProjection)
    (intent : Intent) (s q : ResourceState) (e1 e2 : Event) (b0 : ResourceState) :
  (rules, st, key, inkey) ∈ quantity_profiles → typed st (Some p) → state_wf (p_state p) →
  (∀ d, dest = Some d → state_wf (p_state d)) →
  is_transfer_operation (i_operation intent) = true →
  gated_step rules intent (Some p) = Ok s →
  transfer_after_state p dest (i_operation intent) (i_inputs intent) = Ok q →
  empty_state_for st = Ok b0 →
  e_operation e1 = i_operation intent → e_operation e2 = i_operation intent →
  e_resource_id e1 = e_resource_id e2 →
  c_state (e_before e1) = p_state p → c_state (e_after e1) = s →
  c_state (e_before e2) = match dest with Some d => p_state d | None => b0 end →
  c_state (e_after e2) = q →
  event_delta key e1 + event_delta key e2 = 0 ∧ event_delta key e1 < 0 ∧
  rs_unit q = rs_unit (p_state p) ∧ i_inputs intent !! "to_subject" = VString <$> rs_subject q ∧
  validate_transfer_pair (i_intent_id intent) [e1; e2] = Ok tt.
Proof.
  intros Hr Ht Hw Hd Htr Hs Hq Hb0 O1 O2 Rr B1 A1 B2 A2.
  destruct (transfer_after_exact _ _ _ _ _ _ _ _ _ Hr Ht Hw Hd Htr Hs Hq)
    as (Hf & x & x' & y' & a & Hx & Hx' & Hy' & Wx & Wx' & Wy & Wy' & Sx & Sy & Hpos & Vx & Vy & U & T).
  set (y := default ZERO (dest ≫= fun d => rs_amount (p_state d) key)) in *.
  assert (C1 : commitment_amount (e_before e1) key = x) by (unfold commitment_amount; by rewrite B1, Hx).
  assert (C2 : commitment_amount (e_after e1) key = x') by (unfold commitment_amount; by rewrite A1, Hx').
  assert (C3 : commitment_amount (e_before e2) key = y).
  { unfold commitment_amount, y. rewrite B2. destruct dest as [d|]; [done|].
    unfold quantity_profiles in Hr. elem_cases Hr; injection Hr as -> -> -> ->; injection Hb0 as <-; done. }
  assert (C4 : commitment_amount (e_after e2) key = y') by (unfold commitment_amount; by rewrite A2, Hy').
  destruct (pair_totals_complete key e1 e2 x x' y y' (aval a) C1 C2 C3 C4 Wx Wx' Wy Wy' Sx Sy Hpos Vx Vy)
    as (d & c & Hpt & Wd & Wc & Vd & Vc).
  unfold event_delta. rewrite C1, C2, C3, C4. split; [lia|]. split; [lia|]. split; [done|]. split; [done|].
  unfold validate_transfer_pair. rewrite O1, O2, Hf, Rr, !String.eqb_refl.
  rewrite bool_decide_true by done. cbn [negb]. rewrite Hpt. cbn [rbind].
  assert (amount_eqb d ZERO = false) as ->.
  { destruct (amount_eqb d ZERO) eqn:E; [|done]. apply amount_eqb_spec in E; [|done|apply ZERO_wf].
    rewrite aval_ZERO in E. lia. }
  assert (amount_eqb d c = true) as -> by (apply amount_eqb_spec; [done..|lia]). done.
Qed.

(** ** Properties *)

(** Quantity arithmetic is exact.  An accepted operation of the balance or stack
    profile that changes the quantity by its input changes it by exactly that amount,
    keeps the holder, keeps the unit unless it is a conversion, and, when it
    decreases, takes a positive amount that the holder has. *)
Theorem quantity_step_exact rules st key inkey (intent : Intent) (p : StateProjection)
    (s : ResourceState) (sign : Z) :
  (rules, st, key, inkey) ∈ quantity_profiles → typed st (Some p) → state_wf (p_state p) →
  quantity_sign (i_operation intent) = Some sign →
  gated_step rules intent (Some p) = Ok s →
  ∃ x x' a, rs_amount (p_state p) key = Some x ∧ rs_amount s key = Some x' ∧
    input_amount (i_inputs intent) inkey = Ok a ∧ state_wf s ∧
    aval x' = aval x + sign * aval a ∧ (sign = -1 → 0 < aval a ≤ aval x) ∧
    rs_subject s = rs_subject (p_state p) ∧
    (i_operation intent ≠ "balance.convert" → rs_unit s = rs_unit (p_state p)).
Proof.
  intros Hr Ht Hw Hsg Hs. apply gated_step_inv in Hs as (_ & Hc & Ha).
  unfold quantity_profiles in Hr. elem_cases Hr; injection Hr as -> -> -> ->;
    change (apply (Some p) (i_operation intent) (i_inputs intent) = Ok s) in Ha.
  - destruct (typed_balance p Ht) as [Hpt [v Hv]]. rewrite Hv in Hw |- *. rewrite apply_balance_of in Ha by done.
    pose proof (balance_check_op _ _ _ Hc) as Hop.
    eapply balance_apply_exact in Ha as (v' & a & -> & Hin & Hsub & W1 & S1 & V1 & U); [|done..].
    exists (fb_balance v), (fb_balance v'), a. repeat (split; [done|]). split; [|split].
    + intros ->. by eapply balance_check_debit.
    + cbn. by rewrite Hsub.
    + intros Hne. cbn. destruct (String.eqb_spec (i_operation intent) "balance.convert"); [done|]. by rewrite U.
  - destruct (typed_stack p Ht) as [Hpt [v Hv]]. rewrite Hv in Hw |- *. rewrite apply_stack_of in Ha by done.
    pose proof (stack_check_op _ _ _ Hc) as Hop.
    eapply stack_apply_exact in Ha as (v' & a & -> & Hin & Hsub & W1 & S1 & V1 & U); [|done..].
    exists (cs_quantity v), (cs_quantity v'), a. repeat (split; [done|]). split; [|split].
    + intros ->. by eapply stack_check_debit.
    + cbn. by rewrite Hsub.
    + intros _. cbn. by rewrite U.
Qed.

(** Conservation of a transfer.  For an accepted balance or stack transfer, the
    debited source and the credited destination (created at zero when absent) together
    hold exactly what they held before, something positive moved, the credit carries
    the source's unit and goes to [to_subject]; and any debit and credit events that
    commit to these four payloads pass the transfer-pair validator. *)
Theorem transfer_conserves rules st key inkey (p : StateProjection) (dest : option StateProjection)
    (intent : Intent) (s q : ResourceState) (e1 e2 : Event) (b0 : ResourceState) :
  (rules, st, key, inkey) ∈ quantity_profiles → typed st (Some p) → state_wf (p_state p) →
  (∀ d, dest = Some d → state_wf (p_state d)) →
  is_transfer_operation (i_operation intent) = true →
  gated_step rules intent (Some p) = Ok s →
  transfer_after_state p dest (i_operation intent) (i_inputs intent) = Ok q →
  empty_state_for st = Ok b0 →
  e_operation e1 = i_operation intent → e_operation e2 = i_operation intent →
  e_resource_id e1 = e_resource_id e2 →
  c_state (e_before e1) = p_state p → c_state (e_after e1) = s →
  c_state (e_before e2) = match dest with Some d => p_state d | None => b0 end →
  c_state (e_after e2) = q →
  event_delta key e1 + event_delta key e2 = 0 ∧ event_delta key e1 < 0 ∧
  rs_unit q = rs_unit (p_state p) ∧ i_inputs intent !! "to_subject" = VString <$> rs_subject q ∧
  validate_transfer_pair (i_intent_id intent) [e1; e2] = Ok tt.
Proof. apply transfer_pair_valid. Qed.

(** What an accepted batch guarantees.  Event ids are distinct, all events have
    one tenant, and every intent contributes either a single event or exactly two
    events of one transfer operation on one resource that move opposite non-zero
    amounts, so that value is neither created nor destroyed by a multi-event intent. *)
Theorem batch_consistency_sound (events : list Event) (id : IntentId) :
  Forall event_wf events → validate_batch_consistency events = Ok tt →
  NoDup (map e_event_id events) ∧
  (∀ e1 e2, e1 ∈ events → e2 ∈ events → e_tenant_id e1 = e_tenant_id e2) ∧
  let g := List.filter (of_intent id) events in
  (length g ≤ 1)%nat ∨
  ∃ e1 e2 field, g = [e1; e2] ∧ transfer_field (e_operation e1) = Some field ∧
    e_operation e1 = e_operation e2 ∧ e_resource_id e1 = e_resource_id e2 ∧
    event_delta field e1 + event_delta field e2 = 0 ∧ event_delta field e1 ≠ 0.
Proof.
  intros Hw H. pose proof (batch_groups_checked events id H) as Hg.
  unfold validate_batch_consistency in H. res_inv H.
  destruct a. apply check_ids_and_tenant_sound in Ha as (H1 & _ & _ & H2).
  split; [done|]. split; [done|]. destruct Hg as [Hg|Hg]; [by left|right].
  apply transfer_pair_sound in Hg; [done|]. rewrite Forall_forall in *. intros e He.
  apply list_elem_of_In, filter_In in He as [He%list_elem_of_In _]. auto.
Qed.

(** The meter invariant.  On every payload reachable from a creation by accepted
    operations, [remaining] is at most [maximum]. *)
Theorem meter_invariant (s : ResourceState) : meter_reachable s → meter_ok s.
Proof.
  induction 1 as [intent s H|intent p s _ IH Ht H]; [by eapply meter_create_ok|].
  pose proof IH as (v & Hv & _). by eapply meter_step_ok.
Qed.

(** C37: an accepted debit goes through.  When the balance or stack rules accept a
    decreasing operation on a payload whose holder and unit are recorded, the reducer
    returns an after-state: alignment of scales and subtraction cannot fail. *)
Theorem accepted_debit_total rules st key inkey (op : Operation) (p : StateProjection) (inp : Inputs) :
  (rules, st, key, inkey) ∈ quantity_profiles → typed st (Some p) → state_wf (p_state p) →
  quantity_sign op = Some (-1) →
  (∀ sub, rs_subject (p_state p) = Some sub → sub ≠ EmptyString) →
  (∀ u, rs_unit (p_state p) = Some u → u ≠ EmptyString) →
  pr_check rules op (Some p) inp = Ok tt → ∃ s, pr_apply rules (Some p) op inp = Ok s.
Proof.
  intros Hr Ht Hw Hsg Hsub Hun Hc. unfold quantity_profiles in Hr.
  elem_cases Hr; injection Hr as -> -> -> ->.
  - destruct (typed_balance p Ht) as [Hpt [v Hv]]. rewrite Hv in Hw, Hsub, Hun.
    change (∃ s, apply (Some p) op inp = Ok s). rewrite apply_balance_of by done.
    eapply balance_debit_total; eauto.
  - destruct (typed_stack p Ht) as [Hpt [v Hv]]. rewrite Hv in Hw, Hsub, Hun.
    change (∃ s, apply (Some p) op inp = Ok s). rewrite apply_stack_of by done.
    eapply stack_debit_total; eauto.
Qed.

(** ** Concrete runs *)

Module Quantities.
Definition units (n : Z) : Amount := mkAmount n 0.
Definition balance (subject : string) (n : Z) (unit : string) : StateProjection :=
  Samples.projection StFungibleBalance (RFungibleBalance (mkBalance subject (units n) unit)).
Definition stack (subject : string) (n : Z) : StateProjection :=
  Samples.projection StConsumableStack (RConsumableStack (mkStack subject (units n) "potion")).
Definition meter (remaining maximum : Z) : StateProjection :=
  Samples.projection StMeteredResource (RMeteredResource (mkMeter "alice" (units remaining) (units maximum))).
Definition amount (key : string) (n : string) : string * Value := (key, VString n).
Definition transfer (to n : string) : Intent :=
  Samples.intent StFungibleBalance "balance.transfer" [("to_subject", VString to); ("amount", VString n)].
Definition commit (v : Z) (s : ResourceState) : StateCommitment := mkCommitment v "h" s.
Definition event (id : string) (b a : StateProjection) : Event :=
  event_new "acme" id "int_1" "balance.transfer" "asset:sword" "alice"
    (commit 1 (p_state b)) (commit 2 (p_state a)) None "exec" 0.
Definition debit : Event := event "evt_1" (balance "alice" 100 "gold") (balance "alice" 60 "gold").
Definition credit : Event := event "evt_2" (balance "bob" 5 "gold") (balance "bob" 45 "gold").
End Quantities.
Import Quantities.

Lemma units_wf n : 0 ≤ n ≤ U128_MAX → amount_wf (units n).
Proof. intros ?. split; cbn; unfold in_u128, MAX_SCALE; lia. Qed.

Lemma quantity_step_exact_witness :
  ∃ x x' a, rs_amount (p_state (stack "alice" 7)) "quantity" = Some x ∧
    rs_amount (RConsumableStack (mkStack "alice" (units 4) "potion")) "quantity" = Some x' ∧
    input_amount (i_inputs (Samples.intent StConsumableStack "stack.consume" [amount "quantity" "3"]))
      "quantity" = Ok a ∧ aval x' = aval x + (-1) * aval a.
Proof.
  destruct (quantity_step_exact ConsumableStackRules StConsumableStack "quantity" "quantity"
    (Samples.intent StConsumableStack "stack.consume" [amount "quantity" "3"]) (stack "alice" 7)
    (RConsumableStack (mkStack "alice" (units 4) "potion")) (-1))
    as (x & x' & a & H1 & H2 & H3 & _ & H5 & _).
  - right. left.
  - by intros p [= <-].
  - by apply units_wf.
  - reflexivity.
  - vm_compute; reflexivity.
  - eauto 10.
Defined.

Lemma transfer_conserves_witness :
  event_delta "balance" debit + event_delta "balance" credit = 0 ∧
  validate_transfer_pair "int_1" [debit; credit] = Ok tt.
Proof.
  destruct (transfer_conserves FungibleBalanceRules StFungibleBalance "balance" "amount"
    (balance "alice" 100 "gold") (Some (balance "bob" 5 "gold")) (transfer "bob" "40")
    (p_state (balance "alice" 60 "gold")) (p_state (balance "bob" 45 "gold")) debit credit
    (RFungibleBalance (mkBalance EmptyString ZERO EmptyString))) as (H1 & _ & _ & _ & H2).
  - left.
  - by intros p [= <-].
  - by apply units_wf.
  - intros d [= <-]. by apply units_wf.
  - reflexivity.
  - vm_compute; reflexivity.
  - vm_compute; reflexivity.
  - reflexivity.
  - reflexivity.
  - reflexivity.
  - reflexivity.
  - reflexivity.
  - reflexivity.
  - reflexivity.
  - reflexivity.
  - exact (conj H1 H2).
Defined.

Lemma batch_consistency_sound_witness : NoDup (map e_event_id [debit; credit]).
Proof.
  refine (proj1 (batch_consistency_sound [debit; credit] "int_1" _ _)).
  - repeat constructor; by apply units_wf.
  - vm_compute; reflexivity.
Defined.

Lemma meter_invariant_witness : meter_ok (p_state (meter 4 10)).
Proof.
  apply meter_invariant.
  apply (meter_step (Samples.intent StMeteredResource "meter.consume" [amount "amount" "6"]) (meter 10 10));
    [|reflexivity | vm_compute; reflexivity].
  apply (meter_born (Samples.intent StMeteredResource "meter.create"
    [("subject", VString "alice"); amount "remaining" "10"; amount "maximum" "10"])).
  vm_compute; reflexivity.
Defined.

Lemma accepted_debit_total_witness :
  ∃ s, pr_apply FungibleBalanceRules (Some (balance "alice" 100 "gold")) "balance.spend"
    (list_to_map [amount "amount" "40"]) = Ok s.
Proof.
  refine (accepted_debit_total FungibleBalanceRules StFungibleBalance "balance" "amount" "balance.spend"
    (balance "alice" 100 "gold") (list_to_map [amount "amount" "40"]) _ _ _ _ _ _ _).
  - left.
  - by intros p [= <-].
  - by apply units_wf.
  - reflexivity.
  - by intros sub [= <-].
  - by intros u [= <-].
  - vm_compute; reflexivity.
Defined.

(** A conversion debits the converted amount and then relabels what is left with the
    new unit: 100 gold from which 40 are converted to silver becomes 60 silver. *)
Example convert_relabels_rest :
  gated_step FungibleBalanceRules
    (Samples.intent StFungibleBalance "balance.convert" [("to_unit", VString "silver"); amount "amount" "40"])
    (Some (balance "alice" 100 "gold"))
  = Ok (RFungibleBalance (mkBalance "alice" (units 60) "silver")).
Proof. vm_compute. reflexivity. Qed.

(** The credit of a transfer writes the source's unit over the destination's: 5 silver
    plus 40 gold becomes 45 gold. *)
Example transfer_overwrites_unit :
  transfer_after_state (balance "alice" 100 "gold") (Some (balance "bob" 5 "silver"))
    "balance.transfer" (i_inputs (transfer "bob" "40"))
  = Ok (RFungibleBalance (mkBalance "bob" (units 45) "gold")).
Proof. vm_compute. reflexivity. Qed.

(** A transfer to the holder itself computes debit and credit from the same
    before-state, and the pair they form is accepted: written one after the other, the
    credit leaves the holder with 140 of the 100 it had. *)
Example self_transfer_inflates :
  let before := balance "alice" 100 "gold" in
  gated_step FungibleBalanceRules (transfer "alice" "40") (Some before)
    = Ok (p_state (balance "alice" 60 "gold")) ∧
  transfer_after_state before (Some before) "balance.transfer" (i_inputs (transfer "alice" "40"))
    = Ok (p_state (balance "alice" 140 "gold")) ∧
  validate_batch_consistency
    [event "evt_1" before (balance "alice" 60 "gold"); event "evt_2" before (balance "alice" 140 "gold")]
    = Ok tt.
Proof. repeat split; vm_compute; reflexivity. Qed.

(** Expiry of a stack or a meter leaves no mark in the payload: a later credit or
    refill is accepted. *)
Example expire_is_not_terminal :
  gated_step MeterRules (Samples.intent StMeteredResource "meter.expire" []) (Some (meter 4 10))
    = Ok (p_state (meter 0 10)) ∧
  gated_step MeterRules (Samples.intent StMeteredResource "meter.refill" []) (Some (meter 0 10))
    = Ok (p_state (meter 10 10)) ∧
  gated_step ConsumableStackRules (Samples.intent StConsumableStack "stack.expire" []) (Some (stack "alice" 7))
    = Ok (p_state (stack "alice" 0)) ∧
  gated_step ConsumableStackRules
    (Samples.intent StConsumableStack "stack.credit" [amount "quantity" "5"]) (Some (stack "alice" 0))
    = Ok (p_state (stack "alice" 5)).
Proof. repeat split; vm_compute; reflexivity. Qed.
