(* ===== verification/Executor.v ===== *)
(** * The execution pipeline

    Models [crates/statechronicle-executor/src]: the conflict gates ([conflict.rs]), the
    single-intent pipeline with its companion event ([pipeline.rs], [execute_inner]),
    the player ingress routes and the atomic batch route.  The injected ports (stores,
    index, authority evaluators, transaction manager, clock, event-id generator,
    signature verifier) are the fields of [Executor] over an abstract world [W]: a query
    reads the world, an effect also returns the next one. *)

From Stdlib Require Import ZArith Lia Ascii String.
From stdpp Require Import prelude gmap strings.
From S2P Require Import Prelude Effect Amount Domain Profile Admission UniqueAsset Atomicity Resource Registry.
Open Scope Z_scope.

(** ** Errors *)

Inductive ExecutorError :=
| XIntent (e : IntentError)
| XDomain (e : DomainError)
| XProfile (e : ProfileError)
| XSizeLimitExceeded (name : string) (limit actual : Z)
| XExpired (intent_id : string)
| XDuplicateIntent (intent_id : string)
| XExpectedVersionMismatch (resource : string) (expected actual : Z)
| XTenantScopeMissing
| XTenantNotFound (tenant : string)
| XResourceNotFound (resource : string)
| XAuthorityDenied
| XAuthorityStale
| XAuthorityUnavailable (msg : string)
| XAuthorityMissing (operation : string)
| XActorMismatch (expected actual : string)
| XResourceLocked (resource : string)
| XTransitionInvalid (msg : string)
| XActorAuthenticationFailed (msg : string)
| XTransferMismatch (msg : string)
| XAtomicityViolation (msg : string)
| XValueLegSettleRouting (intent_id : string)
| XStore (msg : string)
| XStateTypeRequired.

(** [From<ProfileError>] and [From<StateChronicleError>]. *)
Definition of_profile (e : ProfileError) : ExecutorError :=
  match e with
  | ActorMismatch expected actual => XActorMismatch expected actual
  | ResourceLocked resource => XResourceLocked resource
  | AtomicityViolation m => XAtomicityViolation m
  | TransferMismatch m => XTransferMismatch m
  | ValueLegSettleRouting id => XValueLegSettleRouting id
  | other => XProfile other
  end.

Definition of_core (e : StateChronicleError) : ExecutorError :=
  match e with
  | SizeLimitExceeded name limit actual => XSizeLimitExceeded name limit actual
  | other => XDomain (Core other)
  end.

(** [Display]. *)
Definition profile_error_to_string (e : ProfileError) : string :=
  match e with
  | ActorMismatch expected actual => "actor mismatch: expected " +:+ tick expected +:+ ", got " +:+ tick actual
  | ResourceLocked resource =>
      "resource " +:+ tick resource +:+ " is locked, burned, revoked, or escrowed"
  | AtomicityViolation m => "atomicity violation: " +:+ m
  | TransferMismatch m => "transfer mismatch: " +:+ m
  | ValueLegSettleRouting id => "settlement " +:+ tick id +:+ " requires coordinated value legs"
  | UnknownOperation op => "unknown operation " +:+ tick op
  | InvalidTransition from operation =>
      "invalid transition from " +:+ tick from +:+ " via " +:+ tick operation
  | PInvalidInput m => "invalid input: " +:+ m
  | NonPositiveAmount => "amount must be positive"
  | InsufficientQuantity available requested =>
      "insufficient quantity: requested " +:+ to_canonical_string requested +:+ ", available "
      +:+ to_canonical_string available
  | HardDeleteForbidden => "hard delete is forbidden"
  | FloatForbidden => "floating-point values are forbidden"
  | OwnershipMismatch expected actual =>
      "ownership mismatch: expected " +:+ tick expected +:+ ", got " +:+ tick actual
  | NotTransferable => "resource is not transferable"
  end.

Definition executor_error_to_string (e : ExecutorError) : string :=
  match e with
  | XIntent e => intent_error_to_string e
  | XDomain e => domain_error_to_string e
  | XProfile e => profile_error_to_string e
  | XSizeLimitExceeded name limit actual =>
      "size limit exceeded for " +:+ tick name +:+ ": length " +:+ u128_to_string actual
      +:+ " exceeds limit " +:+ u128_to_string limit
  | XExpired id => "intent " +:+ tick id +:+ " expired before acceptance"
  | XDuplicateIntent id => "duplicate intent id " +:+ tick id +:+ " with different payload"
  | XExpectedVersionMismatch resource expected actual =>
      "expected version mismatch for " +:+ tick resource +:+ ": expected " +:+ u128_to_string expected
      +:+ ", actual " +:+ u128_to_string actual
  | XTenantScopeMissing => "intent has no tenant scope"
  | XTenantNotFound tenant => "tenant " +:+ tick tenant +:+ " not found"
  | XResourceNotFound resource => "resource " +:+ tick resource +:+ " not found"
  | XAuthorityDenied => "authority evaluation denied"
  | XAuthorityStale => "authority proof stale or revoked"
  | XAuthorityUnavailable m => "authority source unavailable: " +:+ m
  | XAuthorityMissing operation => "authority binding required for operation " +:+ tick operation
  | XActorMismatch expected actual =>
      "actor mismatch: expected " +:+ tick expected +:+ ", got " +:+ tick actual
  | XResourceLocked resource =>
      "resource " +:+ tick resource +:+ " is locked, burned, revoked, or escrowed"
  | XTransitionInvalid m => "invalid transition: " +:+ m
  | XActorAuthenticationFailed m => "actor authentication failed: " +:+ m
  | XTransferMismatch m => "transfer mismatch: " +:+ m
  | XAtomicityViolation m => "atomicity violation: " +:+ m
  | XValueLegSettleRouting id =>
      "value-leg trade.settle intent " +:+ tick id
      +:+ " must be settled via execute_settle (single-tenant) or execute_cross_tenant_trade (cross-tenant)"
  | XStore m => "store error: " +:+ m
  | XStateTypeRequired => "intent requires a state_type"
  end.

(** ** Port errors *)

Inductive IntentStoreError := Duplicate | IntentStoreUnavailable (msg : string).
Inductive TrustGrantError := TgDenied | TgUnavailable (msg : string) | TgStale.
Inductive TransactionManagerError :=
| Aborted | CommitFailed (msg : string) | RollbackFailed (msg : string) | TxUnavailable (msg : string).
Inductive StateIndexError := Inconsistent (msg : string) | IndexUnavailable (msg : string).
Inductive TenantStoreError := TenantRootNotFound | TenantUnavailable (msg : string).
Inductive AuthorizationError :=
| Unauthenticated | AuthzDenied | AuthzUnavailable (msg : string) | ContextMismatch (msg : string).
Inductive KeyRegistryError := KeyNotFound | NotTrusted | KeyUnavailable (msg : string).

Definition tx_error_to_string (e : TransactionManagerError) : string :=
  match e with
  | Aborted => "transaction aborted by coordinator"
  | CommitFailed m => "transaction commit failed: " +:+ m
  | RollbackFailed m => "transaction rollback failed: " +:+ m
  | TxUnavailable m => "transaction coordinator unavailable: " +:+ m
  end.
Definition index_error_to_string (e : StateIndexError) : string :=
  match e with
  | Inconsistent m => "no consistent index projection available: " +:+ m
  | IndexUnavailable m => "state index unavailable: " +:+ m
  end.
Definition tenant_error_to_string (e : TenantStoreError) : string :=
  match e with
  | TenantRootNotFound => "tenant checkpoint root not found"
  | TenantUnavailable m => "tenant store unavailable: " +:+ m
  end.
Definition authorization_error_to_string (e : AuthorizationError) : string :=
  match e with
  | Unauthenticated => "authentication failed"
  | AuthzDenied => "authorization denied"
  | AuthzUnavailable m => "authorization service unavailable: " +:+ m
  | ContextMismatch m => "authorization context mismatch: " +:+ m
  end.
Definition key_error_to_string (e : KeyRegistryError) : string :=
  match e with
  | KeyNotFound => "key not found"
  | NotTrusted => "key is not trusted for this context"
  | KeyUnavailable m => "key registry unavailable: " +:+ m
  end.

Definition map_intent_store_error (intent_id : string) (e : IntentStoreError) : ExecutorError :=
  match e with
  | Duplicate => XDuplicateIntent intent_id
  | IntentStoreUnavailable m => XStore m
  end.
Definition map_trustgrant_error (e : TrustGrantError) : ExecutorError :=
  match e with
  | TgDenied => XAuthorityDenied
  | TgStale => XAuthorityStale
  | TgUnavailable m => XAuthorityUnavailable m
  end.
Definition map_transaction_manager_error (e : TransactionManagerError) : ExecutorError :=
  XStore (tx_error_to_string e).

(** ** Conflict gates *)

Definition check_expected_version (intent : Intent) (current : option StateProjection)
    : result unit ExecutorError :=
  let expected := i_expected_version intent in
  match current with
  | None => if 0 <? expected then Err (XResourceNotFound (i_resource_id intent)) else Ok tt
  | Some projection =>
      if negb (p_version projection =? expected) then
        Err (XExpectedVersionMismatch (i_resource_id intent) expected (p_version projection))
      else Ok tt
  end.

Definition check_tenant_scope (intent : Intent) : result unit ExecutorError :=
  if str_is_empty (i_tenant_id intent) then Err XTenantScopeMissing else Ok tt.

Definition check_expiry (intent : Intent) (now : DateTime) : result unit ExecutorError :=
  if match i_expires_at intent with Some expiry => expiry <=? now | None => false end
  then Err (XExpired (i_intent_id intent)) else Ok tt.

Definition check_idempotency_existing (existing incoming : Intent) : result unit ExecutorError :=
  if bool_decide (existing = incoming) then Ok tt
  else Err (XDuplicateIntent (i_intent_id incoming)).

(** ** Ports *)

Record TrustGrantPort (W : Type) := mkTrustGrant {
  evaluate : W → TenantId → SubjectId → string → ResourceId → result TrustGrantOutcome TrustGrantError;
  check_revocation_freshness : W → AuthorityProof → result unit TrustGrantError;
}.
Arguments evaluate {W}. Arguments check_revocation_freshness {W}.

Record Ports (W Handle : Type) := mkPorts {
  get_intent : W → TenantId → IntentId → result (option Intent) IntentStoreError;
  put_intent : W → TenantId → Intent → result unit IntentStoreError * W;
  get_state : W → TenantId → ResourceId → result (option StateProjection) StateIndexError;
  get_subject_state : W → TenantId → SubjectId → ResourceId →
    result (option StateProjection) StateIndexError;
  tenant_exists : W → TenantId → result bool TenantStoreError;
  trustgrant : list (TrustGrantPort W);
  begin_tx : W → TenantId → result Handle TransactionManagerError * W;
  begin_multi : W → list TenantId → result Handle TransactionManagerError * W;
  commit_tx : W → Handle → result unit TransactionManagerError * W;
  rollback_tx : W → Handle → result unit TransactionManagerError * W;
}.
Arguments get_intent {W Handle}. Arguments put_intent {W Handle}. Arguments get_state {W Handle}.
Arguments get_subject_state {W Handle}. Arguments tenant_exists {W Handle}.
Arguments trustgrant {W Handle}. Arguments begin_tx {W Handle}. Arguments begin_multi {W Handle}.
Arguments commit_tx {W Handle}. Arguments rollback_tx {W Handle}.

(** The engine.  [canonicalize_intent], [digest_state] and [digest_aggregate] are BCS
    followed (for the digests) by SHA-256. *)
Record Executor (W Handle : Type) := mkExecutor {
  ports : Ports W Handle;
  profiles : ProfileRegistry;
  executor : SubjectId;
  now : W → DateTime * W;
  event_id_fn : W → EventId * W;
  intent_verifier : SignatureBlock → string → result unit ExecutorError;
  canonicalize_intent : Intent → result string StateChronicleError;
  digest_state : ResourceState → result ContentDigest StateChronicleError;
  digest_aggregate : AggregationPolicy → list ContentDigest → ContentDigest;
}.
Arguments ports {W Handle}. Arguments profiles {W Handle}. Arguments executor {W Handle}.
Arguments now {W Handle}. Arguments event_id_fn {W Handle}. Arguments intent_verifier {W Handle}.
Arguments canonicalize_intent {W Handle}. Arguments digest_state {W Handle}.
Arguments digest_aggregate {W Handle}.

Record AuthenticatedPrincipal := mkPrincipal {
  pr_subject : SubjectId; pr_credential_id : string; pr_tenant : TenantId }.

(** The other injected services. *)
Notation Authorizer W := (W → AuthenticatedPrincipal → Intent → result unit AuthorizationError).
Notation KeyResolver W :=
  (W → TenantId → SubjectId → string → Operation → DateTime → result unit KeyRegistryError).
Notation MutationSink W := (W → ValidatedIntent → AuthenticatedPrincipal → list Event → result unit string * W).
Notation BatchSink W := (W → list ValidatedIntent → list Event → result unit string * W).

(** The execution monad. *)
Notation Exec W A := (Eff ExecutorError W A).

Section Pipeline.
Context {W Handle : Type} (x : Executor W Handle).

Notation exec A := (Exec W A).

(** ** Loading the state *)

Definition read_subject (tenant : TenantId) (subject : SubjectId) (resource : ResourceId)
    : exec (option StateProjection) :=
  xquery (fun w => map_err (fun e => XStore (index_error_to_string e))
    (get_subject_state (ports x) w tenant subject resource)).

Definition read_resource (tenant : TenantId) (resource : ResourceId) : exec (option StateProjection) :=
  xquery (fun w => map_err (fun e => XStore (index_error_to_string e))
    (get_state (ports x) w tenant resource)).

Definition read_address (tenant : TenantId) (subject : option SubjectId) (resource : ResourceId)
    : exec (option StateProjection) :=
  match subject with
  | Some subject => read_subject tenant subject resource
  | None => read_resource tenant resource
  end.

(** The lookup under the profile's address, repeated under the recorded holder when
    that differs. *)
Definition load_current (policy : ExecutionPolicy) (intent : Intent) : exec (option StateProjection) :=
  let queried := primary_subject policy intent in
  let! current := read_address (i_tenant_id intent) queried (i_resource_id intent) in
  match current_subject policy intent current with
  | Some holder =>
      match queried with
      | Some q =>
          if negb (String.eqb holder q)
          then read_subject (i_tenant_id intent) holder (i_resource_id intent)
          else xret current
      | None => xret current
      end
  | None => xret current
  end.

Definition check_state_type (state_type : StateType) (current : option StateProjection)
    : result unit ExecutorError :=
  match current with
  | Some projection =>
      if negb (bool_decide (p_state_type projection = state_type))
         || negb (bool_decide (rs_state_type (p_state projection) = state_type))
      then Err (XTransitionInvalid "state type mismatch") else Ok tt
  | None => Ok tt
  end.

(** ** Custom domains *)

Definition custom_identity (rules : ProfileRules) : result ProfileId ExecutorError :=
  map_err XDomain (profile_id_new (profile_id rules)).

Definition same_domain (rules : ProfileRules) (identity : ProfileId) (c : CustomState) : bool :=
  String.eqb (cu_domain c) identity && (cu_schema_version c =? schema_version rules).

Definition check_custom_current (rules : ProfileRules) (state_type : StateType) (operation : Operation)
    (current : option StateProjection) : result unit ExecutorError :=
  if bool_decide (state_type = StCustom) then
    let? identity := custom_identity rules in
    if negb (contains (allowed_operations rules) operation) then
      Err (XTransitionInvalid "unregistered operation")
    else
      match current with
      | Some projection =>
          match p_state projection with
          | RCustom c =>
              if negb (same_domain rules identity c) then Err (XTransitionInvalid "domain/schema mismatch")
              else Ok tt
          | _ => Err (XTransitionInvalid "custom state required")
          end
      | None => Ok tt
      end
  else Ok tt.

Definition check_custom_after (rules : ProfileRules) (after_state : ResourceState)
    : result unit ExecutorError :=
  match after_state with
  | RCustom c =>
      let? identity := custom_identity rules in
      if negb (same_domain rules identity c) then
        Err (XTransitionInvalid "reducer domain/schema mismatch")
      else Ok tt
  | _ => Ok tt
  end.

(** ** Authority *)

(** The accumulators of the evaluation loop. *)
Record AuthorityTally := mkTally {
  at_outcomes : list TrustGrantOutcome;
  at_denied : bool;
  at_stale : bool;
  at_unavailable : option string;
}.

Definition tally_member (w : W) (intent : Intent) (t : AuthorityTally) (member : TrustGrantPort W)
    : AuthorityTally :=
  match evaluate member w (i_tenant_id intent) (i_actor intent) (i_operation intent)
          (i_resource_id intent) with
  | Ok outcome =>
      if bool_decide (tg_result outcome = Allow)
      then mkTally (at_outcomes t ++ [outcome]) (at_denied t) (at_stale t) (at_unavailable t)
      else mkTally (at_outcomes t) true (at_stale t) (at_unavailable t)
  | Err TgDenied => mkTally (at_outcomes t) true (at_stale t) (at_unavailable t)
  | Err TgStale => mkTally (at_outcomes t) (at_denied t) true (at_unavailable t)
  | Err (TgUnavailable m) => mkTally (at_outcomes t) (at_denied t) (at_stale t) (Some m)
  end.

Definition tally (w : W) (intent : Intent) : AuthorityTally :=
  foldl (tally_member w intent) (mkTally [] false false None) (trustgrant (ports x)).

Definition tally_pass (policy : AggregationPolicy) (t : AuthorityTally) : bool :=
  match policy with
  | RequireAll => negb (at_denied t) && negb (at_stale t)
                  && match at_unavailable t with None => true | Some _ => false end
  | AnyOf => match at_outcomes t with [] => false | _ => true end
  end.

Definition tally_error (t : AuthorityTally) : ExecutorError :=
  match at_unavailable t with
  | Some m => XAuthorityUnavailable m
  | None => if at_stale t then XAuthorityStale else XAuthorityDenied
  end.

(** [aggregate_evaluation_digest]: sorted and deduplicated; a single digest stands for
    itself. *)
Definition aggregate_evaluation_digest (policy : AggregationPolicy) (sub_digests : list ContentDigest)
    : ContentDigest :=
  match bset_of_list sub_digests with
  | [single] => single
  | sorted => digest_aggregate x policy sorted
  end.

(** [Iterator::min] on the evaluation times. *)
Definition oldest (outcomes : list TrustGrantOutcome) : option DateTime :=
  match map tg_evaluated_at outcomes with
  | [] => None
  | t :: ts => Some (foldl Z.min t ts)
  end.

Definition TRUSTGRANT_EVALUATION_KIND : string := "trustgrant.evaluation".

Definition check_freshness (proof : AuthorityProof) : exec unit :=
  match trustgrant (ports x) with
  | primary :: _ =>
      xquery (fun w => map_err map_trustgrant_error (check_revocation_freshness primary w proof))
  | [] => xret tt
  end.

Definition evaluate_authority (rules : ProfileRules) (intent : Intent) : exec (option AuthorityProof) :=
  let operation := i_operation intent in
  let policy := authority_policy rules operation in
  match i_authority intent with
  | None =>
      if pr_requires_authority rules operation then xlift (Err (XAuthorityMissing operation))
      else xret None
  | Some _ =>
      match trustgrant (ports x) with
      | [] => xlift (Err (XAuthorityUnavailable "no authority configured"))
      | _ =>
          let! t := xquery (fun w => Ok (tally w intent)) in
          if negb (tally_pass policy t) then xlift (Err (tally_error t))
          else
            let! evaluated_at :=
              match oldest (at_outcomes t) with Some at_ => xret at_ | None => xeffect (now x) end in
            let proof := mkAuthorityProof TRUSTGRANT_EVALUATION_KIND
              (aggregate_evaluation_digest policy (map tg_evaluation_digest (at_outcomes t)))
              Allow evaluated_at in
            check_freshness proof ;!
            xret (Some proof)
      end
  end.

(** ** Building events *)

Definition version_of (current : option StateProjection) : Z :=
  match current with Some c => p_version c | None => 0 end.

(** The two commitments of an event. *)
Definition commitments (policy : ExecutionPolicy) (current : option StateProjection)
    (after_state : ResourceState) : result (StateCommitment * StateCommitment) ExecutorError :=
  let version := version_of current in
  let? next_version := ok_or (checked_add_u64 version 1) (XTransitionInvalid "version overflow") in
  let? before_state :=
    match current with
    | Some c => Ok (p_state c)
    | None => map_err of_profile (unborn_state policy after_state)
    end in
  let? before_hash :=
    match current with
    | Some c => Ok (p_state_hash c)
    | None => map_err of_core (digest_state x before_state)
    end in
  let? after_hash := map_err of_core (digest_state x after_state) in
  Ok (mkCommitment version before_hash before_state, mkCommitment next_version after_hash after_state).

Definition emit (intent : Intent) (resource : ResourceId) (c : StateCommitment * StateCommitment)
    (authority : option AuthorityProof) : exec Event :=
  let! event_id := xeffect (event_id_fn x) in
  let! created_at := xeffect (now x) in
  xret (event_new (i_tenant_id intent) event_id (i_intent_id intent) (i_operation intent) resource
          (i_actor intent) c.1 c.2 authority (executor x) created_at).

Definition claim (persist_intent : bool) (intent : Intent) : exec unit :=
  if persist_intent then
    xcall (fun w => put_intent (ports x) w (i_tenant_id intent) intent)
      (map_intent_store_error (i_intent_id intent))
  else xret tt.

(** The companion mutation: the events to return with the primary one. *)
Definition companion_event (policy : ExecutionPolicy) (intent : Intent)
    (current : option StateProjection) (authority : option AuthorityProof) (target : StateAddress)
    : exec Event :=
  let! destination := read_address (i_tenant_id intent) (sa_subject target) (sa_resource target) in
  let! source := xlift (ok_or current
    (XTransitionInvalid "companion transition requires an existing primary state")) in
  let! destination_after := xlift (map_err (fun e => XTransitionInvalid (profile_error_to_string e))
    (apply_companion policy intent source destination)) in
  let! c := xlift (commitments policy destination destination_after) in
  emit intent (sa_resource target) c authority.

(** ** [execute_inner] *)

(** Size, expiry: the gates before the idempotency lookup; returns the canonical bytes. *)
Definition static_gates (intent : Intent) : exec string :=
  let! bytes := xlift (map_err of_core (canonicalize_intent x intent)) in
  xlift (map_err of_core (check_size "intent" MAX_INTENT_BYTES (slen bytes))) ;!
  let! t := xeffect (now x) in
  xlift (check_expiry intent t) ;!
  xret bytes.

Definition authenticate (validated : ValidatedIntent) (bytes : string) : exec unit :=
  match v_signature validated with
  | Some block => xlift (intent_verifier x block bytes)
  | None => xret tt
  end ;!
  match i_authority (v_intent validated) with
  | Some proof => check_freshness proof
  | None => xret tt
  end.

Definition check_tenant (intent : Intent) : exec unit :=
  xlift (check_tenant_scope intent) ;!
  let! found := xquery (fun w => map_err (fun e => XStore (tenant_error_to_string e))
    (tenant_exists (ports x) w (i_tenant_id intent))) in
  if negb found then xlift (Err (XTenantNotFound (i_tenant_id intent))) else xret tt.

(** Profile resolution, gates, rules and reducer: the state found and the state to
    write. *)
Definition transition (intent : Intent) (allow_coordinated : bool)
    : exec (ProfileRules * option StateProjection * option AuthorityProof * ResourceState) :=
  let! state_type := xlift (ok_or (i_state_type intent) XStateTypeRequired) in
  let! rules := xlift (map_err of_profile (resolve (profiles x) state_type (i_inputs intent))) in
  let policy := execution_policy rules in
  xlift (map_err of_profile (validate_route policy intent allow_coordinated)) ;!
  let! current := load_current policy intent in
  xlift (check_state_type state_type current) ;!
  xlift (check_expected_version intent current) ;!
  xlift (map_err of_profile (check_access policy intent current)) ;!
  xlift (check_custom_current rules state_type (i_operation intent) current) ;!
  let! authority := evaluate_authority rules intent in
  xlift (map_err of_profile (pr_check rules (i_operation intent) current (i_inputs intent))) ;!
  let! after_state := xlift (map_err (fun e => XTransitionInvalid (profile_error_to_string e))
    (pr_apply rules current (i_operation intent) (i_inputs intent))) in
  xlift (if negb (bool_decide (rs_state_type after_state = state_type))
         then Err (XTransitionInvalid "reducer state type mismatch") else Ok tt) ;!
  xlift (check_custom_after rules after_state) ;!
  xret (rules, current, authority, after_state).

(** From the transition to the events and the claim. *)
Definition construct (intent : Intent) (persist_intent : bool)
    (t : ProfileRules * option StateProjection * option AuthorityProof * ResourceState)
    : exec (list Event) :=
  let '(rules, current, authority, after_state) := t in
  let policy := execution_policy rules in
  let! c := xlift (commitments policy current after_state) in
  let! event := emit intent (i_resource_id intent) c authority in
  let! target := xlift (map_err of_profile (companion_target policy intent)) in
  match target with
  | Some target =>
      let! destination_event := companion_event policy intent current authority target in
      claim persist_intent intent ;!
      xret [event; destination_event]
  | None =>
      claim persist_intent intent ;!
      xret [event]
  end.

Definition execute_inner (validated : ValidatedIntent) (allow_coordinated persist_intent : bool)
    : exec (list Event) :=
  let intent := v_intent validated in
  let! bytes := static_gates intent in
  let! existing := xquery (fun w => map_err (map_intent_store_error (i_intent_id intent))
    (get_intent (ports x) w (i_tenant_id intent) (i_intent_id intent))) in
  match existing with
  | Some existing =>
      xlift (check_idempotency_existing existing intent) ;!
      xret []
  | None =>
      authenticate validated bytes ;!
      check_tenant intent ;!
      let! t := transition intent allow_coordinated in
      construct intent persist_intent t
  end.

Definition execute (validated : ValidatedIntent) : exec (list Event) :=
  execute_inner validated false true.

(** ** Player ingress *)

Definition bound_principal (validated : ValidatedIntent) (principal : AuthenticatedPrincipal) : bool :=
  String.eqb (pr_tenant principal) (i_tenant_id (v_intent validated))
  && String.eqb (pr_subject principal) (i_actor (v_intent validated)).

Definition unbound_error : ExecutorError :=
  XActorAuthenticationFailed "authenticated principal is not bound to intent actor and tenant".
Definition unsigned_error : ExecutorError :=
  XActorAuthenticationFailed "player mutation requires a detached intent signature".

(** The principal binding and the authorizer's answer. *)
Definition authorized (validated : ValidatedIntent) (principal : AuthenticatedPrincipal)
    (authorizer : Authorizer W) : exec unit :=
  xlift (if negb (bound_principal validated principal) then Err unbound_error else Ok tt) ;!
  xquery (fun w => map_err (fun e => XActorAuthenticationFailed (authorization_error_to_string e))
    (authorizer w principal (v_intent validated))).

Definition execute_authenticated_inner (validated : ValidatedIntent) (principal : AuthenticatedPrincipal)
    (authorizer : Authorizer W) (persist_intent : bool) : exec (list Event) :=
  authorized validated principal authorizer ;!
  execute_inner validated false persist_intent.

Definition require_signature (validated : ValidatedIntent) : result SignatureBlock ExecutorError :=
  ok_or (v_signature validated) unsigned_error.

Definition execute_player (validated : ValidatedIntent) (principal : AuthenticatedPrincipal)
    (authorizer : Authorizer W) : exec (list Event) :=
  xlift (require_signature validated) ;!
  execute_authenticated_inner validated principal authorizer true.

Definition execute_player_durable (validated : ValidatedIntent) (principal : AuthenticatedPrincipal)
    (authorizer : Authorizer W) (sink : MutationSink W) : exec (list Event) :=
  xlift (require_signature validated) ;!
  let! events := execute_authenticated_inner validated principal authorizer false in
  match events with
  | [] => xret events
  | _ => xcall (fun w => sink w validated principal events) XStore ;! xret events
  end.

(** [resolve_intent_key(..).map_err(..)?]. *)
Definition resolve_key (validated : ValidatedIntent) (principal : AuthenticatedPrincipal)
    (registry : KeyResolver W) (signature : SignatureBlock) : exec unit :=
  xquery (fun w => map_err (fun e => XActorAuthenticationFailed (key_error_to_string e))
    (registry w (i_tenant_id (v_intent validated)) (pr_subject principal) (sb_key_id signature)
       (i_operation (v_intent validated)) (i_created_at (v_intent validated)))).

Definition execute_player_with_key_registry (validated : ValidatedIntent)
    (principal : AuthenticatedPrincipal) (authorizer : Authorizer W) (registry : KeyResolver W)
    : exec (list Event) :=
  let! signature := xlift (require_signature validated) in
  resolve_key validated principal registry signature ;!
  execute_player validated principal authorizer.

Definition execute_player_durable_with_key_registry (validated : ValidatedIntent)
    (principal : AuthenticatedPrincipal) (authorizer : Authorizer W) (registry : KeyResolver W)
    (sink : MutationSink W) : exec (list Event) :=
  let! signature := xlift (require_signature validated) in
  resolve_key validated principal registry signature ;!
  execute_player_durable validated principal authorizer sink.
End Pipeline.
