(* ===== verification/Settlement.v ===== *)
(** * Atomic batches and settlement

    Models the batch routes of [crates/statechronicle-executor/src/pipeline.rs] and the
    coordinators of [settlement.rs]: plain batches, value-leg settlements, cross-tenant
    batches and cross-tenant trades, each with its transaction wrapper and optional
    durable sink. *)

From Stdlib Require Import ZArith Lia Ascii String.
From stdpp Require Import prelude gmap strings.
From S2P Require Import Prelude Effect Amount Domain Profile Admission UniqueAsset Atomicity Resource Registry Executor.
Open Scope Z_scope.

Section Batches.
Context {W Handle : Type} (x : Executor W Handle).

Notation exec A := (Exec W A).

(** ** Running the intents *)

(** [run_batch]: replays contribute no events. *)
Fixpoint run_batch (intents : list ValidatedIntent) (allow_coordinated persist_intent : bool)
    : exec (list Event) :=
  match intents with
  | [] => xret []
  | validated :: rest =>
      let! produced := execute_inner x validated allow_coordinated persist_intent in
      let! events := run_batch rest allow_coordinated persist_intent in
      xret (produced ++ events)
  end.

Definition partial_replay_error (validated : ValidatedIntent) : ExecutorError :=
  XAtomicityViolation ("partial replay detected in batch: intent "
    +:+ tick (i_intent_id (v_intent validated))
    +:+ " was already claimed and replayed idempotently; the batch fails closed so no partial results escape").

(** [run_batch_fail_closed]: a replay fails the batch. *)
Fixpoint run_batch_fail_closed (intents : list ValidatedIntent) (persist_intent : bool)
    : exec (list Event) :=
  match intents with
  | [] => xret []
  | validated :: rest =>
      let! produced := execute_inner x validated false persist_intent in
      match produced with
      | [] => xlift (Err (partial_replay_error validated))
      | _ =>
          let! events := run_batch_fail_closed rest persist_intent in
          xret (produced ++ events)
      end
  end.

(** ** Group validation by the owning profile *)

(** The first loop of [validate_profile_batch]. *)
Fixpoint check_batch_identities (events : list Event) (seen : gset EventId) (tenant : option TenantId)
    : result unit ExecutorError :=
  match events with
  | [] => Ok tt
  | event :: events' =>
      if decide (e_event_id event ∈ seen) then Err (XAtomicityViolation "duplicate event id in batch")
      else if match tenant with Some first => negb (String.eqb first (e_tenant_id event)) | None => false end
      then Err (XAtomicityViolation "mixed tenant scopes in batch")
      else check_batch_identities events' ({[e_event_id event]} ∪ seen) (Some (e_tenant_id event))
  end.

Definition validate_group (intents : list ValidatedIntent) (g : IntentId * list Event)
    : result unit ExecutorError :=
  let? validated := ok_or
    (List.find (fun entry => String.eqb (i_intent_id (v_intent entry)) g.1) intents)
    (XAtomicityViolation "event has no accepted intent") in
  let intent := v_intent validated in
  let? state_type := ok_or (i_state_type intent) XStateTypeRequired in
  let? rules := map_err of_profile (resolve (profiles x) state_type (i_inputs intent)) in
  map_err of_profile (validate_events (execution_policy rules) g.2).

Definition validate_profile_batch (intents : list ValidatedIntent) (events : list Event)
    : result unit ExecutorError :=
  check_batch_identities events ∅ None ;?
  rforeach (validate_group intents) (group_by_intent events).

(** ** The transaction wrapper *)

(** Run [m] and hand its outcome on instead of failing. *)
Definition attempt {A} (m : exec A) : exec (result A ExecutorError) := fun w =>
  let (r, w') := m w in (Ok r, w').

(** A handle is taken only when there is no durable sink. *)
Definition open_handle (sink : option (BatchSink W))
    (begin_ : W → result Handle TransactionManagerError * W) : exec (option Handle) :=
  match sink with
  | None => let! h := xcall begin_ map_transaction_manager_error in xret (Some h)
  | Some _ => xret None
  end.

(** A failed rollback is only logged. *)
Definition roll_back (handle : option Handle) : exec unit :=
  match handle with
  | Some h => attempt (xcall (fun w => rollback_tx (ports x) w h) map_transaction_manager_error) ;! xret tt
  | None => xret tt
  end.

Definition commit_handle (handle : option Handle) : exec unit :=
  match handle with
  | Some h => xcall (fun w => commit_tx (ports x) w h) map_transaction_manager_error
  | None => xret tt
  end.

(** The sink is called unless there are no events. *)
Definition persist_events (sink : option (BatchSink W)) (intents : list ValidatedIntent)
    (events : list Event) : exec (result unit string) :=
  match sink, events with
  | Some sink, _ :: _ => fun w => let (r, w') := sink w intents events in (Ok r, w')
  | _, _ => xret (Ok tt)
  end.

(** The closing [match result] of the four coordinators. *)
Definition finish {A} (sink : option (BatchSink W)) (handle : option Handle)
    (intents : list ValidatedIntent) (events_of : A → list Event) (outcome : result A ExecutorError)
    : exec A :=
  match outcome with
  | Ok a =>
      let! persisted := persist_events sink intents (events_of a) in
      match persisted with
      | Err error => roll_back handle ;! xlift (Err (XStore error))
      | Ok _ => commit_handle handle ;! xret a
      end
  | Err error =>
      roll_back handle ;!
      xlift (Err (XAtomicityViolation (executor_error_to_string error)))
  end.

Definition is_some_sink (sink : option (BatchSink W)) : bool :=
  match sink with Some _ => true | None => false end.

(** ** Single-tenant batches *)

Definition execute_batch_inner (intents : list ValidatedIntent) (sink : option (BatchSink W))
    : exec (list Event) :=
  match intents with
  | [] => xlift (Err (XAtomicityViolation "empty batch"))
  | first :: _ =>
      let! handle := open_handle sink (fun w => begin_tx (ports x) w (i_tenant_id (v_intent first))) in
      let! outcome := attempt
        (let! events := run_batch_fail_closed intents (is_some_sink sink) in
         xlift (validate_profile_batch intents events) ;!
         xret events) in
      finish sink handle intents (fun events => events) outcome
  end.

Definition execute_batch (intents : list ValidatedIntent) : exec (list Event) :=
  execute_batch_inner intents None.

Definition execute_batch_durable (intents : list ValidatedIntent) (sink : BatchSink W)
    : exec (list Event) := execute_batch_inner intents (Some sink).

(** The items of a player batch, checked one by one before the batch runs. *)
Fixpoint check_player_items (items : list (ValidatedIntent * AuthenticatedPrincipal))
    (authorizer : Authorizer W) (registry : KeyResolver W) : exec unit :=
  match items with
  | [] => xret tt
  | (validated, principal) :: rest =>
      let! signature := xlift (require_signature validated) in
      authorized validated principal authorizer ;!
      resolve_key validated principal registry signature ;!
      check_player_items rest authorizer registry
  end.

Definition execute_player_batch_durable_with_key_registry
    (items : list (ValidatedIntent * AuthenticatedPrincipal)) (authorizer : Authorizer W)
    (registry : KeyResolver W) (sink : BatchSink W) : exec (list Event) :=
  check_player_items items authorizer registry ;!
  execute_batch_durable (map fst items) sink.

(** ** Settlement *)

Definition settle_intents_of (intents : list ValidatedIntent) : list Intent :=
  List.filter (fun i => String.eqb (i_operation i) trade_settle) (map v_intent intents).

Definition execute_settle_inner (intents : list ValidatedIntent) (sink : option (BatchSink W))
    : exec (list Event) :=
  match intents with
  | [] => xlift (Err (XAtomicityViolation "empty settle batch"))
  | first :: _ =>
      let! handle := open_handle sink (fun w => begin_tx (ports x) w (i_tenant_id (v_intent first))) in
      let! outcome := attempt
        (let! events := run_batch intents true (is_some_sink sink) in
         xlift (map_err of_profile (validate_batch_consistency events)) ;!
         xlift (map_err of_profile (validate_settle_batch events (settle_intents_of intents))) ;!
         xret events) in
      finish sink handle intents (fun events => events) outcome
  end.

Definition execute_settle (intents : list ValidatedIntent) : exec (list Event) :=
  execute_settle_inner intents None.
Definition execute_settle_durable (intents : list ValidatedIntent) (sink : BatchSink W) : exec (list Event) :=
  execute_settle_inner intents (Some sink).

(** ** Cross-tenant routes *)

(** [by_name]: the intents of each tenant in input order, tenants sorted. *)
Definition partition_by_tenant (intents : list ValidatedIntent) : list (TenantId * list ValidatedIntent) :=
  group_by (fun v => i_tenant_id (v_intent v)) intents.

Fixpoint run_cross_tenant_legs (by_name : list (TenantId * list ValidatedIntent))
    (allow_coordinated persist_intent : bool) : exec (list TenantEventGroup) :=
  match by_name with
  | [] => xret []
  | (name, sub_intents) :: rest =>
      let! events := run_batch sub_intents allow_coordinated persist_intent in
      let! groups := run_cross_tenant_legs rest allow_coordinated persist_intent in
      xret (mkGroup name events :: groups)
  end.

Definition group_events (groups : list TenantEventGroup) : list Event := flat_map g_events groups.

Definition execute_cross_tenant_inner (intents : list ValidatedIntent) (sink : option (BatchSink W))
    : exec (list TenantEventGroup) :=
  let by_name := partition_by_tenant intents in
  let sorted_tenants := map fst by_name in
  if (length sorted_tenants <? 2)%nat then
    xlift (Err (XAtomicityViolation "cross-tenant batch requires at least two distinct tenants"))
  else
    let! handle := open_handle sink (fun w => begin_multi (ports x) w sorted_tenants) in
    let! outcome := attempt
      (let! groups := run_cross_tenant_legs by_name false (is_some_sink sink) in
       xlift (map_err of_profile (validate_cross_tenant_consistency groups)) ;!
       xret groups) in
    finish sink handle intents group_events outcome.

Definition execute_cross_tenant_trade_inner (intents : list ValidatedIntent) (manifest : TradeManifest)
    (sink : option (BatchSink W)) : exec (list TenantEventGroup) :=
  let by_name := partition_by_tenant intents in
  let sorted_tenants := map fst by_name in
  if (length sorted_tenants <? 2)%nat then
    xlift (Err (XAtomicityViolation "cross-tenant trade requires at least two distinct tenants"))
  else
    let! handle := open_handle sink (fun w => begin_multi (ports x) w sorted_tenants) in
    let! outcome := attempt
      (let! groups := run_cross_tenant_legs by_name true (is_some_sink sink) in
       xlift (map_err of_profile (validate_cross_tenant_trade groups manifest (settle_intents_of intents))) ;!
       xret groups) in
    finish sink handle intents group_events outcome.

Definition execute_cross_tenant (intents : list ValidatedIntent) : exec (list TenantEventGroup) :=
  execute_cross_tenant_inner intents None.
Definition execute_cross_tenant_durable (intents : list ValidatedIntent) (sink : BatchSink W)
    : exec (list TenantEventGroup) :=
  execute_cross_tenant_inner intents (Some sink).
Definition execute_cross_tenant_trade (intents : list ValidatedIntent) (manifest : TradeManifest)
    : exec (list TenantEventGroup) :=
  execute_cross_tenant_trade_inner intents manifest None.
Definition execute_cross_tenant_trade_durable (intents : list ValidatedIntent) (manifest : TradeManifest)
    (sink : BatchSink W) : exec (list TenantEventGroup) :=
  execute_cross_tenant_trade_inner intents manifest (Some sink).
End Batches.
