(* ===== verification/Pipeline.v ===== *)
(** * Properties of the execution pipeline

    What an accepted intent has passed, what its events say, what is written to the
    stores and when, for the definitions of [Executor.v]. *)

From Stdlib Require Import ZArith Lia Ascii String.
From stdpp Require Import prelude gmap strings.
From S2P Require Import Prelude Effect Amount Domain Profile Admission UniqueAsset Transition Atomicity Resource.
From S2P Require Import Registry Lifecycle Economy Executor.
Open Scope Z_scope.

Section Facts.
Context {W Handle : Type} (x : Executor W Handle).

(** ** Quiet computations: only the clock and the id generator advance *)

Definition tick (w w' : W) : Prop := w' = (now x w).2 ∨ w' = (event_id_fn x w).2.
Definition quiet : relation W := rtc tick.
Definition quiet_exec {A} (m : Exec W A) : Prop := ∀ w r w', m w = (r, w') → quiet w w'.

Lemma quiet_bind {A B} (m : Exec W A) (k : A → Exec W B) :
  quiet_exec m → (∀ a, quiet_exec (k a)) → quiet_exec (xbind m k).
Proof.
  intros Hm Hk w r w' H. unfold xbind in H. destruct (m w) as [[a|e] w1] eqn:E.
  - transitivity w1; [by eapply Hm|by eapply Hk].
  - simplify_eq. by eapply Hm.
Qed.

Lemma quiet_lift {A} (r : result A ExecutorError) : quiet_exec (xlift r).
Proof. intros w r' w' [= <- <-]. apply rtc_refl. Qed.
Lemma quiet_ret {A} (a : A) : quiet_exec (xret a).
Proof. intros w r' w' [= <- <-]. apply rtc_refl. Qed.
Lemma quiet_query {A} (f : W → result A ExecutorError) : quiet_exec (xquery f).
Proof. intros w r' w' [= <- <-]. apply rtc_refl. Qed.
Lemma quiet_now : quiet_exec (xeffect (now x)).
Proof.
  intros w r w' H. unfold xeffect in H. destruct (now x w) eqn:E. simplify_eq.
  apply rtc_once. left. by rewrite E.
Qed.
Lemma quiet_event_id : quiet_exec (xeffect (event_id_fn x)).
Proof.
  intros w r w' H. unfold xeffect in H. destruct (event_id_fn x w) eqn:E. simplify_eq.
  apply rtc_once. right. by rewrite E.
Qed.
End Facts.

Create HintDb exec discriminated.
#[export] Hint Resolve quiet_bind quiet_lift quiet_ret quiet_query quiet_now quiet_event_id : exec.

Ltac quiet_step :=
  match goal with
  | |- quiet_exec _ (match ?c with _ => _ end) => destruct c
  | |- quiet_exec _ (xbind _ _) => apply quiet_bind; [|intros ?]
  | |- quiet_exec _ _ => solve [eauto with exec]
  end.

Section Facts.
Context {W Handle : Type} (x : Executor W Handle).

Lemma quiet_check_freshness proof : quiet_exec x (check_freshness x proof).
Proof. unfold check_freshness. repeat quiet_step. Qed.
Lemma quiet_evaluate_authority rules intent : quiet_exec x (evaluate_authority x rules intent).
Proof. unfold evaluate_authority. repeat first [apply quiet_check_freshness | quiet_step]. Qed.
Lemma quiet_read_address t s r : quiet_exec x (read_address x t s r).
Proof. unfold read_address, read_subject, read_resource. repeat quiet_step. Qed.
Lemma quiet_read_subject t s r : quiet_exec x (read_subject x t s r).
Proof. unfold read_subject. repeat quiet_step. Qed.
Lemma quiet_load_current policy intent : quiet_exec x (load_current x policy intent).
Proof.
  unfold load_current. cbv zeta.
  repeat first [apply quiet_read_address | apply quiet_read_subject | quiet_step].
Qed.
Lemma quiet_emit intent res c a : quiet_exec x (emit x intent res c a).
Proof. unfold emit. repeat quiet_step. Qed.
Lemma quiet_companion_event policy intent cur a t : quiet_exec x (companion_event x policy intent cur a t).
Proof. unfold companion_event. repeat first [apply quiet_read_address | apply quiet_emit | quiet_step]. Qed.
Lemma quiet_static_gates intent : quiet_exec x (static_gates x intent).
Proof. unfold static_gates. repeat quiet_step. Qed.
Lemma quiet_authenticate v b : quiet_exec x (authenticate x v b).
Proof. unfold authenticate. repeat first [apply quiet_check_freshness | quiet_step]. Qed.
Lemma quiet_check_tenant intent : quiet_exec x (check_tenant x intent).
Proof. unfold check_tenant. repeat quiet_step. Qed.
Lemma quiet_transition intent coord : quiet_exec x (transition x intent coord).
Proof.
  unfold transition. cbv zeta.
  repeat first [apply quiet_load_current | apply quiet_evaluate_authority | quiet_step].
Qed.
End Facts.

#[export] Hint Resolve quiet_check_freshness quiet_evaluate_authority quiet_read_address quiet_emit
  quiet_companion_event quiet_static_gates quiet_authenticate quiet_check_tenant quiet_transition : exec.

Section Claims.
Context {W Handle : Type} (x : Executor W Handle).

(** How a computation may end with respect to the intent store: without writing to it,
    or with the claim of [intent] as its last step. *)
Inductive ends_in_claim (intent : Intent) (persist : bool) (w : W)
    : result (list Event) ExecutorError → W → Prop :=
| ends_quiet r w' : quiet x w w' → (persist = true → r = Ok [] ∨ ∃ e, r = Err e) →
    ends_in_claim intent persist w r w'
| ends_claimed w1 w' events : persist = true → quiet x w w1 → events ≠ [] →
    put_intent (ports x) w1 (i_tenant_id intent) intent = (Ok tt, w') →
    ends_in_claim intent persist w (Ok events) w'
| ends_refused w1 w' e : persist = true → quiet x w w1 →
    put_intent (ports x) w1 (i_tenant_id intent) intent = (Err e, w') →
    ends_in_claim intent persist w (Err (map_intent_store_error (i_intent_id intent) e)) w'.

Lemma claim_ends intent persist events w0 w r w' : events ≠ [] → quiet x w0 w →
  xbind (claim x persist intent) (fun _ => xret events) w = (r, w') →
  ends_in_claim intent persist w0 r w'.
Proof.
  intros He Hq H. unfold claim in H. destruct persist.
  - unfold xbind, xcall in H. destruct (put_intent (ports x) w (i_tenant_id intent) intent) as [[[]|e] w1] eqn:E;
      cbn in H; injection H as <- <-; [by eapply ends_claimed|by eapply ends_refused].
  - cbn in H. injection H as <- <-. by constructor.
Qed.

(** A quiet prefix followed by a computation that ends in a claim. *)
Lemma ends_bind {A} intent persist (m : Exec W A) k w0 w r w' :
  quiet_exec x m → quiet x w0 w →
  (∀ a w1, quiet x w0 w1 → m w = (Ok a, w1) → k a w1 = (r, w') → ends_in_claim intent persist w0 r w') →
  xbind m k w = (r, w') → ends_in_claim intent persist w0 r w'.
Proof.
  intros Hm Hq Hk H. unfold xbind in H. destruct (m w) as [[a|e] w1] eqn:E.
  - apply (Hk a w1); [|done|done]. transitivity w; [done|by eapply Hm].
  - injection H as <- <-. apply ends_quiet; [|eauto]. transitivity w; [done|by eapply Hm].
Qed.

Lemma construct_ends intent persist t w0 w r w' : quiet x w0 w →
  construct x intent persist t w = (r, w') → ends_in_claim intent persist w0 r w'.
Proof.
  intros Hq H. destruct t as [[[rules cur] authority] after]. unfold construct in H.
  eapply ends_bind; [apply quiet_lift|exact Hq| |exact H]. clear H Hq. intros c w1 Hq _ H.
  eapply ends_bind; [apply quiet_emit|exact Hq| |exact H]. clear H Hq. intros e w2 Hq _ H.
  eapply ends_bind; [apply quiet_lift|exact Hq| |exact H]. clear H Hq. intros [target|] w3 Hq _ H.
  - eapply ends_bind; [apply quiet_companion_event|exact Hq| |exact H]. clear H Hq. intros e2 w4 Hq _ H.
    eapply claim_ends; [|exact Hq|exact H]; done.
  - eapply claim_ends; [|exact Hq|exact H]; done.
Qed.

Lemma execute_inner_ends v coord persist w r w' :
  execute_inner x v coord persist w = (r, w') → ends_in_claim (v_intent v) persist w r w'.
Proof.
  intros H. unfold execute_inner in H.
  eapply ends_bind; [apply quiet_static_gates|apply rtc_refl| |exact H]. clear H. intros b w1 Hq _ H.
  eapply ends_bind; [apply quiet_query|exact Hq| |exact H]. clear H Hq. intros [ex|] w2 Hq _ H.
  - eapply ends_bind; [apply quiet_lift|exact Hq| |exact H]. clear H Hq. intros [] w3 Hq _ H.
    unfold xret in H. injection H as <- <-. apply ends_quiet; auto.
  - eapply ends_bind; [apply quiet_authenticate|exact Hq| |exact H]. clear H Hq. intros [] w3 Hq _ H.
    eapply ends_bind; [apply quiet_check_tenant|exact Hq| |exact H]. clear H Hq. intros [] w4 Hq _ H.
    eapply ends_bind; [apply quiet_transition|exact Hq| |exact H]. clear H Hq. intros t w5 Hq _ H.
    by eapply construct_ends.
Qed.
End Claims.

(** ** Authority tallies *)

Section Tally.
Context {W Handle : Type} (x : Executor W Handle).

Definition allows (w : W) (intent : Intent) (member : TrustGrantPort W) (o : TrustGrantOutcome) : Prop :=
  evaluate member w (i_tenant_id intent) (i_actor intent) (i_operation intent) (i_resource_id intent) = Ok o ∧
  tg_result o = Allow.

Definition clean (t : AuthorityTally) : Prop :=
  at_denied t = false ∧ at_stale t = false ∧ at_unavailable t = None.

Lemma tally_fold w intent members t :
  let t' := foldl (tally_member w intent) t members in
  (clean t' ↔ clean t ∧ Forall (fun m => ∃ o, allows w intent m o) members) ∧
  ∀ o, o ∈ at_outcomes t' ↔ o ∈ at_outcomes t ∨ Exists (fun m => allows w intent m o) members.
Proof.
  revert t. induction members as [|m members IH]; intros t; cbn [foldl].
  { split; [by rewrite Forall_nil; tauto|]. intros o. rewrite Exists_nil. tauto. }
  destruct (IH (tally_member w intent t m)) as [H1 H2]. cbn zeta in *. rewrite H1.
  setoid_rewrite H2. clear IH H1 H2.
  setoid_rewrite Forall_cons. setoid_rewrite Exists_cons.
  assert ((clean (tally_member w intent t m) ↔ clean t ∧ ∃ o, allows w intent m o) ∧
    ∀ o, o ∈ at_outcomes (tally_member w intent t m) ↔ o ∈ at_outcomes t ∨ allows w intent m o) as [H1 H2];
    [|split; [rewrite H1; tauto|intros o; rewrite H2; tauto]].
  unfold tally_member, allows, clean. destruct (evaluate m w _ _ _ _) as [o|[]]; cbn;
    [|split; [naive_solver|intros; split; [auto|naive_solver]]..].
  destruct (bool_decide_reflect (tg_result o = Allow)); cbn.
  - split; [naive_solver|]. intros o'. rewrite elem_of_app, list_elem_of_singleton. naive_solver.
  - split; [naive_solver|]. intros o'. naive_solver.
Qed.

Lemma oldest_le outcomes t o : oldest outcomes = Some t → o ∈ outcomes → t ≤ tg_evaluated_at o.
Proof.
  unfold oldest. destruct outcomes as [|o0 outcomes]; [set_solver|]. cbn. intros [= <-].
  assert (H : ∀ l b, foldl Z.min b (map tg_evaluated_at l) ≤ b ∧
    ∀ o, o ∈ l → foldl Z.min b (map tg_evaluated_at l) ≤ tg_evaluated_at o).
  { induction l as [|a l IH]; intros b; cbn; [split; [lia|set_solver]|].
    destruct (IH (Z.min b (tg_evaluated_at a))) as [I1 I2]. split; [lia|].
    intros o' [->|Ho]%elem_of_cons; [lia|auto]. }
  destruct (H outcomes (tg_evaluated_at o0)) as [H1 H2]. intros [->|Ho]%elem_of_cons; auto.
Qed.

(** The configured evaluators meet an aggregation policy, at a given world. *)
Definition policy_met (pol : AggregationPolicy) (w : W) (intent : Intent) : Prop :=
  trustgrant (ports x) ≠ [] ∧
  match pol with
  | RequireAll => Forall (fun m => ∃ o, allows w intent m o) (trustgrant (ports x))
  | AnyOf => Exists (fun m => ∃ o, allows w intent m o) (trustgrant (ports x))
  end.

(** The primary evaluator, where one is configured, holds the proof to be fresh. *)
Definition fresh (w : W) (proof : AuthorityProof) : Prop :=
  ∀ primary rest, trustgrant (ports x) = primary :: rest →
    check_revocation_freshness primary w proof = Ok tt.

Lemma tally_outcomes w intent o : o ∈ at_outcomes (tally x w intent) ↔
  Exists (fun m => allows w intent m o) (trustgrant (ports x)).
Proof.
  destruct (tally_fold w intent (trustgrant (ports x)) (mkTally [] false false None)) as [_ H].
  rewrite (H o). cbn. set_solver.
Qed.

Lemma tally_pass_met pol w intent : trustgrant (ports x) ≠ [] →
  tally_pass pol (tally x w intent) = true → policy_met pol w intent.
Proof.
  intros Hne Hp. split; [done|].
  destruct (tally_fold w intent (trustgrant (ports x)) (mkTally [] false false None)) as [Hcl _].
  fold (tally x w intent) in Hcl. cbn zeta in Hcl. pose proof (tally_outcomes w intent) as Hout.
  set (t := tally x w intent) in *. destruct pol; cbn in Hp.
  - apply Hcl. unfold clean. destruct (at_denied t), (at_stale t), (at_unavailable t); done.
  - destruct (at_outcomes t) as [|o os]; [done|].
    assert (Hx : Exists (fun m => allows w intent m o) (trustgrant (ports x))) by (apply Hout; left).
    eapply Exists_impl; [exact Hx|]. cbn. eauto.
Qed.

(** A tally that passes has an allowing member, so the proof is never dated by the
    clock. *)
Lemma policy_met_outcome pol w intent : policy_met pol w intent →
  at_outcomes (tally x w intent) ≠ [].
Proof.
  intros [Hne Hm] E.
  assert (Exists (fun m => ∃ o, allows w intent m o) (trustgrant (ports x))) as Hx.
  { destruct pol; [|done]. destruct (trustgrant (ports x)); [done|]. left. by inversion Hm. }
  apply Exists_exists in Hx as (m & Hin & o & Ho).
  assert (o ∈ at_outcomes (tally x w intent)) as Hi by (apply tally_outcomes, Exists_exists; eauto).
  rewrite E in Hi. by apply elem_of_nil in Hi.
Qed.

Lemma check_freshness_Ok proof w w' : check_freshness x proof w = (Ok tt, w') → w' = w ∧ fresh w proof.
Proof.
  unfold check_freshness, fresh. destruct (trustgrant (ports x)) as [|m ms]; intros H; exec_inv H; [done|].
  split; [done|]. by intros primary rest [= <- <-].
Qed.
End Tally.

(** ** What a successful run has passed *)

Section Sound.
Context {W Handle : Type} (x : Executor W Handle).

Lemma static_gates_Ok intent w b w' : static_gates x intent w = (Ok b, w') →
  canonicalize_intent x intent = Ok b ∧ slen b ≤ MAX_INTENT_BYTES ∧
  check_expiry intent (now x w).1 = Ok tt ∧ w' = (now x w).2.
Proof.
  unfold static_gates. intros H. exec_inv H. destruct a0, a2.
  unfold check_size in Ha0. res_inv Ha0. apply Z.ltb_ge in Hb. rewrite Ha1. done.
Qed.

Lemma authenticate_Ok v b w w' : authenticate x v b w = (Ok tt, w') →
  w' = w ∧ (∀ block, v_signature v = Some block → intent_verifier x block b = Ok tt) ∧
  (∀ proof, i_authority (v_intent v) = Some proof → fresh x w proof).
Proof.
  unfold authenticate. intros H. apply xbind_Ok in H as ([] & w1 & H1 & H2).
  assert (w1 = w) as -> by (destruct (v_signature v); exec_inv H1; done).
  assert (w' = w ∧ ∀ proof, i_authority (v_intent v) = Some proof → fresh x w proof) as [-> Hf].
  { destruct (i_authority (v_intent v)) as [pr|]; [|by exec_inv H2].
    apply check_freshness_Ok in H2 as [-> Hf]. split; [done|]. by intros proof [= <-]. }
  split; [done|]. split; [|done]. intros block Hb. rewrite Hb in H1. by exec_inv H1.
Qed.

Lemma check_tenant_Ok intent w w' : check_tenant x intent w = (Ok tt, w') →
  w' = w ∧ i_tenant_id intent ≠ EmptyString ∧ tenant_exists (ports x) w (i_tenant_id intent) = Ok true.
Proof.
  unfold check_tenant. intros H. exec_inv H. destruct a, a0; cbn in H; exec_inv H.
  unfold check_tenant_scope in Ha. res_inv Ha. split; [done|]. split; [|done].
  intros E. by rewrite E in Hb.
Qed.

Lemma read_address_Ok t s r w c w' : read_address x t s r w = (Ok c, w') → w' = w.
Proof. unfold read_address, read_subject, read_resource. destruct s; intros H; by exec_inv H. Qed.

Lemma load_current_Ok policy intent w c w' : load_current x policy intent w = (Ok c, w') →
  w' = w ∧ ∃ s, read_address x (i_tenant_id intent) s (i_resource_id intent) w = (Ok c, w).
Proof.
  unfold load_current. intros H. apply xbind_Ok in H as (c0 & w1 & H1 & H2).
  pose proof (read_address_Ok _ _ _ _ _ _ H1) as ->.
  destruct (current_subject policy intent c0) as [holder|]; [|exec_inv H2; eauto].
  destruct (primary_subject policy intent) as [q|]; [|exec_inv H2; eauto].
  destruct (negb (String.eqb holder q)); [|exec_inv H2; eauto].
  pose proof (read_address_Ok _ (Some holder) _ _ _ _ H2) as ->. split; [done|].
  by exists (Some holder).
Qed.

(** The row an intent acts on: the one read under the profile's address, unless that
    row records another holder; then it is the one read under the recorded holder. *)
Definition found (policy : ExecutionPolicy) (intent : Intent) (w : W)
    (current : option StateProjection) : Prop :=
  ∃ first, read_address x (i_tenant_id intent) (primary_subject policy intent) (i_resource_id intent) w
      = (Ok first, w) ∧
    ((current = first ∧
      (primary_subject policy intent = None ∨ current_subject policy intent first = None ∨
       current_subject policy intent first = primary_subject policy intent)) ∨
     ∃ holder, current_subject policy intent first = Some holder ∧
       primary_subject policy intent ≠ Some holder ∧
       read_address x (i_tenant_id intent) (Some holder) (i_resource_id intent) w = (Ok current, w)).

Lemma load_current_found policy intent w c w' :
  load_current x policy intent w = (Ok c, w') → found policy intent w c.
Proof.
  unfold load_current. intros H. apply xbind_Ok in H as (c0 & w1 & H1 & H2).
  pose proof (read_address_Ok _ _ _ _ _ _ H1) as ->. exists c0. split; [done|].
  destruct (current_subject policy intent c0) as [holder|]; [|exec_inv H2; tauto].
  destruct (primary_subject policy intent) as [q|]; [|exec_inv H2; tauto].
  destruct (String.eqb_spec holder q) as [->|Hne]; cbn [negb] in H2; [exec_inv H2; tauto|].
  right. exists holder. pose proof (read_address_Ok _ (Some holder) _ _ _ _ H2) as ->.
  split; [done|]. split; [congruence|done].
Qed.

Lemma expected_version_Ok intent cur : 0 ≤ i_expected_version intent → check_expected_version intent cur = Ok tt →
  version_of cur = i_expected_version intent.
Proof. unfold check_expected_version. intros Hv H. destruct cur as [p|]; cbn; res_inv H; lia. Qed.

(** The proof bound into an event. *)
Lemma evaluate_authority_Ok rules intent w a w' : evaluate_authority x rules intent w = (Ok a, w') →
  (i_authority intent = None → a = None ∧ pr_requires_authority rules (i_operation intent) = false) ∧
  (i_authority intent ≠ None → ∃ proof, a = Some proof ∧ ap_result proof = Allow ∧
     tally_pass (authority_policy rules (i_operation intent)) (tally x w intent) = true ∧
     trustgrant (ports x) ≠ [] ∧ fresh x w proof).
Proof.
  unfold evaluate_authority. intros H. destruct (i_authority intent) as [p|].
  - split; [done|]. intros _. destruct (trustgrant (ports x)) as [|tg tgs] eqn:Etg; [by exec_inv H|].
    apply xbind_Ok in H as (t & w1 & Ht & H). apply xquery_Ok in Ht as [[= <-] ->].
    destruct (tally_pass _ _) eqn:Ep; cbn in H; [|by exec_inv H].
    assert (trustgrant (ports x) ≠ []) as Hne by by rewrite Etg.
    pose proof (policy_met_outcome x _ _ _ (tally_pass_met x _ _ _ Hne Ep)) as Ho.
    apply xbind_Ok in H as (at_ & w2 & Hat & H). apply xbind_Ok in H as ([] & w3 & Hf & H).
    assert (w2 = w) as ->.
    { unfold oldest in Hat. destruct (at_outcomes (tally x w intent)); [done|].
      by apply xret_Ok in Hat as [_ ->]. }
    apply check_freshness_Ok in Hf as [-> Hf].
    exec_inv H. eexists. repeat (split; [reflexivity|]). done.
  - split; [|done]. intros _. destruct (pr_requires_authority _ _); exec_inv H; done.
Qed.

(** What the bound authority says, in the terms of the evaluators. *)
Lemma evaluated_authority rules intent w a w' : evaluate_authority x rules intent w = (Ok a, w') →
  (i_authority intent ≠ None → policy_met x (authority_policy rules (i_operation intent)) w intent) ∧
  (a = None ↔ i_authority intent = None) ∧
  (∀ proof, a = Some proof → ap_result proof = Allow ∧ fresh x w proof) ∧
  (pr_requires_authority rules (i_operation intent) = true → a ≠ None).
Proof.
  intros [Hn Hsm]%evaluate_authority_Ok. destruct (i_authority intent) as [pr|].
  - destruct Hsm as (pf & -> & Hal & Hpass & Hne & Hf); [done|].
    split; [intros _; by apply tally_pass_met|]. naive_solver.
  - destruct Hn as [-> Hreq]; [done|]. rewrite Hreq. naive_solver.
Qed.

Lemma checked_type st cur : check_state_type st cur = Ok tt → typed st cur.
Proof.
  intros H p ->. unfold check_state_type in H. res_inv H.
  apply orb_false_iff in Hb as [H1%negb_false_iff H2%negb_false_iff].
  by apply bool_decide_eq_true in H1, H2.
Qed.

(** The state an intent acts on and the transition it makes. *)
Record passed (intent : Intent) (coord : bool) (w : W) (rules : ProfileRules)
    (current : option StateProjection) (authority : option AuthorityProof) (after : ResourceState)
    : Prop := {
  ps_type : ∃ st, i_state_type intent = Some st ∧ resolve (profiles x) st (i_inputs intent) = Ok rules ∧
    check_state_type st current = Ok tt ∧ rs_state_type after = st ∧
    check_custom_current rules st (i_operation intent) current = Ok tt;
  ps_route : validate_route (execution_policy rules) intent coord = Ok tt;
  ps_loaded : load_current x (execution_policy rules) intent w = (Ok current, w);
  ps_version : check_expected_version intent current = Ok tt;
  ps_step : gated_step rules intent current = Ok after;
  ps_authority : ∃ w', evaluate_authority x rules intent w = (Ok authority, w');
  ps_after : check_custom_after rules after = Ok tt;
}.

Lemma transition_Ok intent coord w rules current authority after w' :
  transition x intent coord w = (Ok (rules, current, authority, after), w') →
  passed intent coord w rules current authority after.
Proof.
  unfold transition. intros H.
  apply xbind_Ok in H as (st & w1 & Hst & H). exec_inv Hst.
  apply xbind_Ok in H as (rules' & w2 & Hr & H). exec_inv Hr.
  apply xbind_Ok in H as ([] & w3 & Hroute & H). exec_inv Hroute.
  apply xbind_Ok in H as (cur & w4 & Hl & H). pose proof (load_current_Ok _ _ _ _ _ Hl) as [-> _].
  apply xbind_Ok in H as ([] & w5 & Hst' & H). apply xlift_Ok in Hst' as [Hst' ->].
  apply xbind_Ok in H as ([] & w6 & Hver & H). apply xlift_Ok in Hver as [Hver ->].
  apply xbind_Ok in H as ([] & w7 & Hacc & H). exec_inv Hacc.
  apply xbind_Ok in H as ([] & w8 & Hcus & H). apply xlift_Ok in Hcus as [Hcus ->].
  apply xbind_Ok in H as (auth & w9 & Hau & H).
  apply xbind_Ok in H as ([] & w10 & Hck & H). exec_inv Hck.
  apply xbind_Ok in H as (af & w11 & Hap & H). exec_inv Hap.
  apply xbind_Ok in H as ([] & w12 & Hty & H). apply xlift_Ok in Hty as [Hty ->].
  apply xbind_Ok in H as ([] & w13 & Hca & H). apply xlift_Ok in Hca as [Hca ->].
  apply xret_Ok in H as [H ->]. injection H as -> -> -> ->.
  split; try done; [|unfold gated_step; rewrite Hacc; cbn; rewrite Hck; done|eauto].
  exists st. repeat (split; [done|]). split; [|done].
  destruct (bool_decide_reflect (rs_state_type af = st)); [done|]. discriminate Hty.
Qed.

(** ** The events *)

Lemma commitments_Ok policy cur after c : commitments x policy cur after = Ok c →
  c_version c.1 = version_of cur ∧ c_version c.2 = version_of cur + 1 ∧ c_version c.2 ≤ U64_MAX ∧
  c_state c.2 = after ∧ digest_state x after = Ok (c_state_hash c.2) ∧
  match cur with
  | Some p => c_state c.1 = p_state p ∧ c_state_hash c.1 = p_state_hash p
  | None => unborn_state policy after = Ok (c_state c.1) ∧ digest_state x (c_state c.1) = Ok (c_state_hash c.1)
  end.
Proof.
  unfold commitments. intros H. res_inv H. subst c. cbn.
  unfold checked_add_u64, Prelude.checked_op in Ha. 
  destruct ((0 <=? version_of cur + 1) && (version_of cur + 1 <=? U64_MAX)) eqn:E; [|done].
  apply andb_true_iff in E as [_ E%Z.leb_le]. injection Ha as <-.
  repeat (split; [done|]). destruct cur; [|res_inv Ha0; res_inv Ha1]; cbn in *; [|done].
  injection Ha0 as <-. injection Ha1 as <-. done.
Qed.

Lemma emit_Ok intent res c a w e w' : emit x intent res c a w = (Ok e, w') →
  ∃ w1 at_, e = event_new (i_tenant_id intent) (event_id_fn x w1).1 (i_intent_id intent) (i_operation intent) res
    (i_actor intent) c.1 c.2 a (executor x) at_.
Proof.
  unfold emit. intros H. apply xbind_Ok in H as (id & w1 & Hid & H). exec_inv H. exec_inv Hid.
  exists w. rewrite Hid. eauto.
Qed.
End Sound.

(** ** Successful runs *)

Section Runs.
Context {W Handle : Type} (x : Executor W Handle).

(** What an event says about the transition it records. *)
Record describes (intent : Intent) (policy : ExecutionPolicy) (resource : ResourceId)
    (current : option StateProjection) (after : ResourceState) (authority : option AuthorityProof)
    (e : Event) : Prop := {
  ev_scope : e_tenant_id e = i_tenant_id intent ∧ e_intent_id e = i_intent_id intent ∧
    e_operation e = i_operation intent ∧ e_resource_id e = resource ∧
    e_actor e = i_actor intent ∧ e_executor e = executor x ∧ e_schema e = EVENT_SCHEMA ∧
    ∃ w, e_event_id e = (event_id_fn x w).1;
  ev_versions : c_version (e_before e) = version_of current ∧
    c_version (e_after e) = version_of current + 1 ∧ c_version (e_after e) ≤ U64_MAX;
  ev_before : match current with
    | Some p => c_state (e_before e) = p_state p ∧ c_state_hash (e_before e) = p_state_hash p
    | None => unborn_state policy after = Ok (c_state (e_before e)) ∧
        digest_state x (c_state (e_before e)) = Ok (c_state_hash (e_before e))
    end;
  ev_after : c_state (e_after e) = after ∧ digest_state x after = Ok (c_state_hash (e_after e));
  ev_authority : e_authority e = authority;
}.

Lemma emit_describes intent policy res cur after a c w e w' :
  commitments x policy cur after = Ok c → emit x intent res c a w = (Ok e, w') →
  describes intent policy res cur after a e.
Proof.
  intros Hc (w1 & at_ & ->)%emit_Ok. apply commitments_Ok in Hc as (H1 & H2 & H3 & H4 & H5 & H6).
  split; try done. cbn. split_and!; try done. by exists w1.
Qed.

(** The two shapes of the event list. *)
Inductive emitted (intent : Intent) (w : W) (rules : ProfileRules) (current : option StateProjection)
    (after : ResourceState) (authority : option AuthorityProof) : list Event → Prop :=
| emitted_one e :
    companion_target (execution_policy rules) intent = Ok None →
    describes intent (execution_policy rules) (i_resource_id intent) current after authority e →
    emitted intent w rules current after authority [e]
| emitted_pair e e2 target p dest q w2 :
    companion_target (execution_policy rules) intent = Ok (Some target) →
    current = Some p → quiet x w w2 →
    read_address x (i_tenant_id intent) (sa_subject target) (sa_resource target) w2 = (Ok dest, w2) →
    apply_companion (execution_policy rules) intent p dest = Ok q →
    describes intent (execution_policy rules) (i_resource_id intent) current after authority e →
    describes intent (execution_policy rules) (sa_resource target) dest q authority e2 →
    emitted intent w rules current after authority [e; e2].

Lemma construct_Ok intent persist rules cur a after w events w' :
  construct x intent persist (rules, cur, a, after) w = (Ok events, w') →
  emitted intent w rules cur after a events.
Proof.
  unfold construct. intros H.
  apply xbind_Ok in H as (c & w1 & Hc & H). apply xlift_Ok in Hc as [Hc ->].
  apply xbind_Ok in H as (e & w2 & He & H).
  pose proof (quiet_emit x _ _ _ _ _ _ _ He) as Hq.
  apply xbind_Ok in H as (t & w3 & Ht & H). exec_inv Ht. destruct t as [target|].
  - apply xbind_Ok in H as (e2 & w4 & He2 & H).
    apply xbind_Ok in H as ([] & w5 & _ & H). exec_inv H.
    unfold companion_event in He2.
    apply xbind_Ok in He2 as (dest & w6 & Hr & He2).
    pose proof (read_address_Ok x _ _ _ _ _ _ Hr) as ->.
    apply xbind_Ok in He2 as (p & w7 & Hp & He2). exec_inv Hp.
    apply xbind_Ok in He2 as (q & w8 & Hap & He2). exec_inv Hap.
    apply xbind_Ok in He2 as (c2 & w9 & Hc2 & He2). apply xlift_Ok in Hc2 as [Hc2 ->].
    eapply emitted_pair; eauto using emit_describes.
  - apply xbind_Ok in H as ([] & w5 & _ & H). exec_inv H.
    eapply emitted_one; eauto using emit_describes.
Qed.

Lemma emitted_described intent w rules cur after a events : emitted intent w rules cur after a events →
  ∃ e rest, events = e :: rest ∧
    describes intent (execution_policy rules) (i_resource_id intent) cur after a e ∧
    ∀ e', e' ∈ e :: rest → ∃ res c q, describes intent (execution_policy rules) res c q a e'.
Proof.
  destruct 1 as [e Ht De|e e2 target p dest q w3 Ht Hcp Hq3 Hrd Hap De De2]; do 2 eexists;
    (split; [reflexivity|]); (split; [eassumption|]); intros e'.
  - intros E. apply list_elem_of_singleton in E as ->. eauto.
  - intros [->|E]%elem_of_cons; [|apply list_elem_of_singleton in E as ->]; eauto 10.
Qed.

(** A run that returned events or recognised a replay. *)
Inductive succeeded (v : ValidatedIntent) (coord : bool) (w : W) : list Event → Prop :=
| was_replayed :
    get_intent (ports x) w (i_tenant_id (v_intent v)) (i_intent_id (v_intent v)) = Ok (Some (v_intent v)) →
    succeeded v coord w []
| was_executed bytes rules current authority after w1 events :
    get_intent (ports x) w (i_tenant_id (v_intent v)) (i_intent_id (v_intent v)) = Ok None →
    canonicalize_intent x (v_intent v) = Ok bytes ∧ slen bytes ≤ MAX_INTENT_BYTES →
    (∀ block, v_signature v = Some block → intent_verifier x block bytes = Ok tt) ∧
    (∀ proof, i_authority (v_intent v) = Some proof → fresh x w proof) →
    i_tenant_id (v_intent v) ≠ EmptyString →
    tenant_exists (ports x) w (i_tenant_id (v_intent v)) = Ok true →
    passed x (v_intent v) coord w rules current authority after →
    quiet x w w1 → emitted (v_intent v) w1 rules current after authority events →
    succeeded v coord w events.

Lemma execute_inner_Ok v coord persist w events w' :
  execute_inner x v coord persist w = (Ok events, w') →
  check_expiry (v_intent v) (now x w).1 = Ok tt ∧ succeeded v coord (now x w).2 events.
Proof.
  unfold execute_inner. intros H.
  apply xbind_Ok in H as (b & w1 & Hg & H). apply static_gates_Ok in Hg as (Hb & Hsz & He & ->).
  split; [done|]. apply xbind_Ok in H as (ex & w2 & Hx & H). exec_inv Hx. destruct ex as [ex|].
  - apply xbind_Ok in H as ([] & w3 & Hi & H). apply xlift_Ok in Hi as [Hi ->]. exec_inv H.
    unfold check_idempotency_existing in Hi. destruct (bool_decide_reflect (ex = v_intent v)) as [->|]; [|done].
    by apply was_replayed.
  - apply xbind_Ok in H as ([] & w3 & Hau & H). apply authenticate_Ok in Hau as [-> Hsig].
    apply xbind_Ok in H as ([] & w4 & Ht & H). apply check_tenant_Ok in Ht as (-> & Hne & Hex).
    apply xbind_Ok in H as ([[[rules cur] a] after] & w5 & Htr & H).
    pose proof (quiet_transition x _ _ _ _ _ Htr) as Hq.
    eapply was_executed; eauto using transition_Ok, construct_Ok.
Qed.

Lemma emitted_nonempty intent w rules cur after a events :
  emitted intent w rules cur after a events → events ≠ [].
Proof. by destruct 1. Qed.
End Runs.

(** ** Properties *)

Section Properties.
Context {W Handle : Type} (x : Executor W Handle).

(** C4: what an executed intent went through, and what its events say.  A run that
    returns events:
    - found no earlier claim of the intent id, was not expired, its canonical bytes are
      within the size limit, any signature it carries verifies over them, any proof it
      carries is fresh, and its tenant exists;
    - resolved the rules of the declared state type, which let the route through, and
      acted on the row [found] in the index, of the declared type and at the expected
      version;
    - when the intent asks for authority, met the profile's aggregation policy on the
      configured evaluators; when it does not, the profile does not require it.
    The first event is about the intent's resource; it records the state found (or the
    profile's unborn state) and the state the gate, the rules and the reducer make from
    it, with its digest, one version up.  Every event carries the intent's scope and
    actor, and an authority proof exactly when the intent asks for authority: an
    allowing proof that is fresh. *)
Theorem executed_step (v : ValidatedIntent) (coord persist : bool) (w w' : W) (events : list Event) :
  execute_inner x v coord persist w = (Ok events, w') → events ≠ [] →
  0 ≤ i_expected_version (v_intent v) →
  let intent := v_intent v in
  let w1 := (now x w).2 in
  get_intent (ports x) w1 (i_tenant_id intent) (i_intent_id intent) = Ok None ∧
  (∀ expiry, i_expires_at intent = Some expiry → (now x w).1 < expiry) ∧
  tenant_exists (ports x) w1 (i_tenant_id intent) = Ok true ∧
  (∃ bytes, canonicalize_intent x intent = Ok bytes ∧ slen bytes ≤ MAX_INTENT_BYTES ∧
     ∀ block, v_signature v = Some block → intent_verifier x block bytes = Ok tt) ∧
  (∀ proof, i_authority intent = Some proof → fresh x w1 proof) ∧
  ∃ st rules current e rest, events = e :: rest ∧ i_state_type intent = Some st ∧
    resolve (profiles x) st (i_inputs intent) = Ok rules ∧
    validate_route (execution_policy rules) intent coord = Ok tt ∧
    found x (execution_policy rules) intent w1 current ∧ typed st current ∧
    version_of current = i_expected_version intent ∧
    (i_authority intent ≠ None →
       policy_met x (authority_policy rules (i_operation intent)) w1 intent) ∧
    e_resource_id e = i_resource_id intent ∧
    match current with
    | Some p => c_state (e_before e) = p_state p ∧ c_state_hash (e_before e) = p_state_hash p
    | None => unborn_state (execution_policy rules) (c_state (e_after e)) = Ok (c_state (e_before e))
    end ∧
    gated_step rules intent current = Ok (c_state (e_after e)) ∧
    digest_state x (c_state (e_after e)) = Ok (c_state_hash (e_after e)) ∧
    c_version (e_before e) = i_expected_version intent ∧
    c_version (e_after e) = i_expected_version intent + 1 ∧
    ∀ e', e' ∈ events → e_tenant_id e' = i_tenant_id intent ∧ e_intent_id e' = i_intent_id intent ∧
      e_operation e' = i_operation intent ∧ e_actor e' = i_actor intent ∧
      (e_authority e' = None ↔ i_authority intent = None) ∧
      (∀ proof, e_authority e' = Some proof → ap_result proof = Allow ∧ fresh x w1 proof) ∧
      (pr_requires_authority rules (i_operation intent) = true → e_authority e' ≠ None).
Proof.
  intros H Hne Hv. apply execute_inner_Ok in H as [Hexp Hs]. cbn zeta.
  destruct Hs as [|bytes rules cur a after w2 events Hg [Hb Hsz] [Hsig Hfr] Htn Hte Hp _ Hem]; [done|].
  split; [done|]. split.
  { intros ex Hex. unfold check_expiry in Hexp. rewrite Hex in Hexp. res_inv Hexp. lia. }
  split; [done|]. split; [eauto|]. split; [done|].
  destruct Hp as [(st & Hst & Hr & Hct & Hty & _) Hroute Hload Hver Hstep (w3 & Hau) _].
  pose proof (expected_version_Ok _ _ Hv Hver) as Hcur.
  apply load_current_found in Hload. apply checked_type in Hct as Htyped.
  apply evaluated_authority in Hau as (Hmet & Hau1 & Hau2 & Hau3).
  destruct (emitted_described x _ _ _ _ _ _ _ Hem) as (e & rest & -> & De & Hd).
  exists st, rules, cur, e, rest. repeat (split; [done|]).
  pose proof De as [(_ & _ & _ & S4 & _) (V1 & V2 & _) Bf [A1 A2] _]. rewrite A1.
  split; [done|]. split; [by destruct cur; destruct Bf|]. split; [done|]. split; [done|].
  split; [lia|]. split; [lia|].
  intros e' He'. destruct (Hd e' He') as (res & c & q & [(S1 & S2 & S3 & _ & S5 & _) _ _ _ ->]).
  tauto.
Qed.

(** The claim comes last.  Whatever a run returns, the intent store was either not
    written (only the clock and the id generator advanced), which is the case for every
    error before the claim and for every replay, or it was written once, by the claim
    of this very intent, after which the run does nothing more.  A claim that succeeds
    returns the events; without [persist_intent] there is none. *)
Theorem claim_is_last (v : ValidatedIntent) (coord persist : bool) (w w' : W)
    (r : result (list Event) ExecutorError) :
  execute_inner x v coord persist w = (r, w') →
  (quiet x w w' ∧ (persist = true → r = Ok [] ∨ ∃ e, r = Err e)) ∨
  (persist = true ∧ ∃ w1 res, quiet x w w1 ∧
     put_intent (ports x) w1 (i_tenant_id (v_intent v)) (v_intent v) = (res, w') ∧
     match res with
     | Ok _ => ∃ events, r = Ok events ∧ events ≠ []
     | Err e => r = Err (map_intent_store_error (i_intent_id (v_intent v)) e)
     end).
Proof.
  intros H. apply execute_inner_ends in H.
  destruct H as [r w' H1 H2|w1 w' events H1 H2 H3 H4|w1 w' e H1 H2 H3]; [by left|right..];
    (split; [done|]); do 2 eexists; (split; [eassumption|]); (split; [eassumption|]); [by exists events|done].
Qed.

(** The documented behaviour of the intent store the executor relies on: a stored
    intent is found again, and reading the clock or drawing an id does not touch it. *)
Class IntentStoreLaws : Prop := {
  put_then_get w t i w' : put_intent (ports x) w t i = (Ok tt, w') →
    get_intent (ports x) w' t (i_intent_id i) = Ok (Some i);
  tick_keeps w w' t id : tick x w w' → get_intent (ports x) w' t id = get_intent (ports x) w t id;
}.

Lemma quiet_keeps `{IntentStoreLaws} w w' t id : quiet x w w' →
  get_intent (ports x) w' t id = get_intent (ports x) w t id.
Proof. induction 1 as [|w1 w2 w3 H1 _ IH]; [done|]. by rewrite IH, (tick_keeps w1 w2). Qed.

Lemma quiet_now_step w : quiet x w (now x w).2.
Proof. apply rtc_once. by left. Qed.

Lemma run_static_gates intent b w : canonicalize_intent x intent = Ok b → slen b ≤ MAX_INTENT_BYTES →
  check_expiry intent (now x w).1 = Ok tt → static_gates x intent w = (Ok b, (now x w).2).
Proof.
  intros Hb Hs He. unfold static_gates, xbind, xlift, xeffect, check_size, xret. rewrite Hb. cbn.
  destruct (Z.ltb_spec MAX_INTENT_BYTES (slen b)); [lia|]. cbn. destruct (now x w) as [t w1]. cbn in *.
  by rewrite He.
Qed.

Lemma run_known_intent v coord persist w b stored :
  canonicalize_intent x (v_intent v) = Ok b → slen b ≤ MAX_INTENT_BYTES →
  check_expiry (v_intent v) (now x w).1 = Ok tt →
  get_intent (ports x) (now x w).2 (i_tenant_id (v_intent v)) (i_intent_id (v_intent v)) = Ok (Some stored) →
  execute_inner x v coord persist w =
    (if bool_decide (stored = v_intent v) then Ok [] else Err (XDuplicateIntent (i_intent_id (v_intent v))),
     (now x w).2).
Proof.
  intros Hb Hs He Hg. unfold execute_inner. unfold xbind at 1. rewrite (run_static_gates _ b) by done.
  unfold xbind at 1, xquery. rewrite Hg. cbn [map_err]. unfold xbind, xlift, check_idempotency_existing.
  by destruct (bool_decide (stored = v_intent v)).
Qed.

(** C33: replay is idempotent.  After an intent was accepted with a claim, and however
    far the clock and the id generator advance, submitting it again by any route while
    it is unexpired returns no events and writes nothing; submitting a different intent
    under the same tenant and id is refused as a duplicate. *)
Theorem replay_idempotent `{IntentStoreLaws} (v : ValidatedIntent) (coord coord' persist : bool)
    (w w1 w2 : W) (events : list Event) :
  execute_inner x v coord true w = (Ok events, w1) → quiet x w1 w2 →
  check_expiry (v_intent v) (now x w2).1 = Ok tt →
  execute_inner x v coord' persist w2 = (Ok [], (now x w2).2) ∧
  ∀ v' b, i_tenant_id (v_intent v') = i_tenant_id (v_intent v) →
    i_intent_id (v_intent v') = i_intent_id (v_intent v) → v_intent v' ≠ v_intent v →
    canonicalize_intent x (v_intent v') = Ok b → slen b ≤ MAX_INTENT_BYTES →
    check_expiry (v_intent v') (now x w2).1 = Ok tt →
    execute_inner x v' coord' persist w2 = (Err (XDuplicateIntent (i_intent_id (v_intent v'))), (now x w2).2).
Proof.
  intros He Hq Hexp.
  assert (Hg : get_intent (ports x) w1 (i_tenant_id (v_intent v)) (i_intent_id (v_intent v))
    = Ok (Some (v_intent v))).
  { pose proof (execute_inner_Ok _ _ _ _ _ _ _ He) as [_ Hs]. apply execute_inner_ends in He.
    inversion He as [r w' Hq' Hr|w0 w' ev _ _ _ Hput|]; subst.
    - destruct Hr as [[= ->]|[e He']]; [done| |done].
      inversion Hs as [Hg|? ? ? ? ? ? ? ? ? ? ? ? ? ? Hem]; subst; [|by apply emitted_nonempty in Hem].
      rewrite (quiet_keeps w (now x w).2) in Hg by apply quiet_now_step.
      by rewrite (quiet_keeps w w1).
    - by eapply put_then_get. }
  assert (Hg2 : get_intent (ports x) (now x w2).2 (i_tenant_id (v_intent v)) (i_intent_id (v_intent v))
    = Ok (Some (v_intent v))) by (rewrite (quiet_keeps w1); [done|]; etrans; [done|apply quiet_now_step]).
  split.
  - unfold execute_inner in He. apply xbind_Ok in He as (b & w3 & Hs & _).
    apply static_gates_Ok in Hs as (Hb & Hs & _). 
    rewrite (run_known_intent v _ _ _ b (v_intent v)) by done. by rewrite bool_decide_true.
  - intros v' b Et Ei Hne Hb Hs He'. rewrite (run_known_intent v' _ _ _ b (v_intent v)); try done.
    + by rewrite bool_decide_false by congruence.
    + by rewrite Et, Ei.
Qed.
End Properties.

(** ** Transfers through the pipeline *)

Lemma resource_policy st : st ≠ StCustom → policy st = ResourceExecution st.
Proof. by destruct st. Qed.

Lemma pair_batch_consistent e1 e2 : e_event_id e1 ≠ e_event_id e2 →
  e_tenant_id e1 = e_tenant_id e2 → e_intent_id e1 = e_intent_id e2 →
  validate_transfer_pair (e_intent_id e1) [e1; e2] = Ok tt → validate_batch_consistency [e1; e2] = Ok tt.
Proof.
  intros Hid Ht Hi Hp. unfold validate_batch_consistency. cbn [check_ids_and_tenant].
  rewrite decide_False by set_solver. rewrite decide_False by set_solver.
  rewrite Ht, String.eqb_refl. cbn [negb rbind].
  unfold group_by_intent, group_by. cbn [foldl group_push]. rewrite Hi, str_cmp_refl. cbn [app rforeach].
  unfold check_group. cbn [fst snd]. rewrite <- Hi, Hp. done.
Qed.

Lemma baseline_quantity custom rules st key inkey inputs : (rules, st, key, inkey) ∈ quantity_profiles →
  resolve (baseline_with custom) st inputs = Ok rules ∧ execution_policy rules = ResourceExecution st ∧
  ∃ b0, empty_state_for st = Ok b0.
Proof. intros Hr. unfold quantity_profiles in Hr. elem_cases Hr; injection Hr as -> -> -> ->; eauto. Qed.

Lemma destination_holder_Ok inputs to : destination_holder inputs = Ok to →
  inputs !! "to_subject" = Some (VString to).
Proof.
  unfold destination_holder. intros H. res_inv H. subst. unfold ok_or in Ha.
  destruct (inputs !! "to_subject") as [[]|]; cbn in Ha; by simplify_eq.
Qed.

Section Transfers.
Context {W Handle : Type} (x : Executor W Handle).

(** The index serves well-formed payloads, now and as the clock advances. *)
Definition index_wf (w : W) : Prop := ∀ w1 t s r p w', quiet x w w1 →
  read_address x t s r w1 = (Ok (Some p), w') → state_wf (p_state p).

(** A row served under a holder records that holder, now and as the clock advances. *)
Definition index_by_holder (w : W) : Prop := ∀ w1 t s r p w', quiet x w w1 →
  read_address x t (Some s) r w1 = (Ok (Some p), w') → rs_subject (p_state p) = Some s.

(** Under such an index the row a transfer acts on is the actor's. *)
Lemma found_actor st intent w w1 p : index_by_holder w → quiet x w w1 → subject_held st = true →
  found x (ResourceExecution st) intent w1 (Some p) → rs_subject (p_state p) = Some (i_actor intent).
Proof.
  intros Hk Hq Hs (first & Hf & Hc).
  cbn [primary_subject current_subject ResourceExecution] in Hf, Hc.
  unfold subject_for, holder_for in *. rewrite Hs in *.
  destruct Hc as [[<- _]|(holder & Hh & Hne & _)]; [by eapply Hk|]. exfalso. apply Hne. rewrite <- Hh.
  destruct first as [q|]; [|done]. cbn. rewrite (Hk _ _ _ _ _ _ Hq Hf). by destruct (str_is_empty _).
Qed.

Lemma quantity_transfer rules st key inkey op : (rules, st, key, inkey) ∈ quantity_profiles →
  is_transfer_operation op = true → quantity_sign op = Some (-1) ∧ subject_held st = true.
Proof.
  intros Hr Ht. split.
  - unfold is_transfer_operation in Ht. apply orb_true_iff in Ht as [->%String.eqb_eq| ->%String.eqb_eq]; done.
  - unfold quantity_profiles in Hr. by elem_cases Hr; injection Hr as -> -> -> ->.
Qed.

(** What the two events of a transfer say: the actor's holding goes down by the amount
    of the inputs, and that of the other holder goes up by it, from zero when there was
    no row. *)
Record moves (st : StateType) (key inkey : string) (intent : Intent) (to : SubjectId) (e1 e2 : Event)
    : Prop := {
  mv_amount : ∃ a, input_amount (i_inputs intent) inkey = Ok a ∧ 0 < aval a ∧
    event_delta key e1 = - aval a ∧ event_delta key e2 = aval a;
  mv_source : rs_subject (c_state (e_before e1)) = Some (i_actor intent) ∧
    rs_subject (c_state (e_after e1)) = Some (i_actor intent);
  mv_target : i_inputs intent !! "to_subject" = Some (VString to) ∧
    rs_subject (c_state (e_after e2)) = Some to ∧
    (rs_subject (c_state (e_before e2)) = Some to ∨ empty_state_for st = Ok (c_state (e_before e2)));
  mv_resource : e_resource_id e1 = i_resource_id intent ∧ e_resource_id e2 = i_resource_id intent;
}.

(** C8: an executed transfer is a conserving pair.  With the baseline profiles, and an
    index that serves well-formed amounts and keeps rows under the holder they record,
    executing a balance or stack transfer to someone other than the actor emits exactly
    two events on the intent's resource.  The first debits the actor and the second
    credits [to_subject], a different holder, and both move exactly the positive amount
    named in the inputs; the transfer-pair validator accepts them, and drawn with
    distinct ids they pass the batch validator too.  A transfer to oneself is left out:
    it does not conserve ([self_transfer_inflates]). *)
Theorem executed_transfer_conserves rules st key inkey (v : ValidatedIntent) (coord persist : bool)
    (w w' : W) (events : list Event) (custom : list ProfileRules) :
  profiles x = baseline_with custom → index_wf w → index_by_holder w →
  (rules, st, key, inkey) ∈ quantity_profiles → i_state_type (v_intent v) = Some st →
  is_transfer_operation (i_operation (v_intent v)) = true →
  i_inputs (v_intent v) !! "to_subject" ≠ Some (VString (i_actor (v_intent v))) →
  execute_inner x v coord persist w = (Ok events, w') → events ≠ [] →
  ∃ e1 e2 to, events = [e1; e2] ∧ to ≠ i_actor (v_intent v) ∧
    moves st key inkey (v_intent v) to e1 e2 ∧
    event_delta key e1 + event_delta key e2 = 0 ∧
    validate_transfer_pair (i_intent_id (v_intent v)) events = Ok tt ∧
    (e_event_id e1 ≠ e_event_id e2 → validate_batch_consistency events = Ok tt).
Proof.
  intros Hprof Hwf Hby Hr Hst Htr Hto H Hne. apply execute_inner_Ok in H as [_ Hs].
  destruct Hs as [|bytes rules' cur a after w2 events _ _ _ _ _ Hp Hq2 Hem]; [done|].
  pose proof (quiet_now_step x w) as Hq1.
  destruct Hp as [(st' & Hst' & Hres & Hct & _ & _) _ Hload _ Hstep _ _].
  rewrite Hst in Hst'. injection Hst' as <-.
  destruct (baseline_quantity custom rules st key inkey (i_inputs (v_intent v)) Hr)
    as (Hres' & Hpol & b0 & Hb0). rewrite Hprof, Hres' in Hres. injection Hres as <-.
  destruct Hem as [e Ht|e e2 target p dest q w3 Ht -> Hq3 Hrd Hap De De2]; rewrite Hpol in *.
  { change (resource_companion_target (v_intent v) = Ok None) in Ht.
    unfold resource_companion_target in Ht. rewrite Htr in Ht. cbn [negb] in Ht. by res_inv Ht. }
  change (resource_companion_target (v_intent v) = Ok (Some target)) in Ht.
  change (transfer_after_state p dest (i_operation (v_intent v)) (i_inputs (v_intent v)) = Ok q) in Hap.
  unfold resource_companion_target in Ht. rewrite Htr in Ht. cbn [negb] in Ht. res_inv Ht.
  subst target. cbn [sa_resource sa_subject] in *.
  destruct De as [(S1 & S2 & S3 & S4 & _) _ [B1 _] [A1 _] _].
  destruct De2 as [(T1 & T2 & T3 & T4 & _) _ B2 [A2 _] _].
  apply checked_type in Hct as Htyped.
  destruct (quantity_transfer _ _ _ _ _ Hr Htr) as [Hsign Hheld].
  pose proof (found_actor _ _ _ _ _ Hby Hq1 Hheld (load_current_found x _ _ _ _ _ Hload)) as Hactor.
  apply load_current_Ok in Hload as [_ [s0 Hrd0]].
  pose proof (Hwf _ _ _ _ _ _ Hq1 Hrd0) as Hpw.
  assert (Hq13 : quiet x w w3) by by do 2 (etrans; [done|]).
  destruct (transfer_pair_valid rules st key inkey p dest (v_intent v) after q e e2 b0)
    as (C1 & C2 & C3 & C4 & C5); try done;
    [intros d ->; by eapply (Hwf w3)|congruence| |].
  { destruct dest as [d|]; [by destruct B2|]. destruct B2 as [B2 _].
    change (empty_state_for st = Ok (c_state (e_before e2))) in B2. rewrite Hb0 in B2. by injection B2 as <-. }
  destruct (quantity_step_exact rules st key inkey (v_intent v) p after (-1))
    as (y & y' & amt & E1 & E2 & Hin & _ & Hv & Hpos & Hsub & _); [done..|].
  destruct (Hpos eq_refl) as [Hpos' _].
  pose proof (destination_holder_Ok _ _ Ha) as Hd. rewrite Hd in C4.
  destruct (rs_subject q) as [to|] eqn:Eq; [|discriminate C4]. injection C4 as E. subst to.
  assert (event_delta key e = - aval amt).
  { unfold event_delta, commitment_amount. rewrite B1, A1, E1, E2. cbn. lia. }
  exists e, e2, a0. split; [done|]. split; [congruence|]. split; [|split; [lia|split; [done|]]].
  - split.
    + exists amt. split; [done|]. split; [done|]. split; lia.
    + by rewrite B1, A1, Hsub, Hactor.
    + rewrite A2, Eq. split; [done|]. split; [done|]. destruct dest as [d|].
      * left. destruct B2 as [-> _]. by eapply (Hby w3).
      * right. by destruct B2 as [B2 _].
    + by rewrite S4, T4.
  - intros Hid. apply pair_batch_consistent; [done|congruence..|]. by rewrite S2.
Qed.
End Transfers.

(** ** Authority *)

Section Authority.
Context {W Handle : Type} (x : Executor W Handle).

(** How authority is aggregated.  A proof is bound only when authority is
    configured and the policy is met: every member allowed (require-all), or at least
    one did (any-of).  It is dated no later than any allowing member's evaluation and
    its digest is that of the set of the allowing members' digests, so it does not
    depend on the order of the members or on repeated digests. *)
Theorem authority_aggregation (rules : ProfileRules) (intent : Intent) (w w' : W) (proof : AuthorityProof) :
  evaluate_authority x rules intent w = (Ok (Some proof), w') →
  let pol := authority_policy rules (i_operation intent) in
  trustgrant (ports x) ≠ [] ∧ ap_result proof = Allow ∧
  (pol = RequireAll → Forall (fun m => ∃ o, allows w intent m o) (trustgrant (ports x))) ∧
  (pol = AnyOf → Exists (fun m => ∃ o, allows w intent m o) (trustgrant (ports x))) ∧
  (∀ m o, m ∈ trustgrant (ports x) → allows w intent m o → ap_evaluated_at proof ≤ tg_evaluated_at o) ∧
  ∀ digests, (∀ d, d ∈ digests ↔
      Exists (fun m => ∃ o, allows w intent m o ∧ tg_evaluation_digest o = d) (trustgrant (ports x))) →
    ap_evaluation_digest proof = aggregate_evaluation_digest x pol digests.
Proof.
  intros H pol. pose proof (evaluate_authority_Ok x _ _ _ _ _ H) as [_ Hsm].
  unfold evaluate_authority in H. destruct (i_authority intent) as [p|];
    [|destruct (pr_requires_authority _ _); exec_inv H; done].
  destruct Hsm as (proof' & [= <-] & Hres & Hpass & Hne & _); [done|]. fold pol in Hpass.
  pose proof (tally_outcomes x w intent) as Hout'.
  destruct (tally_pass_met x _ _ _ Hne Hpass) as [_ Hmet]. set (t := tally x w intent) in *.
  split; [done|]. split; [done|].
  split; [by intros E; rewrite E in Hmet|]. split; [by intros E; rewrite E in Hmet|].
  destruct (trustgrant (ports x)) as [|tg tgs] eqn:Etg; [done|].
  apply xbind_Ok in H as (t' & w1 & Ht & H). apply xquery_Ok in Ht as [[= <-] ->].
  fold t pol in H. rewrite Hpass in H. cbn [negb] in H.
  apply xbind_Ok in H as (at_ & w2 & Hat & H). apply xbind_Ok in H as ([] & w3 & _ & H).
  apply xret_Ok in H as [[= ->] _]. cbn. split.
  - intros m o Hm Ho. destruct (oldest (at_outcomes t)) as [o'|] eqn:Eo.
    + exec_inv Hat. subst. eapply oldest_le; [done|]. apply Hout'. apply Exists_exists. eauto.
    + assert (Hin : o ∈ at_outcomes t) by (apply Hout', Exists_exists; eauto).
      unfold oldest in Eo. destruct (at_outcomes t); [set_solver|done].
  - intros digests Hd. unfold aggregate_evaluation_digest.
    rewrite (bset_of_list_ext (map tg_evaluation_digest (at_outcomes t)) digests); [done|].
    intros d. rewrite Hd, list_elem_of_fmap. setoid_rewrite Hout'. setoid_rewrite Exists_exists. naive_solver.
Qed.
End Authority.

(** ** Player ingress *)

Section Ingress.
Context {W Handle : Type} (x : Executor W Handle).

(** What the player route asks for before it runs the pipeline. *)
Definition admitted (v : ValidatedIntent) (principal : AuthenticatedPrincipal)
    (authorizer : Authorizer W) (registry : KeyResolver W) (w : W) : Prop :=
  ∃ block, v_signature v = Some block ∧
    registry w (i_tenant_id (v_intent v)) (pr_subject principal) (sb_key_id block)
      (i_operation (v_intent v)) (i_created_at (v_intent v)) = Ok tt ∧
    pr_tenant principal = i_tenant_id (v_intent v) ∧ pr_subject principal = i_actor (v_intent v) ∧
    authorizer w principal (v_intent v) = Ok tt.

Lemma bound_principal_true v principal : bound_principal v principal = true ↔
  pr_tenant principal = i_tenant_id (v_intent v) ∧ pr_subject principal = i_actor (v_intent v).
Proof. unfold bound_principal. by rewrite andb_true_iff, !String.eqb_eq. Qed.

(** The route decides on admission first: it runs the pipeline and the sink, or it
    fails where it stands. *)
Lemma player_durable_run v principal authorizer registry sink w :
  (admitted v principal authorizer registry w ∧
   execute_player_durable_with_key_registry x v principal authorizer registry sink w =
     match execute_inner x v false false w with
     | (Ok (e :: es), w1) =>
         match sink w1 v principal (e :: es) with
         | (Ok _, w2) => (Ok (e :: es), w2)
         | (Err m, w2) => (Err (XStore m), w2)
         end
     | other => other
     end) ∨
  (¬ admitted v principal authorizer registry w ∧
   ∃ m, execute_player_durable_with_key_registry x v principal authorizer registry sink w =
     (Err (XActorAuthenticationFailed m), w)).
Proof.
  unfold execute_player_durable_with_key_registry, resolve_key, execute_player_durable,
    execute_authenticated_inner, authorized, admitted, require_signature, xbind, xlift, xquery, xcall.
  destruct (v_signature v) as [block|] eqn:Es; cbn; [|right; split; [by intros (? & ? & _)|eauto]].
  destruct (registry w _ _ _ _ _) as [[]|e] eqn:Er; cbn;
    [|right; split; [intros (? & [= <-] & ? & _); congruence|eauto]].
  destruct (bound_principal v principal) eqn:Eb; cbn.
  2: { right. split; [|eauto]. intros (b & _ & _ & H1 & H2 & _).
       assert (bound_principal v principal = true) by by apply bound_principal_true. congruence. }
  apply bound_principal_true in Eb as [Eb1 Eb2].
  destruct (authorizer w principal (v_intent v)) as [[]|e] eqn:Ea; cbn;
    [|right; split; [by intros (? & _ & _ & _ & _ & ?)|eauto]].
  left. split; [by exists block|]. destruct (execute_inner x v false false w) as [[[|e es]|e] w1]; [done| |done].
  destruct (sink w1 v principal (e :: es)) as [[[]|m] w2]; done.
Qed.

(** C35: the player route.  A durable player mutation with key registry is admitted when
    the intent is signed, its key is resolved for this tenant, principal, operation and
    creation time, the principal is the intent's actor in the intent's tenant, and the
    authorizer allows it.
    - If any of these is missing, an authentication error is returned and the world is
      exactly as it was.
    - If it is admitted, the pipeline runs without writing to any store.  It fails with
      the pipeline's error, or it returns the pipeline's events: none (a replay), or
      events that the sink has persisted; when the sink fails its error is returned. *)
Theorem player_ingress (v : ValidatedIntent) (principal : AuthenticatedPrincipal)
    (authorizer : Authorizer W) (registry : KeyResolver W) (sink : MutationSink W) (w w' : W)
    (r : result (list Event) ExecutorError) :
  execute_player_durable_with_key_registry x v principal authorizer registry sink w = (r, w') →
  (¬ admitted v principal authorizer registry w ∧
     w' = w ∧ ∃ m, r = Err (XActorAuthenticationFailed m)) ∨
  (admitted v principal authorizer registry w ∧
   ∃ r1 w1, execute_inner x v false false w = (r1, w1) ∧ quiet x w w1 ∧
     match r1 with
     | Ok [] => r = Ok [] ∧ w' = w1
     | Ok events =>
         (sink w1 v principal events = (Ok tt, w') ∧ r = Ok events) ∨
         ∃ m, sink w1 v principal events = (Err m, w') ∧ r = Err (XStore m)
     | Err e => r = Err e ∧ w' = w1
     end).
Proof.
  intros H. destruct (player_durable_run v principal authorizer registry sink w) as [[Ha E]|[Hn [m E]]];
    rewrite E in H; [right|left; simplify_eq; eauto].
  split; [done|]. destruct (execute_inner x v false false w) as [r1 w1] eqn:Ei.
  exists r1, w1. split; [done|]. split.
  { apply execute_inner_ends in Ei. by inversion Ei. }
  destruct r1 as [[|e es]|e]; [by simplify_eq| |by simplify_eq].
  destruct (sink w1 v principal (e :: es)) as [[[]|m] w2]; simplify_eq; eauto.
Qed.
End Ingress.

(** ** An in-memory deployment

    Concrete ports over a world of finite maps, a clock that advances by one per
    reading and a counter for event ids. *)

Module Memory.
Record World := mkWorld {
  w_intents : gmap (string * string) Intent;
  w_states : gmap (string * string) StateProjection;
  w_subjects : gmap (string * string * string) StateProjection;
  w_clock : Z;
  w_next : Z;
}.

Definition put (w : World) (t : TenantId) (i : Intent) : result unit IntentStoreError * World :=
  match w_intents w !! (t, i_intent_id i) with
  | Some j => if decide (j = i) then (Ok tt, w) else (Err Duplicate, w)
  | None => (Ok tt, mkWorld (<[(t, i_intent_id i) := i]> (w_intents w)) (w_states w) (w_subjects w)
                      (w_clock w) (w_next w))
  end.

Definition ports : Ports World unit := {|
  get_intent w t id := Ok (w_intents w !! (t, id));
  put_intent := put;
  get_state w t r := Ok (w_states w !! (t, r));
  get_subject_state w t s r := Ok (w_subjects w !! (t, s, r));
  tenant_exists _ t := Ok (String.eqb t "acme");
  trustgrant := [mkTrustGrant World (fun _ _ _ _ _ => Ok (mkOutcome "d1" Allow 5)) (fun _ _ => Ok tt);
                 mkTrustGrant World (fun _ _ _ _ _ => Ok (mkOutcome "d2" Allow 3)) (fun _ _ => Ok tt)];
  begin_tx w _ := (Ok tt, w);
  begin_multi w _ := (Ok tt, w);
  commit_tx w _ := (Ok tt, w);
  rollback_tx w _ := (Ok tt, w);
|}.

Definition exec : Executor World unit := {|
  Executor.ports := ports;
  profiles := baseline;
  executor := "exec";
  now w := (w_clock w, mkWorld (w_intents w) (w_states w) (w_subjects w) (w_clock w + 1) (w_next w));
  event_id_fn w := ("evt_" +:+ u128_to_string (w_next w),
                    mkWorld (w_intents w) (w_states w) (w_subjects w) (w_clock w) (w_next w + 1));
  intent_verifier block _ := if String.eqb (sb_sig block) "good" then Ok tt
    else Err (XActorAuthenticationFailed "bad signature");
  canonicalize_intent i := Ok (i_intent_id i);
  digest_state _ := Ok "h";
  digest_aggregate _ l := foldr String.append EmptyString l;
|}.

Definition start : World :=
  mkWorld ∅ (list_to_map [(("acme", "asset:sword"), Samples.asset "active")])
    (list_to_map [(("acme", "alice", "asset:sword"), Quantities.balance "alice" 100 "gold")]) 0 1.

Definition signed (i : Intent) : ValidatedIntent :=
  from_intent i (Some (mkSignature Ed25519 "key_1" "good")).

(** The results of running from [start]. *)
Definition run (v : ValidatedIntent) : result (list Event) ExecutorError * World :=
  execute exec v start.
Definition events_of (r : result (list Event) ExecutorError * World) : list Event :=
  match r.1 with Ok es => es | Err _ => [] end.
End Memory.

#[export] Instance memory_laws : IntentStoreLaws Memory.exec.
Proof.
  split.
  - intros w t i w'. cbn. unfold Memory.put. destruct (Memory.w_intents w !! (t, i_intent_id i)) as [j|] eqn:E.
    + destruct (decide (j = i)) as [->|]; [|done]. intros [= <-]. by rewrite E.
    + intros [= <-]. cbn. by rewrite lookup_insert_eq.
  - by intros w w' t id [-> | ->].
Qed.

(** ** Concrete runs *)

Module MemorySamples.
Definition proof : AuthorityProof := mkAuthorityProof TRUSTGRANT_EVALUATION_KIND "d0" Allow 1.
Definition sale : ValidatedIntent := Memory.signed
  (intent_new "acme" "int_1" "asset.transfer" "alice" "asset:sword" (Some StUniqueAsset) 1
     (list_to_map [("from_owner", VString "alice"); ("to_owner", VString "bob")]) (Some proof) 0 (Some 50) "n").
Definition resale : ValidatedIntent := Memory.signed
  (intent_new "acme" "int_1" "asset.transfer" "alice" "asset:sword" (Some StUniqueAsset) 1
     (list_to_map [("from_owner", VString "alice"); ("to_owner", VString "carol")]) (Some proof) 0 (Some 50) "n").
Definition payment : ValidatedIntent := Memory.signed (Quantities.transfer "bob" "40").
End MemorySamples.
Import MemorySamples.

Lemma executed_step_witness : ∃ e rest, Memory.events_of (Memory.run sale) = e :: rest ∧
  c_version (e_after e) = 2 ∧ e_authority e ≠ None.
Proof.
  destruct (executed_step Memory.exec sale false true Memory.start (Memory.run sale).2
    (Memory.events_of (Memory.run sale))) as (_ & _ & _ & _ & _ & st & rules & cur & e & rest & H1 &
      _ & _ & _ & _ & _ & _ & _ & _ & _ & _ & _ & _ & H2 & H3).
  - vm_compute; reflexivity.
  - vm_compute; discriminate.
  - vm_compute; discriminate.
  - exists e, rest. split; [exact H1|]. split; [exact H2|].
    destruct (H3 e) as (_ & _ & _ & _ & [H4 _] & _); [rewrite H1; left|].
    intros H5. discriminate (H4 H5).
Defined.

Lemma claim_is_last_witness : ∃ w1, quiet Memory.exec Memory.start w1 ∧
  put_intent (Executor.ports Memory.exec) w1 "acme" (v_intent sale) = (Ok tt, (Memory.run sale).2).
Proof.
  destruct (claim_is_last Memory.exec sale false true Memory.start (Memory.run sale).2
    (Ok (Memory.events_of (Memory.run sale)))) as [[_ H]|(_ & w1 & res & H1 & H2 & H3)].
  - vm_compute; reflexivity.
  - exfalso. destruct (H eq_refl) as [H1|[e H1]]; vm_compute in H1; discriminate H1.
  - exists w1. split; [exact H1|]. destruct res as [[]|e]; [exact H2|discriminate H3].
Defined.

Lemma replay_idempotent_witness :
  (execute_inner Memory.exec sale false true (Memory.run sale).2).1 = Ok [] ∧
  (execute_inner Memory.exec resale false true (Memory.run sale).2).1 = Err (XDuplicateIntent "int_1").
Proof.
  destruct (replay_idempotent Memory.exec sale false false true Memory.start (Memory.run sale).2
    (Memory.run sale).2 (Memory.events_of (Memory.run sale))) as [H1 H2].
  - vm_compute; reflexivity.
  - apply rtc_refl.
  - vm_compute; reflexivity.
  - split; [rewrite H1; reflexivity|].
    rewrite (H2 resale "int_1"); [reflexivity|reflexivity|reflexivity| |reflexivity|vm_compute; discriminate|vm_compute; reflexivity].
    intros E. apply (f_equal (fun i => i_inputs i !! "to_owner")) in E. vm_compute in E. discriminate E.
Defined.

(** The clock and the id generator leave the two maps of the index alone. *)
Lemma memory_index_kept w1 : quiet Memory.exec Memory.start w1 →
  Memory.w_states w1 = Memory.w_states Memory.start ∧ Memory.w_subjects w1 = Memory.w_subjects Memory.start.
Proof. intros Hq. induction Hq as [|a b c [-> | ->] _ IH]; [done|exact IH..]. Qed.

Lemma memory_index_wf : index_wf Memory.exec Memory.start.
Proof.
  intros w1 t s r p w' [E1 E2]%memory_index_kept.
  unfold read_address, read_subject, read_resource, xquery. destruct s; cbn -[Memory.start];
    rewrite ?E1, ?E2; cbn; intros [= H _]; apply lookup_insert_Some in H as [[_ <-]|[_ H]];
    [by apply units_wf|by rewrite lookup_empty in H|exact I|by rewrite lookup_empty in H].
Qed.

Lemma memory_index_by_holder : index_by_holder Memory.exec Memory.start.
Proof.
  intros w1 t s r p w' [_ E2]%memory_index_kept. unfold read_address, read_subject, xquery.
  cbn -[Memory.start]. rewrite E2. cbn. intros [= H _].
  apply lookup_insert_Some in H as [[[= _ <- _] <-]|[_ H]]; [done|by rewrite lookup_empty in H].
Qed.

Lemma executed_transfer_conserves_witness :
  ∃ e1 e2 to, Memory.events_of (Memory.run payment) = [e1; e2] ∧ to ≠ "alice" ∧
    moves StFungibleBalance "balance" "amount" (v_intent payment) to e1 e2 ∧
    event_delta "balance" e1 + event_delta "balance" e2 = 0.
Proof.
  destruct (executed_transfer_conserves Memory.exec FungibleBalanceRules StFungibleBalance "balance" "amount"
    payment false true Memory.start (Memory.run payment).2 (Memory.events_of (Memory.run payment)) [])
    as (e1 & e2 & to & H1 & H2 & H3 & H4 & _); [reflexivity|exact memory_index_wf|exact memory_index_by_holder
    |left|reflexivity|reflexivity|vm_compute; discriminate|vm_compute; reflexivity|vm_compute; discriminate|].
  eauto 10.
Defined.

Lemma authority_aggregation_witness :
  Forall (fun m => ∃ o, allows Memory.start (v_intent sale) m o) (trustgrant (Executor.ports Memory.exec)).
Proof.
  destruct (authority_aggregation Memory.exec UniqueAssetRules (v_intent sale) Memory.start Memory.start
    (mkAuthorityProof TRUSTGRANT_EVALUATION_KIND "d1d2" Allow 3)) as (_ & _ & H & _).
  - vm_compute; reflexivity.
  - apply H. reflexivity.
Defined.

(** Alice, her key registry, and a sink that stores nothing and accepts. *)
Module Players.
Definition alice : AuthenticatedPrincipal := mkPrincipal "alice" "c" "acme".
Definition allow : Authorizer Memory.World := fun _ _ _ => Ok tt.
Definition keys : KeyResolver Memory.World := fun _ t s k _ _ =>
  if String.eqb t "acme" && String.eqb s "alice" && String.eqb k "key_1" then Ok tt else Err KeyNotFound.
Definition no_keys : KeyResolver Memory.World := fun _ _ _ _ _ _ => Err KeyNotFound.
Definition sink : MutationSink Memory.World := fun w _ _ _ => (Ok tt, w).
Definition submit (v : ValidatedIntent) (registry : KeyResolver Memory.World) :=
  execute_player_durable_with_key_registry Memory.exec v alice allow registry sink Memory.start.
End Players.

Lemma player_ingress_witness :
  (∃ e, (Players.submit sale Players.keys).1 = Ok [e] ∧
     admitted sale Players.alice Players.allow Players.keys Memory.start) ∧
  (Players.submit sale Players.no_keys).2 = Memory.start ∧
  (Players.submit (from_intent (v_intent sale) None) Players.keys).2 = Memory.start.
Proof.
  split; [|split].
  - destruct (player_ingress Memory.exec sale Players.alice Players.allow Players.keys Players.sink
      Memory.start _ _ (surjective_pairing (Players.submit sale Players.keys)))
      as [(_ & _ & m & Hr)|(Ha & _)]; [vm_compute in Hr; discriminate Hr|].
    eexists. split; [vm_compute; reflexivity|exact Ha].
  - destruct (player_ingress Memory.exec sale Players.alice Players.allow Players.no_keys Players.sink
      Memory.start _ _ (surjective_pairing (Players.submit sale Players.no_keys)))
      as [(_ & Hw & _)|(Ha & _)]; [exact Hw|]. destruct Ha as (b & _ & E & _). discriminate E.
  - destruct (player_ingress Memory.exec (from_intent (v_intent sale) None) Players.alice Players.allow
      Players.keys Players.sink Memory.start _ _
      (surjective_pairing (Players.submit (from_intent (v_intent sale) None) Players.keys)))
      as [(_ & Hw & _)|(Ha & _)]; [exact Hw|]. destruct Ha as (b & E & _). discriminate E.
Defined.
