(* ===== verification/Batches.v ===== *)
(** * Properties of batches and settlements

    Atomicity of the batch routes of [Settlement.v] and the correspondence between the
    value legs a settlement declares and the payments its batch contains. *)

From Stdlib Require Import ZArith Lia Ascii String Permutation.
From stdpp Require Import prelude gmap strings.
From S2P Require Import Prelude Effect Amount Domain Profile Admission UniqueAsset Transition Atomicity SortFacts Resource.
From S2P Require Import Registry Lifecycle Economy Executor Settlement Pipeline.
Open Scope Z_scope.

(** ** Running a batch *)

Section Runs.
Context {W Handle : Type} (x : Executor W Handle).

(** The events each intent contributed. *)
Definition contributed (coord persist : bool) (v : ValidatedIntent) (es : list Event) : Prop :=
  ∃ w w', execute_inner x v coord persist w = (Ok es, w').

Lemma run_batch_fail_closed_Ok intents persist w events w' :
  run_batch_fail_closed x intents persist w = (Ok events, w') →
  ∃ ess, events = concat ess ∧
    Forall2 (fun v es => es ≠ [] ∧ contributed false persist v es) intents ess.
Proof.
  revert w events. induction intents as [|v intents IH]; intros w events H; cbn in H.
  { exec_inv H. by exists []. }
  apply xbind_Ok in H as (es & w1 & He & H). destruct es as [|e es]; [by exec_inv H|].
  apply xbind_Ok in H as (rest & w2 & Hr & H). exec_inv H.
  destruct (IH _ _ Hr) as (ess & -> & HF). exists ((e :: es) :: ess). split; [done|].
  constructor; [|done]. split; [done|]. by exists w, w1.
Qed.

Lemma quiet_run_batch_fail_closed intents : quiet_exec x (run_batch_fail_closed x intents false).
Proof.
  assert (Hq : ∀ v, quiet_exec x (execute_inner x v false false)).
  { intros v w r w' H. apply execute_inner_ends in H. by inversion H. }
  induction intents as [|v intents IH]; cbn; repeat first [apply IH | apply Hq | quiet_step].
Qed.

Lemma quiet_run_batch intents coord : quiet_exec x (run_batch x intents coord false).
Proof.
  assert (Hq : ∀ v, quiet_exec x (execute_inner x v coord false)).
  { intros v w r w' H. apply execute_inner_ends in H. by inversion H. }
  induction intents as [|v intents IH]; cbn; repeat first [apply IH | apply Hq | quiet_step].
Qed.

Lemma quiet_run_legs by_name coord : quiet_exec x (run_cross_tenant_legs x by_name coord false).
Proof.
  induction by_name as [|[name sub] by_name IH]; cbn;
    repeat first [apply IH | apply quiet_run_batch | quiet_step].
Qed.

(** ** The transaction wrapper *)

(** The steps a planning route may take: ticks and calls of the transaction manager. *)
Definition planning (w w' : W) : Prop :=
  tick x w w' ∨ (∃ t r, begin_tx (ports x) w t = (r, w')) ∨ (∃ ts r, begin_multi (ports x) w ts = (r, w')) ∨
  (∃ h r, commit_tx (ports x) w h = (r, w')) ∨ (∃ h r, rollback_tx (ports x) w h = (r, w')).
Definition plans {A} (m : Exec W A) : Prop := ∀ w r w', m w = (r, w') → rtc planning w w'.

Lemma quiet_plans {A} (m : Exec W A) : quiet_exec x m → plans m.
Proof. intros Hm w r w' H. eapply rtc_subrel; [|by eapply Hm]. intros ? ? ?. by left. Qed.

Lemma plans_bind {A B} (m : Exec W A) (k : A → Exec W B) :
  plans m → (∀ a, plans (k a)) → plans (xbind m k).
Proof.
  intros Hm Hk w r w' H. unfold xbind in H. destruct (m w) as [[a|e] w1] eqn:E.
  - transitivity w1; [by eapply Hm|by eapply Hk].
  - simplify_eq. by eapply Hm.
Qed.

Lemma plans_attempt {A} (m : Exec W A) : plans m → plans (attempt m).
Proof.
  intros Hm w r w' H. unfold attempt in H. destruct (m w) as [r0 w0] eqn:E. simplify_eq. by eapply Hm.
Qed.

Lemma plans_finish {A} handle intents (events_of : A → list Event) outcome :
  plans (finish x None handle intents events_of outcome).
Proof.
  assert (Hrb : plans (roll_back x handle)).
  { unfold roll_back. destruct handle as [h|]; [|apply quiet_plans, quiet_ret].
    apply plans_bind; [|intros; apply quiet_plans, quiet_ret]. apply plans_attempt.
    intros w r w' H. unfold xcall in H. destruct (rollback_tx (ports x) w h) as [r0 w0] eqn:E.
    simplify_eq. apply rtc_once. do 4 right. eauto. }
  destruct outcome as [a|e]; cbn.
  - apply plans_bind; [apply quiet_plans; apply quiet_ret|].
    intros [|]; (apply plans_bind; [|intros; apply quiet_plans; first [apply quiet_ret|apply quiet_lift]]).
    + unfold commit_handle. destruct handle as [h|]; [|apply quiet_plans, quiet_ret].
      intros w r w' H. unfold xcall in H. destruct (commit_tx (ports x) w h) as [r0 w0] eqn:E.
      simplify_eq. apply rtc_once. do 3 right. left. eauto.
    + done.
  - apply plans_bind; [done|]. intros. apply quiet_plans, quiet_lift.
Qed.

Lemma plans_open {A} (begin_ : W → result Handle TransactionManagerError * W) (k : option Handle → Exec W A) :
  (∀ w r w', begin_ w = (r, w') → rtc planning w w') → (∀ h, plans (k h)) →
  plans (xbind (open_handle None begin_) k).
Proof.
  intros Hb Hk. apply plans_bind; [|done]. cbn. apply plans_bind; [|intros; apply quiet_plans, quiet_ret].
  intros w r w' H. unfold xcall in H. destruct (begin_ w) as [r0 w0] eqn:E. simplify_eq. by eapply Hb.
Qed.

(** The closing match: success has committed or persisted, failure is one of two
    errors. *)
Lemma finish_Ok {A} sink handle intents (events_of : A → list Event) outcome w a w' :
  finish x sink handle intents events_of outcome w = (Ok a, w') →
  outcome = Ok a ∧
  (∀ s, sink = Some s → events_of a ≠ [] → ∃ w1 w2, s w1 intents (events_of a) = (Ok tt, w2)).
Proof.
  unfold finish. intros H. destruct outcome as [a0|e].
  - apply xbind_Ok in H as (pr & w1 & Hp & H). destruct pr as [[]|e];
      [|apply xbind_Ok in H as ([] & w2 & _ & H); by exec_inv H].
    apply xbind_Ok in H as ([] & w2 & _ & H). apply xret_Ok in H as [-> ->]. split; [done|].
    intros s -> Hne. unfold persist_events in Hp. destruct (events_of a0) as [|e es] eqn:Ee; [done|].
    destruct (s w intents (e :: es)) as [r w3] eqn:Es. injection Hp as -> ->. eauto.
  - apply xbind_Ok in H as ([] & w2 & _ & H). by exec_inv H.
Qed.

(** ** Validation of the batch *)

Lemma check_batch_identities_sound events seen tenant :
  check_batch_identities events seen tenant = Ok tt →
  NoDup (map e_event_id events) ∧ (∀ e, e ∈ events → e_event_id e ∉ seen) ∧
  ∀ e, e ∈ events → ∀ t, (tenant = Some t ∨ ∃ e0, e0 ∈ events ∧ t = e_tenant_id e0) → e_tenant_id e = t.
Proof.
  revert seen tenant. induction events as [|e events IH]; intros seen tenant H; cbn in H.
  { split; [constructor|]. set_solver. }
  destruct (decide (e_event_id e ∈ seen)) as [|Hns]; [done|]. res_inv H.
  destruct (IH _ _ H) as (I1 & I2 & I3). 
  assert (Hall : ∀ e', e' ∈ e :: events → e_tenant_id e' = e_tenant_id e).
  { intros e' [->|He']%elem_of_cons; [done|]. apply (I3 e' He'). by left. }
  split; [|split].
  - cbn. constructor; [|done]. intros Hin. apply list_elem_of_fmap in Hin as (e' & Ee & He').
    specialize (I2 e' He'). rewrite <- Ee in I2. set_solver.
  - intros e' [->|He']%elem_of_cons; [done|]. specialize (I2 e' He'). set_solver.
  - intros e' He' t [->|(e0 & He0 & ->)].
    + apply negb_false_iff, String.eqb_eq in Hb. by rewrite (Hall e' He').
    + by rewrite (Hall e' He'), (Hall e0 He0).
Qed.
End Runs.

(** ** Properties of the routes *)

Section Properties.
Context {W Handle : Type} (x : Executor W Handle).

Lemma validate_profile_batch_Ok intents events : validate_profile_batch x intents events = Ok tt →
  check_batch_identities events ∅ None = Ok tt ∧
  ∀ id, List.filter (of_intent id) events ≠ [] → ∃ v st rules, v ∈ intents ∧
    i_intent_id (v_intent v) = id ∧ i_state_type (v_intent v) = Some st ∧
    resolve (profiles x) st (i_inputs (v_intent v)) = Ok rules ∧
    validate_events (execution_policy rules) (List.filter (of_intent id) events) = Ok tt.
Proof.
  unfold validate_profile_batch. intros H. apply rbind_Ok in H as ([] & H1 & H). split; [done|].
  intros id Hne. destruct (group_by_intent_spec events) as [_ Hl]. rewrite <- (Hl id) in Hne |- *.
  apply alookup_nonempty in Hne. apply rforeach_Ok in H. rewrite Forall_forall in H.
  specialize (H _ Hne). unfold validate_group in H. res_inv H. cbn [fst snd] in *.
  apply List.find_some in Ha as [Hin%list_elem_of_In Hid%String.eqb_eq].
  exists a, a0, a1. done.
Qed.

(** C34: what an accepted batch is.  A batch that succeeds is not empty; each of its
    intents was executed afresh (no replay) and contributed its events, in order; event
    ids are distinct, all events share one tenant; the events of each intent satisfy
    the event-group rule of the profile that owns it; and a durable batch was persisted
    by the sink as a whole. *)
Theorem batch_sound (intents : list ValidatedIntent) (sink : option (BatchSink W)) (w w' : W)
    (events : list Event) :
  execute_batch_inner x intents sink w = (Ok events, w') →
  intents ≠ [] ∧
  (∃ ess, events = concat ess ∧
     Forall2 (fun v es => es ≠ [] ∧ contributed x false (is_some_sink sink) v es) intents ess) ∧
  NoDup (map e_event_id events) ∧
  (∀ e1 e2, e1 ∈ events → e2 ∈ events → e_tenant_id e1 = e_tenant_id e2) ∧
  (∀ id, List.filter (of_intent id) events ≠ [] → ∃ v st rules, v ∈ intents ∧
     i_intent_id (v_intent v) = id ∧ i_state_type (v_intent v) = Some st ∧
     resolve (profiles x) st (i_inputs (v_intent v)) = Ok rules ∧
     validate_events (execution_policy rules) (List.filter (of_intent id) events) = Ok tt) ∧
  (∀ s, sink = Some s → ∃ w1 w2, s w1 intents events = (Ok tt, w2)).
Proof.
  intros H. destruct intents as [|first intents]; [done|]. cbn [execute_batch_inner] in H.
  set (all := first :: intents) in *.
  apply xbind_Ok in H as (h & w1 & _ & H). apply xbind_Ok in H as (outcome & w2 & Ho & H).
  apply finish_Ok in H as [-> Hs]. unfold attempt in Ho.
  match type of Ho with (let (_, _) := ?m w1 in _) = _ => destruct (m w1) as [r w3] eqn:Er end.
  injection Ho as -> ->. apply xbind_Ok in Er as (evs & w4 & Hrun & Er).
  apply xbind_Ok in Er as ([] & w5 & Hv & Er). apply xlift_Ok in Hv as [Hv ->].
  apply xret_Ok in Er as [-> ->].
  apply run_batch_fail_closed_Ok in Hrun as (ess & -> & HF).
  apply validate_profile_batch_Ok in Hv as [Hid Hg].
  apply check_batch_identities_sound in Hid as (Hnd & _ & Ht).
  split; [done|]. split; [by exists ess|]. split; [done|]. split; [intros e1 e2 H1 H2; apply (Ht e1 H1); eauto|].
  split; [done|]. intros s Es. apply (Hs s Es).
  inversion HF as [|v es l k [Hne _] _]; subst. destruct es; done.
Qed.

(** Planning routes write nothing.  Whatever they return, a batch, a settlement, a
    cross-tenant batch and a cross-tenant trade without a durable sink only read the
    clock, draw event ids and talk to the transaction manager: no intent is claimed and
    no store is written, on success or failure. *)
Theorem planning_writes_nothing (intents : list ValidatedIntent) (manifest : TradeManifest) (w : W) :
  rtc (planning x) w (execute_batch_inner x intents None w).2 ∧
  rtc (planning x) w (execute_settle_inner x intents None w).2 ∧
  rtc (planning x) w (execute_cross_tenant_inner x intents None w).2 ∧
  rtc (planning x) w (execute_cross_tenant_trade_inner x intents manifest None w).2.
Proof.
  assert (Hrun : ∀ A (m : Exec W A), plans x m → ∀ w, rtc (planning x) w (m w).2).
  { intros A m Hm w0. destruct (m w0) as [r w'] eqn:E. by eapply Hm. }
  assert (Hl : ∀ A (r : result A ExecutorError), plans x (xlift r)) by (intros; apply quiet_plans, quiet_lift).
  assert (Hbt : ∀ t w r w', begin_tx (ports x) w t = (r, w') → rtc (planning x) w w')
    by (intros; apply rtc_once; right; left; eauto).
  assert (Hbm : ∀ ts w r w', begin_multi (ports x) w ts = (r, w') → rtc (planning x) w w')
    by (intros; apply rtc_once; do 2 right; left; eauto).
  repeat split; apply Hrun.
  - unfold execute_batch_inner. destruct intents as [|first intents]; [apply Hl|].
    apply plans_open; [apply Hbt|]. intros h. apply plans_bind; [|intros; apply plans_finish].
    apply plans_attempt, quiet_plans. apply quiet_bind; [apply quiet_run_batch_fail_closed|].
    intros; repeat quiet_step.
  - unfold execute_settle_inner. destruct intents as [|first intents]; [apply Hl|].
    apply plans_open; [apply Hbt|]. intros h. apply plans_bind; [|intros; apply plans_finish].
    apply plans_attempt, quiet_plans. apply quiet_bind; [apply quiet_run_batch|].
    intros; repeat quiet_step.
  - unfold execute_cross_tenant_inner. cbv zeta. destruct (_ <? _)%nat; [apply Hl|].
    apply plans_open; [apply Hbm|]. intros h. apply plans_bind; [|intros; apply plans_finish].
    apply plans_attempt, quiet_plans. apply quiet_bind; [apply quiet_run_legs|].
    intros; repeat quiet_step.
  - unfold execute_cross_tenant_trade_inner. cbv zeta. destruct (_ <? _)%nat; [apply Hl|].
    apply plans_open; [apply Hbm|]. intros h. apply plans_bind; [|intros; apply plans_finish].
    apply plans_attempt, quiet_plans. apply quiet_bind; [apply quiet_run_legs|].
    intros; repeat quiet_step.
Qed.
End Properties.

(** ** Settlements *)

(** Two lists that are equal after sorting can be matched one to one. *)
Lemma sorted_eq_match {A} (cmp : A → A → comparison) (eqb : A → A → bool) a b :
  list_eqb eqb (sort_by cmp a) (sort_by cmp b) = true →
  ∃ b', b' ≡ₚ b ∧ Forall2 (fun u v => eqb u v = true) a b'.
Proof.
  intros H%list_eqb_Forall2. destruct (Permutation_Forall2 (sort_by_perm cmp a) H) as (b' & Hp & HF).
  exists b'. split; [|done]. by rewrite <- Hp, sort_by_perm.
Qed.

Lemma option_cmp_eq a b : option_cmp a b = Eq → a = b.
Proof. destruct a, b; cbn; try done. by intros ->%str_cmp_eq. Qed.

Lemma tuple_eqb_true (a b : ValueTuple) : amount_wf a.1.1 → amount_wf b.1.1 → tuple_eqb a b = true →
  aval a.1.1 = aval b.1.1 ∧ a.1.2 = b.1.2 ∧ a.2 = b.2.
Proof.
  intros Wa Wb. unfold tuple_eqb, tuple_cmp. destruct (amount_cmp a.1.1 b.1.1) eqn:E1; try done.
  destruct (str_cmp a.1.2 b.1.2) eqn:E2; try done. destruct (option_cmp a.2 b.2) eqn:E3; try done.
  intros _. apply option_cmp_eq in E3. apply str_cmp_eq in E2. split; [|done].
  apply amount_eqb_spec; [done..|]. unfold amount_eqb. by rewrite E1.
Qed.

Lemma value_pair_debit_sound group d d' : Forall event_wf group → amount_wf d →
  value_pair_debit group d = Ok d' →
  amount_wf d' ∧ aval d' = aval d + zsum (map (fun e => Z.max 0 (- event_delta "balance" e)) group).
Proof.
  intros Hw. revert d. induction Hw as [|e group [We1 We2] Hw IH]; intros d Hd H; cbn in H.
  { injection H as <-. cbn. split; [done|]. lia. }
  pose proof (commitment_amount_wf (e_before e) "balance" We1) as Wb.
  pose proof (commitment_amount_wf (e_after e) "balance" We2) as Wa.
  pose proof (amount_ltb_spec _ _ Wa Wb) as L. cbn [map zsum]. unfold event_delta at 1.
  destruct (amount_ltb _ _).
  - res_inv H. pose proof (checked_sub_spec _ _ Wb Wa) as S1. rewrite Ha in S1. destruct S1 as (W1 & _ & V1).
    pose proof (checked_add_spec _ _ Hd W1) as S2. rewrite Ha0 in S2. destruct S2 as (W2 & _ & V2).
    apply IH in H as [W3 V3]; [|done]. split; [done|]. assert (aval (commitment_amount (e_after e) "balance")
      < aval (commitment_amount (e_before e) "balance")) by tauto. lia.
  - apply IH in H as [W3 V3]; [|done]. split; [done|].
    assert (¬ aval (commitment_amount (e_after e) "balance") < aval (commitment_amount (e_before e) "balance"))
      by (intros Hlt%L; done). lia.
Qed.

(** A recovered pair is the two events of one balance transfer. *)
Lemma recover_pairs_loop_sound groups pairs : recover_pairs_loop groups = Ok pairs →
  Forall (fun p => ∃ e1 e2, (rp_intent_id p, [e1; e2]) ∈ groups ∧ e_operation e1 = balance_transfer ∧
    value_pair_debit [e1; e2] ZERO = Ok (rp_debit p) ∧ rp_resource p = e_resource_id e1 ∧
    rp_credited_subject p = credited_subject [e1; e2]) pairs.
Proof.
  revert pairs. induction groups as [|[id group] groups IH]; intros pairs H; cbn in H.
  { injection H as <-. constructor. }
  assert (Hw : ∀ ps, recover_pairs_loop groups = Ok ps → Forall (fun p => ∃ e1 e2,
    (rp_intent_id p, [e1; e2]) ∈ (id, group) :: groups ∧ e_operation e1 = balance_transfer ∧
    value_pair_debit [e1; e2] ZERO = Ok (rp_debit p) ∧ rp_resource p = e_resource_id e1 ∧
    rp_credited_subject p = credited_subject [e1; e2]) ps).
  { intros ps Hps. eapply Forall_impl; [by apply IH|]. intros p (e1 & e2 & Hin & Hrest).
    exists e1, e2. split; [by right|done]. }
  destruct group as [|e1 group]; [by apply Hw|].
  destruct (String.eqb_spec (e_operation e1) balance_transfer) as [Eop|]; [|by apply Hw].
  res_inv H. subst pairs. constructor; [|by apply Hw]. cbn.
  apply negb_false_iff, Nat.eqb_eq in Hb. destruct group as [|e2 [|]]; try done.
  exists e1, e2. split; [left|]. done.
Qed.

(** The payment a recovered pair stands for: one event takes the amount, the other
    gives it to the recorded recipient, on one resource. *)
Definition is_payment (events : list Event) (p : RecoveredValuePair) : Prop :=
  ∃ payer payee, List.filter (of_intent (rp_intent_id p)) events ≡ₚ [payer; payee] ∧
    e_operation payer = balance_transfer ∧ e_operation payee = balance_transfer ∧
    e_resource_id payer = rp_resource p ∧ e_resource_id payee = rp_resource p ∧
    event_delta "balance" payer = - aval (rp_debit p) ∧ event_delta "balance" payee = aval (rp_debit p) ∧
    0 < aval (rp_debit p) ∧ rp_credited_subject p = rs_subject (c_state (e_after payee)).

Lemma credited_subject_pair e1 e2 : event_wf e1 → event_wf e2 →
  event_delta "balance" e1 + event_delta "balance" e2 = 0 → event_delta "balance" e1 ≠ 0 →
  credited_subject [e1; e2] =
    rs_subject (c_state (e_after (if event_delta "balance" e1 <? 0 then e2 else e1))).
Proof.
  intros [B1 A1] [B2 A2]. unfold event_delta, credited_subject. cbn [foldl].
  pose proof (amount_ltb_spec _ _ (commitment_amount_wf (e_before e1) "balance" B1)
    (commitment_amount_wf (e_after e1) "balance" A1)) as L1.
  pose proof (amount_ltb_spec _ _ (commitment_amount_wf (e_before e2) "balance" B2)
    (commitment_amount_wf (e_after e2) "balance" A2)) as L2.
  intros Hs Hn. destruct (Z.ltb_spec (aval (commitment_amount (e_after e1) "balance")
    - aval (commitment_amount (e_before e1) "balance")) 0).
  - rewrite (proj2 L2) by lia. done.
  - rewrite (proj2 L1) by lia. destruct (amount_ltb (commitment_amount (e_before e2) "balance") _); [|done].
    assert (aval (commitment_amount (e_before e2) "balance") < aval (commitment_amount (e_after e2) "balance"))
      by tauto. lia.
Qed.

Lemma recovered_is_payment events pairs : Forall event_wf events →
  validate_batch_consistency events = Ok tt → recover_value_pairs events = Ok pairs →
  Forall (fun p => amount_wf (rp_debit p) ∧ is_payment events p) pairs.
Proof.
  intros Hw Hc Hr. eapply Forall_impl; [by eapply recover_pairs_loop_sound|].
  intros p (e1 & e2 & Hin & Eop & Hd & Hres & Hcs).
  destruct (group_by_intent_spec events) as [Hsorted Hl].
  pose proof (alookup_In _ _ _ Hsorted Hin) as Hg. rewrite Hl in Hg.
  assert (Hwg : Forall event_wf [e1; e2]).
  { rewrite <- Hg. rewrite Forall_forall in *. intros e He.
    apply list_elem_of_In, filter_In in He as [He%list_elem_of_In _]. auto. }
  destruct (batch_groups_checked events (rp_intent_id p) Hc) as [Hlen|Hv]; rewrite Hg in *; [cbn in *; lia|].
  apply transfer_pair_sound in Hv as (a & b & field & [= <- <-] & Hf & Hop & Hrs & Hs & Hn); [|done].
  rewrite Eop in Hf. injection Hf as <-.
  apply value_pair_debit_sound in Hd as [Wd Vd]; [|done|apply ZERO_wf].
  cbn [map zsum] in Vd. rewrite aval_ZERO in Vd.
  apply Forall_cons in Hwg as [W1 Hwg]. apply Forall_cons in Hwg as [W2 _].
  rewrite (credited_subject_pair e1 e2 W1 W2 Hs Hn) in Hcs. split; [done|].
  destruct (Z.ltb_spec (event_delta "balance" e1) 0).
  - exists e1, e2. rewrite Hg. repeat (split; [done || congruence || lia|]). done.
  - exists e2, e1. rewrite Hg. repeat (split; [done || congruence || lia || constructor|]). done.
Qed.

Lemma declared_tuple_wf intent t : declared_value_leg_tuple intent = Ok t → amount_wf t.1.1.
Proof. unfold declared_value_leg_tuple. intros H. res_inv H. subst t. cbn. by eapply try_from_str_wf. Qed.

Section SettleProperty.
Context {W Handle : Type} (x : Executor W Handle).

(** C9: a settlement pays exactly what it declares.  When a settlement succeeds, the
    value legs declared by its settle intents and the payments in its events correspond
    one to one: each declared (amount, resource, recipient) is matched by its own
    balance transfer, which takes exactly that amount of that resource from one holder
    and gives it to that recipient, under an intent id that is no settle intent's.  A
    settle intent therefore never succeeds with its value unpaid. *)
Theorem settlement_pays (intents : list ValidatedIntent) (sink : option (BatchSink W)) (w w' : W)
    (events : list Event) :
  Forall event_wf events → execute_settle_inner x intents sink w = (Ok events, w') →
  ∃ legs payments, declared_tuples (settle_intents_of intents) = Ok legs ∧
    recover_value_pairs events = Ok payments ∧ Forall (is_payment events) payments ∧
    (∀ p, p ∈ payments → rp_intent_id p ∉ map i_intent_id (settle_intents_of intents)) ∧
    ∃ matched, matched ≡ₚ payments ∧
      Forall2 (fun (leg : ValueTuple) p => aval leg.1.1 = aval (rp_debit p) ∧
        leg.1.2 = rp_resource p ∧ leg.2 = rp_credited_subject p) legs matched.
Proof.
  intros Hw H. unfold execute_settle_inner in H. destruct intents as [|first intents]; [done|].
  apply xbind_Ok in H as (h & w1 & _ & H). apply xbind_Ok in H as (outcome & w2 & Ho & H).
  apply finish_Ok in H as [-> _]. unfold attempt in Ho.
  match type of Ho with (let (_, _) := ?m w1 in _) = _ => destruct (m w1) as [r w3] eqn:Er end.
  injection Ho as -> ->. apply xbind_Ok in Er as (evs & w4 & _ & Er).
  apply xbind_Ok in Er as ([] & w5 & Hbc & Er). exec_inv Hbc.
  apply xbind_Ok in Er as ([] & w6 & Hsb & Er). exec_inv Hsb. apply xret_Ok in Er as [-> ->].
  set (settles := settle_intents_of (first :: intents)) in *.
  unfold validate_settle_batch in Hsb.
  apply rbind_Ok in Hsb as ([] & _ & Hsb). apply rbind_Ok in Hsb as ([] & _ & Hsb).
  apply rbind_Ok in Hsb as (pairs & Hpairs & Hsb). apply rbind_Ok in Hsb as ([] & _ & Hsb).
  apply rbind_Ok in Hsb as ([] & Hcol & Hsb). apply rbind_Ok in Hsb as (legs & Hlegs & Hsb).
  res_inv Hsb. apply negb_false_iff in Hb0.
  pose proof (recovered_is_payment _ _ Hw Hbc Hpairs) as Hpay.
  exists legs, pairs. split; [done|]. split; [done|]. split; [by eapply Forall_impl; [exact Hpay|]; intros p []|].
  split.
  { intros p Hp. apply rforeach_Ok in Hcol. rewrite Forall_forall in Hcol. specialize (Hcol p Hp).
    res_inv Hcol. intros Hin. apply contains_true in Hin. congruence. }
  apply sorted_eq_match in Hb0 as (tuples & Hperm & HF).
  destruct (Permutation_map_inv pair_tuple pairs Hperm) as (matched & -> & Hm).
  exists matched. split; [by symmetry|]. apply Forall2_fmap_r in HF.
  assert (Wl : Forall (fun t : ValueTuple => amount_wf t.1.1) legs).
  { unfold declared_tuples in Hlegs. apply rmap_Ok in Hlegs. clear -Hlegs.
    induction Hlegs; constructor; eauto using declared_tuple_wf. }
  assert (Wm : Forall (fun p => amount_wf (rp_debit p)) matched).
  { rewrite <- Hm. eapply Forall_impl; [exact Hpay|]. by intros p []. }
  clear -HF Wl Wm. induction HF as [|t p legs matched Ht HF IH]; constructor.
  - apply Forall_cons in Wl as [W1 _]. apply Forall_cons in Wm as [W2 _].
    by apply tuple_eqb_true in Ht.
  - apply IH; by eapply Forall_inv_tail.
Qed.
End SettleProperty.

(** ** Concrete runs *)

Module SettleSamples.
Definition held : StateProjection := Samples.projection StUniqueAsset
  (RUniqueAsset (mkUnique "alice" "trade_held" (Some "t1"))).
Definition world : Memory.World :=
  Memory.mkWorld ∅ (list_to_map [(("acme", "asset:shield"), held)])
    (list_to_map [(("acme", "alice", "asset:sword"), Quantities.balance "alice" 100 "gold")]) 0 1.
Definition settle : ValidatedIntent := Memory.signed
  (intent_new "acme" "int_2" "trade.settle" "alice" "asset:shield" (Some StUniqueAsset) 1
     (list_to_map [("from_owner", VString "alice"); ("to_owner", VString "carol"); ("trade_id", VString "t1");
        ("value_resource", VString "asset:sword"); ("value_amount", VString "40");
        ("value_to_subject", VString "bob")]) (Some MemorySamples.proof) 0 None "n").
Definition batch : list ValidatedIntent := [settle; MemorySamples.payment].
Definition outcome := execute_settle Memory.exec batch world.
End SettleSamples.
Import SettleSamples.

Lemma batch_sound_witness :
  NoDup (map e_event_id (Memory.events_of (execute_batch Memory.exec [MemorySamples.payment] world))).
Proof.
  destruct (batch_sound Memory.exec [MemorySamples.payment] None world
    (execute_batch Memory.exec [MemorySamples.payment] world).2
    (Memory.events_of (execute_batch Memory.exec [MemorySamples.payment] world))) as (_ & _ & H & _);
    [vm_compute; reflexivity|exact H].
Defined.

Lemma settlement_pays_witness : ∃ payments, length payments = 1%nat ∧
  recover_value_pairs (Memory.events_of outcome) = Ok payments ∧
  Forall (is_payment (Memory.events_of outcome)) payments.
Proof.
  destruct (settlement_pays Memory.exec batch None world outcome.2 (Memory.events_of outcome))
    as (legs & payments & H1 & H2 & H3 & _ & matched & _ & _).
  - let evs := eval vm_compute in (Memory.events_of outcome) in change (Forall event_wf evs).
    repeat constructor; try exact I; cbn; unfold in_u128, U128_MAX, MAX_SCALE; lia.
  - vm_compute; reflexivity.
  - exists payments. split; [|split; [exact H2|exact H3]]. vm_compute in H2. injection H2 as <-. reflexivity.
Defined.

(** A tenant leg that replays entirely contributes an empty group, and the cross-tenant
    validator still accepts the batch when two other tenants share an intent. *)
Example cross_tenant_empty_leg_accepted :
  let in_tenant t (e : Event) := mkEvent (e_schema e) t (e_event_id e) (e_intent_id e) (e_operation e)
    (e_resource_id e) (e_actor e) (e_before e) (e_after e) (e_authority e) (e_executor e) (e_created_at e) in
  validate_cross_tenant_consistency
    [mkGroup "tenant_a" [in_tenant "tenant_a" Quantities.debit];
     mkGroup "tenant_b" [in_tenant "tenant_b" Quantities.credit];
     mkGroup "tenant_c" []] = Ok tt.
Proof. vm_compute. reflexivity. Qed.
