(* ===== verification/Keys.v ===== *)
(** * State keys

    Models [crates/statechronicle-accumulator/src/key.rs] and [state_key_for] of
    [statechronicle-profiles/src/transition.rs].  SHA-256 comes from a library: it is the
    parameter [H] on byte strings.  A key is its 32 bytes; the preimages are written out
    so that two resources with one key are an explicit collision of [H]. *)

From Stdlib Require Import ZArith Lia Ascii String.
From stdpp Require Import prelude gmap strings.
From S2P Require Import Prelude Amount Domain Profile.
Open Scope Z_scope.

(** ** Bytes *)

Definition byte (n : Z) : string := String (ascii_of_N (Z.to_N n)) EmptyString.

(** [u64::to_le_bytes]. *)
Fixpoint le_bytes (width : nat) (n : Z) : string :=
  match width with
  | O => EmptyString
  | S width' => byte (n mod 256) +:+ le_bytes width' (n / 256)
  end.
Definition u64_le (n : Z) : string := le_bytes 8 n.

(** [u64_len_prefix]. *)
Definition u64_len_prefix (value : string) : string := u64_le (slen value).

Definition KEY_DOMAIN_PREFIX : Z := 0.
Definition KEY_RESOURCE_TAG : Z := 1.
Definition KEY_SUBJECT_TAG : Z := 2.

Notation StateKey := string (only parsing).

(** [StateKey::bit_at]: position 0 is the most significant bit of byte 0; past the end
    of the key the bit is 0. *)
Definition bit_at (key : StateKey) (position : Z) : bool :=
  let byte_index := Z.shiftr position 3 in
  let bit_in_byte := Z.land position 7 in
  match String.get (Z.to_nat byte_index) key with
  | None => false
  | Some b => Z.land (Z.shiftr (byte_val b) (7 - bit_in_byte)) 1 =? 1
  end.

Section Derivation.
Context (H : string → string).

Definition resource_preimage (tenant_id resource_id : string) : string :=
  byte KEY_DOMAIN_PREFIX +:+ u64_len_prefix tenant_id +:+ tenant_id
  +:+ byte KEY_RESOURCE_TAG +:+ u64_len_prefix resource_id +:+ resource_id.

Definition subject_preimage (tenant_id resource_id subject_id : string) : string :=
  resource_preimage tenant_id resource_id
  +:+ byte KEY_SUBJECT_TAG +:+ u64_len_prefix subject_id +:+ subject_id.

Definition for_resource (tenant_id resource_id : string) : StateKey :=
  H (resource_preimage tenant_id resource_id).

Definition for_subject_held (tenant_id resource_id subject_id : string) : StateKey :=
  H (subject_preimage tenant_id resource_id subject_id).

(** [transition::state_key_for]. *)
Definition state_key_for (state_type : StateType) (tenant : TenantId) (subject : option SubjectId)
    (resource : ResourceId) : presult StateKey :=
  match state_type with
  | StConsumableStack | StFungibleBalance | StEntitlement | StMeteredResource =>
      let? subject := ok_or subject (PInvalidInput "subject required for subject-held state type") in
      Ok (for_subject_held tenant resource subject)
  | StUniqueAsset | StListing | StEscrow | StCustom => Ok (for_resource tenant resource)
  end.
End Derivation.

(** ** Length-prefixed strings are decodable *)

Lemma str_app_inv a b c d : String.length a = String.length c → a +:+ b = c +:+ d → a = c ∧ b = d.
Proof.
  revert c. induction a as [|x a IH]; intros [|y c] Hl He; try discriminate Hl; [done|].
  rewrite !str_app_cons in He. injection He as -> He. injection Hl as Hl.
  destruct (IH c Hl He) as [-> ->]. done.
Qed.

Lemma byte_val_byte n : 0 ≤ n < 256 → byte_val (ascii_of_N (Z.to_N n)) = n.
Proof. intros Hn. unfold byte_val. rewrite N_ascii_embedding by lia. lia. Qed.

Lemma byte_inj m n : 0 ≤ m < 256 → 0 ≤ n < 256 → byte m = byte n → m = n.
Proof. intros Hm Hn [= E]. by rewrite <- (byte_val_byte m), E, byte_val_byte. Qed.

Lemma le_bytes_length w n : String.length (le_bytes w n) = w.
Proof. revert n. induction w as [|w IH]; intros n; [done|]. cbn [le_bytes]. by rewrite string_length_app, IH. Qed.

Lemma le_bytes_inj w m n : 0 ≤ m < 256 ^ Z.of_nat w → 0 ≤ n < 256 ^ Z.of_nat w →
  le_bytes w m = le_bytes w n → m = n.
Proof.
  revert m n. induction w as [|w IH]; intros m n Hm Hn E; [cbn in *; lia|].
  rewrite Nat2Z.inj_succ, Z.pow_succ_r in Hm, Hn by lia.
  cbn [le_bytes] in E. apply str_app_inv in E as [E1 E2]; [|done].
  apply byte_inj in E1; [|apply Z.mod_pos_bound; lia..].
  apply IH in E2; [|split; [apply Z.div_pos; lia|apply Z.div_lt_upper_bound; lia]..].
  rewrite (Z.div_mod m 256), (Z.div_mod n 256) by lia. congruence.
Qed.

(** Byte strings of addressable length. *)
Definition addressable (s : string) : Prop := slen s ≤ U64_MAX.

Lemma len_prefix_inv a b rest rest' : addressable a → addressable b →
  u64_len_prefix a +:+ a +:+ rest = u64_len_prefix b +:+ b +:+ rest' → a = b ∧ rest = rest'.
Proof.
  intros Ha Hb E. unfold u64_len_prefix, u64_le in E. rewrite ?str_app_assoc in E.
  apply str_app_inv in E as [E1 E2]; [|by rewrite !le_bytes_length].
  apply le_bytes_inj in E1; [|split; [apply slen_nonneg|]; unfold addressable, U64_MAX in *; lia..].
  unfold slen in E1. apply str_app_inv in E2; [done|]. lia.
Qed.

Lemma len_prefix_end_inv a b : addressable a → addressable b →
  u64_len_prefix a +:+ a = u64_len_prefix b +:+ b → a = b.
Proof.
  intros Ha Hb E. apply (len_prefix_inv a b EmptyString EmptyString Ha Hb).
  by rewrite !str_app_nil_r.
Qed.

(** The two preimage shapes as one: a resource preimage is followed by nothing. *)
Definition preimage (tenant resource : string) (subject : option string) : string :=
  resource_preimage tenant resource +:+
  match subject with
  | None => EmptyString
  | Some s => byte KEY_SUBJECT_TAG +:+ u64_len_prefix s +:+ s
  end.

Lemma preimage_inj t r s t' r' s' :
  addressable t → addressable r → addressable t' → addressable r' →
  (∀ u, s = Some u → addressable u) → (∀ u, s' = Some u → addressable u) →
  preimage t r s = preimage t' r' s' → t = t' ∧ r = r' ∧ s = s'.
Proof.
  intros Ht Hr Ht' Hr' Hs Hs' E. unfold preimage, resource_preimage in E. rewrite !str_app_assoc in E.
  apply str_app_inv in E as [_ E]; [|done].
  apply len_prefix_inv in E as [-> E]; [|done..].
  apply str_app_inv in E as [_ E]; [|done].
  apply len_prefix_inv in E as [-> E]; [|done..]. split; [done|]. split; [done|].
  destruct s as [s|], s' as [s'|]; try done; [|cbn in E; discriminate E..].
  apply str_app_inv in E as [_ E]; [|done]. apply len_prefix_end_inv in E as ->; [done|by apply Hs|by apply Hs'].
Qed.

(** The subject a key is derived from. *)
Definition key_subject (st : StateType) (subject : option SubjectId) : option SubjectId :=
  match st with
  | StConsumableStack | StFungibleBalance | StEntitlement | StMeteredResource => subject
  | _ => None
  end.

Lemma state_key_for_preimage H st t s r k : state_key_for H st t s r = Ok k →
  k = H (preimage t r (key_subject st s)).
Proof.
  unfold state_key_for, for_resource, for_subject_held, subject_preimage, preimage.
  destruct st; cbn; intros E; res_inv E; subst; rewrite ?str_app_nil_r; done.
Qed.

(** State keys separate resources.  If two derivations, of any state types, give
    the same key, then they are of the same tenant, the same resource and the same
    subject slot (both without a subject, or the same subject), unless the two
    preimages written down here are a collision of SHA-256: the length-prefixed, tagged
    encoding itself never confuses two identities. *)
Theorem state_keys_separate (H : string → string) (st st' : StateType) (t t' : TenantId)
    (s s' : option SubjectId) (r r' : ResourceId) (k : StateKey) :
  addressable t → addressable r → addressable t' → addressable r' →
  (∀ u, s = Some u → addressable u) → (∀ u, s' = Some u → addressable u) →
  state_key_for H st t s r = Ok k → state_key_for H st' t' s' r' = Ok k →
  (t = t' ∧ r = r' ∧ key_subject st s = key_subject st' s') ∨
  (preimage t r (key_subject st s) ≠ preimage t' r' (key_subject st' s') ∧
   H (preimage t r (key_subject st s)) = H (preimage t' r' (key_subject st' s'))).
Proof.
  intros Ht Hr Ht' Hr' Hs Hs' E1%state_key_for_preimage E2%state_key_for_preimage.
  destruct (decide (preimage t r (key_subject st s) = preimage t' r' (key_subject st' s'))) as [E|];
    [left|right; split; [done|congruence]].
  apply preimage_inj in E; try done; intros u Hu; [apply Hs|apply Hs']; by destruct st, st'.
Qed.

Lemma state_keys_separate_witness :
  "r1" = "r1" ∧ key_subject StFungibleBalance (Some "bob") = key_subject StMeteredResource (Some "bob") ∨
  preimage "acme" "r1" (Some "bob") ≠ preimage "acme" "r1" (Some "bob").
Proof.
  destruct (state_keys_separate (fun m => m) StFungibleBalance StMeteredResource "acme" "acme"
    (Some "bob") (Some "bob") "r1" "r1" (preimage "acme" "r1" (Some "bob"))) as [(_ & H1 & H2)|[H _]];
    [vm_compute; discriminate..|intros u [= <-]; vm_compute; discriminate
    |intros u [= <-]; vm_compute; discriminate|vm_compute; reflexivity|vm_compute; reflexivity
    |left; exact (conj H1 H2)|right; exact H].
Defined.
