(* ===== verification/Sha256.v ===== *)
(** * SHA-256

    An executable SHA-256 (FIPS 180-4) on byte strings.  The crates take SHA-256 from a
    library, and the models of keys, trees and checkpoints take it as a parameter; this
    file instantiates the parameter, so that the constants the sources precompute with
    the library can be checked and the theorems have concrete instances. *)

From Stdlib Require Import ZArith Ascii String.
From stdpp Require Import prelude strings.
From S2P Require Import Prelude.
Open Scope Z_scope.

Definition word (x : Z) : Z := Z.land x U32_MAX.
Definition add32 (x y : Z) : Z := word (x + y).
Definition rotr (n x : Z) : Z := Z.lor (Z.shiftr x n) (word (Z.shiftl x (32 - n))).

Definition sigma0 (x : Z) : Z := Z.lxor (Z.lxor (rotr 7 x) (rotr 18 x)) (Z.shiftr x 3).
Definition sigma1 (x : Z) : Z := Z.lxor (Z.lxor (rotr 17 x) (rotr 19 x)) (Z.shiftr x 10).
Definition big_sigma0 (x : Z) : Z := Z.lxor (Z.lxor (rotr 2 x) (rotr 13 x)) (rotr 22 x).
Definition big_sigma1 (x : Z) : Z := Z.lxor (Z.lxor (rotr 6 x) (rotr 11 x)) (rotr 25 x).
Definition choose (x y z : Z) : Z := Z.lxor (Z.land x y) (Z.land (Z.lxor x U32_MAX) z).
Definition majority (x y z : Z) : Z := Z.lxor (Z.lxor (Z.land x y) (Z.land x z)) (Z.land y z).

Definition round_constants : list Z := [
  1116352408; 1899447441; 3049323471; 3921009573; 961987163; 1508970993; 2453635748; 2870763221;
  3624381080; 310598401; 607225278; 1426881987; 1925078388; 2162078206; 2614888103; 3248222580;
  3835390401; 4022224774; 264347078; 604807628; 770255983; 1249150122; 1555081692; 1996064986;
  2554220882; 2821834349; 2952996808; 3210313671; 3336571891; 3584528711; 113926993; 338241895;
  666307205; 773529912; 1294757372; 1396182291; 1695183700; 1986661051; 2177026350; 2456956037;
  2730485921; 2820302411; 3259730800; 3345764771; 3516065817; 3600352804; 4094571909; 275423344;
  430227734; 506948616; 659060556; 883997877; 958139571; 1322822218; 1537002063; 1747873779;
  1955562222; 2024104815; 2227730452; 2361852424; 2428436474; 2756734187; 3204031479; 3329325298].

(** The eight working variables. *)
Record state := mkState { sa : Z; sb : Z; sc : Z; sd : Z; se : Z; sf : Z; sg : Z; sh : Z }.

Definition initial : state :=
  mkState 1779033703 3144134277 1013904242 2773480762 1359893119 2600822924 528734635 1541459225.

(** The message schedule, as a window of the last sixteen words, oldest first. *)
Definition next_word (window : list Z) : Z :=
  add32 (add32 (sigma1 (nth 14 window 0)) (nth 9 window 0))
        (add32 (sigma0 (nth 1 window 0)) (nth 0 window 0)).

Definition round (s : state) (k w : Z) : state :=
  let t1 := add32 (add32 (sh s) (big_sigma1 (se s))) (add32 (choose (se s) (sf s) (sg s)) (add32 k w)) in
  let t2 := add32 (big_sigma0 (sa s)) (majority (sa s) (sb s) (sc s)) in
  mkState (add32 t1 t2) (sa s) (sb s) (sc s) (add32 (sd s) t1) (se s) (sf s) (sg s).

Fixpoint rounds (constants window : list Z) (s : state) : state :=
  match constants, window with
  | k :: constants', w :: window' => rounds constants' (window' ++ [next_word window]) (round s k w)
  | _, _ => s
  end.

Definition compress (s : state) (block : list Z) : state :=
  let r := rounds round_constants block s in
  mkState (add32 (sa s) (sa r)) (add32 (sb s) (sb r)) (add32 (sc s) (sc r)) (add32 (sd s) (sd r))
          (add32 (se s) (se r)) (add32 (sf s) (sf r)) (add32 (sg s) (sg r)) (add32 (sh s) (sh r)).

(** Bytes, big-endian words and padding. *)
Fixpoint bytes (s : string) : list Z :=
  match s with EmptyString => [] | String c s' => byte_val c :: bytes s' end.
Fixpoint of_bytes (l : list Z) : string :=
  match l with [] => EmptyString | b :: l' => String (ascii_of_N (Z.to_N b)) (of_bytes l') end.
Fixpoint words (l : list Z) : list Z :=
  match l with
  | b1 :: b2 :: b3 :: b4 :: l' => (((b1 * 256 + b2) * 256 + b3) * 256 + b4) :: words l'
  | _ => []
  end.
Fixpoint big_endian (n : nat) (x : Z) : list Z :=
  match n with O => [] | S n' => Z.land (Z.shiftr x (8 * Z.of_nat n')) 255 :: big_endian n' x end.

Definition pad (l : list Z) : list Z :=
  let n := Z.of_nat (length l) in
  l ++ 128 :: replicate (Z.to_nat ((55 - n) mod 64)) 0 ++ big_endian 8 (8 * n).

Fixpoint blocks (fuel : nat) (ws : list Z) (s : state) : state :=
  match fuel with
  | O => s
  | S fuel' => match ws with [] => s | _ => blocks fuel' (drop 16 ws) (compress s (take 16 ws)) end
  end.

Definition sha256 (message : string) : string :=
  let ws := words (pad (bytes message)) in
  let s := blocks (length ws) ws initial in
  of_bytes (flat_map (big_endian 4) [sa s; sb s; sc s; sd s; se s; sf s; sg s; sh s]).

Lemma sha256_length message : String.length (sha256 message) = 32%nat.
Proof. done. Qed.

(** ** Hexadecimal *)

Definition hex_digit (n : Z) : ascii :=
  ascii_of_N (Z.to_N (if n <? 10 then n + 48 else n + 87)).
Fixpoint to_hex (s : string) : string :=
  match s with
  | EmptyString => EmptyString
  | String c s' => String (hex_digit (byte_val c / 16)) (String (hex_digit (byte_val c mod 16)) (to_hex s'))
  end.

Definition hex_value (c : ascii) : Z :=
  let n := byte_val c in if n <? 58 then n - 48 else n - 87.
Fixpoint of_hex (s : string) : string :=
  match s with
  | String a (String b s') => String (ascii_of_N (Z.to_N (hex_value a * 16 + hex_value b))) (of_hex s')
  | _ => EmptyString
  end.

(** The test vectors of the standard for one and two blocks. *)
Example sha256_abc : to_hex (sha256 "abc") = "ba7816bf8f01cfea414140de5dae2223b00361a396177a9cb410ff61f20015ad".
Proof. vm_compute. reflexivity. Qed.
Example sha256_two_blocks :
  to_hex (sha256 "abcdbcdecdefdefgefghfghighijhijkijkljklmklmnlmnomnopnopq")
  = "248d6a61d20638b8e5c026930c3e6039a33ce45964ff2167f6ecedd419db06c1".
Proof. vm_compute. reflexivity. Qed.
