(* ===== verification/DefaultHashes.v ===== *)
(** * Empty-subtree constants

    The table [DEFAULT_SUBTREE_HASHES] of
    [crates/statechronicle-accumulator/src/sparse_merkle.rs], in hexadecimal. *)

From Stdlib Require Import String.
From stdpp Require Import prelude strings.
From S2P Require Import Prelude Sha256.

Definition DEFAULT_SUBTREE_HASHES_HEX : list string := [
  "3abddd594d884ff661d24666372d9fe669a1ec9e616401db6bd2edeb3c397143";
  "6461a6d00f23efd18b789a7cb4f6b3a437f0468a2268cf5a46043befaafc2f21";
  "3152aa7de5f1bab693be587943333797481648fe792eaa3b37a80de532f70473";
  "9e73ba569bb4f31fc4b6e0274e4a632619155be3e8a3b9399194c23933a516dc";
  "b1984f840058e39b6a0064e4c6644ae1a5ac32ddf3bec894e33aeda9d2a0c8b1";
  "144000be9a274896076e8333c4916dcdbe36242ea870c015c809cf5be687b035";
  "fda65166e6bbeb179ae7e970c3c6f0b1ba6ece8ba1705301caf3a5a1aeada0ab";
  "3190985aecc93e119d42f586bf8fcf236dc52ab38bddd1ef7aaa7cec9d5fbdd5";
  "40461a3a5e6a17292afdd02b03fe1c318e7df5c6a4cfad956742a7a44c2b24d4";
  "373a4104a79233c4402d0f49e8f5b088cc0989a87b3ec34f68e07982f3d976cf";
  "eb3fe976516d2b96985a7646081386b1a9ad6ca8c699407bb1a21606a64305a0";
  "0dde9f26d72deb6bd3da836a44151998c6c771b689b8160b9eb8442e0c498d3e";
  "d6ddd6ff06ac797079fa3033aa66d2837f8911665fa97454dc7f8d704352a1af";
  "c9d97f1a0d17f34432bd2f85ac41826b53bf8ee7ac0d68ecdde5700726e7116d";
  "a8940987c9a373a53bb5b556fdd59a729312ff3155f934f378db6e862b6b66af";
  "30235f5f279d3443ac2120c6960e502ef3b81bf208f1cc6b007f99c7519b6453";
  "ab0048d14195ee4c2609a11a89f482866cd83fed8f735d88c869355b70e28913";
  "44ace1d5dc538ab319bf5d9faf48da51694cf1e2552405279731ce01ac16e95d";
  "8b3e0fa4f19733212d87023f64552e0c9d16eea311f0a895237c4780277e7d73";
  "8f199364ca3202f525546f564a7a30bf7d8c352a3231e24d70cd093751cb9d6c";
  "255a6ea5bf02352c99caebfe297f961fd44cecdc288e56ff27bb9543689d96a9";
  "82463e7e29ddadabea0d95ba4a0d50cfa9770d6dcb5fccb951d0493fc982bf15";
  "6a0caebab1f836be10513a5df09506e2a79e3c7fa356a8e431be8f1fa1104605";
  "12ae1976cf03668ba48bfe347413e2dd01b8e4848e59e13867a6e3adb1f2e2c5";
  "18eb40234c69d2bb525c28af0498b1a99e96a0aba43744a49f0298075839d1c3";
  "2ef3f6fcffd37f2596ac9055e1c05db0d76c8cd10b873d50d207daa1ec1d20b2";
  "6f52d5b4dd3c8f6bb37913ec5fb5ee09285eef9e51223bdceb4535cc01303dac";
  "d78d357d75287adf243e009a3731ac66b8a19e27bd641c8966eb8f0f37adb2b0";
  "36a1adddfb81c0a5794fc9d7bcf4873d4d1d9e0efd14b0b43ca10b48b8847329";
  "9bd93319babfca10e7682b7661e1fd49c849722a3cc6430046b6fac6f3411c91";
  "9db242782f7bd971e3581183e16c7153a2a510c732619f1f71270c4a1e9d50f0";
  "796d58ed162159e9f7c18437b823e4fd70f2d9e41e30c90e622052150182191c";
  "cb8b8eec3bb1c059e61b499619d298f52da5271427bd1c64af553b2d27a67532";
  "f09d0bb49edf34967bb0f3ab7cb8e949ce14541a940b56bd0aba0d89b689e762";
  "b63c810bcbc2e1f23277d8f0924add25c4cdcb23148aa5a9aa708cb45adc1cb1";
  "e5297df7ef404c9d214a23ad529a6bb8c29eae7b72a0ca9b2a7e9a6faa107f32";
  "7de7f9ecf096a4ee351d5ee4ba5c53b2d6fe81329d1886632a1b8fb7ffad9457";
  "0748a87f990d0d7d6f53aa951a29061c5a63572e83a76eff7ee217bbfd8a3cf1";
  "747d08cc833cef7ee16de0b12c80fde98bcbd8f830792891ef9e945716031d53";
  "bcf9e32a239cd251c202be6dcf358620729e4fe3fbd13dea21a12a145a168b38";
  "40783c997289ea49a718eade0cde7ea11558a257b6d82e81f3742a739074e13e";
  "d6da55fc4086e984dc833e14d67dc3b6292493d963202f7e5be96f072221b9c1";
  "57806e8bd5f681ad24747477e28912a2a6076c8588ebee599fb0c9d56d91d22a";
  "0d676bd96490bb2dccc7e2be406eae819f0ffe65230cd994d34ccd71d6d74619";
  "7ab9ee6885063f13b9fe38330203dc0fe7ccb1278fb12987f75dd24883f919b9";
  "fb8f8faf012e47331b2ea7d6fcc797d8b5c7c703a25866f1c8c0616a307d32fa";
  "84afb13dc50c56b181c481bbb6befd99501e5e3b2c8d50e762165529bf2a2db4";
  "93032297e3b04e34792c3a6796ba2fe77671610cea7a3607574fda3dc8654ed9";
  "665cc88b091e89341222ce0ca1b9c14d6520e50e23e69fe62b3060e1a5daf4eb";
  "83963506e86d124ebd455fd5c9dfccdcaaa2da83e2b0d407f1446f543b25b8d7";
  "8a2db297cdf64c9adba9b27f8453579fdd5e4e33e68796e0ca474f3f2e0f2c61";
  "fb4039fb1c905c65b46c876059610f874a1e7939d58c0dde0262de02f8184391";
  "72f1df10ff233a9790d01b2e24ef1b79d82157e8d8b6479941453767e4be2861";
  "9a786629d22468775daff625e4fe589d4089d5e5995096409bdd3c860b960873";
  "dc41386bbf3d604c6ca63b259180755e7de66fc56bd646de47d9c91443a76cd1";
  "f8b65a8dd0f25abd965610c28234699bb8cf96a97db28e2a29f12a1874947747";
  "5fecc237bf427d4c8519d0d10019308fe6b5e12864ae704c225da6d043b82ba1";
  "59c24770a0c071b5405ee6a16e77c9fc997cc827757a4e6618553e1a8c0777f0";
  "ca10b08ddb5a8d966a00b417102e4080c1631c709d5dd8f82d7b265ae30be90f";
  "057cebe10c5a566ead1ed4c8421019a735fb4b0a0ea848b9f64cd74a45f1638d";
  "33cd127a64f398eae35c2460cd1ed502cca79f9619080b00870194bd72b27bcb";
  "ffb177a4fcd6aaa66896bda57176a3411b6793b74176530b21eb195f5f441df4";
  "ccf2b2fa9071c8c3ec421b92a9d7c0c57a3f7044c8cf353e83050bf7e1c4846c";
  "9ce86fd845110071c719f70af856532fcc4af4fc119a6261636e03e1594a4166";
  "36ca8d02e46d688e44bc9d6c6acb667a38f6f002bdf68b3a91176ea8d34bef4f";
  "daf1c245dd95eb5ad4152f912e4881e3ae9c19b1c27fc415fa81a3e8b9ed03f3";
  "67c41433b09d45ab288318cc0d2cf4458c5dd80f505851f067bb129fe2a79dce";
  "866c7c538471ee11d1573ebf23af7d38c8735990657fac51ea692f65239c8e3a";
  "829e5bd2c4119f55edd53dbd21b62093034826e00247bbdf364369403f219b97";
  "64be08907c71f72a840e9176036b2a55457b06ca5c75567bce89fa87614bf702";
  "b1d3956bba35480d127ba4618112bbf1f0f1d50355fe9282ad9ab7ad524d3eff";
  "264408dddf389b1f0c7eb19ecd88d12a64739ce62f5a7444d7147f35f9326ea7";
  "448a8be722419930d0ed2fc94991214007b3cf3ac792fcfe2e905fea06c2d5c0";
  "6b5f2bf62cd7a947dc5cd860e77701488879c37f98d81464329bee3d60bd0131";
  "4a5710ab269679db8059ec1de56b6ed56c0873287414a7437273e1100a5bd129";
  "9c42ef3895a73591b869902683addbd58db0eb1989580d104f6a544676d0bd32";
  "c0334970f7a5423610251edb65ea2fcb0505b3aa5b5ad663aebe3e5416b8e8b7";
  "e797db7e19c99276eef5daca8a9cbad0402a661035770eda007a0ebf9dc924a5";
  "02bc256ab61ee6a14ede162469855cf55c98e796962669a24f14e0bb2e2425a3";
  "77a934e448f3aa83d9e1636ddd3ca06c87066daa92c803d5bb592daf2934e86f";
  "50a45e23a1c30bc46f64328071643973672d2359b1150a78b8fd674138499211";
  "5c50c643196f42e7553569a8e1053bfc052a8f0df5c1f78c650e8a3d23f33a92";
  "e26c5f9408ceb8fbfae693a51ab0d6886fe28785c8a51080082bd29cc8887cb6";
  "d0af39cc6785083de7e56705a5f2ccea46dcd374a7b060d735ae393ce9942abd";
  "c2042ab1159d010f2a60d6754b8e024cdf488029e9c10854e50069f006c28a39";
  "2e985813dbd4e7f129f88899c1f2e1e7d53bfa1eaa2ce67ba8882cd2e7ca2687";
  "8285a41e1cdd6e7ed65ddb9d6a1d204d0b9bc3eadbae04a07a56c2a4df35d40f";
  "fee9123ad3bd8325cf443709e2fce32ba98bd3f58ffc1fdb71af7bacad087a1d";
  "b227d75d549ba5f0e60abf702e13b059f8a1dc3b002881bb8e4fdd02285b97a5";
  "692b769e8c372ff551ef9fca695f8f0019d2e7e96cf715197d10121db23a041e";
  "decdd00fab7bae622f8be17a454418f9c63576c7da63d217d6174bc114ffbf0f";
  "c58ce39e0687c34e778d333ae7d7846316d3153fde8e6ebc95096a628ec5d2d6";
  "70943407cf6ba0a1f6a9b515f524c66c62a77e051ff2cc77a79a464f395d3ab0";
  "6c32000fd274fbd49f92f470c3b6f3ec8f81b097416a5af4ce7400bd6c668910";
  "4a7e031a98ffe25dffb7acf1d48c308d6e95c806ecb0f8d52953fcb2feaa4957";
  "3d37f1cce4b147cf0fd8375edf6d3a9841e9d869cb1285b764e48f8425756f17";
  "399c007759e5e983155a206856f55f8bb33bcb60cbe0284b6c1b4ff2cad79ad2";
  "92e2adf443d7221d1090ba5b054fc3eeef9f125662c3564a9a6d85a97bb91e12";
  "1885d30f40482a79025db271cb81c143b0adea3b18a43d2d2fc3e19f48515bc8";
  "4f1d367dc2f70087eed754a88a1f77a0e31234cfcf4d64edd48415321e22978c";
  "7a237b086fa2e751132ca6d7d52dc1a8990b0e03bf028e5fbb129f609446f8b9";
  "662257ae87c8b171f20f1d2f9e54232e023e3bcf9fe6c5937a0cc45b088ddd2f";
  "4c40c9760c6dbc2afeead9f0ce08c2374be21a1a02137c1e4c04139e08c390d4";
  "8c39ba18c6d0c8dd08e97bebadda0575f43940bca8434b36a950a12dbe094dc0";
  "fa123421c983debd499dc25b5d94dc1a9276cfe12e88b40afff4c0fb902c1bdb";
  "c26c322a668fc3aa4382601c6139f6d21b4310657e52f77a57048435fc2ec191";
  "3c6beee060d51ef69752994f24301715e8a196d3dc60e8e229c43c700ccf33de";
  "375c2086dab172f94b077c9200322b7dbd05a7b08a4c8d08456f9d3f8780bb73";
  "8da0b7f39e49c28eecf3d8936a255b2b194be00ae72ab7cf36e0bad1bfcad467";
  "5ece53bae800d149101abd87cdc9757262fe863840450e3db7c96dee16c00125";
  "7e5b98dbebfa0193bf3b8eada4b8bb43342b7b8b8a538218553afbad334def45";
  "90b15bc8dffcca9ac8f9f27b10b145e5622054e2bd0a7170d21f4ac29755675e";
  "cb7f7f88e87d78a1d7973b00770233a0ec89632b93826481413d2dd14f5dc2ef";
  "9e12cb68ccbd4fe386b6a76fe09f42911b57828b959dac86635b187f07e86216";
  "cdd73c9ea10e365eab18f9688178c7b3b44294dbec79fdc73f0c1412bc9bcf50";
  "555be70059d3bc2df7a69e0d341dc2b8dd812f640c27c5a2ade17ca4d43e102a";
  "70871897688ac5fc2e4884d6b144c2a9ed62b5fde57f17c14f75b73b0ce7dc12";
  "efe8282947777f6000404fd19904e5d3746eb05f04671be6ae521e13ae3654b4";
  "ae22f505c5d6181682605c4793f4195300c32fdcd2d01d303976ceda98a4681f";
  "705389c3f93cc910ce6ba6a175b3e0ade161d14ae9e4147b8a37b5ca4b953a1b";
  "c0f0212c7666b060a02c3fd098715bd4affb2105cd620bedb2a2bf619f167232";
  "9e4702e826b4d51da1f563226173ff5f4754573a66ce333990b316adc020f45b";
  "280547370a0aac4cf441f501878be7557822418616cdeb403a11e00ab00c52a5";
  "11532e03d21c7183caa821421a452948cab2997932156495c858643707f379cf";
  "1396014b90c06de700e3ad0053f919700bcdd607d5e96d6703baebdfb61596b0";
  "ef7c7eefc3145857a3c5cf2631627eef4a19ba1d6e6f7319bf1edeaf2514af4b";
  "49cea1889942720b92203314a480849de824ca8a4fec71afb6aa6b4fc2c325f9";
  "d6ab32278584576bd727d39805ef8c9a36579e74235c5991bcdff6e9c5f1586e";
  "2eca9e79b62b0bbdd41002441ce261d5971f01653641716d9c87dd219dbf312f";
  "8ce1dbadb85af9e4fa8b61031fbe0e2c8212c9252464c6f86d502d5c69548717";
  "d7c89cad97ea1747b5df7e18b0f10107e945f58e827a4ab891b4105f747165d0";
  "ee9fa7a49314b73717e3c86c8dff9d99e998392181b0298f474b009f61cde546";
  "3657eb7549255a3eb7bfb532c6892aa092ef161ee4186a98e3152f6f96fa71eb";
  "01412dec3fe1ce1958e84d4a54a7bbdecc726a2db1354f6d663b1d00c784d0d0";
  "1bcaa7bc7da9adf8bc1d7bfe673463b824e5bcad1a1166f84c1389ffae2bf030";
  "68d53e9c508246f7ad9a9ee3e4819002070e3bd6d84e8f010bc57675ca719746";
  "3a380ee7f2948a81ddb36586bb3f98e87ff7181819919106082727d3a3a18e3d";
  "2d4a4002eb96b52f87954e921e0536df2bf2559d37da9973460818b65221e2b7";
  "c4c2792fc5b7f72e4460a0b45a511e786ea61221624292889cfbf540ac159c7e";
  "13b28ab729cd26c7c811a9df70d3fa2b4141f26b9d5d0c328e8e7b97f8f490d5";
  "6f6c13e25f90634522b012a98bad7b167b97990db137b0af821391c1c25b6ab7";
  "6c2e8aedd530930a4346e78156aea5ea6db8c14e165b379ab33e981896abd6b1";
  "7850af72ff9e465c55b4e2525d55a0ad99dbd9f438f5e0087b11db9d8c489db5";
  "9498d3496c03c18dc678342203d6ce6bd8a7a75537590d6ffa04fbe7411008a5";
  "bdf741bb48c1e3d15927205412c21efa23329a3449c9911be8fa392b200da040";
  "e00a9104994bd3ca5dcdcc34ca9a0756fd063aa763607ebc0c58b0cfb0c8a723";
  "c1e5afcbfc5cef77bc4e718d7762fbc0eeaa0ce4194add9a9ab5a3a893ed294b";
  "779561acd70ed445124f2633d8ad08414ad7c68d71459f950c07f6c880131b40";
  "1a1bb1175697b18bc7f8ba06ebaa380536eb51c92f0928e1a3ee7b14b217625e";
  "3fbc8c9930cca2166fd39eee970f05a3bf760dfbbc84759043492242e6fb5aa7";
  "841883e3a02f6e0bdf96f658402be7866aafa3fa9aafc5736ac9471b524d5e32";
  "410f15389234bb5909a56cd3aa8919898974f4a388297a3b59c5bf64a55bc71e";
  "09dbe593b044fdf438b9db95b5577172c2d9d6f6982bb7275820a006debedce6";
  "15dbdb9f6a90594b9660ac2269a6a9acac1b0dc782e05ced735e29bddadc210b";
  "20228bd80ef7782397a4c47e9c573795e47a29e4bc594290cf5996fba7fa54aa";
  "e99b20f106ae014e7a1a56e290f9f2e8c6bbbf584ec33b3164110b98d2bcfd49";
  "a5a8c1ad79d2231144b4c759a882ce6fd5337a9b3ee94fb7b660e706e7525093";
  "6b804675b09dcd415bf1be27a257f6066233eee412121c60d9c41d1ef18a7add";
  "9856e8e6e1722ae9dbefafddea676446250ee5e706cb5c1a6650ce6c34741252";
  "b617fb11f2196122cb1fcbe4f7e332430761ae05f4580b58481eec1d48d199fa";
  "1538c2d933e9f372f952b3ebbdc28faa3cded428f61b589792ce563c66a4897b";
  "559746822c3a77d04dff8aa0b5d93d044503a0f4752ab71bb98a0ceb3e56eeeb";
  "eaf01293d4f90cff2816042d03ce3f28c0a0881e8bbfb8d6a90a0ad5622ae2ab";
  "01045ddb55acad352fae76b0ffb58a9dbf90139685a2fc8947aaa911e024966f";
  "22103f64664ef5250b09b749f65b79e1ad03ee5f417cb9570a30a97a305c666e";
  "d30b78d8f6be387cac66e7856ef12736d3eedb054134299772021988f81d161a";
  "e0cc0ebb4c48d21969e68c2b76b00f549bf0e0999ba64d135573a28547cdb49f";
  "54aa595fd1e60e3926645570832eb176d087e4717f5686fc9d1352d06fb1cce7";
  "6e55f6ef9dfb0f56cff0568d021f12d1f766b08a4f873e9e8bda3c9a49b14bb9";
  "428c5f068937fafbc1953ab68eec45986ebde5395aa1ad3683e3b8051c53306a";
  "eebb2aff1b1f10f1a1aea8224d38f49e4f84b6d0522ca8dcad29ebdbc6aa4569";
  "c9831375c39f76f050bdafbfc88436f0921d7ff09385fa4b9dc5327b11b7cf80";
  "c13bf30ec0823d8b6e00e88821ce82bbad72a8c6d45da36cb2dad25357eff01e";
  "c383b4d7ced0058fe1c85d4e311911039fe48768c1b385090236acee580fbc7e";
  "4c21de03723da8ee671e03822b8802da029cf482fb0391ef59500ca400a900fb";
  "ff3771030ea899260fb1a3dda958defa1a6c15ae04a82c46480223c59ec5207e";
  "b15043b5d4729a485d65c450eb9f33855f1ccb86207275af7c79a55f71ca6f5d";
  "a506e700959113697f36a27d236d03b60bb021f4f83826487fee0ef213ded250";
  "d1ea3d1e6a2ade1bf4eb5749e419f9f1b9f7565a2c5caea151bc4f61acd8c584";
  "ad40b58cbb1a1c8ec6fcda7b9538d399092305d10d9b4417231bce81c31450df";
  "ca9df61b5172a5235edbdac3bfdad2bb1d7ab1579168a6c8134292c437ac4354";
  "4e6cc68c4c6cbe94e4377d3d767cea3a41ce37545b3ddca5dd2098c6996b0f26";
  "c1db35e1888c73ecb1939a32f089c382c5f743da80f5be1782adba8785add9cb";
  "206437fc601d8bd2f25d10e4a04e8d8fa35b63f2d31d7b29eb7a919963a6fa02";
  "d07381ce3f6a080e370d71fbc1c6398fa9c1daf5bb66e92c8eb2f14a07ebf2c1";
  "012378e11031c38f2b56006f34d97cd940f40d4735daf24bdfdf3fd37a659e2c";
  "6ad8c7bce90ba65482c0b70757e5cfef75152eab629060545d67ae72384857c2";
  "25f6c2274e093d9942180f8e2fa57b38fec74ea60e2e06a150f2b65fb49d2f92";
  "dc037ebe854a873e42738d8453fa4cc40fe2d683797b832b6f62ec09b3738b57";
  "4a73b2bed22a8359dbb7bef80ccd7178f36680e18f3cbbb5e516b9bf6d838c17";
  "eed90f9404b4238e115801407bc1bba8191308f7f70491d14f84d750963c7347";
  "f6b80a0ab2febd5555b75d70fa5fef880ece1d471021cd7a14f5d941402b6ce9";
  "b6eea242e4e641690d3b6c17adc611b60a2715d3526d4d0f327e349b6d18c0ec";
  "6d9b9336804f90b3a858c00776c41f310d7505ec54132427bdc2ccc0e7ca88c9";
  "f0750128596901b4830b774dbb03fbe7a943c1b7d5e11e92f03f4240a3ab7f90";
  "ace56e0a360e1b2bca4be7177d18bf72cd706e865d7c0d4bf09fe7d3104e68c4";
  "514c2a51d322fe9037955eeb7d71a51bc2cc7dce6082857c2631fced60bdc1fa";
  "21b96a1a51df07ee5c37ab5ad8a704fccfb676ca9846e712e6a9a6921f646a32";
  "d84381370bd31f054dab348a63e281a65dd0ada1362d7bfafbdf694485b2a27f";
  "312f0cfcb9839078c732f6a2a7d4c614af9465693e4e228fa9bd7ae86fb81f4d";
  "2d9fa92931480717d5285225613baac4be8f3d9fc22625d8fe439c4b172e0dc7";
  "63f1790de942d4cd61b2244fc12a2304a9fc831d91b4020738741c0af39f48c4";
  "975ee72d3234f9d0bec26cdabaaf69b206d591808bf025ce833baaa77ac2eb16";
  "4501d541969cb96f9b8078ec5684b1a2b14fc730e9e4aab5852d91f62b0e0a48";
  "c15b587de74b27c8dfc2ed404a7162465001f5522f2a451c9b2fc88a2b296deb";
  "bd3d7f0df6cdbe0c143d4218d024f3d8b678bcebdbaf05043e157b7231157be2";
  "cf0a550fbd86644a609c63cf4e67eaf697e318540cdae8ed4338a007d55f4d8c";
  "4064e17fa67707a39de1d64849632ea9db2225e651c27a26631073412c96ac35";
  "df9b12fd061d083e4e54a2d40dd7adc49c25116c561a8a3dec781c35e8daad94";
  "4ba785544b9fb9f40f838097ff7a7487ca3e51b68d8ff8ea43b7ed2a5bfeeb5a";
  "0b80bac6a41106daf8b77a19b09678bff8341d285cd4a30e8694fa1aa6c9df5b";
  "3cfddfb03fd545790f108f6ffadd854c7bc3eb8a64b5cbeda333e26841bf459f";
  "748bbd4818c18f1645dfe3aba266033382cd0ae882cf14a05c3a73e616a5e36b";
  "c30867eff35d5362f0ddccdbdbba004fe0f2d8863979d7e9455555c9cf2c5cfb";
  "8734fc30ef46698992d569366e3750b778c403a796ef8891bd4b22276a82a2bd";
  "defd3b7e4846159eca245c64a25682ab6b75b07bf1c3ac3bdb47092b3aaddb1d";
  "3fe2ce597cc18a469fc9470e0a02281c11de4aec5366e171eb09db506725240c";
  "7245d9f8a71433af44f4bc2f6e805c93d1e14f5fe15611f2d59aafb2c05a819e";
  "f9bf0b4eaba47b4a45b51c8b0b94a621a412b1c02cad6743a74d5ebfe9b3dd94";
  "22f13c534bcc550f963d3de3a609951409cd9e4e1a7a2cb587b7d57583a31db8";
  "95b7bd6a6894d4458f334d38d8c7ff8d39a32adce5dddeda64ebf888759c51b3";
  "e1bd9cd2cdbaebd05647e407e28850e2629f28b99714c314ce762b5ace685fa9";
  "6975004a3d58199dcd8b664690aff3a2322a9d483f4a009ad0446e62c5eeaf0a";
  "98b9a02f841f11bbe0ef1cdd017192c4c4a630a4602fdf6c387153fef521c02b";
  "ee15338120dafbf66f00a25269d058457840cc5d9e519701f27c984a8db9f439";
  "2c18d23f75688c75c7ddb6e1a087ac8ff37b44b8562cc4e66f22a98edd68458d";
  "ae77d93eff2e82ec3bd7fa58a777b10fb7f61a78581dadda78e7881316b48daf";
  "e2226bc10be82feef64b7de5b682a60dbdb16d595b5e2073d1c74518f0bc54f4";
  "4af0658e7fa20dbed1fc74efb94bc8e2e0c263f44de7f8761b729d6f2ef00a18";
  "9aedf924e1b9687e17261ed4b37a4d6380ef48079d77c08979afbd4fdbf1d52c";
  "c17c707cb90015d7a0f6f3b670bd8f17e0a36bd7ee9ef7b6cc027b8e0eabebb6";
  "1914aec913a2d35e9739164848839563c408f9c9a8d5de230f3a2aa49b21d693";
  "55ebee18003aeb536177b81ea77444c25c757aa2e56bfe8ab45cff003c310f0c";
  "2eed06da03dc06c4017d3334c2891b56548df19accaf6f4f17f959b1708f2058";
  "28eeb068b3752fea25ef9ebe6ba482422372307d14a29849ed859a029e158358";
  "a6e986d8ce00d5db1c02fcc20a633736b74f6e1990dd62d2396b8b34a981623a";
  "ea8a2c3c82653c1710e30604a09a4771d8581c41fa498c2033d73a1948c6ecd1";
  "30d6bda033213aff65ab4539a5015a3b0f79fcd83726be539c4c59da6d8f492b";
  "c9af0ac708ea0aa42a5fa3c7ddd545a248784180542c417408490cc30d4020e6";
  "5478ca56cc1d227cab4ec228269fe66b860cd614584a1517509921af753e15de";
  "3bfa06313a8c004af1722425f83753fdf77e715d6bc6e7886bb69a4f443d8073";
  "f33614c4842657950cd437cc5abe31901e95c2fc9c6bd35f4c056643314eb377";
  "1d08a143e84a093322bff62c64865e11a4de1e894edba84581da100e881223a6";
  "7c9b3d727ff8e95a1658256ce4f1e5f06004b0f845b914477960b06450101aa8";
  "c074826d078df189a5bf857c85d8aa64b09cb835d690cefe026fdba5fedd4fc9";
  "c3a0463730eb2154ec680b6adf55f91697ba0d302d02ee903be410cf96e1e4cb";
  "cb476088bab9a42ad9af036bd9f7e76e0983dbaff681acbf6dfcadd989a9d9c7";
  "a2d7adf5263ceff950dff35bc82cd5386ef9e05bddd1951be4f93c793180cc4b";
  "9a10ed3c4a96cc7c14c75e7fa846858de7c12e6a7b50cb1b80a88aa6def55371";
  "19783e82cbe2858b8ef0327c3b14f489498521666bc133a4437283725f639ffb";
  "a9b76bb556faf0a4de11a1ab2c650abc9462c864604d12c1fdd53cd468ce6cc4";
  "2556653101ba888fb89a5d34bcc89e8ac3ad65ab99f2f09e16337893fb2946c7";
  "f8e65a200eb52f55e4a8e077637d881f8264349cd95d9f14d65f715ddeac2619";
  "39f670ba06a2534da78213382014193d67a9ec88a65353dfc292a981675a51e2";
  "d67ab5d43b4718edd0e948adfba78b524301779d270546ab0c928ff25eaa7037";
  "1871a1d8dc0d8e9e89dc62c916deacb73810ddae464d0ca488ed3b6ba99f214f";
  "c810a0e262c2af1f3b6dbb71c26fe246b0b6b5a3e903759595d17601f0178311"].

Definition DEFAULT_SUBTREE_HASHES : list string :=
  Eval vm_compute in map of_hex DEFAULT_SUBTREE_HASHES_HEX.
