(* ===== verification/Accumulator.v ===== *)
(** * Sparse Merkle accumulator

    Models [crates/statechronicle-accumulator/src/sparse_merkle.rs] and [proof.rs]: the
    leaf set, the root as a function of it, inclusion and non-membership proofs and
    their verification.  SHA-256 is the parameter [H].  The leaf map ([BTreeMap]) is an
    association list in key order; the index ranges [entries[start..end]] that the
    recursive functions pass around are the sublists themselves. *)

From Stdlib Require Import ZArith Lia Ascii String Sorted.
From stdpp Require Import prelude gmap strings.
From S2P Require Import Prelude Amount Keys Sha256 DefaultHashes.
Open Scope Z_scope.

Definition TREE_DEPTH : nat := 256.
Definition INTERNAL_NODE_TAG : Z := 16.
Definition LEAF_NODE_TAG : Z := 17.

Definition EMPTY_LEAF_HASH : string :=
  of_hex "3abddd594d884ff661d24666372d9fe669a1ec9e616401db6bd2edeb3c397143".

Definition default_hash (level : nat) : string :=
  default EMPTY_LEAF_HASH (DEFAULT_SUBTREE_HASHES !! level).

Definition empty_root : string := default_hash TREE_DEPTH.

Notation Entry := (string * string)%type.

(** ** The leaf map *)

(** [BTreeMap::insert] and [get]. *)
Fixpoint bmap_insert (key digest : string) (l : list Entry) : list Entry :=
  match l with
  | [] => [(key, digest)]
  | (k, d) :: l' =>
      match str_cmp key k with
      | Lt => (key, digest) :: l
      | Eq => (k, digest) :: l'
      | Gt => (k, d) :: bmap_insert key digest l'
      end
  end.

Fixpoint bmap_get (key : string) (l : list Entry) : option string :=
  match l with
  | [] => None
  | (k, d) :: l' => if String.eqb key k then Some d else bmap_get key l'
  end.

Record StateAccumulator := mkAccumulator { leaves : list Entry }.
Definition accumulator_empty : StateAccumulator := mkAccumulator [].

Record PathStep := mkStep { ps_level : nat; ps_sibling : string }.
Record InclusionProof := mkInclusion { ip_key : StateKey; ip_leaf_hash : string; ip_steps : list PathStep }.
Record NonMembershipProof := mkNonMembership {
  np_key : StateKey; np_leaf_hash : string; np_steps : list PathStep }.

(** [slice::partition_point] on a partitioned slice: the length of the prefix on which
    the predicate holds. *)
Fixpoint partition_point {A} (f : A → bool) (l : list A) : nat :=
  match l with
  | [] => O
  | a :: l' => if f a then S (partition_point f l') else O
  end.

Section Tree.
Context (H : string → string).

Definition internal_preimage (left right : string) : string := byte INTERNAL_NODE_TAG +:+ left +:+ right.
Definition leaf_preimage (key state_digest : string) : string := byte LEAF_NODE_TAG +:+ key +:+ state_digest.
Definition internal_hash (left right : string) : string := H (internal_preimage left right).
Definition leaf_hash (key state_digest : string) : string := H (leaf_preimage key state_digest).

(** [split_at]. *)
Definition split_at (entries : list Entry) (bit : nat) : nat :=
  partition_point (fun e => negb (bit_at e.1 (Z.of_nat bit))) entries.

Fixpoint node_hash (entries : list Entry) (height : nat) : string :=
  match entries with
  | [] => default_hash height
  | (key, digest) :: _ =>
      match height with
      | O => leaf_hash key digest
      | S child_height =>
          if (TREE_DEPTH <? height)%nat then default_hash height
          else
            let split := split_at entries (TREE_DEPTH - height) in
            internal_hash (node_hash (take split entries) child_height)
                          (node_hash (drop split entries) child_height)
      end
  end.

Fixpoint collect_steps_inner (entries : list Entry) (height : nat) (target : StateKey) : list PathStep :=
  match height with
  | O => []
  | S child_height =>
      if (TREE_DEPTH <? height)%nat then []
      else
        let bit := (TREE_DEPTH - height)%nat in
        let split := split_at entries bit in
        let low := take split entries in
        let high := drop split entries in
        let (path, sibling) := if bit_at target (Z.of_nat bit) then (high, low) else (low, high) in
        (match sibling with
         | [] => []
         | _ =>
             let hash := node_hash sibling child_height in
             if String.eqb hash (default_hash child_height) then []
             else [mkStep child_height hash]
         end) ++ collect_steps_inner path child_height target
  end.

Definition compute_root (a : StateAccumulator) : string := node_hash (leaves a) TREE_DEPTH.
Definition collect_steps (a : StateAccumulator) (key : StateKey) : list PathStep :=
  reverse (collect_steps_inner (leaves a) TREE_DEPTH key).

(** [insert_batch]: the new leaf set and its root. *)
Definition insert_batch (a : StateAccumulator) (updates : list Entry) : StateAccumulator * string :=
  let a' := mkAccumulator (foldl (fun l u => bmap_insert u.1 u.2 l) (leaves a) updates) in
  (a', compute_root a').

Definition prove_inclusion (a : StateAccumulator) (key : StateKey) : option InclusionProof :=
  digest ← bmap_get key (leaves a);
  Some (mkInclusion key (leaf_hash key digest) (collect_steps a key)).

Definition prove_non_membership (a : StateAccumulator) (key : StateKey) : option NonMembershipProof :=
  match bmap_get key (leaves a) with
  | Some _ => None
  | None => Some (mkNonMembership key EMPTY_LEAF_HASH (collect_steps a key))
  end.

(** The sibling of a level: the last step that names it, or the default. *)
Definition sibling_at (steps : list PathStep) (level : nat) : string :=
  default (default_hash level)
    (ps_sibling <$> last (filter (fun s => ps_level s = level) steps)).

Definition combine (key : StateKey) (steps : list PathStep) (level : nat) (acc : string) : string :=
  if bit_at key (Z.of_nat (TREE_DEPTH - 1 - level)) then internal_hash (sibling_at steps level) acc
  else internal_hash acc (sibling_at steps level).

(** The loop of [verify_path] over levels [0 .. n-1]. *)
Fixpoint climb (key : StateKey) (steps : list PathStep) (acc : string) (n : nat) : string :=
  match n with
  | O => acc
  | S level => combine key steps level (climb key steps acc level)
  end.

Definition verify_path (root : string) (key : StateKey) (leaf : string) (steps : list PathStep) : bool :=
  String.eqb (climb key steps leaf TREE_DEPTH) root.

Definition verify_inclusion (root : string) (proof : InclusionProof) : bool :=
  verify_path root (ip_key proof) (ip_leaf_hash proof) (ip_steps proof).
Definition verify_non_membership (root : string) (proof : NonMembershipProof) : bool :=
  verify_path root (np_key proof) (np_leaf_hash proof) (np_steps proof).
End Tree.
