(* ===== verification/DefaultTable.v ===== *)
(** * The table of empty-subtree hashes

    The 257 constants of [DEFAULT_SUBTREE_HASHES] and [EMPTY_LEAF_HASH] in
    [crates/statechronicle-accumulator/src/sparse_merkle.rs], recomputed with SHA-256. *)

From Stdlib Require Import ZArith Lia Ascii String.
From stdpp Require Import prelude gmap strings.
From S2P Require Import Prelude Keys Sha256 DefaultHashes Accumulator.
Open Scope Z_scope.

Definition zero_block : string := of_hex "0000000000000000000000000000000000000000000000000000000000000000".

(** Compare a table with the recurrence, hashing each entry once. *)
Fixpoint recurrence_holds (previous : string) (table : list string) : bool :=
  match table with
  | [] => true
  | next :: table' =>
      String.eqb (internal_hash sha256 previous previous) next && recurrence_holds next table'
  end.

Lemma recurrence_checked : 
  String.eqb (leaf_hash sha256 zero_block zero_block) EMPTY_LEAF_HASH &&
  recurrence_holds EMPTY_LEAF_HASH (tail DEFAULT_SUBTREE_HASHES) = true.
Proof. vm_compute. reflexivity. Qed.

Lemma recurrence_holds_lookup previous table h x y :
  recurrence_holds previous table = true → (previous :: table) !! h = Some x → table !! h = Some y →
  y = internal_hash sha256 x x.
Proof.
  revert previous h. induction table as [|next table IH]; intros previous h; [done|].
  cbn [recurrence_holds]. rewrite andb_true_iff, String.eqb_eq. intros [<- Hr] Hx Hy.
  destruct h as [|h]; [by simplify_eq/=|]. by apply (IH _ h Hr).
Qed.

Lemma empty_leaf_is_sha256 : leaf_hash sha256 zero_block zero_block = EMPTY_LEAF_HASH.
Proof. apply String.eqb_eq. exact (proj1 (proj1 (andb_true_iff _ _) recurrence_checked)). Qed.

Lemma default_step_is_sha256 h : (h < TREE_DEPTH)%nat →
  default_hash (S h) = internal_hash sha256 (default_hash h) (default_hash h).
Proof.
  intros Hh. pose proof (proj2 (proj1 (andb_true_iff _ _) recurrence_checked)) as Hr.
  assert (length DEFAULT_SUBTREE_HASHES = S TREE_DEPTH) as Hlen by (vm_compute; reflexivity).
  assert (DEFAULT_SUBTREE_HASHES = EMPTY_LEAF_HASH :: tail DEFAULT_SUBTREE_HASHES) as Hcons
    by (vm_compute; reflexivity).
  unfold default_hash. revert Hr Hlen Hcons. generalize (tail DEFAULT_SUBTREE_HASHES) as t.
  generalize DEFAULT_SUBTREE_HASHES as l. intros l t Hr Hlen ->. cbn [length] in Hlen.
  destruct (lookup_lt_is_Some_2 t h) as [y Hy]; [lia|].
  destruct (lookup_lt_is_Some_2 (EMPTY_LEAF_HASH :: t) h) as [x Hx]; [cbn [length]; lia|].
  change ((EMPTY_LEAF_HASH :: t) !! S h) with (t !! h). rewrite Hx, Hy. cbn [default].
  by apply (recurrence_holds_lookup EMPTY_LEAF_HASH t h).
Qed.

(** The table of constants is right.  The empty leaf is the SHA-256 of the leaf tag
    and 64 zero bytes, the table has one entry per height from 0 to 256, it starts with the
    empty leaf, and every later entry is the SHA-256 of the internal tag followed by the
    entry before it twice. *)
Theorem default_table_is_sha256 :
  leaf_hash sha256 zero_block zero_block = EMPTY_LEAF_HASH ∧
  length DEFAULT_SUBTREE_HASHES = S TREE_DEPTH ∧ default_hash 0 = EMPTY_LEAF_HASH ∧
  ∀ h, (h < TREE_DEPTH)%nat →
    default_hash (S h) = internal_hash sha256 (default_hash h) (default_hash h).
Proof.
  split_and!; [apply empty_leaf_is_sha256|vm_compute; reflexivity..|apply default_step_is_sha256].
Qed.

Lemma default_table_witness :
  empty_root = internal_hash sha256 (default_hash 255) (default_hash 255).
Proof.
  unfold empty_root, TREE_DEPTH. apply (proj2 (proj2 (proj2 default_table_is_sha256))). unfold TREE_DEPTH. lia.
Defined.
