(* ===== verification/Merkle.v ===== *)
(** * Correctness of the accumulator

    Keys as numbers, the partition of sorted entries by a key bit, and from these the
    completeness and soundness of the proofs of [Accumulator.v]. *)

From Stdlib Require Import ZArith Lia Ascii String Sorted.
From stdpp Require Import prelude gmap strings sorting.
From S2P Require Import Prelude Amount Keys Sha256 DefaultHashes Accumulator DefaultTable.
Open Scope Z_scope.

(** ** Keys as numbers *)

Fixpoint kval (s : string) : Z :=
  match s with
  | EmptyString => 0
  | String c s' => byte_val c * 2 ^ (8 * slen s') + kval s'
  end.

Lemma kval_bound s : 0 ≤ kval s < 2 ^ (8 * slen s).
Proof.
  induction s as [|c s IH]; [by cbn|]. cbn [kval]. rewrite slen_cons.
  pose proof (byte_val_bound c). pose proof (slen_nonneg s).
  replace (8 * (slen s + 1)) with (8 * slen s + 8) by lia. rewrite Z.pow_add_r by lia.
  assert (0 < 2 ^ (8 * slen s)) by (apply Z.pow_pos_nonneg; lia). nia.
Qed.

Lemma str_cmp_kval a b : String.length a = String.length b → str_cmp a b = (kval a ?= kval b).
Proof.
  revert b. induction a as [|c a IH]; intros [|d b] Hl; try discriminate Hl; [done|].
  injection Hl as Hl. cbn [str_cmp kval]. rewrite IH by done. unfold slen. rewrite Hl.
  pose proof (kval_bound a) as Ba. pose proof (kval_bound b) as Bb. unfold slen in *. rewrite Hl in Ba.
  set (P := 2 ^ (8 * Z.of_nat (String.length b))) in *.
  destruct (Z.compare_spec (byte_val c) (byte_val d)) as [E|E|E]; symmetry.
  - rewrite E. destruct (Z.compare_spec (kval a) (kval b)); apply Z.compare_eq_iff || apply Z.compare_lt_iff
      || apply Z.compare_gt_iff; lia.
  - apply Z.compare_lt_iff. nia.
  - apply Z.compare_gt_iff. nia.
Qed.

Lemma bit_of_byte b n : 0 ≤ n → (Z.land (Z.shiftr b n) 1 =? 1) = Z.testbit b n.
Proof.
  intros Hn. rewrite <- (Z.shiftr_spec b 0 n ltac:(lia)) || idtac.
  change 1 with (Z.ones 1) at 1. rewrite Z.land_ones by lia. change (2 ^ 1) with 2.
  rewrite <- Z.bit0_mod, Z.shiftr_spec by lia. rewrite Z.add_0_l.
  by destruct (Z.testbit b n).
Qed.

Lemma bit_at_byte s p : 0 ≤ p →
  bit_at s p = match String.get (Z.to_nat (p / 8)) s with
               | None => false
               | Some b => Z.testbit (byte_val b) (7 - p mod 8)
               end.
Proof.
  intros Hp. unfold bit_at. rewrite Z.shiftr_div_pow2 by lia. change (2 ^ 3) with 8.
  destruct (String.get _ s); [|done].
  assert (Z.land p 7 = p mod 8) as -> by (change 7 with (Z.ones 3); by rewrite Z.land_ones by lia).
  pose proof (Z.mod_pos_bound p 8). apply bit_of_byte. lia.
Qed.

Lemma bit_at_kval s p : 0 ≤ p < 8 * slen s → bit_at s p = Z.testbit (kval s) (8 * slen s - 1 - p).
Proof.
  intros Hp. rewrite bit_at_byte by lia. revert p Hp.
  induction s as [|c s IH]; intros p Hp; [unfold slen in Hp; cbn in Hp; lia|].
  rewrite slen_cons in *. pose proof (slen_nonneg s). pose proof (kval_bound s) as Bs. cbn [kval].
  destruct (Z.ltb_spec p 8) as [Hlt|Hge].
  - rewrite Z.div_small, Z.mod_small by lia. cbn [String.get Z.to_nat].
    replace (8 * (slen s + 1) - 1 - p) with ((7 - p) + 8 * slen s) by lia.
    rewrite <- (Z.div_pow2_bits _ (8 * slen s) (7 - p)) by lia.
    rewrite (Z.add_comm _ (kval s)), Z.div_add by lia. by rewrite (Z.div_small (kval s)) by lia.
  - specialize (IH (p - 8) ltac:(lia)).
    assert (p / 8 = (p - 8) / 8 + 1 ∧ p mod 8 = (p - 8) mod 8) as [-> ->].
    { rewrite <- Z.div_add, <- (Z.mod_add (p - 8) 1) by lia. split; f_equal; lia. }
    pose proof (Z.div_pos (p - 8) 8 ltac:(lia) ltac:(lia)).
    replace (Z.to_nat ((p - 8) / 8 + 1)) with (S (Z.to_nat ((p - 8) / 8))) by lia.
    cbn [String.get]. rewrite IH. replace (8 * (slen s + 1) - 1 - p) with (8 * slen s - 1 - (p - 8)) by lia.
    symmetry. rewrite <- (Z.mod_pow2_bits_low _ (8 * slen s)) by lia.
    by rewrite Z.add_comm, Z.mod_add, Z.mod_small by lia.
Qed.

(** ** Key prefixes *)

Definition is_key (k : string) : Prop := String.length k = 32%nat.

(** The first [p] bits of a 32-byte key. *)
Definition prefix (k : string) (p : Z) : Z := kval k / 2 ^ (256 - p).

Lemma is_key_slen k : is_key k → slen k = 32.
Proof. unfold is_key, slen. lia. Qed.

Lemma prefix_0 k : is_key k → prefix k 0 = 0.
Proof. intros Hk. pose proof (kval_bound k). rewrite is_key_slen in H by done. by apply Z.div_small. Qed.

Lemma prefix_S k p : is_key k → 0 ≤ p < 256 →
  prefix k (p + 1) = 2 * prefix k p + Z.b2z (bit_at k p).
Proof.
  intros Hk%is_key_slen Hp. unfold prefix. rewrite bit_at_kval, Hk by lia.
  replace (8 * 32 - 1 - p) with (256 - (p + 1)) by lia.
  rewrite <- (Z.add_0_l (256 - (p + 1))) at 2. rewrite <- Z.div_pow2_bits by lia.
  replace (256 - p) with (256 - (p + 1) + 1) by lia. rewrite Z.pow_add_r by lia.
  rewrite <- Z.div_div by lia. change (2 ^ 1) with 2. rewrite Z.bit0_mod. apply Z.div_mod. lia.
Qed.

Lemma prefix_inj a b : is_key a → is_key b → prefix a 256 = prefix b 256 → a = b.
Proof.
  unfold prefix. change (2 ^ (256 - 256)) with 1. rewrite !Z.div_1_r. intros Ha Hb E.
  apply str_cmp_eq. rewrite str_cmp_kval by (unfold is_key in *; lia). by apply Z.compare_eq_iff.
Qed.

(** Within a common prefix, the next bit never falls along the key order. *)
Lemma prefix_mono a b p : is_key a → is_key b → 0 ≤ p < 256 → str_lt a b →
  prefix a p = prefix b p → bit_at a p = true → bit_at b p = true.
Proof.
  intros Ha Hb Hp Hlt E Hbit. unfold str_lt in Hlt.
  rewrite str_cmp_kval in Hlt by (unfold is_key in *; lia). change (kval a < kval b) in Hlt.
  assert (prefix a (p + 1) ≤ prefix b (p + 1)) as Hle.
  { apply Z.div_le_mono; [apply Z.pow_pos_nonneg|]; lia. }
  rewrite !prefix_S, Hbit, E in Hle by done. destruct (bit_at b p); [done|]. cbn in Hle. lia.
Qed.

(** ** Splitting sorted entries *)

Lemma partition_point_spec {A} (f : A → bool) l :
  StronglySorted (fun a b => f b = true → f a = true) l →
  take (partition_point f l) l = filter (fun a => f a = true) l ∧
  drop (partition_point f l) l = filter (fun a => f a = false) l.
Proof.
  induction 1 as [|a l Hl [IHt IHd] Ha]; [done|]. cbn [partition_point].
  destruct (f a) eqn:E; cbn [take drop].
  - rewrite filter_cons_True by done. rewrite filter_cons_False by congruence. by rewrite IHt, IHd.
  - rewrite filter_cons_False by congruence. rewrite filter_cons_True by done.
    rewrite Forall_forall in Ha.
    assert (∀ x, x ∈ l → f x = false) as Hf.
    { intros x Hx. destruct (f x) eqn:Ex; [|done]. symmetry; by apply (Ha x). }
    split; f_equal.
    + symmetry. apply elem_of_nil_inv. intros x [Hx Hin]%list_elem_of_filter. by rewrite Hf in Hx.
    + clear -Hf. induction l as [|x l IH]; [done|].
      rewrite filter_cons_True by (apply Hf; left). f_equal. apply IH. intros y Hy. apply Hf. by right.
Qed.

(** Entries of a subtree of height [h] on the path of a key: ascending 32-byte keys
    that share the path's first [256 - h] bits. *)
Record path_node (entries : list Entry) (h : nat) (target : string) : Prop := {
  pn_sorted : StronglySorted str_lt entries.*1;
  pn_keys : Forall is_key entries.*1;
  pn_prefix : Forall (fun k => prefix k (256 - Z.of_nat h) = prefix target (256 - Z.of_nat h)) entries.*1;
}.

Definition half (b : bool) (bit : nat) (entries : list Entry) : list Entry :=
  filter (fun e => bit_at e.1 (Z.of_nat bit) = b) entries.

Lemma sorted_fst_filter (P : Entry → Prop) `{∀ e, Decision (P e)} l :
  StronglySorted str_lt l.*1 → StronglySorted str_lt (filter P l).*1.
Proof.
  induction l as [|e l IH]; cbn [fmap list_fmap]; [done|]. inversion_clear 1 as [|? ? Hs Hf].
  rewrite filter_cons. destruct (decide (P e)); [|by apply IH]. cbn [fmap list_fmap].
  constructor; [by apply IH|]. rewrite Forall_fmap, Forall_forall in *.
  intros x [? Hx]%list_elem_of_filter. by apply Hf.
Qed.

Lemma sorted_fst_impl (R : Entry → Entry → Prop) (l : list Entry) :
  StronglySorted str_lt l.*1 →
  (∀ a b, a ∈ l → b ∈ l → str_lt a.1 b.1 → R a b) → StronglySorted R l.
Proof.
  induction l as [|e l IH]; cbn [fmap list_fmap]; [constructor|]. inversion_clear 1 as [|? ? Hs Hf].
  intros HR. constructor; [apply IH; [done|]; intros a b Ha Hb; apply HR; by right|].
  rewrite Forall_fmap, Forall_forall in Hf. apply Forall_forall. intros x Hx.
  apply HR; [left|by right|]. by apply Hf.
Qed.

Lemma split_halves entries h target : path_node entries (S h) target → (h < 256)%nat →
  take (split_at entries (TREE_DEPTH - S h)) entries = half false (TREE_DEPTH - S h) entries ∧
  drop (split_at entries (TREE_DEPTH - S h)) entries = half true (TREE_DEPTH - S h) entries.
Proof.
  intros [Hs Hk Hp] Hh. unfold split_at, half.
  set (bit := (TREE_DEPTH - S h)%nat).
  assert (Z.of_nat bit = 256 - Z.of_nat (S h)) as Hbit by (unfold bit, TREE_DEPTH; lia).
  destruct (partition_point_spec (fun e : Entry => negb (bit_at e.1 (Z.of_nat bit))) entries) as [-> ->].
  - apply sorted_fst_impl; [done|]. intros a b Ha Hb Hlt. rewrite !negb_true_iff. intros Eb.
    rewrite !Forall_fmap, !Forall_forall in Hk, Hp.
    destruct (bit_at a.1 (Z.of_nat bit)) eqn:Ea; [|done]. rewrite Hbit in *.
    rewrite (prefix_mono a.1 b.1) in Eb; [done|by apply Hk|by apply Hk|lia|done| |done].
    etrans; [by apply Hp|symmetry; by apply Hp].
  - split; apply list_filter_iff; intros e; [apply negb_true_iff|apply negb_false_iff].
Qed.

Lemma path_node_half entries h target b : path_node entries (S h) target → (h < 256)%nat → is_key target →
  b = bit_at target (Z.of_nat (TREE_DEPTH - S h)) →
  path_node (half b (TREE_DEPTH - S h) entries) h target.
Proof.
  intros [Hs Hk Hp] Hh Ht Hb. unfold half. rewrite !Forall_fmap, !Forall_forall in Hk, Hp.
  split; [by apply sorted_fst_filter| |]; rewrite Forall_fmap; apply Forall_forall;
    intros e [He Hin]%list_elem_of_filter; [by apply Hk|]. cbn.
  replace (256 - Z.of_nat h) with (Z.of_nat (TREE_DEPTH - S h) + 1) by (unfold TREE_DEPTH; lia).
  rewrite !prefix_S by (try done; try (by apply Hk); unfold TREE_DEPTH; lia). rewrite He, Hb.
  do 2 f_equal. replace (Z.of_nat (TREE_DEPTH - S h)) with (256 - Z.of_nat (S h)) by (unfold TREE_DEPTH; lia).
  by apply Hp.
Qed.

Lemma bmap_get_half entries bit target :
  bmap_get target (half (bit_at target (Z.of_nat bit)) bit entries) = bmap_get target entries.
Proof.
  unfold half. induction entries as [|[k d] l IH]; [done|]. rewrite filter_cons. cbn [bmap_get].
  destruct (String.eqb_spec target k) as [<-|Hne].
  - rewrite decide_True by done. cbn [bmap_get]. by rewrite String.eqb_refl.
  - destruct (decide _); [|done]. cbn [bmap_get]. destruct (String.eqb_spec target k); done.
Qed.

(** ** The node hashes along a path *)

(** What the tree relies on of the hash function: 32-byte digests, and that the two
    tables of constants in the source are its values. *)
Class HashLaws (H : string → string) : Prop := {
  hash_length : ∀ m, String.length (H m) = 32%nat;
  empty_leaf_law : leaf_hash H zero_block zero_block = EMPTY_LEAF_HASH;
  default_law : ∀ h, (h < 256)%nat → default_hash (S h) = internal_hash H (default_hash h) (default_hash h);
}.

Lemma default_hash_0 : default_hash 0 = EMPTY_LEAF_HASH.
Proof. reflexivity. Qed.

Section Laws.
Context (H : string → string) `{!HashLaws H}.

(** The hash of a key's slot. *)
Definition slot (entries : list Entry) (target : string) : string :=
  match bmap_get target entries with Some d => leaf_hash H target d | None => EMPTY_LEAF_HASH end.

Lemma internal_length l r : String.length (internal_hash H l r) = 32%nat.
Proof. unfold internal_hash. apply hash_length. Qed.

Lemma leaf_length k d : String.length (leaf_hash H k d) = 32%nat.
Proof. unfold leaf_hash. apply hash_length. Qed.

Lemma default_length h : (h ≤ 256)%nat → String.length (default_hash h) = 32%nat.
Proof. destruct h as [|h]; intros Hh; [by vm_compute|]. rewrite default_law by lia. apply internal_length. Qed.

Lemma node_hash_length entries h : (h ≤ 256)%nat → String.length (node_hash H entries h) = 32%nat.
Proof.
  intros Hh. destruct entries as [|[k d] l], h as [|h]; cbn [node_hash];
    [by apply default_length..|apply leaf_length|].
  destruct (TREE_DEPTH <? S h)%nat; [by apply default_length|apply internal_length].
Qed.

Lemma node_hash_nil h : node_hash H [] h = default_hash h.
Proof. by destruct h. Qed.

Lemma node_hash_S entries h target : path_node entries (S h) target → (h < 256)%nat →
  let bit := (TREE_DEPTH - S h)%nat in
  node_hash H entries (S h) =
  internal_hash H (node_hash H (half false bit entries) h) (node_hash H (half true bit entries) h).
Proof.
  intros Hn Hh bit. destruct (split_halves _ _ _ Hn Hh) as [Ht Hd].
  destruct entries as [|[k d] l].
  - change (half _ _ []) with (@nil Entry). rewrite !node_hash_nil. by apply default_law.
  - cbn [node_hash]. destruct (Nat.ltb_spec TREE_DEPTH (S h)); [unfold TREE_DEPTH in *; lia|].
    by rewrite Ht, Hd.
Qed.

(** At the leaf level the subtree is the slot of the key. *)
Lemma node_hash_0 entries target : path_node entries 0 target → is_key target →
  node_hash H entries 0 = slot entries target.
Proof.
  intros [Hs Hk Hp] Ht. unfold slot. destruct entries as [|[k d] l]; [done|].
  cbn [fmap list_fmap fst] in *. inversion_clear Hk. inversion_clear Hp.
  assert (k = target) as -> by (by apply prefix_inj). cbn [bmap_get node_hash]. by rewrite String.eqb_refl.
Qed.

Lemma slot_half entries bit target :
  slot (half (bit_at target (Z.of_nat bit)) bit entries) target = slot entries target.
Proof. unfold slot. by rewrite bmap_get_half. Qed.

(** One step of the climb, when the accumulated value is the hash of the path half
    and the sibling that of the other half. *)
Lemma combine_node entries h target steps : path_node entries (S h) target → (h < 256)%nat →
  let bit := (TREE_DEPTH - S h)%nat in
  let b := bit_at target (Z.of_nat bit) in
  sibling_at steps h = node_hash H (half (negb b) bit entries) h →
  combine H target steps h (node_hash H (half b bit entries) h) = node_hash H entries (S h).
Proof.
  intros Hn Hh bit b Hsib. rewrite (node_hash_S _ _ _ Hn Hh). unfold combine.
  replace (TREE_DEPTH - 1 - h)%nat with bit by (unfold bit; lia). fold b.
  rewrite Hsib. by destruct b.
Qed.

(** *** Completeness *)

Lemma collect_levels entries h target :
  Forall (fun s => (ps_level s < h)%nat) (collect_steps_inner H entries h target).
Proof.
  revert entries. induction h as [|h IH]; intros entries; cbn [collect_steps_inner]; [constructor|].
  destruct (_ <? _)%nat; [constructor|].
  destruct (bit_at _ _); (apply Forall_app; split;
    [|eapply Forall_impl; [apply IH|]; cbn; intros; lia]);
    (case_match; [constructor|]; destruct (String.eqb _ _); repeat constructor; cbn; lia).
Qed.

Lemma collect_S entries h target : path_node entries (S h) target → (h < 256)%nat →
  let bit := (TREE_DEPTH - S h)%nat in
  let b := bit_at target (Z.of_nat bit) in
  let other := node_hash H (half (negb b) bit entries) h in
  ∃ here, collect_steps_inner H entries (S h) target =
            here ++ collect_steps_inner H (half b bit entries) h target ∧
          (here = [mkStep h other] ∨ here = [] ∧ other = default_hash h).
Proof.
  intros Hn Hh bit b other. destruct (split_halves _ _ _ Hn Hh) as [Ht Hd].
  cbn [collect_steps_inner]. destruct (Nat.ltb_spec TREE_DEPTH (S h)); [unfold TREE_DEPTH in *; lia|].
  fold bit in Ht, Hd |- *. fold b. rewrite Ht, Hd. subst other.
  destruct b; cbn [negb]; (eexists; split; [reflexivity|]);
    clear; [generalize (half false bit entries)|generalize (half true bit entries)]; intros [|e l];
    try (right; split; [reflexivity|apply node_hash_nil]);
    destruct (String.eqb_spec (node_hash H (e :: l) h) (default_hash h)); auto.
Qed.

Lemma filter_level_nil (l : list PathStep) h :
  Forall (fun s => ps_level s ≠ h) l → filter (fun s => ps_level s = h) l = [].
Proof.
  intros Hl. apply elem_of_nil_inv. intros s [E Hs]%list_elem_of_filter.
  rewrite Forall_forall in Hl. by apply (Hl s).
Qed.

Lemma sibling_at_middle st here tail h other :
  Forall (fun s => (ps_level s < h)%nat) st → Forall (fun s => (S h ≤ ps_level s)%nat) tail →
  here = [mkStep h other] ∨ here = [] ∧ other = default_hash h →
  sibling_at (st ++ here ++ tail) h = other.
Proof.
  intros Hst Htl Hhere. unfold sibling_at. rewrite !filter_app.
  rewrite (filter_level_nil st), (filter_level_nil tail)
    by (eapply Forall_impl; [eassumption|]; cbn; intros; lia).
  rewrite app_nil_l, app_nil_r. destruct Hhere as [->|[-> ->]]; [|done].
  by rewrite filter_cons_True by done.
Qed.

(** Climbing the collected steps from the slot's hash gives the subtree's hash, whatever
    steps of higher levels follow. *)
Lemma climb_complete h entries target tail : path_node entries h target → (h ≤ 256)%nat → is_key target →
  Forall (fun s => (h ≤ ps_level s)%nat) tail →
  climb H target (reverse (collect_steps_inner H entries h target) ++ tail) (slot entries target) h =
  node_hash H entries h.
Proof.
  revert entries tail. induction h as [|h IH]; intros entries tail Hn Hh Ht Htl.
  { cbn [climb]. symmetry. by apply node_hash_0. }
  destruct (collect_S entries h target Hn ltac:(lia)) as (here & -> & Hhere).
  rewrite reverse_app, <- app_assoc. cbn [climb].
  assert (Forall (λ s, (h ≤ ps_level s)%nat) (reverse here ++ tail)) as Htl'.
  { apply Forall_app. split; [|eapply Forall_impl; [done|]; cbn; intros; lia].
    destruct Hhere as [->|[-> _]]; repeat constructor; done. }
  rewrite <- (slot_half entries (TREE_DEPTH - S h)).
  rewrite IH; [|apply path_node_half; done || lia|lia|done|done].
  apply combine_node; [done|lia|]. apply sibling_at_middle; [apply Forall_reverse, collect_levels|done|].
  destruct Hhere as [->|[-> E]]; auto.
Qed.

(** *** Soundness *)

Definition combine_preimage (key : string) (steps : list PathStep) (level : nat) (acc : string) : string :=
  if bit_at key (Z.of_nat (TREE_DEPTH - 1 - level)) then internal_preimage (sibling_at steps level) acc
  else internal_preimage acc (sibling_at steps level).

(** The messages the verifier hashes, leaf level first. *)
Fixpoint climb_preimages (key : string) (steps : list PathStep) (acc : string) (n : nat) : list string :=
  match n with
  | O => []
  | S level => climb_preimages key steps acc level ++
                 [combine_preimage key steps level (climb H key steps acc level)]
  end.

(** The messages the tree hashes on the path of a key, leaf level first. *)
Fixpoint path_preimages (entries : list Entry) (target : string) (h : nat) : list string :=
  match h with
  | O => []
  | S child =>
      let bit := (TREE_DEPTH - h)%nat in
      path_preimages (half (bit_at target (Z.of_nat bit)) bit entries) target child ++
        [internal_preimage (node_hash H (half false bit entries) child) (node_hash H (half true bit entries) child)]
  end.

(** Two different messages with the same hash at the same position of two lists. *)
Definition collides (xs ys : list string) : Prop :=
  ∃ i x y, xs !! i = Some x ∧ ys !! i = Some y ∧ x ≠ y ∧ H x = H y.

Lemma collides_tail x y xs ys : collides xs ys → collides (x :: xs) (y :: ys).
Proof. intros (i & u & v & ?). by exists (S i), u, v. Qed.

Lemma collides_head x y xs ys : x ≠ y → H x = H y → collides (x :: xs) (y :: ys).
Proof. intros. by exists 0%nat, x, y. Qed.

Lemma climb_preimages_length key steps acc n : length (climb_preimages key steps acc n) = n.
Proof. induction n as [|n IH]; [done|]. cbn. rewrite length_app, IH. cbn. lia. Qed.

Lemma path_preimages_length entries target h : length (path_preimages entries target h) = h.
Proof. revert entries. induction h as [|h IH]; intros; [done|]. cbn. rewrite length_app, IH. cbn. lia. Qed.

Lemma climb_length key steps acc n : String.length acc = 32%nat → String.length (climb H key steps acc n) = 32%nat.
Proof.
  intros Hacc. destruct n as [|n]; [done|]. cbn [climb]. unfold combine.
  destruct (bit_at _ _); apply internal_length.
Qed.

Lemma combine_hash key steps level acc : combine H key steps level acc = H (combine_preimage key steps level acc).
Proof. unfold combine, combine_preimage, internal_hash. by destruct (bit_at _ _). Qed.

Lemma internal_preimage_inj_l l r l' r' : String.length l = String.length l' →
  internal_preimage l r = internal_preimage l' r' → l = l' ∧ r = r'.
Proof. intros Hl E. apply str_app_inv in E as [_ E]; [|done]. by apply str_app_inv in E. Qed.

Lemma internal_preimage_inj_r l r l' r' : String.length r = String.length r' →
  internal_preimage l r = internal_preimage l' r' → l = l' ∧ r = r'.
Proof.
  intros Hr E. pose proof (f_equal String.length E) as El. unfold internal_preimage in El.
  rewrite !string_length_app in El. apply internal_preimage_inj_l; [lia|done].
Qed.

(** A climb that reaches the subtree's hash started from the slot's hash, or it exhibits
    a collision. *)
Lemma climb_sound h entries target steps lh : path_node entries h target → (h ≤ 256)%nat → is_key target →
  String.length lh = 32%nat → climb H target steps lh h = node_hash H entries h →
  lh = slot entries target ∨ collides (path_preimages entries target h) (climb_preimages target steps lh h).
Proof.
  revert entries. induction h as [|h IH]; intros entries Hn Hh Ht Hl E.
  { left. rewrite <- node_hash_0; done. }
  set (bit := (TREE_DEPTH - S h)%nat). set (b := bit_at target (Z.of_nat bit)).
  cbn [climb] in E. rewrite combine_hash, (node_hash_S _ _ _ Hn ltac:(lia)) in E. fold bit in E.
  cbn [path_preimages climb_preimages]. fold bit b.
  set (x := internal_preimage _ _) in *. set (y := combine_preimage _ _ _ _) in *.
  destruct (decide (x = y)) as [Exy|Hne].
  - assert (climb H target steps lh h = node_hash H (half b bit entries) h) as Ec.
    { subst x y. unfold combine_preimage in Exy.
      replace (TREE_DEPTH - 1 - h)%nat with bit in Exy by (unfold bit; lia). fold b in Exy.
      destruct b; [apply internal_preimage_inj_r in Exy as [_ Exy]|apply internal_preimage_inj_l in Exy as [Exy _]];
        try done; by rewrite node_hash_length, climb_length by (done || lia). }
    apply IH in Ec as [->|(i & u & v & Hu & Hv & ?)]; try done; try lia.
    + left. apply slot_half.
    + right. exists i, u, v. by rewrite (lookup_app_l_Some _ _ _ _ Hu), (lookup_app_l_Some _ _ _ _ Hv).
    + apply path_node_half; done || lia.
  - right. exists h, x, y. split_and!; [..|done|by symmetry];
      (rewrite lookup_app_r; [|rewrite ?path_preimages_length, ?climb_preimages_length; lia]);
      by rewrite ?path_preimages_length, ?climb_preimages_length, Nat.sub_diag.
Qed.
End Laws.

(** ** The leaf map *)

Definition acc_wf (l : list Entry) : Prop := StronglySorted str_lt l.*1 ∧ Forall is_key l.*1.

Lemma bmap_insert_elem k key d l : k ∈ (bmap_insert key d l).*1 ↔ k = key ∨ k ∈ l.*1.
Proof.
  induction l as [|[k' d'] l IH]; cbn [bmap_insert fmap list_fmap fst]; [set_solver|].
  destruct (str_cmp key k') eqn:E; cbn [fmap list_fmap fst].
  - apply str_cmp_eq in E as ->. set_solver.
  - set_solver.
  - rewrite !elem_of_cons, IH. tauto.
Qed.

Lemma bmap_insert_wf key d l : is_key key → acc_wf l → acc_wf (bmap_insert key d l).
Proof.
  intros Hkey [Hs Hk]. split.
  - clear Hk. induction l as [|[k' d'] l IH]; cbn [bmap_insert fmap list_fmap fst] in *; [repeat constructor|].
    inversion_clear Hs as [|? ? Hl Hf]. destruct (str_cmp key k') eqn:E; cbn [fmap list_fmap fst].
    + by constructor.
    + constructor; [by constructor|]. constructor; [done|]. rewrite Forall_forall in *.
      intros z Hz. eapply str_cmp_lt_trans; [done|by apply Hf].
    + constructor; [by apply IH|]. apply Forall_forall. intros z [->|Hz]%bmap_insert_elem.
      * unfold str_lt. by rewrite str_cmp_antisym, E.
      * rewrite Forall_forall in Hf. auto.
  - rewrite Forall_forall in *. intros k [->|Hin]%bmap_insert_elem; auto.
Qed.

Lemma bmap_get_insert k key d l : StronglySorted str_lt l.*1 →
  bmap_get k (bmap_insert key d l) = if String.eqb k key then Some d else bmap_get k l.
Proof.
  induction l as [|[k' d'] l IH]; cbn [bmap_insert bmap_get fmap list_fmap fst]; [done|].
  inversion_clear 1 as [|? ? Hl Hf]. destruct (str_cmp key k') eqn:E; cbn [bmap_get].
  - apply str_cmp_eq in E as ->. by destruct (String.eqb k k').
  - done.
  - rewrite IH by done. destruct (String.eqb_spec k k') as [->|Hne]; [|done].
    destruct (String.eqb_spec k' key) as [->|]; [|done]. by rewrite str_cmp_refl in E.
Qed.

Lemma bmap_get_lt k l : Forall (str_lt k) l.*1 → bmap_get k l = None.
Proof.
  induction l as [|[k' d'] l IH]; [done|]. cbn [fmap list_fmap fst]. inversion_clear 1 as [|? ? Hlt Hf].
  cbn [bmap_get]. destruct (String.eqb_spec k k') as [->|]; [|by apply IH].
  unfold str_lt in Hlt. by rewrite str_cmp_refl in Hlt.
Qed.

(** A sorted leaf map is determined by its lookups. *)
Lemma bmap_ext l l' : StronglySorted str_lt l.*1 → StronglySorted str_lt l'.*1 →
  (∀ k, bmap_get k l = bmap_get k l') → l = l'.
Proof.
  revert l'. induction l as [|[k d] l IH]; intros [|[k' d'] l'] Hs Hs' Hext; [done|..].
  - specialize (Hext k'). cbn [bmap_get] in Hext. by rewrite String.eqb_refl in Hext.
  - specialize (Hext k). cbn [bmap_get] in Hext. by rewrite String.eqb_refl in Hext.
  - cbn [fmap list_fmap fst] in *. inversion_clear Hs as [|? ? Hl Hf]. inversion_clear Hs' as [|? ? Hl' Hf'].
    assert (k = k') as <-.
    { destruct (str_cmp k k') eqn:E; [by apply str_cmp_eq| |].
      - specialize (Hext k). rewrite (bmap_get_lt k ((k', d') :: l')) in Hext.
        + cbn [bmap_get] in Hext. by rewrite String.eqb_refl in Hext.
        + constructor; [done|]. eapply Forall_impl; [done|]. intros z. by apply str_cmp_lt_trans.
      - specialize (Hext k'). rewrite (bmap_get_lt k' ((k, d) :: l)) in Hext.
        + cbn [bmap_get] in Hext. by rewrite String.eqb_refl in Hext.
        + assert (str_lt k' k) by (unfold str_lt; by rewrite str_cmp_antisym, E).
          constructor; [done|]. eapply Forall_impl; [done|]. intros z. by apply str_cmp_lt_trans. }
    assert (d = d') as <-.
    { specialize (Hext k). cbn [bmap_get] in Hext. rewrite String.eqb_refl in Hext. congruence. }
    f_equal. apply IH; [done..|]. intros z. specialize (Hext z). cbn [bmap_get] in Hext.
    destruct (decide (z = k)) as [->|Hz%String.eqb_neq]; [by rewrite !bmap_get_lt|]. by rewrite Hz in Hext.
Qed.

(** ** Accumulators built by batches of updates *)

(** The accumulator after a sequence of batches, from the empty one. *)
Definition build (H : string → string) (batches : list (list Entry)) : StateAccumulator :=
  foldl (fun a updates => (insert_batch H a updates).1) accumulator_empty batches.

(** The digest last written to a key by a list of updates. *)
Definition last_write (updates : list Entry) (key : string) : option string :=
  snd <$> last (filter (fun u => u.1 = key) updates).

Definition valid_batches (batches : list (list Entry)) : Prop := Forall (Forall (fun u => is_key u.1)) batches.

Lemma last_write_snoc updates k d key :
  last_write (updates ++ [(k, d)]) key = if String.eqb key k then Some d else last_write updates key.
Proof.
  unfold last_write. rewrite filter_app. destruct (String.eqb_spec key k) as [->|Hne].
  - rewrite filter_cons_True, filter_nil by done. by rewrite last_snoc.
  - rewrite filter_cons_False by (cbn; congruence). by rewrite filter_nil, app_nil_r.
Qed.

Lemma build_leaves H batches :
  leaves (build H batches) = foldl (fun l u => bmap_insert u.1 u.2 l) [] (mjoin batches).
Proof.
  unfold build. induction batches as [|us batches IH] using rev_ind; [done|].
  rewrite foldl_snoc. set (a := foldl _ _ batches) in *. cbn [insert_batch fst leaves]. rewrite IH.
  rewrite join_app, foldl_app. cbn [mjoin list_join]. by rewrite app_nil_r.
Qed.

Lemma inserts_spec us : Forall (fun u : Entry => is_key u.1) us →
  let l := foldl (fun l u => bmap_insert u.1 u.2 l) [] us in
  acc_wf l ∧ ∀ k, bmap_get k l = last_write us k.
Proof.
  induction us as [|[k d] us IH] using rev_ind; [by intros _; repeat constructor|].
  rewrite Forall_app, Forall_singleton, foldl_snoc. intros [Hus Hk]. destruct (IH Hus) as [Hwf Hget].
  split; [by apply bmap_insert_wf|]. intros z. by rewrite bmap_get_insert, last_write_snoc, Hget by apply Hwf.
Qed.

Lemma build_spec H batches : valid_batches batches →
  acc_wf (leaves (build H batches)) ∧
  ∀ k, bmap_get k (leaves (build H batches)) = last_write (mjoin batches) k.
Proof. intros Hv. rewrite build_leaves. by apply inserts_spec, Forall_join. Qed.

Lemma build_leaves_ext H batches batches' : valid_batches batches → valid_batches batches' →
  (∀ key, last_write (mjoin batches) key = last_write (mjoin batches') key) →
  leaves (build H batches) = leaves (build H batches').
Proof.
  intros Hv Hv' Hext. destruct (build_spec H _ Hv) as [[Hs _] Hget], (build_spec H _ Hv') as [[Hs' _] Hget'].
  apply bmap_ext; [done..|]. intros k. by rewrite Hget, Hget'.
Qed.

Lemma root_node H batches key : valid_batches batches → is_key key →
  path_node (leaves (build H batches)) TREE_DEPTH key.
Proof.
  intros Hv Hk. destruct (build_spec H batches Hv) as [[Hs Hf] _]. split; [done..|].
  eapply Forall_impl; [done|]. intros k Hk'. change (256 - Z.of_nat TREE_DEPTH) with 0. by rewrite !prefix_0.
Qed.

Section Claims.
Context (H : string → string) `{!HashLaws H}.

(** The message whose hash fills a key's slot: the leaf's, or the all-zero leaf's. *)
Definition slot_preimage (entries : list Entry) (key : string) : string :=
  match bmap_get key entries with
  | Some d => leaf_preimage key d
  | None => leaf_preimage zero_block zero_block
  end.

(** Some level of the path at which the tree and the verifier hash different messages to
    the same value, the leaf level included. *)
Definition forged (a : StateAccumulator) (key : string) (leaf_message leaf : string) (steps : list PathStep) : Prop :=
  collides H (slot_preimage (leaves a) key :: path_preimages H (leaves a) key TREE_DEPTH)
             (leaf_message :: climb_preimages H key steps leaf TREE_DEPTH).

Lemma slot_hash entries key : slot H entries key = H (slot_preimage entries key).
Proof. unfold slot, slot_preimage. destruct (bmap_get key entries); [done|]. by rewrite <- empty_leaf_law. Qed.

Lemma leaf_preimage_inj k d k' d' : is_key k → is_key k' →
  leaf_preimage k d = leaf_preimage k' d' → k = k' ∧ d = d'.
Proof.
  unfold is_key. intros Hk Hk' E. apply str_app_inv in E as [_ E]; [|done]. apply str_app_inv in E; [done|lia].
Qed.

Lemma zero_block_key : is_key zero_block.
Proof. reflexivity. Qed.

Lemma verify_path_true root key leaf steps :
  verify_path H root key leaf steps = true ↔ climb H key steps leaf TREE_DEPTH = root.
Proof. unfold verify_path. apply String.eqb_eq. Qed.

Lemma compute_root_eq a : compute_root H a = node_hash H (leaves a) TREE_DEPTH.
Proof. reflexivity. Qed.

Lemma verify_sound batches key leaf_message steps : valid_batches batches → is_key key →
  verify_path H (compute_root H (build H batches)) key (H leaf_message) steps = true →
  leaf_message = slot_preimage (leaves (build H batches)) key ∨
  forged (build H batches) key leaf_message (H leaf_message) steps.
Proof.
  intros Hv Hk. rewrite verify_path_true, compute_root_eq. unfold forged. intros E.
  assert (TREE_DEPTH ≤ 256)%nat as Hd by (unfold TREE_DEPTH; lia).
  pose proof (root_node H _ _ Hv Hk) as Hn. revert E Hd Hn. generalize TREE_DEPTH as depth. intros depth E Hd Hn.
  apply climb_sound in E as [E|E]; [|right; by apply collides_tail|done..|apply hash_length].
  destruct (decide (leaf_message = slot_preimage (leaves (build H batches)) key)); [by left|].
  right. rewrite slot_hash in E. apply collides_head; congruence.
Qed.

Lemma verify_complete batches key : valid_batches batches → is_key key →
  verify_path H (compute_root H (build H batches)) key (slot H (leaves (build H batches)) key)
    (collect_steps H (build H batches) key) = true.
Proof.
  intros Hv Hk. rewrite verify_path_true, compute_root_eq. unfold collect_steps. rewrite <- (app_nil_r (reverse _)).
  assert (TREE_DEPTH ≤ 256)%nat as Hd by (unfold TREE_DEPTH; lia).
  pose proof (root_node H _ _ Hv Hk) as Hn. revert Hd Hn. generalize TREE_DEPTH as depth. intros depth Hd Hn.
  apply climb_complete; [done..|constructor].
Qed.

(** C11: proofs exist and verify.  After any sequence of update batches, a key that was
    written has an inclusion proof and no non-membership proof, a key that was not has a
    non-membership proof and no inclusion proof, the proof carries the leaf hash of the
    digest last written (the empty leaf's for an unwritten key), and it verifies against
    the root the last batch returned. *)
Theorem membership_complete batches updates key :
  valid_batches (batches ++ [updates]) → is_key key →
  let (a, root) := insert_batch H (build H batches) updates in
  match last_write (mjoin (batches ++ [updates])) key with
  | Some d =>
      prove_non_membership H a key = None ∧
      ∃ proof, prove_inclusion H a key = Some proof ∧ ip_key proof = key ∧
               ip_leaf_hash proof = leaf_hash H key d ∧ verify_inclusion H root proof = true
  | None =>
      prove_inclusion H a key = None ∧
      ∃ proof, prove_non_membership H a key = Some proof ∧ np_key proof = key ∧
               np_leaf_hash proof = EMPTY_LEAF_HASH ∧ verify_non_membership H root proof = true
  end.
Proof.
  intros Hv Hk. pose proof (build_spec H _ Hv) as [_ Hget]. pose proof (verify_complete _ key Hv Hk) as Hc.
  assert (insert_batch H (build H batches) updates =
            (build H (batches ++ [updates]), compute_root H (build H (batches ++ [updates])))) as ->.
  { unfold build. by rewrite foldl_snoc. }
  rewrite <- Hget. unfold slot in Hc. unfold prove_non_membership, prove_inclusion.
  destruct (bmap_get key _) as [d|]; (split; [done|]); eexists; (split; [reflexivity|]); done.
Qed.

(** C10: a verified inclusion proof is true.  If a path verifies from the leaf hash of
    [(key, digest)] to the root, then [digest] is the digest last written to [key] - or the
    path exhibits two different messages with the same hash, or the pair is the all-zero
    one, whose leaf hash is by construction the hash of an empty slot. *)
Theorem inclusion_sound batches key digest steps :
  valid_batches batches → is_key key →
  let a := build H batches in
  verify_inclusion H (compute_root H a) (mkInclusion key (leaf_hash H key digest) steps) = true →
  last_write (mjoin batches) key = Some digest ∨
  (key = zero_block ∧ digest = zero_block ∧ last_write (mjoin batches) key = None) ∨
  forged a key (leaf_preimage key digest) (leaf_hash H key digest) steps.
Proof.
  intros Hv Hk a Hver. unfold verify_inclusion in Hver. cbn [ip_key ip_leaf_hash ip_steps] in Hver.
  unfold leaf_hash in *. apply verify_sound in Hver as [E|]; [|auto..]. fold a in E.
  unfold slot_preimage in E. rewrite (proj2 (build_spec H _ Hv)) in E.
  destruct (last_write _ key) as [d|].
  - apply leaf_preimage_inj in E as [_ ->]; auto.
  - apply leaf_preimage_inj in E as [-> ->]; auto using zero_block_key.
Qed.

(** A verified non-membership proof whose leaf is the empty leaf is true: the key was
    never written - or it holds the all-zero pair, or the path exhibits a collision. *)
Theorem non_membership_sound batches proof :
  valid_batches batches → is_key (np_key proof) → np_leaf_hash proof = EMPTY_LEAF_HASH →
  let a := build H batches in
  verify_non_membership H (compute_root H a) proof = true →
  last_write (mjoin batches) (np_key proof) = None ∨
  (np_key proof = zero_block ∧ last_write (mjoin batches) (np_key proof) = Some zero_block) ∨
  forged a (np_key proof) (leaf_preimage zero_block zero_block) EMPTY_LEAF_HASH (np_steps proof).
Proof.
  intros Hv Hk Hleaf a Hver. unfold verify_non_membership in Hver. rewrite Hleaf, <- empty_leaf_law in *.
  apply verify_sound in Hver as [E|]; [|auto..]. fold a in E.
  unfold slot_preimage in E. rewrite (proj2 (build_spec H _ Hv)) in E.
  destruct (last_write _ _) as [d|]; [|auto].
  apply leaf_preimage_inj in E as [<- <-]; auto using zero_block_key.
Qed.

(** The root is a function of the state set.  Two histories of batches that leave the
    same last digest at every key - in whatever order, grouping and with whatever
    overwritten values - have the same leaf set, the same root and the same paths. *)
Theorem root_canonical batches batches' :
  valid_batches batches → valid_batches batches' →
  (∀ key, last_write (mjoin batches) key = last_write (mjoin batches') key) →
  let a := build H batches in let a' := build H batches' in
  leaves a = leaves a' ∧ compute_root H a = compute_root H a' ∧
  ∀ key, collect_steps H a key = collect_steps H a' key.
Proof.
  intros Hv Hv' Hext a a'. assert (leaves a = leaves a') as E by by apply build_leaves_ext.
  unfold compute_root, collect_steps. by rewrite E.
Qed.
End Claims.

#[export] Instance sha256_laws : HashLaws sha256.
Proof. split; [apply sha256_length|apply empty_leaf_is_sha256|apply default_step_is_sha256]. Qed.

(** The path of a key that is present verifies as a non-membership proof: without the
    comparison of the carried leaf with the empty leaf, which [verify_non_membership]
    leaves to its caller, acceptance does not mean absence. *)
Lemma non_membership_needs_leaf_check H `{!HashLaws H} batches key digest :
  valid_batches batches → is_key key → last_write (mjoin batches) key = Some digest →
  let a := build H batches in
  verify_non_membership H (compute_root H a)
    (mkNonMembership key (leaf_hash H key digest) (collect_steps H a key)) = true.
Proof.
  intros Hv Hk Hw a. pose proof (verify_complete H batches key Hv Hk) as Hc. unfold slot in Hc.
  by rewrite (proj2 (build_spec H _ Hv)), Hw in Hc.
Qed.

Module MerkleSamples.
Definition key_a : string := of_hex "1100000000000000000000000000000000000000000000000000000000000000".
Definition key_b : string := of_hex "1180000000000000000000000000000000000000000000000000000000000000".
Definition key_c : string := of_hex "ff00000000000000000000000000000000000000000000000000000000000000".
Definition digest_1 : string := of_hex "0100000000000000000000000000000000000000000000000000000000000000".
Definition digest_2 : string := of_hex "0200000000000000000000000000000000000000000000000000000000000000".

Definition first_batch : list Entry := [(key_b, digest_1); (key_a, digest_1)].
Definition second_batch : list Entry := [(key_a, digest_2)].
Definition history : list (list Entry) := [first_batch; second_batch].
(** The same final state, written in one batch. *)
Definition history' : list (list Entry) := [[(key_a, digest_2); (key_b, digest_1)]].

Lemma history_valid : valid_batches history.
Proof. repeat constructor. Qed.
Lemma history'_valid : valid_batches history'.
Proof. repeat constructor. Qed.

Lemma history_same key : last_write (mjoin history) key = last_write (mjoin history') key.
Proof.
  change (mjoin history) with ([(key_b, digest_1); (key_a, digest_1)] ++ [(key_a, digest_2)]).
  change (mjoin history') with ([(key_a, digest_2)] ++ [(key_b, digest_1)]).
  rewrite !last_write_snoc. change [(key_b, digest_1); (key_a, digest_1)] with
    ([(key_b, digest_1)] ++ [(key_a, digest_1)]). rewrite last_write_snoc.
  change [(key_a, digest_2)] with ([] ++ [(key_a, digest_2)]).
  change [(key_b, digest_1)] with ([] ++ [(key_b, digest_1)]). rewrite !last_write_snoc.
  destruct (String.eqb_spec key key_a) as [->|]; done.
Qed.

Lemma a_slot : slot sha256 (leaves (build sha256 history)) key_a = leaf_hash sha256 key_a digest_2.
Proof. unfold slot. rewrite (proj2 (build_spec sha256 _ history_valid)). reflexivity. Qed.
Lemma c_slot : slot sha256 (leaves (build sha256 history)) key_c = EMPTY_LEAF_HASH.
Proof. unfold slot. rewrite (proj2 (build_spec sha256 _ history_valid)). reflexivity. Qed.
End MerkleSamples.
Import MerkleSamples.

Lemma membership_complete_witness :
  let (a, root) := insert_batch sha256 (build sha256 [first_batch]) second_batch in
  (∃ proof, prove_inclusion sha256 a key_a = Some proof ∧ ip_leaf_hash proof = leaf_hash sha256 key_a digest_2 ∧
            verify_inclusion sha256 root proof = true) ∧
  (∃ proof, prove_non_membership sha256 a key_c = Some proof ∧ verify_non_membership sha256 root proof = true).
Proof.
  pose proof (membership_complete sha256 [first_batch] second_batch key_a history_valid eq_refl) as Wa.
  pose proof (membership_complete sha256 [first_batch] second_batch key_c history_valid eq_refl) as Wc.
  change (last_write _ key_a) with (Some digest_2) in Wa.
  change (last_write _ key_c) with (@None string) in Wc.
  destruct (insert_batch sha256 _ _) as [a root].
  destruct Wa as (_ & pa & Ha & _ & Hla & Hva). destruct Wc as (_ & pc & Hc & _ & _ & Hvc). eauto 10.
Defined.

Lemma inclusion_sound_witness :
  let a := build sha256 history in
  let steps := collect_steps sha256 a key_a in
  verify_inclusion sha256 (compute_root sha256 a) (mkInclusion key_a (leaf_hash sha256 key_a digest_2) steps) = true ∧
  (last_write (mjoin history) key_a = Some digest_2 ∨
   (key_a = zero_block ∧ digest_2 = zero_block ∧ last_write (mjoin history) key_a = None) ∨
   forged sha256 a key_a (leaf_preimage key_a digest_2) (leaf_hash sha256 key_a digest_2) steps).
Proof.
  intros a steps.
  assert (verify_inclusion sha256 (compute_root sha256 a)
            (mkInclusion key_a (leaf_hash sha256 key_a digest_2) steps) = true) as Hv.
  { pose proof (verify_complete sha256 history key_a history_valid eq_refl) as Hc. by rewrite a_slot in Hc. }
  split; [exact Hv|]. exact (inclusion_sound sha256 history key_a digest_2 steps history_valid eq_refl Hv).
Defined.

Lemma non_membership_sound_witness :
  let a := build sha256 history in
  let proof := mkNonMembership key_c EMPTY_LEAF_HASH (collect_steps sha256 a key_c) in
  verify_non_membership sha256 (compute_root sha256 a) proof = true ∧
  (last_write (mjoin history) (np_key proof) = None ∨
   (np_key proof = zero_block ∧ last_write (mjoin history) (np_key proof) = Some zero_block) ∨
   forged sha256 a (np_key proof) (leaf_preimage zero_block zero_block) EMPTY_LEAF_HASH (np_steps proof)).
Proof.
  intros a proof.
  assert (verify_non_membership sha256 (compute_root sha256 a) proof = true) as Hv.
  { pose proof (verify_complete sha256 history key_c history_valid eq_refl) as Hc. by rewrite c_slot in Hc. }
  split; [exact Hv|]. exact (non_membership_sound sha256 history proof history_valid eq_refl eq_refl Hv).
Defined.

Lemma root_canonical_witness :
  leaves (build sha256 history) = leaves (build sha256 history') ∧
  compute_root sha256 (build sha256 history) = compute_root sha256 (build sha256 history').
Proof.
  destruct (root_canonical sha256 history history' history_valid history'_valid history_same) as (? & ? & _).
  by split.
Defined.
