(* ===== verification/Checkpoint.v ===== *)
(** * Checkpoint tree

    Models [crates/statechronicle-accumulator/src/checkpoint.rs]: the Merkle tree over the
    sorted tenant roots, proofs of a tenant's root and their verification. *)

From Stdlib Require Import ZArith Lia Ascii String Sorted.
From stdpp Require Import prelude gmap strings sorting.
From S2P Require Import Prelude Amount Domain Profile Atomicity SortFacts Keys Sha256 DefaultHashes Accumulator DefaultTable Merkle.
Open Scope Z_scope.

Definition CHECKPOINT_LEAF_TAG : Z := 18.
Definition CHECKPOINT_INTERNAL_TAG : Z := 19.

Inductive AccumulatorError := EmptyTenantRoots | DuplicateTenant (tenant : string).

Notation TenantRoot := (TenantId * string)%type.

Record CheckpointStep := mkCheckpointStep { cst_level : nat; cst_sibling : string }.

Record TenantRootProof := mkTenantRootProof {
  trp_tenant_id : string;
  trp_tenant_root : string;
  trp_index : nat;
  trp_steps : list CheckpointStep;
}.

Record CheckpointRoot := mkCheckpointRoot {
  cr_root : string;
  cr_entries : list TenantRoot;
  cr_levels : list (list string);
}.

(** [chunks(2)] with the last node of an odd level paired with itself. *)
Fixpoint pair_level (hash : string → string → string) (nodes : list string) : list string :=
  match nodes with
  | [] => []
  | [node] => [hash node node]
  | first :: second :: rest => hash first second :: pair_level hash rest
  end.

(** The duplicate search on the sorted entries: the first tenant equal to the one
    before it. *)
Fixpoint find_duplicate (previous : option TenantId) (entries : list TenantRoot) : option TenantId :=
  match entries with
  | [] => None
  | (tenant, _) :: rest =>
      if match previous with Some prev => String.eqb prev tenant | None => false end then Some tenant
      else find_duplicate (Some tenant) rest
  end.

Section Tree.
Context (H : string → string).

Definition checkpoint_leaf_preimage (tenant_id root : string) : string :=
  byte CHECKPOINT_LEAF_TAG +:+ u64_len_prefix tenant_id +:+ tenant_id +:+ root.
Definition checkpoint_internal_preimage (left right : string) : string :=
  byte CHECKPOINT_INTERNAL_TAG +:+ left +:+ right.
Definition checkpoint_leaf (tenant_id root : string) : string := H (checkpoint_leaf_preimage tenant_id root).
Definition checkpoint_internal (left right : string) : string := H (checkpoint_internal_preimage left right).

(** [build_levels], bottom up; each round at least halves the level, so the number of
    leaves bounds the rounds. *)
Fixpoint levels_from (fuel : nat) (current : list string) : list (list string) :=
  current ::
  match fuel with
  | O => []
  | S fuel' =>
      if (1 <? length current)%nat then levels_from fuel' (pair_level checkpoint_internal current) else []
  end.
Definition build_levels (leaves : list string) : list (list string) := levels_from (length leaves) leaves.

Definition from_tenant_roots (tenant_roots : list TenantRoot) : result CheckpointRoot AccumulatorError :=
  match tenant_roots with
  | [] => Err EmptyTenantRoots
  | _ =>
      let entries := sort_by (fun a b => str_cmp a.1 b.1) tenant_roots in
      match find_duplicate None entries with
      | Some tenant => Err (DuplicateTenant tenant)
      | None =>
          let levels := build_levels (map (fun e => checkpoint_leaf e.1 e.2) entries) in
          match level ← last levels; head level with
          | Some root => Ok (mkCheckpointRoot root entries levels)
          | None => Err EmptyTenantRoots
          end
      end
  end.

(** [tenant_root]. *)
Definition tenant_root (c : CheckpointRoot) (tenant_id : TenantId) : option string :=
  snd <$> List.find (fun e => String.eqb e.1 tenant_id) (cr_entries c).

(** The position of a tenant in the leaf order. *)
Fixpoint tenant_position (tenant_id : TenantId) (entries : list TenantRoot) : option nat :=
  match entries with
  | [] => None
  | e :: rest => if String.eqb e.1 tenant_id then Some O else S <$> tenant_position tenant_id rest
  end.

(** The loop of [prove_tenant_root]. *)
Fixpoint path_steps (level : nat) (levels : list (list string)) (node_index : nat) : list CheckpointStep :=
  match levels with
  | [] => []
  | nodes :: rest =>
      if (length nodes <=? 1)%nat then []
      else
        match nodes !! node_index with
        | None => []
        | Some path_node =>
            let sibling :=
              if Nat.even node_index then
                if (length nodes <=? S node_index)%nat then path_node
                else default path_node (nodes !! S node_index)
              else default path_node (nodes !! pred node_index) in
            mkCheckpointStep level sibling :: path_steps (S level) rest (Nat.div2 node_index)
        end
  end.

Definition prove_tenant_root (c : CheckpointRoot) (tenant_id : TenantId) : option TenantRootProof :=
  index ← tenant_position tenant_id (cr_entries c);
  entry ← cr_entries c !! index;
  Some (mkTenantRootProof tenant_id entry.2 index (path_steps 0 (cr_levels c) index)).

(** The loop of [verify_tenant_root]. *)
Fixpoint checkpoint_climb (acc : string) (node_index : nat) (steps : list CheckpointStep) : string :=
  match steps with
  | [] => acc
  | step :: rest =>
      let (left, right) := if Nat.even node_index then (acc, cst_sibling step) else (cst_sibling step, acc) in
      checkpoint_climb (checkpoint_internal left right) (Nat.div2 node_index) rest
  end.

Definition verify_tenant_root (root : CheckpointRoot) (proof : TenantRootProof) : bool :=
  let leaf := checkpoint_leaf (trp_tenant_id proof) (trp_tenant_root proof) in
  String.eqb (checkpoint_climb leaf (trp_index proof) (trp_steps proof)) (cr_root root).
End Tree.

(** ** Levels *)

Lemma list_pair_ind {A} (P : list A → Prop) :
  P [] → (∀ a, P [a]) → (∀ a b l, P l → P (a :: b :: l)) → ∀ l, P l.
Proof.
  intros H0 H1 H2. fix IH 1. intros [|a [|b l]]; [exact H0|exact (H1 a)|exact (H2 a b l (IH l))].
Qed.

Lemma pair_level_length hash l : length (pair_level hash l) = Nat.div2 (S (length l)).
Proof. induction l as [|a|a b l IH] using list_pair_ind; cbn [pair_level length]; [done..|]. rewrite IH. done. Qed.

Lemma pair_level_lookup hash l i n : l !! i = Some n →
  let even_index := (2 * Nat.div2 i)%nat in
  ∃ a, l !! even_index = Some a ∧
    pair_level hash l !! Nat.div2 i = Some (hash a (default a (l !! S even_index))).
Proof.
  revert i. induction l as [|a|a b l IH] using list_pair_ind; intros i Hi.
  - done.
  - destruct i; [|done]. cbn. eauto.
  - destruct i as [|[|i]]; [cbn; eauto..|]. destruct (IH i Hi) as (c & Hc & Hp).
    cbn [Nat.div2]. replace (2 * S (Nat.div2 i))%nat with (S (S (2 * Nat.div2 i))) by lia.
    exists c. split; [exact Hc|exact Hp].
Qed.

(** Every node of a paired level hashes two nodes of the level below. *)
Lemma pair_level_elem hash l n : n ∈ pair_level hash l → ∃ a b, a ∈ l ∧ b ∈ l ∧ n = hash a b.
Proof.
  induction l as [|a|a b l IH] using list_pair_ind; cbn [pair_level].
  - by intros ?%not_elem_of_nil.
  - rewrite list_elem_of_singleton. intros ->. exists a, a. set_solver.
  - rewrite elem_of_cons. intros [->|Hin]; [exists a, b; set_solver|].
    destruct (IH Hin) as (c & d & ? & ? & ->). exists c, d. set_solver.
Qed.

Lemma div2_S_lt n : (1 < n)%nat → (Nat.div2 (S n) < n)%nat.
Proof. intros Hn. rewrite Nat.div2_div. apply Nat.Div0.div_lt_upper_bound. lia. Qed.

Lemma div2_S_pos n : (0 < n)%nat → (0 < Nat.div2 (S n))%nat.
Proof. destruct n as [|[|n]]; cbn; lia. Qed.

Section Proofs.
Context (H : string → string).

(** The root of a level: the only node of the last level above it. *)
Definition level_root (fuel : nat) (nodes : list string) : option string :=
  level ← last (levels_from H fuel nodes); head level.

Lemma level_root_S fuel nodes : (1 < length nodes)%nat →
  level_root (S fuel) nodes = level_root fuel (pair_level (checkpoint_internal H) nodes).
Proof.
  intros Hl. unfold level_root. cbn [levels_from]. apply Nat.ltb_lt in Hl as ->.
  destruct fuel; reflexivity.
Qed.

Lemma level_root_single fuel n : level_root fuel [n] = Some n.
Proof. by destruct fuel. Qed.

(** With as much fuel as nodes the last level is a single node. *)
Lemma level_root_exists fuel nodes : (0 < length nodes)%nat → (length nodes ≤ fuel)%nat →
  ∃ r, level_root fuel nodes = Some r.
Proof.
  revert nodes. induction fuel as [|fuel IH]; intros nodes Hpos Hf; [lia|].
  destruct nodes as [|n [|n' nodes]]; [cbn in Hpos; lia|by rewrite level_root_single; eauto|].
  rewrite level_root_S by (cbn; lia). apply IH; rewrite pair_level_length; [apply div2_S_pos; cbn; lia|].
  pose proof (div2_S_lt (length (n :: n' :: nodes))). cbn [length] in *. lia.
Qed.

Lemma checkpoint_climb_step acc i s rest n m :
  (if Nat.even i then acc = n ∧ cst_sibling s = m else cst_sibling s = n ∧ acc = m) →
  checkpoint_climb H acc i (s :: rest) = checkpoint_climb H (checkpoint_internal H n m) (Nat.div2 i) rest.
Proof. cbn [checkpoint_climb]. by destruct (Nat.even i); intros [-> ->]. Qed.

(** The steps collected for a node lead from its hash to the root. *)
Lemma path_steps_climb fuel nodes i n level : (length nodes ≤ fuel)%nat → nodes !! i = Some n →
  level_root fuel nodes = Some (checkpoint_climb H n i (path_steps level (levels_from H fuel nodes) i)).
Proof.
  revert nodes i n level. induction fuel as [|fuel IH]; intros nodes i n level Hf Hi.
  { apply lookup_lt_Some in Hi. lia. }
  destruct nodes as [|n0 [|n1 rest]]; [done| |].
  { destruct i; [|done]. injection Hi as <-. by rewrite level_root_single. }
  set (nodes := n0 :: n1 :: rest) in *. assert (1 < length nodes)%nat as Hl by (cbn; lia).
  rewrite level_root_S by done. cbn [levels_from path_steps].
  assert ((1 <? length nodes)%nat = true) as -> by by apply Nat.ltb_lt.
  assert ((length nodes <=? 1)%nat = false) as -> by (apply Nat.leb_gt; lia).
  rewrite Hi. destruct (pair_level_lookup (checkpoint_internal H) nodes i n Hi) as (a & Ha & Hp).
  rewrite (checkpoint_climb_step _ _ _ _ a (default a (nodes !! S (2 * Nat.div2 i)))).
  - apply IH; [|done]. rewrite pair_level_length. pose proof (div2_S_lt (length nodes) Hl). lia.
  - pose proof (Nat.div2_odd i) as Hodd. rewrite <- Nat.negb_even in Hodd.
    destruct (Nat.even i); cbn [negb Nat.b2n cst_sibling] in *.
    + replace (2 * Nat.div2 i)%nat with i in * by lia. assert (n = a) as <- by congruence.
      split; [done|]. destruct (Nat.leb_spec (length nodes) (S i)); [|done].
      by rewrite lookup_ge_None_2 by done.
    + assert (pred i = (2 * Nat.div2 i)%nat) as -> by lia. rewrite Ha. split; [done|].
      replace (S (2 * Nat.div2 i)) with i by lia. by rewrite Hi.
Qed.
End Proofs.

(** ** Soundness *)

Class DigestLength (H : string → string) : Prop := digest_length : ∀ m, String.length (H m) = 32%nat.
#[export] Instance sha256_digest_length : DigestLength sha256 := sha256_length.

Section Soundness.
Context (H : string → string) `{!DigestLength H}.

(** The messages hashed when a level is paired, and when the tree is built. *)
Fixpoint pair_messages (nodes : list string) : list string :=
  match nodes with
  | [] => []
  | [node] => [checkpoint_internal_preimage node node]
  | first :: second :: rest => checkpoint_internal_preimage first second :: pair_messages rest
  end.
Fixpoint tree_messages (fuel : nat) (nodes : list string) : list string :=
  match fuel with
  | O => []
  | S fuel' =>
      if (1 <? length nodes)%nat
      then pair_messages nodes ++ tree_messages fuel' (pair_level (checkpoint_internal H) nodes) else []
  end.
(** The messages the verifier hashes above the leaf. *)
Fixpoint climb_messages (acc : string) (node_index : nat) (steps : list CheckpointStep) : list string :=
  match steps with
  | [] => []
  | step :: rest =>
      let (left, right) := if Nat.even node_index then (acc, cst_sibling step) else (cst_sibling step, acc) in
      checkpoint_internal_preimage left right
        :: climb_messages (checkpoint_internal H left right) (Nat.div2 node_index) rest
  end.

(** Two different messages with the same hash, one from each list. *)
Definition collision_between (xs ys : list string) : Prop :=
  ∃ x y, x ∈ xs ∧ y ∈ ys ∧ x ≠ y ∧ H x = H y.

(** Hashes that the tree over [leaves] justifies with its [internals]. *)
Inductive node_ok (leaves internals : list string) : string → Prop :=
| ok_leaf m : m ∈ leaves → node_ok leaves internals (H m)
| ok_internal a b : node_ok leaves internals a → node_ok leaves internals b →
    checkpoint_internal_preimage a b ∈ internals →
    node_ok leaves internals (checkpoint_internal H a b).

Lemma node_ok_length leaves internals n : node_ok leaves internals n → String.length n = 32%nat.
Proof. intros [m|a b]; [|unfold checkpoint_internal]; apply digest_length. Qed.

Lemma pair_level_ok leaves internals nodes : Forall (node_ok leaves internals) nodes →
  pair_messages nodes ⊆ internals → Forall (node_ok leaves internals) (pair_level (checkpoint_internal H) nodes).
Proof.
  induction nodes as [|a|a b l IH] using list_pair_ind; cbn [pair_level pair_messages]; intros Hf Hsub.
  - constructor.
  - inversion_clear Hf. constructor; [|constructor]. apply ok_internal; [done..|]. apply Hsub. left.
  - inversion_clear Hf as [|? ? Ha Hf']. inversion_clear Hf' as [|? ? Hb Hl]. constructor.
    + apply ok_internal; [done..|]. apply Hsub. left.
    + apply IH; [done|]. intros x Hx. apply Hsub. by right.
Qed.

Lemma level_root_ok fuel leaves internals nodes r : Forall (node_ok leaves internals) nodes →
  tree_messages fuel nodes ⊆ internals → level_root H fuel nodes = Some r → node_ok leaves internals r.
Proof.
  revert nodes. induction fuel as [|fuel IH]; intros nodes Hf Hsub Hr.
  - unfold level_root in Hr. cbn in Hr. destruct Hf; [done|]. by injection Hr as <-.
  - cbn [tree_messages] in Hsub. destruct (Nat.ltb_spec 1 (length nodes)).
    + rewrite level_root_S in Hr by done. eapply IH, Hr; [|set_solver].
      apply pair_level_ok; [done|set_solver].
    + unfold level_root in Hr. cbn [levels_from] in Hr. assert ((1 <? length nodes)%nat = false) as E by by apply Nat.ltb_ge.
      rewrite E in Hr. destruct Hf; [done|]. by injection Hr as <-.
Qed.

Lemma climb_messages_snoc acc i s t : ∃ l r,
  checkpoint_climb H acc i (s ++ [t]) = checkpoint_internal H l r ∧
  (l = checkpoint_climb H acc i s ∨ r = checkpoint_climb H acc i s) ∧
  climb_messages acc i (s ++ [t]) = climb_messages acc i s ++ [checkpoint_internal_preimage l r].
Proof.
  revert acc i. induction s as [|u s IH]; intros acc i; cbn [app checkpoint_climb climb_messages].
  - destruct (Nat.even i); eauto 10.
  - destruct (if Nat.even i then _ else _) as [l r]. destruct (IH (checkpoint_internal H l r) (Nat.div2 i))
      as (l' & r' & -> & Hside & ->). exists l', r'. done.
Qed.

Lemma checkpoint_climb_length acc i s : String.length acc = 32%nat →
  String.length (checkpoint_climb H acc i s) = 32%nat.
Proof.
  intros Ha. destruct s as [|t s _] using rev_ind; [done|].
  destruct (climb_messages_snoc acc i s t) as (l & r & -> & _). unfold checkpoint_internal. apply digest_length.
Qed.

Lemma checkpoint_preimage_inj a b l r c : String.length a = 32%nat → String.length b = 32%nat →
  String.length c = 32%nat → l = c ∨ r = c →
  checkpoint_internal_preimage a b = checkpoint_internal_preimage l r → c = a ∨ c = b.
Proof.
  intros Ha Hb Hc Hside E. pose proof (f_equal String.length E) as El.
  unfold checkpoint_internal_preimage in *. rewrite !string_length_app in El.
  apply str_app_inv in E as [_ E]; [|done].
  apply str_app_inv in E as [-> ->]; [|destruct Hside; subst; lia]. destruct Hside; auto.
Qed.

Lemma leaf_internal_distinct t r a b : checkpoint_leaf_preimage t r ≠ checkpoint_internal_preimage a b.
Proof. unfold checkpoint_leaf_preimage, checkpoint_internal_preimage. cbn. discriminate. Qed.

(** A climb that ends in a justified hash started from a leaf, or it exhibits a collision. *)
Lemma checkpoint_climb_sound leaves internals n t r i s :
  Forall (fun m => ∃ t' r', m = checkpoint_leaf_preimage t' r') leaves →
  node_ok leaves internals n →
  let m := checkpoint_leaf_preimage t r in
  checkpoint_climb H (H m) i s = n →
  m ∈ leaves ∨ collision_between (leaves ++ internals) (m :: climb_messages (H m) i s).
Proof.
  intros Hleaves Hn m. revert s. induction Hn as [x Hx|a b Ha IHa Hb IHb Hin]; intros s E;
    destruct s as [|u s _] using rev_ind.
  - destruct (decide (x = m)) as [->|Hne]; [by left|]. right. exists x, m. cbn in E. set_solver.
  - right. destruct (climb_messages_snoc (H m) i s u) as (l & r' & El & _ & Em). rewrite El in E. rewrite Em.
    exists x, (checkpoint_internal_preimage l r'). split; [set_solver|]. split; [set_solver|].
    rewrite Forall_forall in Hleaves. destruct (Hleaves x Hx) as (t' & r'' & ->).
    split; [apply leaf_internal_distinct|by symmetry].
  - right. exists (checkpoint_internal_preimage a b), m. split; [set_solver|]. split; [set_solver|].
    split; [apply not_eq_sym, leaf_internal_distinct|by symmetry].
  - destruct (climb_messages_snoc (H m) i s u) as (l & r' & El & Hside & Em). rewrite El in E.
    destruct (decide (checkpoint_internal_preimage a b = checkpoint_internal_preimage l r')) as [Eq|Hne].
    + apply (checkpoint_preimage_inj a b l r' (checkpoint_climb H (H m) i s)) in Eq;
        [|eauto using node_ok_length..|apply checkpoint_climb_length, digest_length|naive_solver].
      assert (m ∈ leaves ∨ collision_between (leaves ++ internals) (m :: climb_messages (H m) i s)) as [|(x & y & Hx & Hy & ?)]
        by (destruct Eq; auto); [by left|].
      right. exists x, y. rewrite Em. set_solver.
    + right. exists (checkpoint_internal_preimage a b), (checkpoint_internal_preimage l r').
      rewrite Em. split; [set_solver|]. split; [set_solver|]. split; [done|by symmetry].
Qed.
End Soundness.

(** ** Construction *)

Notation by_tenant := (fun a b : TenantRoot => str_cmp a.1 b.1).
#[local] Instance by_tenant_order : CmpOrder by_tenant := key_order str_cmp fst.

Lemma find_duplicate_spec prev l : StronglySorted (cmp_le by_tenant) l →
  (∀ p, prev = Some p → Forall (fun e => str_cmp p e.1 ≠ Gt) l) →
  match find_duplicate prev l with
  | None => NoDup l.*1 ∧ ∀ p, prev = Some p → p ∉ l.*1
  | Some t => t ∈ l.*1 ∧ (NoDup l.*1 → prev = Some t)
  end.
Proof.
  revert prev. induction l as [|[t r] l IH]; intros prev Hs Hp.
  { cbn. split; [constructor|]. intros p _. apply not_elem_of_nil. }
  inversion_clear Hs as [|? ? Hl Ht]. cbn [find_duplicate fmap list_fmap fst].
  destruct (match prev with Some _ => _ | None => _ end) eqn:E.
  { destruct prev as [p|]; [|done]. apply String.eqb_eq in E as ->. split; [left|done]. }
  specialize (IH (Some t) Hl ltac:(by intros ? [= <-])).
  destruct (find_duplicate (Some t) l) as [u|].
  - destruct IH as [Hu Hnd]. split; [by right|]. intros Hd. apply NoDup_cons in Hd as [Hnin Hd].
    specialize (Hnd Hd) as [= ->]. done.
  - destruct IH as [Hd Hnin]. split; [by constructor; [apply Hnin|]|].
    intros p ->. rewrite elem_of_cons. apply String.eqb_neq in E. intros [->|Hin]; [done|].
    apply list_elem_of_fmap in Hin as (e & -> & He). specialize (Hp _ eq_refl). inversion_clear Hp as [|? ? Hle _].
    rewrite Forall_forall in Ht. specialize (Ht e He). unfold cmp_le in Ht. cbn in Hle, Ht.
    apply E, str_cmp_eq. rewrite str_cmp_antisym in Ht. by destruct (str_cmp e.1 t).
Qed.

Lemma tenant_position_lookup t l i : tenant_position t l = Some i → ∃ r, l !! i = Some (t, r).
Proof.
  revert i. induction l as [|[t' r] l IH]; intros i; cbn [tenant_position fst]; [done|].
  destruct (String.eqb_spec t' t) as [->|].
  - intros [= <-]. by exists r.
  - destruct (tenant_position t l) as [j|]; [|done]. intros [= <-]. by apply IH.
Qed.

Lemma tenant_position_None t (l : list TenantRoot) : t ∉ l.*1 → tenant_position t l = None.
Proof.
  induction l as [|[t' r] l IH]; cbn [tenant_position fmap list_fmap fst]; [done|].
  intros [Hne Hin]%not_elem_of_cons. destruct (String.eqb_spec t' t) as [->|]; [done|]. by rewrite IH.
Qed.

Lemma tenant_position_Some t (l : list TenantRoot) : t ∈ l.*1 → is_Some (tenant_position t l).
Proof.
  induction l as [|[t' r] l IH]; cbn [tenant_position fmap list_fmap fst]; [by intros ?%not_elem_of_nil|].
  destruct (String.eqb_spec t' t) as [->|Hne]; [by eauto|].
  intros [->|Hin]%elem_of_cons; [done|]. destruct (IH Hin) as [j ->]. by eexists.
Qed.

Lemma find_tenant_elem t r (l : list TenantRoot) : NoDup l.*1 → (t, r) ∈ l → List.find (fun e => String.eqb e.1 t) l = Some (t, r).
Proof.
  induction l as [|[t' r'] l IH]; cbn [List.find fmap list_fmap fst]; [by intros _ ?%not_elem_of_nil|].
  intros [Hnin Hd]%NoDup_cons [[= -> ->]|Hin]%elem_of_cons; [by rewrite String.eqb_refl|].
  destruct (String.eqb_spec t' t) as [->|]; [|by apply IH].
  destruct Hnin. apply list_elem_of_fmap. by exists (t, r).
Qed.

Lemma nodup_fst_unique (l : list TenantRoot) t r r' : NoDup l.*1 → (t, r) ∈ l → (t, r') ∈ l → r = r'.
Proof. intros Hd H1%find_tenant_elem H2%find_tenant_elem; [congruence|done..]. Qed.

Section Claims.
Context (H : string → string).

Notation leaf_nodes entries := (map (fun e : TenantRoot => checkpoint_leaf H e.1 e.2) entries).

(** What a constructed checkpoint holds. *)
Lemma from_tenant_roots_Ok pairs c : from_tenant_roots H pairs = Ok c →
  pairs ≠ [] ∧ NoDup pairs.*1 ∧ cr_entries c = sort_by by_tenant pairs ∧
  cr_levels c = build_levels H (leaf_nodes (cr_entries c)) ∧
  level_root H (length pairs) (leaf_nodes (cr_entries c)) = Some (cr_root c).
Proof.
  unfold from_tenant_roots. destruct pairs as [|p pairs]; [done|]. set (l := p :: pairs).
  pose proof (find_duplicate_spec None (sort_by by_tenant l) (sort_by_sorted _ l) ltac:(done)) as Hd.
  destruct (find_duplicate None _) as [t|]; [done|]. destruct Hd as [Hd _].
  destruct (level ← last _; head level) as [root|] eqn:E; [|done]. intros [= <-]. cbn [cr_entries cr_levels cr_root].
  split; [done|]. split; [by rewrite <- (sort_by_perm by_tenant l)|]. split; [done|]. split; [done|].
  unfold level_root. unfold build_levels in E. by rewrite length_map, sort_by_length in E.
Qed.

Lemma from_tenant_roots_Err pairs e : from_tenant_roots H pairs = Err e →
  match e with
  | EmptyTenantRoots => pairs = []
  | DuplicateTenant t => t ∈ pairs.*1 ∧ ¬ NoDup pairs.*1
  end.
Proof.
  unfold from_tenant_roots. destruct pairs as [|p pairs]; [by intros [= <-]|]. set (l := p :: pairs).
  pose proof (find_duplicate_spec None (sort_by by_tenant l) (sort_by_sorted _ l) ltac:(done)) as Hd.
  destruct (find_duplicate None _) as [t|].
  { intros [= <-]. rewrite (sort_by_perm by_tenant l) in Hd. destruct Hd as [Ht Hd].
    split; [done|]. intros Hnd. by specialize (Hd Hnd). }
  destruct (level_root_exists H (length (leaf_nodes (sort_by by_tenant l))) (leaf_nodes (sort_by by_tenant l))) as [r Hr];
    [rewrite length_map, sort_by_length; cbn; lia|done|].
  unfold level_root in Hr. unfold build_levels. by rewrite Hr.
Qed.

Lemma from_tenant_roots_perm pairs pairs' : NoDup pairs.*1 → pairs ≡ₚ pairs' →
  from_tenant_roots H pairs = from_tenant_roots H pairs'.
Proof.
  intros Hd Hp. assert (sort_by by_tenant pairs = sort_by by_tenant pairs') as E.
  { apply sort_by_unique; [exact _|done|]. intros [t r] [t' r'] H1 H2 Ht%str_cmp_eq. cbn in Ht. subst t'.
    f_equal. by eapply nodup_fst_unique. }
  unfold from_tenant_roots. rewrite E.
  destruct pairs as [|p pairs], pairs' as [|p' pairs']; [done|..|done].
  - by apply Permutation_nil_l in Hp.
  - by apply Permutation_nil_r in Hp.
Qed.

(** A checkpoint is a function of the set of tenant roots, and it can prove each of
    them.  Construction fails exactly on an empty list and on a repeated tenant; otherwise any
    reordering of the input gives the same checkpoint, every tenant's root is found and has a
    proof that names it and verifies, and no other tenant has one. *)
Theorem checkpoint_complete pairs :
  match from_tenant_roots H pairs with
  | Err EmptyTenantRoots => pairs = []
  | Err (DuplicateTenant t) => t ∈ pairs.*1 ∧ ¬ NoDup pairs.*1
  | Ok c =>
      pairs ≠ [] ∧ NoDup pairs.*1 ∧
      (∀ pairs', pairs ≡ₚ pairs' → from_tenant_roots H pairs' = Ok c) ∧
      (∀ t r, (t, r) ∈ pairs → tenant_root c t = Some r ∧
         ∃ proof, prove_tenant_root c t = Some proof ∧ trp_tenant_id proof = t ∧
                  trp_tenant_root proof = r ∧ verify_tenant_root H c proof = true) ∧
      (∀ t, t ∉ pairs.*1 → tenant_root c t = None ∧ prove_tenant_root c t = None)
  end.
Proof.
  destruct (from_tenant_roots H pairs) as [c|[|t]] eqn:E.
  - destruct (from_tenant_roots_Ok pairs c E) as (Hne & Hd & He & Hl & Hr). split; [done|]. split; [done|].
    split; [intros pairs' Hp; by rewrite <- (from_tenant_roots_perm pairs pairs')|].
    assert (cr_entries c ≡ₚ pairs) as Hperm by (rewrite He; apply sort_by_perm).
    assert (NoDup (cr_entries c).*1) as Hd' by by rewrite Hperm.
    split; [|intros t Ht; split].
    + intros t r Hin. rewrite <- Hperm in Hin. split.
      { unfold tenant_root. by rewrite (find_tenant_elem t r). }
      destruct (tenant_position_Some t (cr_entries c)) as [i Hi]; [apply list_elem_of_fmap; by exists (t, r)|].
      destruct (tenant_position_lookup _ _ _ Hi) as [r' Hr'].
      assert (r' = r) as -> by (eapply nodup_fst_unique; [done|by eapply list_elem_of_lookup_2|done]).
      unfold prove_tenant_root. rewrite Hi. cbn [mbind option_bind]. rewrite Hr'. cbn [mbind option_bind snd].
      eexists. split; [reflexivity|]. split; [done|]. split; [done|].
      apply String.eqb_eq. cbn [trp_tenant_id trp_tenant_root trp_index trp_steps].
      rewrite (path_steps_climb H (length pairs) _ i (checkpoint_leaf H t r) 0) in Hr.
      * injection Hr as Hr. rewrite Hl. unfold build_levels. by rewrite length_map, He, sort_by_length, <- He.
      * by rewrite length_map, He, sort_by_length.
      * by rewrite list_lookup_fmap, Hr'.
    + unfold tenant_root. destruct (List.find _ _) as [e|] eqn:Ef; [|done].
      apply List.find_some in Ef as [Hin Heq%String.eqb_eq]. destruct Ht. rewrite <- Hperm, <- Heq.
      apply list_elem_of_fmap. exists e. split; [done|]. by apply list_elem_of_In.
    + unfold prove_tenant_root. by rewrite tenant_position_None by by rewrite Hperm.
  - exact (from_tenant_roots_Err _ _ E).
  - exact (from_tenant_roots_Err _ _ E).
Qed.

Context `{!DigestLength H}.

(** The messages hashed by the construction of a checkpoint over [entries], and by the
    verification of a proof. *)
Definition construction_messages (entries : list TenantRoot) : list string :=
  map (fun e => checkpoint_leaf_preimage e.1 e.2) entries ++
  tree_messages H (length entries) (leaf_nodes entries).
Definition verification_messages (proof : TenantRootProof) : list string :=
  checkpoint_leaf_preimage (trp_tenant_id proof) (trp_tenant_root proof)
    :: climb_messages H (checkpoint_leaf H (trp_tenant_id proof) (trp_tenant_root proof))
         (trp_index proof) (trp_steps proof).

(** C25: a verified tenant-root proof is true.  Whatever index and steps it carries, if it
    verifies against a checkpoint then the tenant had that root in the checkpoint's input, or
    two of the messages hashed - one in the construction, one in the verification - differ
    and have the same hash. *)
Theorem checkpoint_sound pairs c proof :
  from_tenant_roots H pairs = Ok c →
  Forall addressable pairs.*1 → addressable (trp_tenant_id proof) →
  verify_tenant_root H c proof = true →
  (trp_tenant_id proof, trp_tenant_root proof) ∈ pairs ∨
  collision_between H (construction_messages (cr_entries c)) (verification_messages proof).
Proof.
  intros Hc Ha Hp Hv%String.eqb_eq. destruct (from_tenant_roots_Ok pairs c Hc) as (_ & _ & He & _ & Hr).
  assert (cr_entries c ≡ₚ pairs) as Hperm by (rewrite He; apply sort_by_perm).
  apply level_root_ok with (leaves := map (fun e => checkpoint_leaf_preimage e.1 e.2) (cr_entries c))
    (internals := tree_messages H (length (cr_entries c)) (leaf_nodes (cr_entries c))) in Hr.
  - assert (Forall (fun m => ∃ t r, m = checkpoint_leaf_preimage t r)
              (map (fun e => checkpoint_leaf_preimage e.1 e.2) (cr_entries c))) as Hf.
    { apply Forall_forall. intros m Hm. apply list_elem_of_fmap in Hm as (e & -> & _). eauto. }
    destruct (checkpoint_climb_sound H _ _ _ (trp_tenant_id proof) (trp_tenant_root proof) _ _ Hf Hr Hv)
      as [Hin|Hcol]; [|by right].
    left. apply list_elem_of_fmap in Hin as ([t r] & E & Hin). rewrite Hperm in Hin. cbn [fst snd] in E.
    apply str_app_inv in E as [_ E]; [|done]. rewrite Forall_fmap, Forall_forall in Ha.
    apply len_prefix_inv in E as [-> ->]; [done|done|by apply (Ha _ Hin)].
  - exact _.
  - apply Forall_forall. intros n Hn. apply list_elem_of_fmap in Hn as (e & -> & Hin).
    unfold checkpoint_leaf. apply ok_leaf. apply list_elem_of_fmap. by exists e.
  - by rewrite (Permutation_length Hperm).
Qed.
End Claims.

(** ** Sample checkpoint *)

Module CheckpointSamples.
Definition roots : list TenantRoot :=
  [("beta", MerkleSamples.digest_2); ("alpha", MerkleSamples.digest_1); ("gamma", MerkleSamples.digest_1)].
Definition checkpoint : CheckpointRoot :=
  match from_tenant_roots sha256 roots with Ok c => c | Err _ => mkCheckpointRoot EmptyString [] [] end.
Definition proof : TenantRootProof :=
  default (mkTenantRootProof EmptyString EmptyString 0 []) (prove_tenant_root checkpoint "gamma").
End CheckpointSamples.

Lemma checkpoint_sound_witness :
  verify_tenant_root sha256 CheckpointSamples.checkpoint CheckpointSamples.proof = true ∧
  (("gamma", MerkleSamples.digest_1) ∈ CheckpointSamples.roots ∨
   collision_between sha256 (construction_messages sha256 (cr_entries CheckpointSamples.checkpoint))
     (verification_messages sha256 CheckpointSamples.proof)).
Proof.
  assert (verify_tenant_root sha256 CheckpointSamples.checkpoint CheckpointSamples.proof = true) as Hv
    by (vm_compute; reflexivity).
  split; [exact Hv|].
  apply (checkpoint_sound sha256 CheckpointSamples.roots CheckpointSamples.checkpoint CheckpointSamples.proof);
    [vm_compute; reflexivity|repeat constructor; vm_compute; discriminate|vm_compute; discriminate|exact Hv].
Defined.
