(* ===== verification/Commit.v ===== *)
(** * Commits

    Models [crates/statechronicle-commit/src]: the canonical event order ([ordering.rs]),
    event and state roots ([roots.rs]), batches ([batch.rs]), the commit body ([builder.rs]),
    fork and chain checks ([fork.rs]), and the commit record of
    [statechronicle-domain/src/commit.rs].  BCS is the parameter [canonicalize_event]. *)

From Stdlib Require Import ZArith Lia Ascii String Sorted.
From stdpp Require Import prelude gmap strings sorting.
From S2P Require Import Prelude Amount Domain Profile Atomicity SortFacts Keys Sha256 DefaultHashes Accumulator.
From S2P Require Import Economy DefaultTable Merkle Checkpoint.
Open Scope Z_scope.

(** ** Errors *)

Inductive CommitError :=
| EmptyBatch
| CDomain (e : DomainError)
| CCore (e : StateChronicleError)
| CAccumulator (e : AccumulatorError)
| InvalidEvent (msg : string)
| MixedTenant
| DuplicateEventId (event_id : string)
| DuplicateCanonicalKey (resource_id : string) (version : Z)
| OutOfOrder (resource_id : string) (version : Z)
| StateRootMismatch (expected actual : string)
| EventRootMismatch
| ForkDetected (parent : string) (sequence : Z)
| ChainGap (expected_parent : string) (actual_parent : option string)
| SequenceMismatch (expected actual : Z)
| EventRewrite (event_id : string)
| CSizeLimitExceeded (name : string) (limit actual : Z)
| CBuilderFieldMissing (field : string)
| Signing (msg : string)
| PayloadDigestMismatch
| CStore (msg : string).

Notation cresult A := (result A CommitError).

(** [From<StateChronicleError>]. *)
Definition commit_of_core (e : StateChronicleError) : CommitError :=
  match e with
  | SizeLimitExceeded name limit actual => CSizeLimitExceeded name limit actual
  | other => CCore other
  end.

(** A [ContentDigest] is its 32 bytes; [as_str] is the canonical text. *)
Definition digest_as_str (d : ContentDigest) : string := "sha256:" +:+ to_hex d.

(** ** The commit record *)

Inductive ScopeKind := ScopeTenant | ScopeGlobalCheckpoint.

Record CommitScope := mkScope { sc_kind : ScopeKind; sc_tenant_id : option TenantId }.
Definition scope_tenant (tenant_id : TenantId) : CommitScope := mkScope ScopeTenant (Some tenant_id).
Definition scope_global_checkpoint : CommitScope := mkScope ScopeGlobalCheckpoint None.

Definition COMMIT_SCHEMA : string := "statechronicle.commit.v0".

Record Commit := mkCommit {
  cm_schema : string;
  cm_scope : CommitScope;
  cm_commit_id : CommitId;
  cm_parent_commit_id : option CommitId;
  cm_sequence : Z;
  cm_event_count : Z;
  cm_event_merkle_root : ContentDigest;
  cm_previous_state_root : ContentDigest;
  cm_next_state_root : ContentDigest;
  cm_created_at : DateTime;
  cm_executor : SubjectId;
  cm_profile : ProfileId;
}.
Definition commit_new := mkCommit COMMIT_SCHEMA.

(** ** Canonical order *)

Definition canonical_cmp (left right : Event) : comparison :=
  then_with (str_cmp (e_resource_id left) (e_resource_id right))
    (then_with (c_version (e_after left) ?= c_version (e_after right))
       (str_cmp (e_event_id left) (e_event_id right))).

Definition sort_events (events : list Event) : cresult (list Event) := Ok (sort_by canonical_cmp events).
Definition order_events (events : list Event) : cresult (list Event) := sort_events events.

(** The key [(resource_id, after.version)] and its tuple order. *)
Definition canonical_key (e : Event) : string * Z := (e_resource_id e, c_version (e_after e)).
Definition key_gt (a b : string * Z) : bool :=
  match then_with (str_cmp a.1 b.1) (a.2 ?= b.2) with Gt => true | _ => false end.

Fixpoint validate_order_from (events : list Event) (seen_event_ids : gset string)
    (seen_keys : gset (string * Z)) (previous : option (string * Z)) : cresult unit :=
  match events with
  | [] => Ok tt
  | event :: events' =>
      let key := canonical_key event in
      if decide (e_event_id event ∈ seen_event_ids) then Err (DuplicateEventId (e_event_id event))
      else if decide (key ∈ seen_keys) then Err (DuplicateCanonicalKey (e_resource_id event) (c_version (e_after event)))
      else if match previous with Some previous_key => key_gt previous_key key | None => false end
      then Err (OutOfOrder (e_resource_id event) (c_version (e_after event)))
      else validate_order_from events' ({[e_event_id event]} ∪ seen_event_ids) ({[key]} ∪ seen_keys) (Some key)
  end.
Definition validate_order (events : list Event) : cresult unit := validate_order_from events ∅ ∅ None.

(** ** Forks and chains *)

Definition opt_id_eqb (a b : option CommitId) : bool := bool_decide (a = b).

Definition detect_fork (previous candidate_a candidate_b : Commit) : cresult unit :=
  if opt_id_eqb (cm_parent_commit_id candidate_a) (Some (cm_commit_id previous))
     && opt_id_eqb (cm_parent_commit_id candidate_b) (Some (cm_commit_id previous))
     && (cm_sequence candidate_a =? cm_sequence candidate_b)
     && negb (String.eqb (cm_commit_id candidate_a) (cm_commit_id candidate_b))
  then Err (ForkDetected (cm_commit_id previous) (cm_sequence candidate_a))
  else Ok tt.

Definition check_chain_continuity (previous next : Commit) : cresult unit :=
  if negb (opt_id_eqb (cm_parent_commit_id next) (Some (cm_commit_id previous))) then
    Err (ChainGap (cm_commit_id previous) (cm_parent_commit_id next))
  else
    let? expected_sequence := ok_or (checked_add_u64 (cm_sequence previous) 1)
      (SequenceMismatch U64_MAX (cm_sequence next)) in
    if negb (cm_sequence next =? expected_sequence) then
      Err (SequenceMismatch expected_sequence (cm_sequence next))
    else Ok tt.

Section WithCodec.
Context (H : string → string) (canonicalize_event : Event → result string StateChronicleError).

(** [canonicalize_and_digest]. *)
Definition event_digest (e : Event) : result ContentDigest StateChronicleError :=
  let? bytes := canonicalize_event e in Ok (H bytes).

Definition validate_no_event_rewrite (accepted candidate : Event) : cresult unit :=
  if negb (String.eqb (e_event_id accepted) (e_event_id candidate)) then Ok tt
  else
    let? accepted_digest := map_err commit_of_core (event_digest accepted) in
    let? candidate_digest := map_err commit_of_core (event_digest candidate) in
    if negb (String.eqb accepted_digest candidate_digest) then Err (EventRewrite (e_event_id accepted))
    else Ok tt.

(** ** Event root *)

Definition event_leaf_hash (event_digest : string) : string := H (byte LEAF_NODE_TAG +:+ event_digest).

(** The pairing loop; a level of [n > 1] nodes shrinks, so [n] rounds suffice. *)
Fixpoint reduce_level (fuel : nat) (level : list string) : list string :=
  match fuel with
  | O => level
  | S fuel' =>
      if (1 <? length level)%nat then reduce_level fuel' (pair_level (internal_hash H) level) else level
  end.

Definition event_root (events : list Event) : cresult ContentDigest :=
  match events with
  | [] => Err EmptyBatch
  | _ =>
      let? level := rmap (fun event =>
        let? digest := map_err commit_of_core (event_digest event) in Ok (event_leaf_hash digest)) events in
      ok_or (head (reduce_level (length level) level)) EmptyBatch
  end.

(** ** State root *)

Definition event_subject (event : Event) : cresult string :=
  ok_or (rs_subject (c_state (e_after event))) (InvalidEvent "after-state is missing `subject`").

(** [roots::state_key_for]. *)
Definition event_state_key (event : Event) (state_type : StateType) : cresult StateKey :=
  match state_type with
  | StConsumableStack | StFungibleBalance | StEntitlement | StMeteredResource =>
      let? subject := event_subject event in
      Ok (for_subject_held H (e_tenant_id event) (e_resource_id event) subject)
  | StUniqueAsset | StListing | StEscrow | StCustom =>
      Ok (for_resource H (e_tenant_id event) (e_resource_id event))
  end.

Definition infer_state_key (event : Event) : cresult StateKey :=
  match rs_subject (c_state (e_after event)) with
  | Some _ =>
      let? subject := event_subject event in
      Ok (for_subject_held H (e_tenant_id event) (e_resource_id event) subject)
  | None => Ok (for_resource H (e_tenant_id event) (e_resource_id event))
  end.

(** [updates.sort_by_key(|a| a.key)]. *)
Definition sort_updates (updates : list Entry) : list Entry := sort_by (fun a b => str_cmp a.1 b.1) updates.

Definition state_root_updates (events : list Event) : cresult (list Entry) :=
  match events with
  | [] => Err EmptyBatch
  | _ =>
      let? updates := rmap (fun event =>
        let? key := infer_state_key event in Ok (key, c_state_hash (e_after event))) events in
      Ok (sort_updates updates)
  end.

(** The accumulator never rejects a batch. *)
Definition compute_state_root (updates : list Entry) : string :=
  compute_root H (insert_batch H accumulator_empty updates).1.

Definition verify_state_root_continuity (previous_state_root : ContentDigest)
    (prior_updates current_updates : list Entry) (declared_next_state_root : ContentDigest) : cresult unit :=
  let prior_root := compute_state_root prior_updates in
  if negb (String.eqb prior_root previous_state_root) then
    Err (StateRootMismatch (digest_as_str previous_state_root) (digest_as_str prior_root))
  else
    let next_root := compute_state_root (sort_updates (prior_updates ++ current_updates)) in
    if negb (String.eqb next_root declared_next_state_root) then
      Err (StateRootMismatch (digest_as_str declared_next_state_root) (digest_as_str next_root))
    else Ok tt.

(** ** Batches *)

Definition MAX_EVENT_BYTES : Z := 64 * 1024.
Definition MAX_COMMIT_BYTES : Z := 1024 * 1024.

Record CommitBatch := mkBatch { cb_scope : CommitScope; cb_events : list Event }.
Definition batch_new (scope : CommitScope) : CommitBatch := mkBatch scope [].

(** [CommitBatch::add_event]: the new batch, or the error and no change. *)
Definition add_event (batch : CommitBatch) (event : Event) : cresult CommitBatch :=
  if match sc_tenant_id (cb_scope batch) with
     | Some tenant => negb (String.eqb tenant (e_tenant_id event))
     | None => false
     end then Err MixedTenant
  else if existsb (fun existing => String.eqb (e_event_id existing) (e_event_id event)) (cb_events batch) then
    Err (DuplicateEventId (e_event_id event))
  else
    let? bytes := map_err commit_of_core (canonicalize_event event) in
    if MAX_EVENT_BYTES <? slen bytes then Err (CSizeLimitExceeded "event" MAX_EVENT_BYTES (slen bytes))
    else Ok (mkBatch (cb_scope batch) (cb_events batch ++ [event])).

(** The running total of [validate], with [usize] of 64 bits. *)
Fixpoint total_bytes (events : list Event) (total : Z) : cresult Z :=
  match events with
  | [] => Ok total
  | event :: rest =>
      let? bytes := map_err commit_of_core (canonicalize_event event) in
      let? total := ok_or (checked_add_u64 total (slen bytes))
        (CSizeLimitExceeded "commit" MAX_COMMIT_BYTES U64_MAX) in
      total_bytes rest total
  end.

Definition batch_validate (batch : CommitBatch) : cresult unit :=
  match cb_events batch with
  | [] => Err EmptyBatch
  | events =>
      let? total := total_bytes events 0 in
      if MAX_COMMIT_BYTES <? total then Err (CSizeLimitExceeded "commit" MAX_COMMIT_BYTES total) else Ok tt
  end.

(** ** The builder *)

Record CommitBuilder := mkCommitBuilder {
  bu_scope : option CommitScope;
  bu_sequence : Z;
  bu_executor : option SubjectId;
  bu_profile : option ProfileId;
  bu_created_at : option DateTime;
  bu_parent_commit_id : option CommitId;
}.

(** [CommitBuilder::build]; [next_commit_id] is the outcome of the injected generator. *)
Definition commit_build (b : CommitBuilder) (batch : CommitBatch) (previous_state_root : ContentDigest)
    (prior_updates : list Entry) (next_commit_id : cresult CommitId) : cresult Commit :=
  let? scope := ok_or (bu_scope b) (CBuilderFieldMissing "scope") in
  let? executor := ok_or (bu_executor b) (CBuilderFieldMissing "executor") in
  let? profile := ok_or (bu_profile b) (CBuilderFieldMissing "profile") in
  let? created_at := ok_or (bu_created_at b) (CBuilderFieldMissing "created_at") in
  batch_validate batch ;?
  let events := cb_events batch in
  let? event_merkle_root := event_root events in
  let? current_updates := state_root_updates events in
  let next_state_root := compute_state_root (sort_updates (prior_updates ++ current_updates)) in
  let? commit_id := next_commit_id in
  let? event_count := ok_or (checked_op U64_MAX (Z.of_nat (length events)))
    (InvalidEvent "event count does not fit in u64: out of range integral type conversion attempted") in
  Ok (commit_new scope commit_id (bu_parent_commit_id b) (bu_sequence b) event_count
        event_merkle_root previous_state_root next_state_root created_at executor profile).
End WithCodec.

(** ** Canonical order *)

(** The order of the keys alone. *)
Definition key_cmp (a b : Event) : comparison :=
  then_with (str_cmp (e_resource_id a) (e_resource_id b)) (c_version (e_after a) ?= c_version (e_after b)).

#[export] Instance key_cmp_order : CmpOrder key_cmp :=
  then_with_order _ _ (CmpOrder0 := key_order str_cmp e_resource_id)
    (CmpOrder1 := key_order Z.compare (fun e => c_version (e_after e))).

Lemma canonical_cmp_split a b :
  canonical_cmp a b = then_with (key_cmp a b) (str_cmp (e_event_id a) (e_event_id b)).
Proof. unfold canonical_cmp, key_cmp. by destruct (str_cmp (e_resource_id a) (e_resource_id b)). Qed.

#[export] Instance canonical_cmp_order : CmpOrder canonical_cmp.
Proof.
  pose proof (then_with_order key_cmp _ (CmpOrder1 := key_order str_cmp e_event_id)) as Hc.
  split; intros *; rewrite !canonical_cmp_split; [apply (cmp_opp (CmpOrder := Hc))|apply (cmp_trans (CmpOrder := Hc))].
Qed.

Lemma key_cmp_eq a b : key_cmp a b = Eq ↔ canonical_key a = canonical_key b.
Proof.
  unfold key_cmp, canonical_key, then_with. destruct (str_cmp _ _) eqn:E.
  - apply str_cmp_eq in E as ->. rewrite Z.compare_eq_iff. split; [by intros ->|by intros [= ->]].
  - split; [done|]. intros [= E1 _]. by rewrite E1, str_cmp_refl in E.
  - split; [done|]. intros [= E1 _]. by rewrite E1, str_cmp_refl in E.
Qed.

Lemma key_gt_spec a b : key_gt (canonical_key a) (canonical_key b) = false ↔ cmp_le key_cmp a b.
Proof. unfold key_gt, cmp_le, key_cmp. cbn. by destruct (then_with _ _). Qed.

(** [validate_order] accepts exactly the lists with distinct ids and keys in key order. *)
Lemma validate_order_from_Ok l ids keys prev :
  validate_order_from l ids keys (canonical_key <$> prev) = Ok tt ↔
  NoDup (map e_event_id l) ∧ (∀ e, e ∈ l → e_event_id e ∉ ids) ∧
  NoDup (map canonical_key l) ∧ (∀ e, e ∈ l → canonical_key e ∉ keys) ∧
  Sorted (cmp_le key_cmp) (option_list prev ++ l).
Proof.
  revert ids keys prev. induction l as [|e l IH]; intros ids keys prev; cbn [validate_order_from map].
  { split; [intros _|done]. split_and!; [constructor|by intros e ?%not_elem_of_nil|constructor|by intros e ?%not_elem_of_nil|].
    destruct prev; repeat constructor. }
  destruct (decide (e_event_id e ∈ ids)) as [Hid|Hid].
  { split; [done|]. intros (_ & Hn & _). by destruct (Hn e ltac:(left)). }
  destruct (decide (canonical_key e ∈ keys)) as [Hk|Hk].
  { split; [done|]. intros (_ & _ & _ & Hn & _). by destruct (Hn e ltac:(left)). }
  assert ((match canonical_key <$> prev with Some p => key_gt p (canonical_key e) | None => false end) = false ↔
          ∀ p, prev = Some p → cmp_le key_cmp p e) as Hprev.
  { destruct prev as [p|]; cbn; [|naive_solver]. rewrite key_gt_spec. naive_solver. }
  destruct (match canonical_key <$> prev with Some _ => _ | None => _ end).
  { split; [done|]. intros (_ & _ & _ & _ & Hs). assert (true = false) by (apply Hprev; intros p ->;
      inversion_clear Hs as [|? ? ? Hh]; by inversion_clear Hh). done. }
  change (Some (canonical_key e)) with (canonical_key <$> Some e). rewrite (IH _ _ (Some e)).
  assert (Sorted (cmp_le key_cmp) (option_list prev ++ e :: l) ↔ Sorted (cmp_le key_cmp) (option_list (Some e) ++ l)) as ->.
  { destruct prev as [p|]; [|done]. cbn [option_list app]. split; [by inversion 1|].
    constructor; [done|]. constructor. by apply Hprev. }
  rewrite !NoDup_cons. rewrite !list_elem_of_fmap. split.
  - intros (Hd & Hn & Hdk & Hnk & Hs). split_and!; [|done| | |done| |done].
    + intros (x & E & Hx). apply (Hn x Hx). rewrite <- E. apply elem_of_union. left. by apply elem_of_singleton.
    + intros x [->|Hx]%elem_of_cons; [done|]. intros Hi. apply (Hn x Hx), elem_of_union. by right.
    + intros (x & E & Hx). apply (Hnk x Hx). rewrite <- E. apply elem_of_union. left. by apply elem_of_singleton.
    + intros x [->|Hx]%elem_of_cons; [done|]. intros Hi. apply (Hnk x Hx), elem_of_union. by right.
  - intros ([Hnin Hd] & Hn & [Hknin Hdk] & Hnk & Hs). split_and!; [done| |done| |done].
    + intros x Hx [E%elem_of_singleton|Hi]%elem_of_union; [apply Hnin; by exists x|]. by apply (Hn x); [right|].
    + intros x Hx [E%elem_of_singleton|Hi]%elem_of_union; [apply Hknin; by exists x|]. by apply (Hnk x); [right|].
Qed.

Lemma StronglySorted_impl_elem {A} (R R' : A → A → Prop) l : StronglySorted R l →
  (∀ a b, a ∈ l → b ∈ l → R a b → R' a b) → StronglySorted R' l.
Proof.
  induction 1 as [|a l Hl IH Ha]; intros HR; constructor; [apply IH; intros x y Hx Hy; apply HR; by right|].
  rewrite Forall_forall in *. intros x Hx. apply HR; [left|by right|auto].
Qed.

Lemma NoDup_map_inj {A B} (f : A → B) l a b : NoDup (map f l) → a ∈ l → b ∈ l → f a = f b → a = b.
Proof.
  induction l as [|x l IH]; cbn [map]; [by intros _ ?%not_elem_of_nil|].
  intros [Hnin Hd]%NoDup_cons [->|Ha]%elem_of_cons [->|Hb]%elem_of_cons E; [done| | |by apply IH];
    destruct Hnin; apply list_elem_of_fmap; by eexists.
Qed.

Lemma validate_order_Ok l : validate_order l = Ok tt ↔
  NoDup (map e_event_id l) ∧ NoDup (map canonical_key l) ∧ StronglySorted (cmp_le key_cmp) l.
Proof.
  unfold validate_order. change None with (canonical_key <$> @None Event). rewrite validate_order_from_Ok.
  cbn [option_list app]. split.
  - intros (? & _ & ? & _ & Hs). split_and!; [done..|]. apply Sorted_StronglySorted; [|done].
    intros a b c. apply cmp_trans.
  - intros (? & ? & Hs). split_and!; [done|by intros ? _ ?%elem_of_empty|done|by intros ? _ ?%elem_of_empty|].
    by apply StronglySorted_Sorted.
Qed.

(** The canonical order is well defined and [validate_order] recognises it.  For
    events with distinct ids, sorting permutes them and gives the same sequence for every
    input order; the sorted sequence is accepted exactly when no two events share resource
    and version; and it is the only arrangement that can be accepted. *)
Theorem canonical_event_order (events : list Event) : NoDup (map e_event_id events) →
  ∃ sorted, order_events events = Ok sorted ∧ sorted ≡ₚ events ∧
    (∀ events', events' ≡ₚ events → order_events events' = Ok sorted) ∧
    (validate_order sorted = Ok tt ↔ NoDup (map canonical_key events)) ∧
    (∀ events', events' ≡ₚ events → validate_order events' = Ok tt → events' = sorted).
Proof.
  intros Hd. exists (sort_by canonical_cmp events). unfold order_events, sort_events.
  assert (∀ a b, a ∈ events → b ∈ events → canonical_cmp a b = Eq → a = b) as Heq.
  { intros a b Ha Hb E. rewrite canonical_cmp_split in E.
    destruct (key_cmp a b); try done. cbn in E. apply str_cmp_eq in E. by eapply NoDup_map_inj. }
  split; [done|]. split; [apply sort_by_perm|]. split; [|split].
  - intros events' Hp. f_equal. symmetry. by apply sort_by_unique; [exact _| |].
  - assert (∀ {B} (f : Event → B), map f (sort_by canonical_cmp events) ≡ₚ map f events) as Hm
      by (intros; apply Permutation_map, sort_by_perm).
    rewrite validate_order_Ok, !Hm. split; [by intros (_ & ? & _)|].
    intros Hk. split_and!; [done..|]. eapply StronglySorted_impl_elem; [apply sort_by_sorted; exact _|].
    intros a b _ _. unfold cmp_le. rewrite canonical_cmp_split. by destruct (key_cmp a b).
  - intros events' Hp (_ & Hk & Hs)%validate_order_Ok.
    apply (sorted_perm_eq canonical_cmp); [|apply sort_by_sorted; exact _|by rewrite Hp, sort_by_perm|].
    + eapply StronglySorted_impl_elem; [done|]. intros a b Ha Hb. unfold cmp_le. rewrite canonical_cmp_split.
      destruct (key_cmp a b) eqn:E; [|done..]. apply key_cmp_eq in E.
      rewrite (NoDup_map_inj canonical_key _ _ _ Hk Ha Hb E). cbn. by rewrite str_cmp_refl.
    + intros a b. rewrite Hp. apply Heq.
Qed.

(** Two commits that both continue [p] are a fork exactly when they differ in id. *)
Lemma continuations_fork p a b : check_chain_continuity p a = Ok tt → check_chain_continuity p b = Ok tt →
  detect_fork p a b = Ok tt ↔ cm_commit_id a = cm_commit_id b.
Proof.
  unfold check_chain_continuity, detect_fork, opt_id_eqb. intros Ha Hb. res_inv Ha. res_inv Hb.
  rewrite negb_false_iff in *. rewrite Z.eqb_eq in *. subst.
  repeat match goal with E : bool_decide _ = true |- _ => rewrite E; clear E end.
  assert (cm_sequence a = cm_sequence b) as -> by congruence. rewrite Z.eqb_refl. cbn [andb].
  by destruct (String.eqb_spec (cm_commit_id a) (cm_commit_id b)).
Qed.

(** ** State roots *)

Lemma last_write_sort updates key : last_write (sort_updates updates) key = last_write updates key.
Proof.
  unfold last_write, sort_updates. rewrite sort_by_filter; [done|].
  intros a b -> ->. by rewrite str_cmp_refl.
Qed.

Section Roots.
Context (H : string → string) (canonicalize_event : Event → result string StateChronicleError).
Context `{!DigestLength H}.

Lemma compute_state_root_build updates : compute_state_root H updates = compute_root H (build H [updates]).
Proof. reflexivity. Qed.

Lemma infer_state_key_typed e :
  infer_state_key H e = event_state_key H e (rs_state_type (c_state (e_after e))).
Proof. unfold infer_state_key, event_state_key, event_subject. by destruct (c_state (e_after e)). Qed.

Lemma event_state_key_is_key e t k : event_state_key H e t = Ok k → is_key k.
Proof.
  unfold event_state_key, is_key. intros E.
  destruct t; res_inv E; subst; unfold for_resource, for_subject_held; apply digest_length.
Qed.

(** The update an event makes: its state key and the digest of its after-state. *)
Definition event_update (e : Event) (u : Entry) : Prop :=
  event_state_key H e (rs_state_type (c_state (e_after e))) = Ok u.1 ∧ u.2 = c_state_hash (e_after e).

Lemma state_root_updates_Ok events current : state_root_updates H events = Ok current →
  ∃ updates, Forall2 event_update events updates ∧ current = sort_updates updates.
Proof.
  unfold state_root_updates. destruct events as [|e events]; [done|]. intros E.
  apply rbind_Ok in E as (us & Hus & [= <-]). exists us. split; [|done]. apply rmap_Ok in Hus.
  eapply Forall2_impl; [done|]. intros x u Hx. apply rbind_Ok in Hx as (k & Hk & [= <-]).
  split; [by rewrite <- infer_state_key_typed|done].
Qed.

(** Sorting prior and current updates and rebuilding gives the incremental root. *)
Lemma rebuilt_root prior updates : Forall (fun u : Entry => is_key u.1) prior →
  Forall (fun u : Entry => is_key u.1) updates →
  compute_state_root H (sort_updates (prior ++ sort_updates updates)) = (insert_batch H (build H [prior]) updates).2.
Proof.
  intros Hp Hu. rewrite compute_state_root_build.
  change (insert_batch H (build H [prior]) updates).2 with (compute_root H (build H [prior; updates])).
  unfold compute_root. rewrite (build_leaves_ext H _ [prior; updates]); [done|..].
  - constructor; [|constructor]. unfold sort_updates. by rewrite !sort_by_perm, Forall_app.
  - by repeat constructor.
  - intros key. cbn [mjoin list_join]. rewrite !app_nil_r, last_write_sort. unfold last_write.
    rewrite !filter_app. unfold sort_updates. rewrite sort_by_filter; [done|]. intros a b -> ->. by rewrite str_cmp_refl.
Qed.

(** The state updates of a built commit and the root they lead to. *)
Lemma commit_build_updates (b : CommitBuilder) (batch : CommitBatch) previous prior id (c : Commit) :
  Forall (fun u : Entry => is_key u.1) prior →
  commit_build H canonicalize_event b batch previous prior id = Ok c →
  ∃ updates, Forall2 event_update (cb_events batch) updates ∧ Forall (fun u : Entry => is_key u.1) updates ∧
    updates ≠ [] ∧ state_root_updates H (cb_events batch) = Ok (sort_updates updates) ∧
    cm_previous_state_root c = previous ∧ cm_event_count c = Z.of_nat (length updates) ∧
    cm_next_state_root c = (insert_batch H (build H [prior]) updates).2.
Proof.
  intros Hp E. unfold commit_build in E. res_inv E. subst c. cbn [commit_new cm_previous_state_root cm_event_count cm_next_state_root].
  match goal with Hs : state_root_updates _ _ = Ok ?cur |- _ =>
    rename Hs into Hcur; destruct (state_root_updates_Ok _ _ Hcur) as (updates & Hf & ->) end.
  assert (Forall (fun u : Entry => is_key u.1) updates) as Hu.
  { apply Forall_forall. intros u Hin. apply list_elem_of_lookup in Hin as [i Hi].
    destruct (Forall2_lookup_r _ _ _ _ _ Hf Hi) as (e & _ & Hk & _). by eapply event_state_key_is_key. }
  exists updates. pose proof (Forall2_length _ _ _ Hf) as Hlen. split_and!; [done|done| |done|done| |].
  - intros ->. by destruct (cb_events batch).
  - match goal with Hc : checked_op _ _ = Some _ |- _ => apply checked_op_Some in Hc as [-> _] end. by rewrite Hlen.
  - by apply rebuilt_root.
Qed.

(** C17: a commit's next state root is the accumulator's.  It is the root obtained by
    inserting into the accumulator of the prior updates, in event order, the after-state
    digest of every event at the key of its state; when the declared previous root is that of
    the prior updates the continuity check accepts the commit, and it accepts no other next
    root. *)
Theorem commit_roots_chain (b : CommitBuilder) (batch : CommitBatch) (previous : ContentDigest)
    (prior : list Entry) (id : cresult CommitId) (c : Commit) :
  Forall (fun u => is_key u.1) prior →
  commit_build H canonicalize_event b batch previous prior id = Ok c →
  ∃ updates current, Forall2 event_update (cb_events batch) updates ∧ updates ≠ [] ∧
    cm_previous_state_root c = previous ∧ cm_event_count c = Z.of_nat (length updates) ∧
    cm_next_state_root c = (insert_batch H (build H [prior]) updates).2 ∧
    state_root_updates H (cb_events batch) = Ok current ∧
    ∀ declared, verify_state_root_continuity H previous prior current declared = Ok tt ↔
      previous = compute_root H (build H [prior]) ∧ declared = cm_next_state_root c.
Proof.
  intros Hp E. destruct (commit_build_updates _ _ _ _ _ _ Hp E) as (updates & Hf & Hu & Hne & Hcur & Hprev & Hn & Hroot).
  exists updates, (sort_updates updates). do 6 (split; [done|]). intros declared.
  unfold verify_state_root_continuity. rewrite rebuilt_root, compute_state_root_build, Hroot by done.
  destruct (String.eqb_spec (compute_root H (build H [prior])) previous) as [<-|Hn1]; cbn [negb]; [|naive_solver].
  destruct (String.eqb_spec (insert_batch H (build H [prior]) updates).2 declared) as [<-|Hn2]; cbn [negb]; naive_solver.
Qed.
End Roots.

(** ** Samples *)

Module CommitSamples.
(** A stand-in hash: the first 32 bytes of the message, padded with zeros. *)
Definition pad32 (m : string) : string := str_take 32 (m +:+ zero_block).
#[global] Instance pad32_length : DigestLength pad32.
Proof. intros m. unfold pad32. rewrite str_take_length, string_length_app. change (String.length zero_block) with 32%nat. lia. Qed.

Definition codec (e : Event) : result string StateChronicleError := Ok (e_event_id e).
Definition builder : CommitBuilder :=
  mkCommitBuilder (Some (scope_tenant "acme")) 7 (Some "exec") (Some "statechronicle.profile.resource.v0") (Some 0)
    (Some "cmt_6").
Definition batch : CommitBatch := mkBatch (scope_tenant "acme") [Quantities.debit; Quantities.credit].
Definition prior : list Entry := [(MerkleSamples.key_a, MerkleSamples.digest_1)].
Definition previous : ContentDigest := compute_state_root pad32 prior.
Definition built : cresult Commit := commit_build pad32 codec builder batch previous prior (Ok "cmt_7").
End CommitSamples.

Lemma canonical_event_order_witness : ∃ sorted,
  order_events [Quantities.credit; Quantities.debit] = Ok sorted ∧ sorted ≡ₚ [Quantities.credit; Quantities.debit].
Proof.
  destruct (canonical_event_order [Quantities.credit; Quantities.debit]) as (sorted & Hs & Hp & _).
  - apply (bool_decide_unpack _). vm_compute. exact I.
  - exists sorted. split; [exact Hs|exact Hp].
Defined.

Lemma commit_roots_chain_witness : ∃ c updates, CommitSamples.built = Ok c ∧ cm_event_count c = 2 ∧
  cm_next_state_root c = (insert_batch CommitSamples.pad32 (build CommitSamples.pad32 [CommitSamples.prior]) updates).2.
Proof.
  destruct CommitSamples.built as [c|e] eqn:E; [|vm_compute in E; discriminate E].
  destruct (commit_roots_chain CommitSamples.pad32 CommitSamples.codec _ _ _ CommitSamples.prior _ c
              ltac:(repeat constructor) E) as (updates & current & Hf & _ & _ & Hn & Hr & _).
  exists c, updates. split; [reflexivity|]. apply Forall2_length in Hf. cbn in Hf. rewrite <- Hf in Hn.
  split; [exact Hn|exact Hr].
Defined.

(** The order key leaves out the holder: the debit and the credit of one transfer start from
    the same version of one resource, pass the batch validator, and cannot be ordered. *)
Example transfer_pair_not_orderable :
  validate_batch_consistency [Quantities.debit; Quantities.credit] = Ok tt ∧
  validate_order [Quantities.debit; Quantities.credit] = Err (DuplicateCanonicalKey "asset:sword" 2).
Proof. split; vm_compute; reflexivity. Qed.

(** An empty subject is accepted and keyed like any other. *)
Example empty_subject_keyed :
  infer_state_key CommitSamples.pad32 (Quantities.event "evt_1" (Quantities.balance EmptyString 1 "gold") (Quantities.balance EmptyString 2 "gold")) =
    Ok (for_subject_held CommitSamples.pad32 "acme" "asset:sword" EmptyString).
Proof. reflexivity. Qed.
