(* ===== verification/Signing.v ===== *)
(** * Signed commits and global checkpoints

    Models [crates/statechronicle-commit/src/sign.rs] and [checkpoint.rs], the envelope of
    [statechronicle-domain/src/signed.rs], and the canonicalization and signature helpers of
    [statechronicle-core/src/canonicalize.rs] and [signature.rs].  BCS encoders and Ed25519
    are library code: parameters, an error being its rendered text. *)

From Stdlib Require Import ZArith Lia Ascii String.
From stdpp Require Import prelude gmap strings.
From S2P Require Import Prelude Amount Domain Profile SortFacts Keys Sha256 Accumulator Merkle Checkpoint Commit.
Open Scope Z_scope.

(** ** Canonical bytes *)

Notation Bcs A := (A → result string string).

(** [canonicalize] and [canonicalize_and_digest], for one encoder. *)
Definition canonicalize_with {A} (bcs : Bcs A) (value : A) : result string StateChronicleError :=
  map_err (Canonicalization "BCS serialization of protocol value failed") (bcs value).
Definition canonicalize_and_digest {A} (H : string → string) (bcs : Bcs A) (value : A)
    : result ContentDigest StateChronicleError :=
  let? bytes := canonicalize_with bcs value in Ok (H bytes).

(** ** Signatures *)

(** Ed25519 over byte strings. *)
Record SignatureScheme (SigningKey VerifyingKey : Type) := mkScheme {
  ed_sign : SigningKey → string → string;
  ed_verify_strict : VerifyingKey → string → string → result unit string;
}.
Arguments ed_sign {SigningKey VerifyingKey}. Arguments ed_verify_strict {SigningKey VerifyingKey}.

Record Signed (A : Type) := mkSigned { s_body : A; s_signature : SignatureBlock }.
Arguments mkSigned {A}. Arguments s_body {A}. Arguments s_signature {A}.

Definition alg_eqb (a b : SignatureAlg) : bool := match a, b with Ed25519, Ed25519 => true end.

(** ** Global checkpoints *)

Definition GLOBAL_CHECKPOINT_SCHEMA : string := "statechronicle.global_checkpoint.v0".

Record TenantRootEntry := mkTenantRootEntry {
  tre_tenant_id : TenantId; tre_commit_id : CommitId; tre_state_root : string }.

Record GlobalCheckpoint := mkGlobalCheckpoint {
  gc_schema : string;
  gc_sequence : Z;
  gc_tenant_roots : list TenantRootEntry;
  gc_tenant_merkle_root : ContentDigest;
  gc_created_at : DateTime;
  gc_executor : SubjectId;
}.
Definition global_checkpoint_new := mkGlobalCheckpoint GLOBAL_CHECKPOINT_SCHEMA.

Definition entry_pair (entry : TenantRootEntry) : TenantRoot := (tre_tenant_id entry, tre_state_root entry).

Definition build_global_checkpoint (H : string → string) (entries : list TenantRootEntry) (sequence : Z)
    (created_at : DateTime) (executor : SubjectId) : cresult GlobalCheckpoint :=
  let? checkpoint_root := map_err CAccumulator (from_tenant_roots H (map entry_pair entries)) in
  Ok (global_checkpoint_new sequence entries (cr_root checkpoint_root) created_at executor).

(** [serialize_state_root] writes the raw bytes; [deserialize_state_root] takes back exactly
    32 of them. *)
Definition deserialize_state_root (bytes : string) : result string string :=
  if slen bytes =? 32 then Ok bytes
  else Err ("state root must be exactly 32 bytes, got " +:+ u128_to_string (slen bytes)).

Section WithScheme.
Context {SigningKey VerifyingKey : Type} (scheme : SignatureScheme SigningKey VerifyingKey).

(** [signature::sign] and [signature::verify]. *)
Definition sign (canonical : string) (key : SigningKey) : string := ed_sign scheme key canonical.
Definition verify (canonical : string) (key : VerifyingKey) (sig : string) : result unit StateChronicleError :=
  map_err (fun source => SignatureVerification ("Ed25519 strict verification failed: " +:+ source))
    (ed_verify_strict scheme key canonical sig).

Section Commits.
Context (bcs_commit : Bcs Commit) (bcs_checkpoint : Bcs GlobalCheckpoint).

(** [signer] is the deployment's [CommitSigner::sign_bytes]. *)
Definition sign_commit_with_signer (body : Commit) (key_id : string)
    (signer : string → string → cresult string) : cresult (Signed Commit) :=
  let? canonical := map_err commit_of_core (canonicalize_with bcs_commit body) in
  let? signature := signer key_id canonical in
  Ok (mkSigned body (mkSignature Ed25519 key_id signature)).

Definition sign_commit (body : Commit) (key : SigningKey) (key_id : string) : cresult (Signed Commit) :=
  let? canonical := map_err commit_of_core (canonicalize_with bcs_commit body) in
  Ok (mkSigned body (mkSignature Ed25519 key_id (sign canonical key))).

Definition verify_commit (signed : Signed Commit) (verifying_key : VerifyingKey) : cresult unit :=
  if negb (alg_eqb (sb_alg (s_signature signed)) Ed25519) then
    Err (CCore (SignatureVerification "unsupported commit signature algorithm"))
  else
    let? canonical := map_err commit_of_core (canonicalize_with bcs_commit (s_body signed)) in
    map_err commit_of_core (verify canonical verifying_key (sb_sig (s_signature signed))).

Definition sign_global_checkpoint (checkpoint : GlobalCheckpoint) (key : SigningKey) (key_id : string)
    : cresult (Signed GlobalCheckpoint) :=
  let? canonical := map_err commit_of_core (canonicalize_with bcs_checkpoint checkpoint) in
  Ok (mkSigned checkpoint (mkSignature Ed25519 key_id (sign canonical key))).

Definition verify_global_checkpoint (signed : Signed GlobalCheckpoint) (verifying_key : VerifyingKey) : cresult unit :=
  let? canonical := map_err commit_of_core (canonicalize_with bcs_checkpoint (s_body signed)) in
  map_err commit_of_core (verify canonical verifying_key (sb_sig (s_signature signed))).

(** [Ed25519CommitVerifier::verify]; [show] renders a [CommitError]. *)
Definition commit_verifier (show : CommitError → string) (resolver : Signed Commit → result VerifyingKey string)
    (commit : Signed Commit) : result unit string :=
  let? key := resolver commit in
  map_err show (verify_commit commit key).

(** A commit verifies exactly when its bytes exist and the scheme accepts the signature. *)
Lemma verify_commit_Ok signed key : verify_commit signed key = Ok tt ↔
  ∃ bytes, bcs_commit (s_body signed) = Ok bytes ∧
    ed_verify_strict scheme key bytes (sb_sig (s_signature signed)) = Ok tt.
Proof.
  unfold verify_commit, canonicalize_with, verify. destruct (sb_alg _). cbn [alg_eqb negb].
  destruct (bcs_commit (s_body signed)) as [bytes|e]; cbn; [|naive_solver].
  rewrite !map_err_Ok. naive_solver.
Qed.
End Commits.
End WithScheme.

(** What the signature scheme promises: a signature made with a key verifies under its
    public part. *)
Class SchemeLaws {SK VK} (scheme : SignatureScheme SK VK) (public : SK → VK) :=
  sign_verifies key m : ed_verify_strict scheme (public key) m (ed_sign scheme key m) = Ok tt.

Lemma sign_commit_verifies {SK VK} (scheme : SignatureScheme SK VK) public `{!SchemeLaws scheme public}
    bcs body key key_id signed :
  sign_commit scheme bcs body key key_id = Ok signed →
  s_body signed = body ∧ sb_key_id (s_signature signed) = key_id ∧
  verify_commit scheme bcs signed (public key) = Ok tt.
Proof.
  unfold sign_commit. intros E. res_inv E. subst signed. split_and!; [done..|].
  apply verify_commit_Ok. unfold canonicalize_with in *.
  match goal with B : _ = Ok ?a |- _ => exists a end. cbn. split; [|apply sign_verifies].
  by repeat match goal with B : map_err _ _ = Ok _ |- _ => apply map_err_Ok in B end.
Qed.
