(* ===== verification/Durable.v ===== *)
(** * Durable persistence

    Models [crates/statechronicle-commit/src/persist.rs]: the validation of a signed commit
    with its events, projections and outbox rows, the durable write through one ledger
    transaction, and the plain [persist] route.  The ledger transaction of
    [statechronicle-ports/src/ledger_store.rs] is the record [LedgerStore] over a world. *)

From Stdlib Require Import ZArith Lia Ascii String.
From stdpp Require Import prelude gmap strings.
From S2P Require Import Prelude Effect Amount RateLimit Domain Profile Admission Atomicity Executor.
From S2P Require Import SortFacts Keys Accumulator Merkle Checkpoint Commit Signing.
Open Scope Z_scope.

(** ** Data *)

Record CommittedEvent := mkCommitted { ce_event : Event; ce_state_type : StateType }.

Inductive DurablePersistResult :=
| Committed (commit_id : CommitId)
| Replay (commit_id : CommitId).

Record OutboxRecord := mkOutbox {
  ob_delivery_key : string;
  ob_tenant : TenantId;
  ob_commit_id : CommitId;
  ob_payload_digest : ContentDigest;
  ob_payload : string;
}.

Inductive IdempotencyClaim :=
| NewReservation (attempt_id : string)
| ClaimCommitted (commit_id : CommitId)
| InProgress (attempt_id : string) (lease_expires_at_unix : Z)
| ConflictDifferentPayload.

Inductive LedgerStoreError :=
| LConflict (msg : string) | LIdempotency (msg : string) | LUnavailable (msg : string)
| LClosed | LInvariant (msg : string).

Definition ledger_error_to_string (e : LedgerStoreError) : string :=
  match e with
  | LConflict m => "ledger transaction conflict: " +:+ m
  | LIdempotency m => "ledger idempotency error: " +:+ m
  | LUnavailable m => "ledger store unavailable: " +:+ m
  | LClosed => "ledger transaction is closed"
  | LInvariant m => "ledger invariant violation: " +:+ m
  end.

Definition ledger_is_retryable (e : LedgerStoreError) : bool :=
  match e with LConflict _ | LUnavailable _ => true | _ => false end.

Record DurableCommitRequest := mkRequest {
  rq_principal : AuthenticatedPrincipal;
  rq_intent : Intent;
  rq_payload_digest : ContentDigest;
  rq_entries : list CommittedEvent;
  rq_commit : Signed Commit;
  rq_projections : list StateProjection;
  rq_outbox : list OutboxRecord;
}.

Record AuthorizationContext := mkAuthorizationContext {
  ac_principal : AuthenticatedPrincipal;
  ac_tenant : TenantId;
  ac_intent : Intent;
  ac_resource : ResourceId;
}.

(** ** Telemetry records of [observability.rs] *)

Inductive MutationOutcome := OutcomeCommitted | OutcomeReplay | OutcomeRejected | OutcomeRetryableFailure.

Record MutationMetric := mkMetric {
  mm_tenant : TenantId; mm_operation : Operation; mm_outcome : MutationOutcome; mm_latency_ms : Z }.

(** One ledger: a transaction [Tx] is used through the world. *)
Record LedgerStore (W Tx : Type) := mkLedger {
  ledger_begin : TenantId → W → result Tx LedgerStoreError * W;
  claim_idempotency : Tx → TenantId → Intent → ContentDigest → W → result IdempotencyClaim LedgerStoreError * W;
  append_events : Tx → list Event → W → result unit LedgerStoreError * W;
  append_commit : Tx → Signed Commit → W → result unit LedgerStoreError * W;
  upsert_projection : Tx → StateProjection → W → result unit LedgerStoreError * W;
  enqueue_outbox : Tx → OutboxRecord → W → result unit LedgerStoreError * W;
  finalize_idempotency : Tx → TenantId → IntentId → string → CommitId → W → result unit LedgerStoreError * W;
  ledger_commit : Tx → W → result unit LedgerStoreError * W;
  ledger_rollback : Tx → W → result unit LedgerStoreError * W;
}.
Arguments ledger_begin {W Tx}. Arguments claim_idempotency {W Tx}. Arguments append_events {W Tx}.
Arguments append_commit {W Tx}. Arguments upsert_projection {W Tx}. Arguments enqueue_outbox {W Tx}.
Arguments finalize_idempotency {W Tx}. Arguments ledger_commit {W Tx}. Arguments ledger_rollback {W Tx}.

(** ** Derived equality of states

    The derived [PartialEq] compares amounts by value. *)

Definition option_eqb {A} (eqb : A → A → bool) (a b : option A) : bool :=
  match a, b with Some x, Some y => eqb x y | None, None => true | _, _ => false end.

Definition rs_eqb (a b : ResourceState) : bool :=
  match a, b with
  | RUniqueAsset x, RUniqueAsset y =>
      String.eqb (ua_owner x) (ua_owner y) && String.eqb (ua_status x) (ua_status y)
      && option_eqb String.eqb (ua_trade_id x) (ua_trade_id y)
  | RConsumableStack x, RConsumableStack y =>
      String.eqb (cs_subject x) (cs_subject y) && amount_eqb (cs_quantity x) (cs_quantity y)
      && String.eqb (cs_unit x) (cs_unit y)
  | RFungibleBalance x, RFungibleBalance y =>
      String.eqb (fb_subject x) (fb_subject y) && amount_eqb (fb_balance x) (fb_balance y)
      && String.eqb (fb_unit x) (fb_unit y)
  | REntitlement x, REntitlement y =>
      String.eqb (en_subject x) (en_subject y) && String.eqb (en_status x) (en_status y)
      && Bool.eqb (en_transferable x) (en_transferable y)
  | RMeteredResource x, RMeteredResource y =>
      String.eqb (mt_subject x) (mt_subject y) && amount_eqb (mt_remaining x) (mt_remaining y)
      && amount_eqb (mt_maximum x) (mt_maximum y)
  | RListing x, RListing y =>
      String.eqb (li_seller x) (li_seller y) && String.eqb (li_status x) (li_status y)
  | REscrow x, REscrow y =>
      String.eqb (es_buyer x) (es_buyer y) && String.eqb (es_seller x) (es_seller y)
      && String.eqb (es_status x) (es_status y)
  | RCustom x, RCustom y =>
      String.eqb (cu_domain x) (cu_domain y) && (cu_schema_version x =? cu_schema_version y)
      && String.eqb (cu_payload x) (cu_payload y)
  | _, _ => false
  end.

Definition projection_eqb (a b : StateProjection) : bool :=
  String.eqb (p_tenant_id a) (p_tenant_id b) && String.eqb (p_resource_id a) (p_resource_id b)
  && bool_decide (p_state_type a = p_state_type b) && (p_version a =? p_version b)
  && String.eqb (p_last_event_id a) (p_last_event_id b) && String.eqb (p_last_commit_id a) (p_last_commit_id b)
  && String.eqb (p_state_hash a) (p_state_hash b) && rs_eqb (p_state a) (p_state b).

(** ** Validation *)

Definition MAX_EVENTS_PER_COMMIT : Z := 256.
Definition MAX_EVENT_BATCH_BYTES : Z := 4 * 1024 * 1024.
Definition MAX_OUTBOX_PAYLOAD_BYTES : Z := 1024 * 1024.

Definition projections_for (commit_id : CommitId) (entries : list CommittedEvent) : list StateProjection :=
  map (fun entry =>
    let event := ce_event entry in
    mkProjection (e_tenant_id event) (e_resource_id event) (ce_state_type entry)
      (c_version (e_after event)) (e_event_id event) commit_id
      (c_state_hash (e_after event)) (c_state (e_after event))) entries.

(** A subject or tenant identifier out of bounds. *)
Definition bad_identifier (value : string) : bool :=
  str_is_empty value || (MAX_ID_LENGTH <? char_count value) || has_control value.

Definition scope_kind_tenant (k : ScopeKind) : bool :=
  match k with ScopeTenant => true | ScopeGlobalCheckpoint => false end.

Definition commit_tenant (body : Commit) : cresult TenantId :=
  if negb (String.eqb (cm_schema body) COMMIT_SCHEMA) then
    Err (CStore "commit schema is not the supported v0 schema")
  else
    let? _ := map_err (fun e => CStore ("invalid commit id: " +:+ domain_error_to_string e))
      (commit_id_new (cm_commit_id body)) in
    let? _ := match cm_parent_commit_id body with
      | Some parent => map_err (fun e => CStore ("invalid parent commit id: " +:+ domain_error_to_string e))
          (commit_id_new parent)
      | None => Ok EmptyString
      end in
    let? _ := map_err (fun e => CStore ("invalid commit profile: " +:+ domain_error_to_string e))
      (profile_id_new (cm_profile body)) in
    if bad_identifier (cm_executor body) then
      Err (CStore "commit executor has an invalid subject identifier")
    else if negb (scope_kind_tenant (sc_kind (cm_scope body))) then
      Err (CStore "commit persistence requires a tenant-scoped commit; global checkpoint commits contain tenant roots, not direct events")
    else
      let? tenant := ok_or (sc_tenant_id (cm_scope body)) (CStore "tenant-scoped commit is missing its tenant id") in
      if bad_identifier tenant then Err (CStore "tenant-scoped commit has an invalid tenant identifier")
      else Ok tenant.

(** The custom-domain clause of [validate_event_binding]. *)
Definition custom_event_bound (intent : Intent) (custom : CustomState) : cresult unit :=
  let? domain := ok_or (v ← i_inputs intent !! "profile"; as_str v) (InvalidEvent "missing custom domain") in
  let? domain := map_err CDomain (profile_id_new domain) in
  if negb (bool_decide (i_state_type intent = Some StCustom))
     || negb (String.eqb (cu_domain custom) domain)
     || negb (bool_decide ((v ← i_inputs intent !! "schema_version"; as_u64 v) = Some (cu_schema_version custom)))
  then Err (InvalidEvent "custom event domain/schema does not match intent")
  else Ok tt.

Definition validate_event_binding (event : Event) (intent : Intent) (tenant : TenantId) : cresult unit :=
  if negb (String.eqb (e_tenant_id event) tenant)
     || negb (String.eqb (e_intent_id event) (i_intent_id intent))
     || negb (String.eqb (e_actor event) (i_actor intent))
     || negb (String.eqb (e_operation event) (i_operation intent))
     || negb (String.eqb (e_resource_id event) (i_resource_id intent))
     || negb (bool_decide (i_state_type intent = Some (rs_state_type (c_state (e_after event)))))
  then Err (CStore "durable event is not bound to the authenticated intent scope or operation")
  else match c_state (e_after event) with
       | RCustom custom => custom_event_bound intent custom
       | _ => Ok tt
       end.

Definition validate_projection_bindings (commit_id : CommitId) (entries : list CommittedEvent)
    (projections : list StateProjection) : cresult unit :=
  if existsb (fun entry => negb (bool_decide (ce_state_type entry = rs_state_type (c_state (e_after (ce_event entry)))))) entries
  then Err (CStore "committed event state type does not match its typed after-state")
  else match projections with
       | [] => Ok tt
       | _ =>
           if negb (list_eqb projection_eqb projections (projections_for commit_id entries)) then
             Err (CStore "durable projections do not match committed event entries")
           else Ok tt
       end.

Definition validate_durable_scope (intent : Intent) (principal : AuthenticatedPrincipal) (commit_tenant : TenantId)
    : cresult unit :=
  if negb (String.eqb (i_tenant_id intent) commit_tenant) || negb (String.eqb (pr_tenant principal) commit_tenant)
     || negb (String.eqb (pr_subject principal) (i_actor intent))
  then Err (CStore (authorization_error_to_string (ContextMismatch
         "principal, intent, and commit tenant/actor are not consistently bound")))
  else Ok tt.

(** The encoders of the durable boundary. *)
Record CommitCodecs := mkCommitCodecs {
  intent_codecs : Codecs;
  bcs_event : Bcs Event;
  bcs_state : Bcs ResourceState;
  bcs_signed_commit : Bcs (Signed Commit);
}.

Section Validation.
Context (H : string → string) (codecs : CommitCodecs).

Definition canonicalize_event (e : Event) : result string StateChronicleError := canonicalize_with (bcs_event codecs) e.
Definition state_digest (s : ResourceState) : result ContentDigest StateChronicleError :=
  canonicalize_and_digest H (bcs_state codecs) s.
Definition intent_digest (i : Intent) : result ContentDigest StateChronicleError :=
  let? bytes := canonicalize (intent_codecs codecs) i in Ok (H bytes).

Definition validate_durable_intent (intent : Intent) : cresult unit :=
  let? _ := map_err (fun e => CStore ("invalid durable intent: " +:+ intent_error_to_string e))
    (try_from_intent (intent_codecs codecs) intent None) in Ok tt.

(** The custom clause of [validate_committed_event]. *)
Definition custom_transition_bound (before_state : ResourceState) (after : CustomState) : cresult unit :=
  match before_state with
  | RCustom before =>
      let? _ := map_err CDomain (profile_id_new (cu_domain after)) in
      if (cu_schema_version after =? 0) || negb (String.eqb (cu_domain before) (cu_domain after))
         || negb (cu_schema_version before =? cu_schema_version after)
      then Err (InvalidEvent "custom transition changes domain/schema") else Ok tt
  | _ => Err (InvalidEvent "custom before-state required")
  end.

Definition validate_committed_event (entry : CommittedEvent) : cresult unit :=
  let event := ce_event entry in
  if negb (String.eqb (e_schema event) EVENT_SCHEMA) then
    Err (InvalidEvent "event schema is not the supported v0 schema")
  else
    let? _ := map_err (fun e => InvalidEvent ("invalid event id: " +:+ domain_error_to_string e))
      (event_id_new (e_event_id event)) in
    let? _ := map_err (fun e => InvalidEvent ("invalid intent id: " +:+ domain_error_to_string e))
      (intent_id_new (e_intent_id event)) in
    let? expected_after := ok_or (checked_add_u64 (c_version (e_before event)) 1)
      (InvalidEvent "event before-state version overflows") in
    if negb (c_version (e_after event) =? expected_after) then
      Err (InvalidEvent "event versions must advance by exactly one")
    else if negb (bool_decide (ce_state_type entry = rs_state_type (c_state (e_before event))))
         || negb (bool_decide (ce_state_type entry = rs_state_type (c_state (e_after event)))) then
      Err (InvalidEvent "event state type does not match committed entry")
    else
      let? _ := match c_state (e_after event) with
        | RCustom after => custom_transition_bound (c_state (e_before event)) after
        | _ => Ok tt
        end in
      let? before_digest := map_err CCore (state_digest (c_state (e_before event))) in
      let mismatch := InvalidEvent "event state digest does not match state" in
      if negb (String.eqb before_digest (c_state_hash (e_before event))) then Err mismatch
      else
        let? after_digest := map_err CCore (state_digest (c_state (e_after event))) in
        if negb (String.eqb after_digest (c_state_hash (e_after event))) then Err mismatch else Ok tt.

(** Check each element and reject a key seen before. *)
Fixpoint validate_distinct {A} (check : A → cresult unit) (key : A → string) (duplicate : A → CommitError)
    (seen : gset string) (l : list A) : cresult unit :=
  match l with
  | [] => Ok tt
  | a :: l' =>
      check a ;?
      if decide (key a ∈ seen) then Err (duplicate a)
      else validate_distinct check key duplicate ({[key a]} ∪ seen) l'
  end.

Definition validate_committed_events (entries : list CommittedEvent) : cresult unit :=
  validate_distinct validate_committed_event (fun entry => e_event_id (ce_event entry))
    (fun entry => InvalidEvent ("duplicate event id `" +:+ e_event_id (ce_event entry) +:+ "` in durable commit"))
    ∅ entries.

Definition validate_outbox_record (record : OutboxRecord) : cresult unit :=
  if str_is_empty (ob_delivery_key record) || (MAX_QUOTA_KEY_BYTES <? slen (ob_delivery_key record))
     || has_control (ob_delivery_key record)
     || negb (String.eqb (H (ob_payload record)) (ob_payload_digest record))
  then Err (CStore "durable outbox payload or delivery key is invalid")
  else map_err (fun e => InvalidEvent (core_error_to_string e))
         (check_size "outbox_payload" MAX_OUTBOX_PAYLOAD_BYTES (slen (ob_payload record))).

Definition validate_outbox_records (records : list OutboxRecord) : cresult unit :=
  validate_distinct validate_outbox_record ob_delivery_key
    (fun _ => CStore "durable outbox contains duplicate delivery keys") ∅ records.

(** The sizes of the events, saturating. *)
Fixpoint event_batch_bytes (total : Z) (events : list Event) : result Z string :=
  match events with
  | [] => Ok total
  | event :: rest =>
      let? bytes := bcs_event codecs event in
      event_batch_bytes (saturating_add_u64 total (slen bytes)) rest
  end.

(** The pure checks between authorization and the transaction. *)
Definition validate_durable_events (request : DurableCommitRequest) (tenant : TenantId) : cresult unit :=
  let events := map ce_event (rq_entries request) in
  let count := Z.of_nat (length events) in
  match events with
  | [] => Err (InvalidEvent "durable commit must contain at least one event")
  | _ =>
      if MAX_EVENTS_PER_COMMIT <? count then
        Err (InvalidEvent ("event count " +:+ u128_to_string count +:+ " exceeds durable limit 256"))
      else
        let? event_bytes := map_err InvalidEvent (event_batch_bytes 0 events) in
        map_err (fun e => InvalidEvent (core_error_to_string e))
          (check_size "event_batch" MAX_EVENT_BATCH_BYTES event_bytes) ;?
        let? commit_bytes := map_err InvalidEvent (bcs_signed_commit codecs (rq_commit request)) in
        map_err (fun e => InvalidEvent (core_error_to_string e))
          (check_size "commit" MAX_COMMIT_BYTES (slen commit_bytes)) ;?
        validate_committed_events (rq_entries request) ;?
        rforeach (fun event => validate_event_binding event (rq_intent request) tenant) events
  end.

Definition commit_id_of (request : DurableCommitRequest) : CommitId := cm_commit_id (s_body (rq_commit request)).

Definition projection_bound (tenant : TenantId) (commit_id : CommitId) (projection : StateProjection) : cresult unit :=
  if negb (String.eqb (p_tenant_id projection) tenant) || negb (String.eqb (p_last_commit_id projection) commit_id)
  then Err (CStore "durable projection is not bound to the commit scope") else Ok tt.

Definition outbox_bound (tenant : TenantId) (commit_id : CommitId) (outbox : OutboxRecord) : cresult unit :=
  if negb (String.eqb (ob_tenant outbox) tenant) || negb (String.eqb (ob_commit_id outbox) commit_id)
  then Err (CStore "durable outbox record is not bound to the commit scope")
  else validate_outbox_record outbox.

Definition validate_durable_rows (request : DurableCommitRequest) (tenant : TenantId) : cresult unit :=
  let commit_id := commit_id_of request in
  validate_projection_bindings commit_id (rq_entries request) (rq_projections request) ;?
  rforeach (projection_bound tenant commit_id) (rq_projections request) ;?
  validate_outbox_records (rq_outbox request) ;?
  rforeach (outbox_bound tenant commit_id) (rq_outbox request).

Definition validate_durable_root (request : DurableCommitRequest) : cresult unit :=
  let events := map ce_event (rq_entries request) in
  let body := s_body (rq_commit request) in
  let? event_count := ok_or (checked_op U64_MAX (Z.of_nat (length events)))
    (InvalidEvent "event count overflow: out of range integral type conversion attempted") in
  if negb (event_count =? cm_event_count body) then Err EventRootMismatch
  else
    let? root := event_root H canonicalize_event events in
    if negb (String.eqb root (cm_event_merkle_root body)) then Err EventRootMismatch else Ok tt.
End Validation.

(** ** The durable write *)

Section Ledger.
Context {W Tx : Type} (H : string → string) (codecs : CommitCodecs) (ledger : LedgerStore W Tx).
Context (authorizer : AuthorizationContext → W → result unit AuthorizationError).

Notation deff A := (Eff CommitError W A).

Definition store_error (e : LedgerStoreError) : CommitError := CStore (ledger_error_to_string e).

(** An operation whose error rolls the transaction back, ignoring the rollback's outcome. *)
Definition or_rollback {A} (tx : Tx) (op : W → result A LedgerStoreError * W) : deff A := fun w =>
  match op w with
  | (Ok a, w') => (Ok a, w')
  | (Err e, w') => (Err (store_error e), (ledger_rollback ledger tx w').2)
  end.

(** A rollback that must succeed, then an outcome. *)
Definition rollback_then {A} (tx : Tx) (outcome : cresult A) : deff A :=
  xcall (ledger_rollback ledger tx) store_error ;! xlift outcome.

Definition write_all (request : DurableCommitRequest) (tenant : TenantId) (attempt_id : string) (tx : Tx) : deff unit :=
  or_rollback tx (append_events ledger tx (map ce_event (rq_entries request))) ;!
  or_rollback tx (append_commit ledger tx (rq_commit request)) ;!
  xforeach (fun projection => or_rollback tx (upsert_projection ledger tx projection)) (rq_projections request) ;!
  xforeach (fun outbox => or_rollback tx (enqueue_outbox ledger tx outbox)) (rq_outbox request) ;!
  or_rollback tx (finalize_idempotency ledger tx tenant (i_intent_id (rq_intent request)) attempt_id (commit_id_of request)).

Definition persist_durable (request : DurableCommitRequest) : deff DurablePersistResult :=
  xlift (validate_durable_intent codecs (rq_intent request)) ;!
  let! tenant := xlift (commit_tenant (s_body (rq_commit request))) in
  let! canonical_digest := xlift (map_err CCore (intent_digest H codecs (rq_intent request))) in
  if negb (String.eqb canonical_digest (rq_payload_digest request)) then xlift (Err PayloadDigestMismatch)
  else
    xlift (validate_durable_scope (rq_intent request) (rq_principal request) tenant) ;!
    xquery (fun w => map_err (fun e => CStore (authorization_error_to_string e))
      (authorizer (mkAuthorizationContext (rq_principal request) tenant (rq_intent request)
         (i_resource_id (rq_intent request))) w)) ;!
    xlift (validate_durable_events H codecs request tenant) ;!
    xlift (validate_durable_rows H request tenant) ;!
    xlift (validate_durable_root H codecs request) ;!
    let! tx := xcall (ledger_begin ledger tenant) store_error in
    let! claim := or_rollback tx (claim_idempotency ledger tx tenant (rq_intent request) (rq_payload_digest request)) in
    match claim with
    | ClaimCommitted commit_id => rollback_then tx (Ok (Replay commit_id))
    | InProgress _ _ => rollback_then tx (Err (CStore "idempotency reservation in progress"))
    | ConflictDifferentPayload => rollback_then tx (Err (CStore "idempotency payload conflict"))
    | NewReservation attempt_id =>
        write_all request tenant attempt_id tx ;!
        xcall (ledger_commit ledger tx) store_error ;!
        xret (Committed (commit_id_of request))
    end.

(** [verifier] is the deployment's [SignedCommitVerifier]. *)
Definition persist_durable_verified (verifier : Signed Commit → result unit string)
    (request : DurableCommitRequest) : deff DurablePersistResult :=
  xlift (map_err CStore (verifier (rq_commit request))) ;!
  persist_durable request.

(** ** Metrics *)

(** [message.contains("unavailable") || message.contains("in progress")]. *)
Definition mutation_outcome (r : cresult DurablePersistResult) : MutationOutcome :=
  match r with
  | Ok (Committed _) => OutcomeCommitted
  | Ok (Replay _) => OutcomeReplay
  | Err (CStore message) =>
      if str_contains "unavailable" message || str_contains "in progress" message then OutcomeRetryableFailure
      else OutcomeRejected
  | Err _ => OutcomeRejected
  end.

(** [clock] reads the monotonic clock in milliseconds, [record] is the sink. *)
Definition persist_durable_verified_with_metrics (verifier : Signed Commit → result unit string)
    (clock : W → Z) (record : MutationMetric → W → W) (request : DurableCommitRequest) : deff DurablePersistResult :=
  let! tenant := xlift (commit_tenant (s_body (rq_commit request))) in
  fun w =>
    let started := clock w in
    let (r, w') := persist_durable_verified verifier request w in
    (r, record (mkMetric tenant (i_operation (rq_intent request)) (mutation_outcome r)
                  (Z.min (clock w' - started) U64_MAX)) w').
End Ledger.

(** ** The plain route *)

Inductive CommitStoreError := CommitDuplicate | CommitStoreUnavailable (msg : string).
Inductive EventStoreError := BatchDuplicateEventId | EventStoreUnavailable (msg : string).
Inductive EventPublisherError := PublisherRejected (msg : string) | PublisherUnavailable (msg : string).

Definition commit_store_error_to_string (e : CommitStoreError) : string :=
  match e with
  | CommitDuplicate => "commit id already stored"
  | CommitStoreUnavailable m => "commit store unavailable: " +:+ m
  end.
Definition event_store_error_to_string (e : EventStoreError) : string :=
  match e with
  | BatchDuplicateEventId => "batch contains a duplicate event id"
  | EventStoreUnavailable m => "event store unavailable: " +:+ m
  end.
Definition publisher_error_to_string (e : EventPublisherError) : string :=
  match e with
  | PublisherRejected m => "publisher rejected delivery: " +:+ m
  | PublisherUnavailable m => "event publisher unavailable: " +:+ m
  end.

Record EventPublisher (W : Type) := mkPublisher {
  publish_events : TenantId → list Event → W → result unit EventPublisherError * W;
  publish_commit : TenantId → Signed Commit → W → result unit EventPublisherError * W;
}.
Arguments publish_events {W}. Arguments publish_commit {W}.

(** The state index is read-only and not used by [persist]. *)
Record CommitPorts (W : Type) := mkCommitPorts {
  put_commit : TenantId → Signed Commit → W → result unit CommitStoreError * W;
  store_events : TenantId → list Event → W → result unit EventStoreError * W;
  event_publisher : option (EventPublisher W);
}.
Arguments put_commit {W}. Arguments store_events {W}. Arguments event_publisher {W}.

Section Plain.
Context {W : Type} (H : string → string) (codecs : CommitCodecs) (ports : CommitPorts W).

(** The checks before the first write. *)
Definition validate_persist (commit : Signed Commit) (entries : list CommittedEvent) : cresult TenantId :=
  let? tenant := commit_tenant (s_body commit) in
  let events := map ce_event entries in
  let? event_count := ok_or (checked_op U64_MAX (Z.of_nat (length events)))
    (InvalidEvent "event count does not fit in u64: out of range integral type conversion attempted") in
  if negb (event_count =? cm_event_count (s_body commit)) then Err EventRootMismatch
  else
    validate_committed_events H codecs entries ;?
    rforeach (fun event =>
      if negb (String.eqb (e_tenant_id event) tenant) then
        Err (CStore "event tenant does not match commit tenant scope") else Ok tt) events ;?
    let? computed_root := event_root H (canonicalize_event codecs) events in
    if negb (String.eqb computed_root (cm_event_merkle_root (s_body commit))) then Err EventRootMismatch
    else Ok tenant.

Definition persist (commit : Signed Commit) (entries : list CommittedEvent) : Eff CommitError W unit :=
  let! tenant := xlift (validate_persist commit entries) in
  let events := map ce_event entries in
  xcall (put_commit ports tenant commit) (fun e => CStore (commit_store_error_to_string e)) ;!
  xcall (store_events ports tenant events) (fun e => CStore (event_store_error_to_string e)) ;!
  match event_publisher ports with
  | None => xret tt
  | Some publisher =>
      xcall (publish_events publisher tenant events) (fun e => CStore (publisher_error_to_string e)) ;!
      xcall (publish_commit publisher tenant commit) (fun e => CStore (publisher_error_to_string e))
  end.
End Plain.
