(* ===== verification/Ledger.v ===== *)
(** * Properties of the durable write

    What a ledger transaction promises, as the class [LedgerLaws], and what [persist_durable]
    makes of it: all-or-nothing writes of exactly the validated request, and replays that
    write nothing.  An in-memory ledger discharges the class. *)

From Stdlib Require Import ZArith Lia Ascii String.
From stdpp Require Import prelude gmap strings.
From S2P Require Import Prelude Effect Amount RateLimit Domain Profile Admission Atomicity Executor.
From S2P Require Import SortFacts Keys Accumulator Merkle Checkpoint Commit Signing Durable.
Open Scope Z_scope.

(** ** The contract of a ledger *)

(** What one call stages in its transaction. *)
Inductive LedgerEffect :=
| EffClaim (tenant : TenantId) (intent : Intent) (digest : ContentDigest) (attempt_id : string)
| EffEvents (events : list Event)
| EffCommit (commit : Signed Commit)
| EffProjection (projection : StateProjection)
| EffOutbox (record : OutboxRecord)
| EffFinalize (tenant : TenantId) (intent_id : IntentId) (attempt_id : string) (commit_id : CommitId).

Notation Log := (list (list LedgerEffect)).

(** A computation that leaves the log alone and, when it succeeds, stages [eff]. *)
Definition stages {W Tx E A} (log : W → Log) (staged : W → Tx → list LedgerEffect)
    (tx : Tx) (m : Eff E W A) (eff : A → list LedgerEffect) : Prop :=
  ∀ w r w', m w = (r, w') → log w' = log w ∧ ∀ a, r = Ok a → staged w' tx = staged w tx ++ eff a.

Definition claim_effect (t : TenantId) (i : Intent) (d : ContentDigest) (c : IdempotencyClaim) : list LedgerEffect :=
  match c with NewReservation a => [EffClaim t i d a] | _ => [] end.

(** The documented contract of [LedgerStore] and [LedgerTransaction]: the log holds the
    committed transactions; calls stage their effect; commit appends the staged effects as one
    entry or, failing, appends them or nothing; rollback appends nothing. *)
Class LedgerLaws {W Tx} (ledger : LedgerStore W Tx) := {
  log : W → Log;
  staged : W → Tx → list LedgerEffect;
  begin_opens tenant w r w' : ledger_begin ledger tenant w = (r, w') →
    log w' = log w ∧ ∀ tx, r = Ok tx → staged w' tx = [];
  claim_stages tx t i d : stages log staged tx (claim_idempotency ledger tx t i d) (claim_effect t i d);
  events_stages tx es : stages log staged tx (append_events ledger tx es) (fun _ => [EffEvents es]);
  commit_stages tx c : stages log staged tx (append_commit ledger tx c) (fun _ => [EffCommit c]);
  projection_stages tx p : stages log staged tx (upsert_projection ledger tx p) (fun _ => [EffProjection p]);
  outbox_stages tx o : stages log staged tx (enqueue_outbox ledger tx o) (fun _ => [EffOutbox o]);
  finalize_stages tx t i a c :
    stages log staged tx (finalize_idempotency ledger tx t i a c) (fun _ => [EffFinalize t i a c]);
  commit_atomic tx w r w' : ledger_commit ledger tx w = (r, w') →
    log w' = log w ++ [staged w tx] ∨ (log w' = log w ∧ ∃ e, r = Err e);
  rollback_discards tx w r w' : ledger_rollback ledger tx w = (r, w') → log w' = log w;
}.

(** The mutation recorded for an idempotency key: digest and commit of the first
    transaction that finalized it. *)
Definition claim_digest (t : TenantId) (id : IntentId) (effects : list LedgerEffect) : option ContentDigest :=
  head (omap (fun e => match e with
    | EffClaim t' i d _ => if String.eqb t' t && String.eqb (i_intent_id i) id then Some d else None
    | _ => None
    end) effects).
Definition final_commit (t : TenantId) (id : IntentId) (effects : list LedgerEffect) : option CommitId :=
  head (omap (fun e => match e with
    | EffFinalize t' id' _ c => if String.eqb t' t && String.eqb id' id then Some c else None
    | _ => None
    end) effects).
Definition transaction_of (t : TenantId) (id : IntentId) (effects : list LedgerEffect) : option (ContentDigest * CommitId) :=
  d ← claim_digest t id effects; c ← final_commit t id effects; Some (d, c).
Definition finalized (l : Log) (t : TenantId) (id : IntentId) : option (ContentDigest * CommitId) :=
  head (omap (transaction_of t id) l).

(** Reservations follow the log: a finalized key is answered from it.  A key that is not
    finalized is reserved, or held by another attempt, or was claimed with a different
    payload. *)
Class IdempotencyLaws {W Tx} (ledger : LedgerStore W Tx) `{!LedgerLaws ledger} : Prop := {
  claim_answers tx t i d w c w' : claim_idempotency ledger tx t i d w = (Ok c, w') →
    match finalized (log w) t (i_intent_id i) with
    | Some (d', commit_id) => c = if String.eqb d' d then ClaimCommitted commit_id else ConflictDifferentPayload
    | None => (∃ a, c = NewReservation a) ∨ (∃ a lease, c = InProgress a lease) ∨ c = ConflictDifferentPayload
    end;
}.

(** ** What an accepted request satisfies *)

(** The rows stored with a commit are those its events determine, amounts by value. *)
Definition rows_match (commit_id : CommitId) (entries : list CommittedEvent) (projections : list StateProjection) : Prop :=
  projections = [] ∨ Forall2 (fun p q => projection_eqb p q = true) projections (projections_for commit_id entries).

Section Accepted.
Context (H : string → string) (codecs : CommitCodecs).

Definition event_accepted (intent : Intent) (tenant : TenantId) (entry : CommittedEvent) : Prop :=
  let e := ce_event entry in
  e_schema e = EVENT_SCHEMA ∧ e_tenant_id e = tenant ∧ e_intent_id e = i_intent_id intent ∧
  e_actor e = i_actor intent ∧ e_operation e = i_operation intent ∧ e_resource_id e = i_resource_id intent ∧
  rs_state_type (c_state (e_before e)) = ce_state_type entry ∧
  rs_state_type (c_state (e_after e)) = ce_state_type entry ∧ i_state_type intent = Some (ce_state_type entry) ∧
  c_version (e_after e) = c_version (e_before e) + 1 ∧
  state_digest H codecs (c_state (e_before e)) = Ok (c_state_hash (e_before e)) ∧
  state_digest H codecs (c_state (e_after e)) = Ok (c_state_hash (e_after e)).

Definition outbox_accepted (tenant : TenantId) (commit_id : CommitId) (o : OutboxRecord) : Prop :=
  ob_tenant o = tenant ∧ ob_commit_id o = commit_id ∧ H (ob_payload o) = ob_payload_digest o ∧
  slen (ob_payload o) ≤ MAX_OUTBOX_PAYLOAD_BYTES.

Definition durable_accepted (request : DurableCommitRequest) (tenant : TenantId) : Prop :=
  let intent := rq_intent request in
  let body := s_body (rq_commit request) in
  let events := map ce_event (rq_entries request) in
  sc_tenant_id (cm_scope body) = Some tenant ∧ i_tenant_id intent = tenant ∧
  pr_tenant (rq_principal request) = tenant ∧ pr_subject (rq_principal request) = i_actor intent ∧
  intent_digest H codecs intent = Ok (rq_payload_digest request) ∧
  events ≠ [] ∧ cm_event_count body = Z.of_nat (length events) ∧ cm_event_count body ≤ MAX_EVENTS_PER_COMMIT ∧
  event_root H (canonicalize_event codecs) events = Ok (cm_event_merkle_root body) ∧
  NoDup (map e_event_id events) ∧ Forall (event_accepted intent tenant) (rq_entries request) ∧
  rows_match (cm_commit_id body) (rq_entries request) (rq_projections request) ∧
  NoDup (map ob_delivery_key (rq_outbox request)) ∧
  Forall (outbox_accepted tenant (cm_commit_id body)) (rq_outbox request).

(** ** Inversion of the validators *)

Lemma validate_distinct_Ok {A} (check : A → cresult unit) key duplicate seen l :
  validate_distinct check key duplicate seen l = Ok tt →
  Forall (fun a => check a = Ok tt) l ∧ NoDup (map key l) ∧ ∀ a, a ∈ l → key a ∉ seen.
Proof.
  revert seen. induction l as [|a l IH]; intros seen; cbn [validate_distinct map].
  { intros _. split_and!; [constructor..|by intros a ?%not_elem_of_nil]. }
  intros E. apply rbind_Ok in E as ([] & Ha & E). destruct (decide (key a ∈ seen)) as [|Hn]; [done|].
  apply IH in E as (Hf & Hd & Hs). split_and!; [by constructor| |].
  - constructor; [|done]. intros (b & Eb & Hb)%list_elem_of_fmap. apply (Hs b Hb). rewrite <- Eb. set_solver.
  - intros b [->|Hb]%elem_of_cons; [done|]. specialize (Hs b Hb). set_solver.
Qed.

Lemma commit_tenant_Ok body tenant : commit_tenant body = Ok tenant → sc_tenant_id (cm_scope body) = Some tenant.
Proof. unfold commit_tenant. intros E. res_inv E. by subst. Qed.

Lemma scope_Ok intent principal tenant : validate_durable_scope intent principal tenant = Ok tt →
  i_tenant_id intent = tenant ∧ pr_tenant principal = tenant ∧ pr_subject principal = i_actor intent.
Proof using.
  unfold validate_durable_scope. intros E. destruct (_ || _ : bool) eqn:B; [done|].
  rewrite !orb_false_iff, !negb_false_iff, !String.eqb_eq in B. by destruct B as [[? ?] ?].
Qed.

Lemma committed_event_Ok entry : validate_committed_event H codecs entry = Ok tt →
  let e := ce_event entry in
  e_schema e = EVENT_SCHEMA ∧ rs_state_type (c_state (e_before e)) = ce_state_type entry ∧
  rs_state_type (c_state (e_after e)) = ce_state_type entry ∧
  c_version (e_after e) = c_version (e_before e) + 1 ∧
  state_digest H codecs (c_state (e_before e)) = Ok (c_state_hash (e_before e)) ∧
  state_digest H codecs (c_state (e_after e)) = Ok (c_state_hash (e_after e)).
Proof.
  unfold validate_committed_event. intros E. res_inv E.
  repeat match goal with B : _ || _ = false |- _ => apply orb_false_iff in B as [? ?] end.
  rewrite !negb_false_iff in *. rewrite ?String.eqb_eq, ?bool_decide_eq_true in *.
  repeat match goal with B : checked_add_u64 _ _ = Some _ |- _ => apply checked_op_Some in B as [-> _] end.
  rewrite Z.eqb_eq in *. repeat match goal with B : map_err _ _ = Ok _ |- _ => apply map_err_Ok in B end.
  split_and!; congruence.
Qed.

Lemma event_binding_Ok event intent tenant : validate_event_binding event intent tenant = Ok tt →
  e_tenant_id event = tenant ∧ e_intent_id event = i_intent_id intent ∧ e_actor event = i_actor intent ∧
  e_operation event = i_operation intent ∧ e_resource_id event = i_resource_id intent ∧
  i_state_type intent = Some (rs_state_type (c_state (e_after event))).
Proof.
  unfold validate_event_binding. intros E. destruct (_ || _ : bool) eqn:B; [done|].
  rewrite !orb_false_iff, !negb_false_iff, !String.eqb_eq, bool_decide_eq_true in B. naive_solver.
Qed.

Lemma rows_match_Ok commit_id entries projections :
  validate_projection_bindings commit_id entries projections = Ok tt → rows_match commit_id entries projections.
Proof.
  unfold validate_projection_bindings. intros E. res_inv E.
  destruct projections as [|p ps]; [by left|right]. res_inv E. rewrite negb_false_iff in *. by apply list_eqb_Forall2.
Qed.

Lemma outbox_bound_Ok tenant commit_id o : outbox_bound H tenant commit_id o = Ok tt → outbox_accepted tenant commit_id o.
Proof.
  unfold outbox_bound, validate_outbox_record, check_size. intros E. res_inv E.
  rewrite !orb_false_iff, !negb_false_iff, !String.eqb_eq, ?Z.ltb_ge in *. unfold outbox_accepted. naive_solver.
Qed.

Lemma durable_events_Ok request tenant : validate_durable_events H codecs request tenant = Ok tt →
  let events := map ce_event (rq_entries request) in
  events ≠ [] ∧ Z.of_nat (length events) ≤ MAX_EVENTS_PER_COMMIT ∧ NoDup (map e_event_id events) ∧
  Forall (event_accepted (rq_intent request) tenant) (rq_entries request).
Proof.
  unfold validate_durable_events. cbv zeta. destruct (map ce_event (rq_entries request)) as [|e0 es] eqn:Ees; [done|].
  rewrite <- Ees. intros E. destruct (_ <? _) eqn:Hle in E; [done|]. apply Z.ltb_ge in Hle.
  res_inv E. repeat match goal with B : unit |- _ => destruct B end.
  match goal with B : validate_committed_events _ _ _ = Ok _ |- _ => apply validate_distinct_Ok in B as (Hc & Hd & _) end.
  apply rforeach_Ok in E. split_and!; [by rewrite Ees|done|by rewrite map_map|].
  rewrite Forall_map in E. rewrite Forall_forall in *. intros entry Hin.
  pose proof (committed_event_Ok _ (Hc entry Hin)) as Hce. pose proof (event_binding_Ok _ _ _ (E entry Hin)) as Hb.
  unfold event_accepted. cbv zeta in *.
  destruct Hce as (? & ? & Hst & ? & ? & ?), Hb as (? & ? & ? & ? & ? & Hi). rewrite Hst in Hi. by split_and!.
Qed.

Lemma durable_rows_Ok request tenant : validate_durable_rows H request tenant = Ok tt →
  rows_match (commit_id_of request) (rq_entries request) (rq_projections request) ∧
  NoDup (map ob_delivery_key (rq_outbox request)) ∧
  Forall (outbox_accepted tenant (commit_id_of request)) (rq_outbox request).
Proof.
  unfold validate_durable_rows. cbv zeta. intros E. res_inv E. repeat match goal with B : unit |- _ => destruct B end.
  match goal with B : validate_outbox_records _ _ = Ok _ |- _ => apply validate_distinct_Ok in B as (_ & Hd & _) end.
  split_and!; [by apply rows_match_Ok|done|]. apply rforeach_Ok in E. eapply Forall_impl; [done|].
  intros o. apply outbox_bound_Ok.
Qed.

Lemma durable_root_Ok request : validate_durable_root H codecs request = Ok tt →
  let events := map ce_event (rq_entries request) in
  cm_event_count (s_body (rq_commit request)) = Z.of_nat (length events) ∧
  event_root H (canonicalize_event codecs) events = Ok (cm_event_merkle_root (s_body (rq_commit request))).
Proof.
  unfold validate_durable_root. cbv zeta. intros E. res_inv E.
  rewrite !negb_false_iff, ?Z.eqb_eq, ?String.eqb_eq in *.
  match goal with B : checked_op _ _ = Some _ |- _ => apply checked_op_Some in B as [-> _] end.
  split; congruence.
Qed.
End Accepted.

(** ** Staging *)

Section Staging.
Context {W Tx : Type} (ledger : LedgerStore W Tx) `{!LedgerLaws ledger}.

Notation stages_ tx m l := (stages log staged tx m (fun _ => l)).

Lemma stages_or_rollback {A} tx (op : W → result A LedgerStoreError * W) eff :
  stages log staged tx op eff → stages log staged tx (or_rollback ledger tx op) eff.
Proof.
  intros Hs w r w' E. unfold or_rollback in E. destruct (op w) as [[a|e] w1] eqn:Eo; simplify_eq.
  - destruct (Hs _ _ _ Eo) as [? Ha]. split; [done|]. intros a' [= <-]. by apply Ha.
  - destruct (Hs _ _ _ Eo) as [Hl _]. destruct (ledger_rollback ledger tx w1) as [r2 w2] eqn:Er.
    split; [|done]. cbn. by rewrite (rollback_discards _ _ _ _ Er).
Qed.

Lemma stages_seq {A B} tx (m : Eff CommitError W A) (k : Eff CommitError W B) l1 l2 :
  stages_ tx m l1 → stages_ tx k l2 → stages_ tx (m ;! k) (l1 ++ l2).
Proof.
  intros Hm Hk w r w' [(e & Em & ->)|(a & w1 & Em & Ek)]%xbind_inv.
  - by destruct (Hm _ _ _ Em).
  - destruct (Hm _ _ _ Em) as [Hl1 Hs1], (Hk _ _ _ Ek) as [Hl2 Hs2]. split; [congruence|].
    intros b ->. by rewrite (Hs2 b), (Hs1 a), app_assoc.
Qed.

Lemma stages_foreach {A} tx (f : A → Eff CommitError W unit) (eff : A → LedgerEffect) l :
  (∀ a, stages_ tx (f a) [eff a]) → stages_ tx (xforeach f l) (map eff l).
Proof.
  intros Hf. induction l as [|a l IH]; cbn [xforeach map].
  - intros w r w' [= <- <-]. split; [done|]. intros. by rewrite app_nil_r.
  - by apply (stages_seq tx _ _ [eff a]).
Qed.

(** The staged effects of an accepted request, after its claim. *)
Definition written_effects (request : DurableCommitRequest) (tenant : TenantId) (attempt_id : string) : list LedgerEffect :=
  [EffEvents (map ce_event (rq_entries request))] ++ [EffCommit (rq_commit request)]
  ++ map EffProjection (rq_projections request) ++ map EffOutbox (rq_outbox request)
  ++ [EffFinalize tenant (i_intent_id (rq_intent request)) attempt_id (commit_id_of request)].

Definition durable_effects (request : DurableCommitRequest) (tenant : TenantId) (attempt_id : string) : list LedgerEffect :=
  EffClaim tenant (rq_intent request) (rq_payload_digest request) attempt_id
    :: written_effects request tenant attempt_id.

Lemma write_all_stages request tenant attempt_id tx :
  stages_ tx (write_all ledger request tenant attempt_id tx) (written_effects request tenant attempt_id).
Proof.
  unfold write_all, written_effects.
  repeat apply stages_seq; try (apply stages_foreach; intros a); apply stages_or_rollback;
    [apply events_stages|apply commit_stages|apply projection_stages|apply outbox_stages|apply finalize_stages].
Qed.

Lemma rollback_then_log {A} tx (o : cresult A) w r w' : rollback_then ledger tx o w = (r, w') →
  log w' = log w ∧ (r = o ∨ ∃ e, ledger_rollback ledger tx w = (Err e, w') ∧ r = Err (store_error e)).
Proof.
  unfold rollback_then, xbind, xcall, xlift. destruct (ledger_rollback ledger tx w) as [[a|e] w2] eqn:Er; cbn;
    intros [= <- <-]; pose proof (rollback_discards _ _ _ _ Er); eauto.
Qed.

(** ** The outcome of a run *)

Context (H : string → string) (codecs : CommitCodecs).
Context (authorizer : AuthorizationContext → W → result unit AuthorizationError).
Context (verifier : Signed Commit → result unit string).

Notation run := (persist_durable_verified H codecs ledger authorizer verifier).

Definition authorization_of (request : DurableCommitRequest) (tenant : TenantId) : AuthorizationContext :=
  mkAuthorizationContext (rq_principal request) tenant (rq_intent request) (i_resource_id (rq_intent request)).

(** The transaction, once the checks have passed. *)
Definition durable_transaction (request : DurableCommitRequest) (tenant : TenantId)
    : Eff CommitError W DurablePersistResult :=
  let! tx := xcall (ledger_begin ledger tenant) store_error in
  let! claim := or_rollback ledger tx
    (claim_idempotency ledger tx tenant (rq_intent request) (rq_payload_digest request)) in
  match claim with
  | ClaimCommitted commit_id => rollback_then ledger tx (Ok (Replay commit_id))
  | InProgress _ _ => rollback_then ledger tx (Err (CStore "idempotency reservation in progress"))
  | ConflictDifferentPayload => rollback_then ledger tx (Err (CStore "idempotency payload conflict"))
  | NewReservation attempt_id =>
      write_all ledger request tenant attempt_id tx ;!
      xcall (ledger_commit ledger tx) store_error ;!
      xret (Committed (commit_id_of request))
  end.

(** What is checked before and after the authorizer is asked; neither looks at the world. *)
Definition durable_gates (request : DurableCommitRequest) : cresult TenantId :=
  map_err CStore (verifier (rq_commit request)) ;?
  validate_durable_intent codecs (rq_intent request) ;?
  let? tenant := commit_tenant (s_body (rq_commit request)) in
  let? canonical_digest := map_err CCore (intent_digest H codecs (rq_intent request)) in
  if negb (String.eqb canonical_digest (rq_payload_digest request)) then Err PayloadDigestMismatch
  else validate_durable_scope (rq_intent request) (rq_principal request) tenant ;? Ok tenant.
Definition durable_checks (request : DurableCommitRequest) (tenant : TenantId) : cresult unit :=
  validate_durable_events H codecs request tenant ;?
  validate_durable_rows H request tenant ;?
  validate_durable_root H codecs request.

(** A run in its four stages. *)
Lemma run_stages request w : run request w =
  match durable_gates request with
  | Err e => (Err e, w)
  | Ok tenant =>
      match authorizer (authorization_of request tenant) w with
      | Err e => (Err (CStore (authorization_error_to_string e)), w)
      | Ok _ => match durable_checks request tenant with
                | Err e => (Err e, w)
                | Ok _ => durable_transaction request tenant w
                end
      end
  end.
Proof.
  unfold persist_durable_verified, persist_durable, durable_gates, durable_checks, authorization_of.
  unfold xbind at 1, xlift at 1. destruct (map_err _ (verifier _)) as [[]|e]; [|done]. cbn [rbind].
  unfold xbind at 1, xlift at 1. destruct (validate_durable_intent _ _) as [[]|e]; [|done]. cbn [rbind].
  unfold xbind at 1, xlift at 1. destruct (commit_tenant _) as [tenant|e]; [|done]. cbn [rbind].
  unfold xbind at 1, xlift at 1. destruct (map_err _ (intent_digest _ _ _)) as [d|e]; [|done]. cbn [rbind].
  destruct (negb (String.eqb d _)); [done|].
  unfold xbind at 1, xlift at 1. destruct (validate_durable_scope _ _ _) as [[]|e]; [|done]. cbn [rbind].
  unfold xbind at 1, xquery at 1. destruct (authorizer _ w) as [[]|e]; [|done]. cbn [map_err].
  unfold xbind at 1, xlift at 1. destruct (validate_durable_events _ _ _ _) as [[]|e]; [|done]. cbn [rbind].
  unfold xbind at 1, xlift at 1. destruct (validate_durable_rows _ _ _) as [[]|e]; [|done]. cbn [rbind].
  unfold xbind at 1, xlift at 1. by destruct (validate_durable_root _ _ _) as [[]|e].
Qed.

Lemma durable_gates_tenant request tenant : durable_gates request = Ok tenant → i_tenant_id (rq_intent request) = tenant.
Proof.
  unfold durable_gates. intros E. res_inv E. subst.
  by match goal with B : validate_durable_scope _ _ _ = Ok ?u |- _ => destruct u; apply scope_Ok in B as (-> & _) end.
Qed.

(** The ledger calls a request for a finalized key makes, and the error of the one that
    failed. *)
Inductive ledger_fails (request : DurableCommitRequest) (tenant : TenantId) (w : W) : CommitError → Prop :=
| begin_fails e w1 : ledger_begin ledger tenant w = (Err e, w1) → ledger_fails request tenant w (store_error e)
| claim_fails tx w1 e w2 : ledger_begin ledger tenant w = (Ok tx, w1) →
    claim_idempotency ledger tx tenant (rq_intent request) (rq_payload_digest request) w1 = (Err e, w2) →
    ledger_fails request tenant w (store_error e)
| rollback_fails tx w1 c w2 e w3 : ledger_begin ledger tenant w = (Ok tx, w1) →
    claim_idempotency ledger tx tenant (rq_intent request) (rq_payload_digest request) w1 = (Ok c, w2) →
    ledger_rollback ledger tx w2 = (Err e, w3) → ledger_fails request tenant w (store_error e).

(** The checks leave the world alone; passing them means the request is acceptable, and what
    follows is the transaction. *)
Lemma run_inv request w r w' : run request w = (r, w') →
  (w' = w ∧ ∃ e, r = Err e) ∨
  ∃ tenant, durable_accepted H codecs request tenant ∧ verifier (rq_commit request) = Ok tt ∧
    authorizer (authorization_of request tenant) w = Ok tt ∧ durable_transaction request tenant w = (r, w').
Proof.
  unfold persist_durable_verified, persist_durable. unfold xlift at 1 2. intros E.
  repeat match type of E with
  | (if ?b then _ else _) _ = _ => let B := fresh "B" in destruct b eqn:B; [left; unfold xlift in E; naive_solver|]
  | xbind (xcall (ledger_begin _ _) _) _ _ = _ => fail 1
  | xbind _ _ _ = _ =>
      let E1 := fresh "E1" in let a := fresh "a" in
      apply xbind_inv in E as [(? & E1 & ->)|(a & ? & E1 & E)]; unfold xlift, xquery in E1; injection E1 as E1 ?; subst;
      [left; naive_solver|]; try (rewrite !map_err_Ok in E1); try match type of a with unit => destruct a end
  end.
  right.
  match goal with B : commit_tenant _ = Ok ?t |- _ => exists t; pose proof (commit_tenant_Ok _ _ B) end.
  match goal with B : validate_durable_scope _ _ _ = Ok _ |- _ => apply scope_Ok in B as (? & ? & ?) end.
  match goal with B : validate_durable_events _ _ _ _ = Ok _ |- _ => apply durable_events_Ok in B as (? & ? & ? & ?) end.
  match goal with B : validate_durable_rows _ _ _ = Ok _ |- _ => apply durable_rows_Ok in B as (? & ? & ?) end.
  match goal with B : validate_durable_root _ _ _ = Ok _ |- _ => apply durable_root_Ok in B as (Hcount & ?) end.
  rewrite negb_false_iff, String.eqb_eq in *. split; [|done].
  unfold durable_accepted. rewrite Hcount. subst. by split_and!.
Qed.

Lemma transaction_outcome request tenant w r w' : durable_transaction request tenant w = (r, w') →
  (log w' = log w ∧ ∀ id, r ≠ Ok (Committed id)) ∨
  ∃ attempt, log w' = log w ++ [durable_effects request tenant attempt] ∧
    (r = Ok (Committed (commit_id_of request)) ∨ ∃ e, r = Err e).
Proof.
  unfold durable_transaction. intros [(e & E & ->)|(tx & w1 & E & Hk)]%xbind_inv; unfold xcall in E.
  { destruct (ledger_begin ledger tenant w) as [r1 w1] eqn:Eb. injection E as E <-.
    destruct (begin_opens _ _ _ _ Eb). by left. }
  destruct (ledger_begin ledger tenant w) as [r1 w1'] eqn:Eb. injection E as E%map_err_Ok <-.
  destruct (begin_opens _ _ _ _ Eb) as [Hl1 Hs1]. specialize (Hs1 tx E).
  pose proof (stages_or_rollback tx _ _ (claim_stages tx tenant (rq_intent request) (rq_payload_digest request))) as Hcl.
  apply xbind_inv in Hk as [(e & Ec & ->)|(claim & w2 & Ec & Hk)]; destruct (Hcl _ _ _ Ec) as [Hl2 Hs2].
  { left. split; [congruence|done]. }
  specialize (Hs2 claim eq_refl). rewrite Hs1 in Hs2.
  destruct claim as [attempt|id|? ?|];
    try (apply rollback_then_log in Hk as [Hl3 Hr]; left; split; [congruence|naive_solver]).
  apply xbind_inv in Hk as [(e & Ew & ->)|([] & w3 & Ew & Hk)];
    destruct (write_all_stages request tenant attempt tx _ _ _ Ew) as [Hl3 Hs3].
  { left. split; [congruence|done]. }
  specialize (Hs3 tt eq_refl). rewrite Hs2 in Hs3.
  assert (∃ r4, ledger_commit ledger tx w3 = (r4, w') ∧
            r = (match r4 with Ok _ => Ok (Committed (commit_id_of request)) | Err e => Err (store_error e) end))
    as (r4 & Ec4 & ->).
  { unfold xbind, xcall in Hk. destruct (ledger_commit ledger tx w3) as [[[]|e] w4]; cbn in Hk;
      unfold xret in Hk; simplify_eq; by eexists. }
  destruct (commit_atomic _ _ _ _ Ec4) as [Hl4|[Hl4 [e ->]]].
  - right. exists attempt. rewrite Hl4, Hl3, Hl2, Hl1, Hs3. split; [done|]. destruct r4; eauto.
  - left. split; [congruence|done].
Qed.

(** C12: durable persistence is all or nothing and only of validated requests.  A run
    either leaves the committed log as it was and does not report a commit, or appends exactly
    one transaction holding the claim, the events, the signed commit, the projections, the
    outbox rows and the finalization of that request; then the signature verifier and the
    authorizer have accepted it and every event, projection and outbox row is bound to the
    commit, the intent and the principal. *)
Theorem durable_write_atomic request w r w' : run request w = (r, w') →
  (log w' = log w ∧ ∀ id, r ≠ Ok (Committed id)) ∨
  ∃ tenant attempt, log w' = log w ++ [durable_effects request tenant attempt] ∧
    (r = Ok (Committed (commit_id_of request)) ∨ ∃ e, r = Err e) ∧
    verifier (rq_commit request) = Ok tt ∧ authorizer (authorization_of request tenant) w = Ok tt ∧
    durable_accepted H codecs request tenant.
Proof.
  intros [[-> [e ->]]|(tenant & Hacc & Hv & Ha & Ht)]%run_inv; [by left|].
  destruct (transaction_outcome _ _ _ _ _ Ht) as [?|(attempt & Hl & Hr)]; [by left|].
  right. by exists tenant, attempt.
Qed.

(** ** Replays *)

Lemma finalized_app l txn t id : finalized l t id = None → finalized (l ++ [txn]) t id = transaction_of t id txn.
Proof.
  unfold finalized. induction l as [|x l IH]; cbn; [by destruct (transaction_of t id txn)|].
  destruct (transaction_of t id x); [done|exact IH].
Qed.

Lemma durable_effects_finalized request attempt t :
  transaction_of t (i_intent_id (rq_intent request)) (durable_effects request t attempt) =
  Some (rq_payload_digest request, commit_id_of request).
Proof.
  unfold transaction_of, claim_digest, final_commit, durable_effects, written_effects.
  cbn [omap list_omap app]. rewrite !String.eqb_refl. cbn [andb head mbind option_bind].
  rewrite !omap_app. cbn [omap list_omap]. rewrite !String.eqb_refl. cbn [andb].
  assert (∀ {A B} (f : LedgerEffect → option B) (g : A → LedgerEffect) l, (∀ a, f (g a) = None) → omap f (map g l) = []) as Hn.
  { intros A B f g l Hf. induction l as [|a l IH]; [done|]. cbn. by rewrite Hf. }
  rewrite !Hn by done. done.
Qed.

(** A claim that was granted means the key was free. *)
Lemma committed_was_free `{!IdempotencyLaws ledger} request tenant w w' id :
  durable_transaction request tenant w = (Ok (Committed id), w') → finalized (log w) tenant (i_intent_id (rq_intent request)) = None.
Proof.
  unfold durable_transaction. intros (tx & w1 & E & (claim & w2 & Ec & Hk)%xbind_Ok)%xbind_Ok.
  apply (proj1 (xcall_Ok _ _ _ _ _)) in E. destruct (begin_opens _ _ _ _ E) as [Hl _]. rewrite <- Hl.
  unfold or_rollback in Ec. destruct (claim_idempotency _ _ _ _ _ _) as [[c|e] w3] eqn:Ecl; simplify_eq.
  pose proof (claim_answers _ _ _ _ _ _ _ Ecl) as Ha. destruct (finalized _ _ _) as [[d' c']|]; [|done].
  subst claim. destruct (String.eqb d' (rq_payload_digest request)); apply rollback_then_log in Hk as [_ [Hk|(e & _ & Hk)]]; done.
Qed.

(** A finalized key is answered from the log, unless one of the ledger's calls fails: a
    replay of the same payload, a conflict otherwise. *)
Lemma finalized_answer `{!IdempotencyLaws ledger} request tenant w r w' digest id :
  finalized (log w) tenant (i_intent_id (rq_intent request)) = Some (digest, id) →
  durable_transaction request tenant w = (r, w') →
  log w' = log w ∧
  (r = (if String.eqb digest (rq_payload_digest request) then Ok (Replay id)
        else Err (CStore "idempotency payload conflict")) ∨
   ∃ e, ledger_fails request tenant w e ∧ r = Err e).
Proof.
  intros Hf Ht. unfold durable_transaction in Ht. unfold xbind at 1, xcall at 1 in Ht.
  destruct (ledger_begin ledger tenant w) as [[tx|e] w1] eqn:Eb; destruct (begin_opens _ _ _ _ Eb) as [Hl1 _]; cbn [map_err] in Ht.
  2: { injection Ht as <- <-. split; [done|]. right. eexists. split; [by eapply begin_fails|done]. }
  unfold xbind at 1, or_rollback in Ht.
  destruct (claim_idempotency _ _ _ _ _ _) as [[c|e] w2] eqn:Ecl;
    destruct (claim_stages _ _ _ _ _ _ _ Ecl) as [Hl2 _].
  2: { destruct (ledger_rollback ledger tx w2) as [r3 w3] eqn:Er. pose proof (rollback_discards _ _ _ _ Er).
       injection Ht as <- <-. split; [cbn; congruence|]. right. eexists. split; [by eapply claim_fails|done]. }
  pose proof (claim_answers _ _ _ _ _ _ _ Ecl) as Ha. rewrite Hl1, Hf in Ha. subst c.
  destruct (String.eqb digest (rq_payload_digest request));
    apply rollback_then_log in Ht as [Hl3 [->|(e & Er & ->)]]; (split; [congruence|]);
    [by left|right; eexists; split; [by eapply rollback_fails|done]|by left|right; eexists; split; [by eapply rollback_fails|done]].
Qed.

(** C18: a committed request is replayed, never written again.  Take a run that reported a
    commit, and any later world with the same log.  Submitting the same request there writes
    nothing and answers a replay naming the same commit; the only other answers are the
    refusal of the authorizer in that world, or the error of the ledger's begin, claim or
    rollback call when one of these fails.  A request with a different payload digest under
    the same tenant and intent id writes nothing either: it is refused by the checks, or as
    an idempotency conflict, or with the error of such a ledger call. *)
Theorem durable_replay `{!IdempotencyLaws ledger} request w w1 id :
  run request w = (Ok (Committed id), w1) →
  (∀ w2 r w3, log w2 = log w1 → run request w2 = (r, w3) →
     log w3 = log w1 ∧
     (r = Ok (Replay id) ∨
      (∃ e, authorizer (authorization_of request (i_tenant_id (rq_intent request))) w2 = Err e ∧
         r = Err (CStore (authorization_error_to_string e))) ∨
      ∃ e, ledger_fails request (i_tenant_id (rq_intent request)) w2 e ∧ r = Err e)) ∧
  (∀ request' w2 r w3, log w2 = log w1 → run request' w2 = (r, w3) →
     i_tenant_id (rq_intent request') = i_tenant_id (rq_intent request) →
     i_intent_id (rq_intent request') = i_intent_id (rq_intent request) →
     rq_payload_digest request' ≠ rq_payload_digest request →
     log w3 = log w1 ∧
     ((w3 = w2 ∧ ∃ e, r = Err e) ∨ r = Err (CStore "idempotency payload conflict") ∨
      ∃ e, ledger_fails request' (i_tenant_id (rq_intent request')) w2 e ∧ r = Err e)).
Proof.
  rewrite run_stages. destruct (durable_gates request) as [tenant|e] eqn:Eg; [|done].
  destruct (authorizer (authorization_of request tenant) w) as [[]|e]; [|done].
  destruct (durable_checks request tenant) as [[]|e] eqn:Ec; [|done]. intros Ht.
  pose proof (committed_was_free _ _ _ _ _ Ht) as Hfree.
  destruct (transaction_outcome _ _ _ _ _ Ht) as [[_ Hn]|(attempt & Hl & [[= ->]|[e [=]]])]; [by destruct (Hn id)|].
  pose proof (finalized_app _ (durable_effects request tenant attempt) _ _ Hfree) as Hfin.
  rewrite <- Hl, durable_effects_finalized in Hfin. apply durable_gates_tenant in Eg as Et. split.
  - intros w2 r w3 Hw2. rewrite run_stages, Eg, Ec, Et. rewrite <- Hw2 in Hfin |- *.
    destruct (authorizer (authorization_of request tenant) w2) as [[]|e] eqn:Ea; [|intros [= <- <-]; eauto 10].
    intros Hrun. destruct (finalized_answer _ _ _ _ _ _ _ Hfin Hrun) as [? [Hr|?]]; [|eauto].
    rewrite String.eqb_refl in Hr. auto.
  - intros req' w2 r w3 Hw2 Hrun Et' Ei Hd. rewrite run_stages in Hrun. rewrite <- Hw2 in Hfin |- *.
    destruct (durable_gates req') as [tenant'|e] eqn:Eg'; [|simplify_eq; eauto].
    destruct (authorizer _ w2) as [[]|e]; [|simplify_eq; eauto].
    destruct (durable_checks req' tenant') as [[]|e]; [|simplify_eq; eauto].
    apply durable_gates_tenant in Eg' as <-. rewrite <- Et, <- Et', <- Ei in Hfin.
    destruct (finalized_answer _ _ _ _ _ _ _ Hfin Hrun) as [? [Hr|?]]; [|auto].
    destruct (String.eqb_spec (rq_payload_digest request) (rq_payload_digest req')); [congruence|auto].
Qed.
End Staging.

(** ** An in-memory ledger *)

Module MemoryLedger.
Record World := mkWorld { w_log : Log; w_open : gmap nat (list LedgerEffect); w_next : nat }.

Definition pending (w : World) (tx : nat) : list LedgerEffect := default [] (w_open w !! tx).
Definition stage (tx : nat) (effects : list LedgerEffect) (w : World) : World :=
  mkWorld (w_log w) (<[tx := pending w tx ++ effects]> (w_open w)) (w_next w).
Definition put (tx : nat) (e : LedgerEffect) (w : World) : result unit LedgerStoreError * World := (Ok tt, stage tx [e] w).
Definition claim (tx : nat) (t : TenantId) (i : Intent) (d : ContentDigest) (w : World)
    : result IdempotencyClaim LedgerStoreError * World :=
  match finalized (w_log w) t (i_intent_id i) with
  | Some (d', c) => (Ok (if String.eqb d' d then ClaimCommitted c else ConflictDifferentPayload), w)
  | None => let attempt := "attempt-" +:+ u128_to_string (Z.of_nat tx) in
            (Ok (NewReservation attempt), stage tx [EffClaim t i d attempt] w)
  end.

Definition store : LedgerStore World nat := {|
  ledger_begin _ w := (Ok (w_next w), mkWorld (w_log w) (<[w_next w := []]> (w_open w)) (S (w_next w)));
  claim_idempotency := claim;
  append_events tx es := put tx (EffEvents es);
  append_commit tx c := put tx (EffCommit c);
  upsert_projection tx p := put tx (EffProjection p);
  enqueue_outbox tx o := put tx (EffOutbox o);
  finalize_idempotency tx t i a c := put tx (EffFinalize t i a c);
  ledger_commit tx w := (Ok tt, mkWorld (w_log w ++ [pending w tx]) (delete tx (w_open w)) (w_next w));
  ledger_rollback tx w := (Ok tt, mkWorld (w_log w) (delete tx (w_open w)) (w_next w));
|}.

Lemma pending_stage tx effects w : pending (stage tx effects w) tx = pending w tx ++ effects.
Proof. unfold pending at 1. cbn. by rewrite lookup_insert_eq. Qed.

Lemma put_stages tx e : stages w_log pending tx (put tx e) (fun _ => [e]).
Proof. intros w r w' [= <- <-]. split; [done|]. intros. apply pending_stage. Qed.
End MemoryLedger.

#[export] Instance memory_ledger_laws : LedgerLaws MemoryLedger.store.
Proof.
  refine {| log := MemoryLedger.w_log; staged := MemoryLedger.pending |}; try (intros; apply MemoryLedger.put_stages).
  - intros t w r w' [= <- <-]. split; [done|]. intros tx [= <-]. unfold MemoryLedger.pending. cbn. by rewrite lookup_insert_eq.
  - intros tx t i d w r w'. cbn. unfold MemoryLedger.claim. destruct (finalized _ _ _) as [[d' c]|]; intros [= <- <-].
    + split; [done|]. intros a [= <-]. destruct (String.eqb d' d); by rewrite app_nil_r.
    + split; [done|]. intros a [= <-]. apply MemoryLedger.pending_stage.
  - intros tx w r w' [= <- <-]. by left.
  - by intros tx w r w' [= <- <-].
Defined.

#[export] Instance memory_idempotency_laws : IdempotencyLaws MemoryLedger.store.
Proof.
  split. intros tx t i d w c w'. cbn. unfold MemoryLedger.claim.
  destruct (finalized _ _ _) as [[d' c']|]; intros [= <- <-]; [done|left; eauto].
Qed.

(** ** Samples *)

Module LedgerSamples.
Import CommitSamples.
Definition codecs : CommitCodecs := {|
  intent_codecs := AdmissionSamples.codecs;
  bcs_event e := Ok (e_event_id e);
  bcs_state s := Ok (default EmptyString (rs_owner s));
  bcs_signed_commit c := Ok (cm_commit_id (s_body c));
|}.
Definition owned (owner : string) (version : Z) : StateCommitment :=
  mkCommitment version (pad32 owner) (RUniqueAsset (mkUnique owner "active" None)).
Definition intent (nonce : string) : Intent :=
  intent_new "acme" "int_7" "asset.transfer" "alice" "asset:sword" (Some StUniqueAsset) 1 ∅ None 0 None nonce.
Definition event : Event :=
  event_new "acme" "evt_7" "int_7" "asset.transfer" "asset:sword" "alice" (owned "alice" 1) (owned "bob" 2) None "exec" 0.
Definition entry : CommittedEvent := mkCommitted event StUniqueAsset.
Definition signed : Signed Commit :=
  mkSigned (commit_new (scope_tenant "acme") "cmt_7" None 7 1 (pad32 (byte LEAF_NODE_TAG +:+ pad32 "evt_7"))
    (pad32 "before") (pad32 "after") 0 "exec" "statechronicle.profile.resource.v0") (mkSignature Ed25519 "key" "sig").
Definition note : OutboxRecord := mkOutbox "cmt_7/evt_7" "acme" "cmt_7" (pad32 "note") "note".
Definition request (digest : string) : DurableCommitRequest :=
  mkRequest (mkPrincipal "alice" "session" "acme") (intent "n") digest [entry] signed
    (projections_for "cmt_7" [entry]) [note].
Definition start : MemoryLedger.World := MemoryLedger.mkWorld [] ∅ 0.
Definition run (digest : string) (w : MemoryLedger.World) :=
  persist_durable_verified pad32 codecs MemoryLedger.store (fun _ _ => Ok tt) (fun _ => Ok tt) (request digest) w.
End LedgerSamples.
Import LedgerSamples.

Lemma durable_write_atomic_witness : ∃ tenant attempt,
  MemoryLedger.w_log (run (CommitSamples.pad32 "int_7") start).2 = [durable_effects (request (CommitSamples.pad32 "int_7")) tenant attempt] ∧
  durable_accepted CommitSamples.pad32 codecs (request (CommitSamples.pad32 "int_7")) tenant.
Proof.
  destruct (durable_write_atomic MemoryLedger.store CommitSamples.pad32 codecs (fun _ _ => Ok tt) (fun _ => Ok tt)
    (request (CommitSamples.pad32 "int_7")) start (Ok (Committed "cmt_7")) (run (CommitSamples.pad32 "int_7") start).2)
    as [[_ Hn]|(tenant & attempt & Hl & _ & _ & _ & Ha)].
  - vm_compute; reflexivity.
  - destruct (Hn "cmt_7" eq_refl).
  - exists tenant, attempt. split; [exact Hl|exact Ha].
Defined.

Lemma durable_replay_witness :
  let w1 := (run (CommitSamples.pad32 "int_7") start).2 in
  MemoryLedger.w_log (run (CommitSamples.pad32 "int_7") w1).2 = MemoryLedger.w_log w1 ∧
  (run (CommitSamples.pad32 "int_7") w1).1 = Ok (Replay "cmt_7").
Proof.
  intros w1.
  destruct (durable_replay MemoryLedger.store CommitSamples.pad32 codecs (fun _ _ => Ok tt) (fun _ => Ok tt)
    (request (CommitSamples.pad32 "int_7")) start w1 "cmt_7") as [Hr _]; [vm_compute; reflexivity|].
  destruct (Hr w1 _ _ eq_refl (surjective_pairing (run (CommitSamples.pad32 "int_7") w1)))
    as [Hl [Hans|[(e & He & _)|(e & Hf & _)]]].
  - split; [exact Hl|exact Hans].
  - discriminate He.
  - exfalso. clear -Hf. destruct Hf as [e w2 E|tx w2 e w3 _ E|tx w2 c w3 e w4 _ _ E]; [discriminate E| |discriminate E].
    cbn in E. unfold MemoryLedger.claim in E. destruct (finalized _ _ _) as [[d c]|]; discriminate E.
Defined.
