(* ===== verification/Bundle.v ===== *)
(** * Proof bundles

    Models [crates/statechronicle-proof/src] and the wire types of
    [statechronicle-domain/src/proof.rs] and [trade.rs]: the dense path encoding
    ([inclusion.rs]), the builders ([bundle.rs]), the verifiers ([verify.rs]), trade proofs
    ([trade.rs]) and the proof service over its read ports ([service.rs]). *)

From Stdlib Require Import ZArith Lia Ascii String.
From stdpp Require Import prelude gmap strings.
From S2P Require Import Prelude Amount Domain Profile Atomicity Executor.
From S2P Require Import SortFacts Keys Sha256 DefaultHashes Accumulator Merkle Checkpoint Commit Signing Durable.
Open Scope Z_scope.

(** ** Wire types *)

Definition RESOURCE_STATE_PROOF_SCHEMA : string := "statechronicle.proof.resource_state.v0".
Definition NON_MEMBERSHIP_PROOF_SCHEMA : string := "statechronicle.proof.non_membership.v0".
Definition SNAPSHOT_PROOF_SCHEMA : string := "statechronicle.proof.snapshot.v0".
Definition TRADE_PROOF_SCHEMA : string := "statechronicle.proof.trade.v0".
Definition SPARSE_MERKLE_V0 : string := "sparse_merkle_v0".
Definition MAX_PROOF_BYTES : Z := 2 * 1024 * 1024.

Record SparseMerkleProof := mkSparse {
  sp_kind : string; sp_path : list ContentDigest; sp_leaf_hash : ContentDigest }.
Definition sparse_new := mkSparse SPARSE_MERKLE_V0.

Record CommitRef := mkCommitRef {
  cref_commit_id : CommitId; cref_sequence : Z; cref_state_root : ContentDigest; cref_signature : SignatureBlock }.
Record EventRef := mkEventRef { er_event_id : EventId; er_operation : Operation }.

Record ResourceStateProof := mkStateProof {
  rp_schema : string;
  rp_tenant_id : TenantId;
  rp_resource_id : ResourceId;
  rp_claimed_state : ResourceState;
  rp_commit : CommitRef;
  rp_state_inclusion_proof : SparseMerkleProof;
  rp_latest_event : EventRef;
  rp_authority : option AuthorityProof;
}.
Definition state_proof_new := mkStateProof RESOURCE_STATE_PROOF_SCHEMA.

Record NonMembershipProofBundle := mkAbsence {
  nb_schema : string;
  nb_tenant_id : TenantId;
  nb_resource_id : ResourceId;
  nb_claimed_key : ContentDigest;
  nb_commit : CommitRef;
  nb_state_non_membership_proof : SparseMerkleProof;
}.
Definition absence_new := mkAbsence NON_MEMBERSHIP_PROOF_SCHEMA.

Record SnapshotProof := mkSnapshotProof {
  snp_schema : string; snp_snapshot_id : string; snp_payload_digest : ContentDigest; snp_state : ResourceStateProof }.

Inductive TradeStatus := TradeOpen | TradeSettled | TradeCancelled.

Record TradeSide := mkTradeSide {
  ts_tenant : TenantId;
  ts_settle_assets : list ResourceId;
  ts_from_owner : string;
  ts_to_owner : string;
  ts_settle_commit : CommitRef;
  ts_settle_commits_by_asset : gmap string CommitRef;
  ts_settle_event_ids : list EventId;
}.
Record TradeValueLeg := mkTradeValueLeg {
  vl_resource : ResourceId;
  vl_amount : string;
  vl_to_subject : SubjectId;
  vl_pair_event_ids : list EventId;
  vl_tenant : TenantId;
  vl_commit : CommitRef;
}.
Record TradeEventRef := mkTradeEventRef { ter_event_id : EventId; ter_tenant_id : TenantId; ter_operation : Operation }.
Record TradeRecord := mkTradeRecord {
  tr_trade_id : string;
  tr_status : TradeStatus;
  tr_sides : list TradeSide;
  tr_value_legs : list TradeValueLeg;
  tr_events : list TradeEventRef;
}.
(** [TradeRecord::new]. *)
Definition trade_record_new (trade_id : string) : TradeRecord := mkTradeRecord trade_id TradeOpen [] [] [].
Record TradeSummary := mkTradeSummary {
  tsm_trade_id : string; tsm_status : TradeStatus; tsm_sides : list TradeSide; tsm_value_legs : list TradeValueLeg }.
Record TradeProofLeg := mkTradeLeg {
  tl_tenant : TenantId; tl_commit : CommitRef; tl_state_proofs : list ResourceStateProof }.
Record TradeProof := mkTradeProof {
  tp_schema : string; tp_trade_id : string; tp_summary : TradeSummary; tp_legs : list TradeProofLeg }.

(** ** Errors *)

Inductive ProofError :=
| PrDomain (e : DomainError)
| PrCore (e : StateChronicleError)
| PrSizeLimitExceeded (limit actual : Z)
| PrNotFound
| UnsupportedSchema (schema : string)
| UnsupportedKind (kind : string)
| PrInvalidState (msg : string)
| CommitSignature (msg : string)
| CommitRefMismatch (expected actual : string)
| CommitScopeError (msg : string)
| NonCanonicalCommit (tenant commit_id : string)
| CanonicalHeadUnavailable
| PrKeyNotFound (key_id : string)
| TenantMismatch (expected actual : string)
| ResourceMismatch (expected actual : string)
| SubjectMismatch (expected actual : string)
| MissingOwner
| InclusionMismatch
| ClaimedStateMismatch
| LeafMismatch
| InvalidPathLength (expected actual : Z)
| KeyMismatch (expected actual : string)
| NonMembershipLeafMismatch
| PrStore (msg : string)
| ProofIndexFailed (msg : string)
| TradeIdMismatch (expected actual : string)
| TradeMissingSide (tenant : string)
| TradeOperation (operation : string)
| TradeProofTruncated (expected actual : Z).

Notation presult A := (result A ProofError).

(** ** Dense paths *)

(** The loop of [dense_path] overwrites the slots the steps name. *)
Definition dense_path (steps : list PathStep) : list ContentDigest :=
  foldl (fun path step => <[ps_level step := ps_sibling step]> path) (map default_hash (seq 0 TREE_DEPTH)) steps.

Definition sparse_proof_from_inclusion (proof : InclusionProof) : SparseMerkleProof :=
  sparse_new (dense_path (ip_steps proof)) (ip_leaf_hash proof).
Definition sparse_proof_from_non_membership (proof : NonMembershipProof) : SparseMerkleProof :=
  sparse_new (dense_path (np_steps proof)) (np_leaf_hash proof).

(** The loop of [steps_from_sparse_proof], from a level on. *)
Fixpoint dense_steps (level : nat) (path : list ContentDigest) : list PathStep :=
  match path with
  | [] => []
  | digest :: rest =>
      (if negb (String.eqb digest (default_hash level)) then [mkStep level digest] else []) ++ dense_steps (S level) rest
  end.

Definition steps_from_sparse_proof (sparse : SparseMerkleProof) : presult (list PathStep) :=
  if negb (String.eqb (sp_kind sparse) SPARSE_MERKLE_V0) then Err (UnsupportedKind (sp_kind sparse))
  else if negb (length (sp_path sparse) =? TREE_DEPTH)%nat then
    Err (InvalidPathLength (Z.of_nat TREE_DEPTH) (Z.of_nat (length (sp_path sparse))))
  else Ok (dense_steps 0 (sp_path sparse)).

(** ** Builders *)

Definition commit_ref (signed_commit : Signed Commit) : presult CommitRef :=
  let body := s_body signed_commit in
  if negb (scope_kind_tenant (sc_kind (cm_scope body))) then
    Err (CommitScopeError "proof bundles pin tenant-scoped commits; global checkpoint commits carry tenant roots, not resource state")
  else
    let? _ := ok_or (sc_tenant_id (cm_scope body)) (CommitScopeError "tenant-scoped commit is missing its tenant id") in
    Ok (mkCommitRef (cm_commit_id body) (cm_sequence body) (cm_next_state_root body) (s_signature signed_commit)).

Definition owner_of (state : ResourceState) : presult string :=
  let? owner := ok_or (rs_owner state) (PrInvalidState "state is missing a string `owner`") in
  if str_is_empty owner then Err (PrInvalidState "state `owner` is empty") else Ok owner.

Definition check_claim (proof : ResourceStateProof) (tenant : TenantId) (resource : ResourceId) : presult unit :=
  if negb (String.eqb (rp_tenant_id proof) tenant) then Err (TenantMismatch tenant (rp_tenant_id proof))
  else if negb (String.eqb (rp_resource_id proof) resource) then Err (ResourceMismatch resource (rp_resource_id proof))
  else Ok tt.

Definition build_authority_proof (evaluation_digest : ContentDigest) (result : EvaluationResult) (evaluated_at : DateTime)
    : AuthorityProof := mkAuthorityProof TRUSTGRANT_EVALUATION_KIND evaluation_digest result evaluated_at.

Section Bundles.
Context (H : string → string).

Definition build_state_proof (projection : StateProjection) (signed_commit : Signed Commit) (inclusion : InclusionProof)
    (latest_operation : Operation) (authority : option AuthorityProof) (key : StateKey) : presult ResourceStateProof :=
  if negb (String.eqb (ip_leaf_hash inclusion) (leaf_hash H key (p_state_hash projection))) then Err LeafMismatch
  else
    let? commit := commit_ref signed_commit in
    Ok (state_proof_new (p_tenant_id projection) (p_resource_id projection) (p_state projection) commit
          (sparse_proof_from_inclusion inclusion) (mkEventRef (p_last_event_id projection) latest_operation) authority).

Definition build_ownership_proof (projection : StateProjection) (signed_commit : Signed Commit)
    (inclusion : InclusionProof) (latest_operation : Operation) (subject : SubjectId)
    (authority : option AuthorityProof) (key : StateKey) : presult ResourceStateProof :=
  let? owner := owner_of (p_state projection) in
  if negb (String.eqb owner subject) then Err (SubjectMismatch subject owner)
  else build_state_proof projection signed_commit inclusion latest_operation authority key.

Definition build_non_membership_proof (tenant : TenantId) (resource_id : ResourceId) (key : StateKey)
    (signed_commit : Signed Commit) (non_membership : NonMembershipProof) : presult NonMembershipProofBundle :=
  if negb (String.eqb (np_key non_membership) key) then Err (KeyMismatch (to_hex key) (to_hex (np_key non_membership)))
  else if negb (String.eqb (np_leaf_hash non_membership) EMPTY_LEAF_HASH) then Err NonMembershipLeafMismatch
  else
    let? commit := commit_ref signed_commit in
    Ok (absence_new tenant resource_id key commit (sparse_proof_from_non_membership non_membership)).

Definition build_snapshot_proof (snapshot_id payload : string) (state : ResourceStateProof) : SnapshotProof :=
  mkSnapshotProof SNAPSHOT_PROOF_SCHEMA snapshot_id (H payload) state.

(** [state_key_for_proof] and [state_key_for_projection]: the owner-based key. *)
Definition state_key_for_proof (proof : ResourceStateProof) : StateKey :=
  for_resource H (rp_tenant_id proof) (rp_resource_id proof).
Definition state_key_for_projection (projection : StateProjection) : StateKey :=
  for_resource H (p_tenant_id projection) (p_resource_id projection).

Definition derive_state_key (proof : ResourceStateProof) : presult StateKey :=
  match rs_subject (rp_claimed_state proof) with
  | Some subject =>
      if str_is_empty subject then Err (PrInvalidState "claimed state `subject` is empty")
      else Ok (for_subject_held H (rp_tenant_id proof) (rp_resource_id proof) subject)
  | None => Ok (for_resource H (rp_tenant_id proof) (rp_resource_id proof))
  end.

(** ** Verification *)

Definition verify_sparse_merkle_v0 (root : string) (key : StateKey) (sparse : SparseMerkleProof) : presult unit :=
  if negb (String.eqb (sp_kind sparse) SPARSE_MERKLE_V0) then Err (UnsupportedKind (sp_kind sparse))
  else
    let? steps := steps_from_sparse_proof sparse in
    if verify_inclusion H root (mkInclusion key (sp_leaf_hash sparse) steps) then Ok tt else Err InclusionMismatch.

Section WithCodecs.
Context {SigningKey VerifyingKey : Type} (scheme : SignatureScheme SigningKey VerifyingKey).
Context (bcs_commit : Bcs Commit) (bcs_state : Bcs ResourceState).
Context (bcs_proof : Bcs ResourceStateProof) (bcs_absence : Bcs NonMembershipProofBundle).

Definition verify_commit_signature_with_key (signed : Signed Commit) (verifying_key : VerifyingKey) : presult unit :=
  let? canonical := map_err PrCore (canonicalize_with bcs_commit (s_body signed)) in
  map_err (fun err => CommitSignature ("commit signature failed strict Ed25519 verification: " +:+ core_error_to_string err))
    (verify scheme canonical verifying_key (sb_sig (s_signature signed))).

Definition verify_claimed_state (proof : ResourceStateProof) (key : StateKey) : presult unit :=
  let? state_digest := map_err PrCore (canonicalize_and_digest H bcs_state (rp_claimed_state proof)) in
  if String.eqb (leaf_hash H key state_digest) (sp_leaf_hash (rp_state_inclusion_proof proof)) then Ok tt
  else Err ClaimedStateMismatch.

Definition verify_proof (proof : ResourceStateProof) (root : string) (key : StateKey) : presult unit :=
  if negb (String.eqb (rp_schema proof) RESOURCE_STATE_PROOF_SCHEMA) then Err (UnsupportedSchema (rp_schema proof))
  else
    verify_sparse_merkle_v0 root key (rp_state_inclusion_proof proof) ;?
    verify_claimed_state proof key.

Definition check_proof_size {A} (bcs : Bcs A) (proof : A) : presult unit :=
  let? bytes := map_err (fun error => PrInvalidState ("proof serialization failed: " +:+ error)) (bcs proof) in
  if MAX_PROOF_BYTES <? slen bytes then Err (PrSizeLimitExceeded MAX_PROOF_BYTES (slen bytes)) else Ok tt.

Definition verify_ownership (proof : ResourceStateProof) (expected_subject : string) : presult unit :=
  let? owner := owner_of (rp_claimed_state proof) in
  if String.eqb owner expected_subject then Ok tt else Err (SubjectMismatch expected_subject owner).

Definition verify_commit_envelope (tenant_id : TenantId) (commit : CommitRef) (signed : Signed Commit)
    (verifying_key : VerifyingKey) : presult unit :=
  let body := s_body signed in
  let? commit_tenant := ok_or (sc_tenant_id (cm_scope body))
    (CommitScopeError "proof bundles pin tenant-scoped commits; global checkpoint commits carry tenant roots, not resource state") in
  if negb (String.eqb commit_tenant tenant_id) then Err (TenantMismatch commit_tenant tenant_id)
  else if negb (String.eqb (cref_commit_id commit) (cm_commit_id body)) then
    Err (CommitRefMismatch (cm_commit_id body) (cref_commit_id commit))
  else if negb (cref_sequence commit =? cm_sequence body) then
    Err (CommitRefMismatch (u128_to_string (cm_sequence body)) (u128_to_string (cref_sequence commit)))
  else if negb (String.eqb (cref_state_root commit) (cm_next_state_root body)) then
    Err (CommitRefMismatch (digest_as_str (cm_next_state_root body)) (digest_as_str (cref_state_root commit)))
  else verify_commit_signature_with_key signed verifying_key.

Definition verify_bundle (proof : ResourceStateProof) (signed : Signed Commit) (verifying_key : VerifyingKey)
    (key : StateKey) : presult unit :=
  check_proof_size bcs_proof proof ;?
  if negb (String.eqb (rp_schema proof) RESOURCE_STATE_PROOF_SCHEMA) then Err (UnsupportedSchema (rp_schema proof))
  else
    verify_commit_envelope (rp_tenant_id proof) (rp_commit proof) signed verifying_key ;?
    verify_sparse_merkle_v0 (cm_next_state_root (s_body signed)) key (rp_state_inclusion_proof proof) ;?
    verify_claimed_state proof key.

(** [verify::verify_non_membership]. *)
Definition verify_absence (bundle : NonMembershipProofBundle) (root : string) (key : StateKey) : presult unit :=
  check_proof_size bcs_absence bundle ;?
  if negb (String.eqb (nb_schema bundle) NON_MEMBERSHIP_PROOF_SCHEMA) then Err (UnsupportedSchema (nb_schema bundle))
  else if negb (String.eqb (nb_claimed_key bundle) key) then
    Err (KeyMismatch (to_hex key) (to_hex (nb_claimed_key bundle)))
  else
    let sparse := nb_state_non_membership_proof bundle in
    if negb (String.eqb (sp_kind sparse) SPARSE_MERKLE_V0) then Err (UnsupportedKind (sp_kind sparse))
    else if negb (length (sp_path sparse) =? TREE_DEPTH)%nat then
      Err (InvalidPathLength (Z.of_nat TREE_DEPTH) (Z.of_nat (length (sp_path sparse))))
    else if negb (String.eqb (sp_leaf_hash sparse) EMPTY_LEAF_HASH) then Err NonMembershipLeafMismatch
    else
      let? steps := steps_from_sparse_proof sparse in
      if verify_non_membership H root (mkNonMembership key (sp_leaf_hash sparse) steps) then Ok tt
      else Err InclusionMismatch.

Definition verify_non_membership_bundle (bundle : NonMembershipProofBundle) (signed : Signed Commit)
    (verifying_key : VerifyingKey) (key : StateKey) : presult unit :=
  if negb (String.eqb (nb_schema bundle) NON_MEMBERSHIP_PROOF_SCHEMA) then Err (UnsupportedSchema (nb_schema bundle))
  else
    verify_commit_envelope (nb_tenant_id bundle) (nb_commit bundle) signed verifying_key ;?
    verify_absence bundle (cm_next_state_root (s_body signed)) key.

(** ** Trade proofs *)

(** The loop of [build_trade_proof] over the proof groups. *)
Fixpoint trade_legs (sides : list TradeSide) (proofs : list (TenantId * list ResourceStateProof))
    : presult (list TradeProofLeg) :=
  match proofs with
  | [] => Ok []
  | (tenant, state_proofs) :: rest =>
      if negb (existsb (fun side => String.eqb (ts_tenant side) tenant) sides) then Err (TradeMissingSide tenant)
      else
        let? legs := trade_legs sides rest in
        Ok (match state_proofs with
            | [] => legs
            | first :: _ => mkTradeLeg tenant (rp_commit first) state_proofs :: legs
            end)
  end.

Definition build_trade_proof (record : TradeRecord) (proofs : list (TenantId * list ResourceStateProof))
    : presult TradeProof :=
  let summary := mkTradeSummary (tr_trade_id record) (tr_status record) (tr_sides record) (tr_value_legs record) in
  let? legs := trade_legs (tr_sides record) proofs in
  Ok (mkTradeProof TRADE_PROOF_SCHEMA (tr_trade_id record) summary
        (sort_by (fun left right => str_cmp (tl_tenant left) (tl_tenant right)) legs)).

Definition side_of (summary : TradeSummary) (tenant : TenantId) : option TradeSide :=
  List.find (fun side => String.eqb (ts_tenant side) tenant) (tsm_sides summary).

(** The cardinality loop. *)
Definition check_leg_size (summary : TradeSummary) (leg : TradeProofLeg) : presult unit :=
  let? side := ok_or (side_of summary (tl_tenant leg)) (TradeMissingSide (tl_tenant leg)) in
  if negb (length (tl_state_proofs leg) =? length (ts_settle_assets side))%nat then
    Err (TradeProofTruncated (Z.of_nat (length (ts_settle_assets side))) (Z.of_nat (length (tl_state_proofs leg))))
  else Ok tt.

Definition verify_leg_proof (commits_by_id : gmap string (Signed Commit * VerifyingKey)) (side : TradeSide)
    (state_proof : ResourceStateProof) : presult unit :=
  let? entry := ok_or (commits_by_id !! cref_commit_id (rp_commit state_proof))
    (PrKeyNotFound (cref_commit_id (rp_commit state_proof))) in
  let? state_key := derive_state_key state_proof in
  verify_bundle state_proof entry.1 entry.2 state_key ;?
  if negb (existsb (String.eqb (rp_resource_id state_proof)) (ts_settle_assets side)) then
    Err (ResourceMismatch (ts_to_owner side) (rp_resource_id state_proof))
  else
    let? owner := owner_of (rp_claimed_state state_proof) in
    if negb (String.eqb owner (ts_to_owner side)) then Err (SubjectMismatch (ts_to_owner side) owner)
    else if negb (String.eqb (er_operation (rp_latest_event state_proof)) "trade.settle") then
      Err (TradeOperation (er_operation (rp_latest_event state_proof)))
    else Ok tt.

Definition verify_leg (commits_by_id : gmap string (Signed Commit * VerifyingKey)) (summary : TradeSummary)
    (leg : TradeProofLeg) : presult unit :=
  let? side := ok_or (side_of summary (tl_tenant leg)) (TradeMissingSide (tl_tenant leg)) in
  rforeach (verify_leg_proof commits_by_id side) (tl_state_proofs leg).

Definition verify_trade_proof (proof : TradeProof) (commits_by_id : gmap string (Signed Commit * VerifyingKey))
    : presult unit :=
  let summary := tp_summary proof in
  if negb (String.eqb (tp_schema proof) TRADE_PROOF_SCHEMA) then Err (UnsupportedSchema (tp_schema proof))
  else if negb (String.eqb (tsm_trade_id summary) (tp_trade_id proof)) then
    Err (TradeIdMismatch (tsm_trade_id summary) (tp_trade_id proof))
  else
    rforeach (check_leg_size summary) (tp_legs proof) ;?
    if negb (length (tp_legs proof) =? length (tsm_sides summary))%nat then
      Err (TradeProofTruncated (Z.of_nat (length (tsm_sides summary))) (Z.of_nat (length (tp_legs proof))))
    else rforeach (verify_leg commits_by_id summary) (tp_legs proof).

(** ** The proof service *)

Inductive ProofIndexError := ProofUnavailable | ProofIndexUnavailable (msg : string).
Definition proof_index_error_to_string (e : ProofIndexError) : string :=
  match e with
  | ProofUnavailable => "no proof available for the requested claim"
  | ProofIndexUnavailable m => "proof index unavailable: " +:+ m
  end.

Record CanonicalHead := mkHead { hd_commit_id : CommitId; hd_sequence : Z; hd_state_root : ContentDigest }.

(** The read ports, at one moment. *)
Record ProofPorts := mkProofPorts {
  px_state_proof : TenantId → ResourceId → option CommitId → result (option ResourceStateProof) ProofIndexError;
  px_ownership_proof : TenantId → ResourceId → SubjectId → option CommitId → result (option ResourceStateProof) ProofIndexError;
  px_inclusion_proof : TenantId → EventId → CommitId → result (option SparseMerkleProof) ProofIndexError;
  px_non_membership_proof : TenantId → ResourceId → StateKey → option CommitId → result (option NonMembershipProofBundle) ProofIndexError;
  px_state : TenantId → ResourceId → result (option StateProjection) StateIndexError;
  px_commit_by_id : TenantId → CommitId → result (option (Signed Commit)) CommitStoreError;
  px_canonical_head : TenantId → result (option CanonicalHead) CommitStoreError;
  px_snapshot : TenantId → string → result (option string) string;
}.

Section Service.
Context (ports : ProofPorts).

Definition index_call {A} (r : result A ProofIndexError) : presult A :=
  map_err (fun err => ProofIndexFailed (proof_index_error_to_string err)) r.
Definition store_call {A} (r : result A CommitStoreError) : presult A :=
  map_err (fun err => PrStore (commit_store_error_to_string err)) r.

Definition service_get_state (tenant : TenantId) (resource_id : ResourceId) : presult (option StateProjection) :=
  map_err (fun err => ProofIndexFailed (index_error_to_string err)) (px_state ports tenant resource_id).
Definition get_state_proof (tenant : TenantId) (resource_id : ResourceId) (at_ : option CommitId) :=
  index_call (px_state_proof ports tenant resource_id at_).
Definition get_ownership_proof (tenant : TenantId) (resource_id : ResourceId) (subject : SubjectId) (at_ : option CommitId) :=
  index_call (px_ownership_proof ports tenant resource_id subject at_).
Definition get_inclusion_proof (tenant : TenantId) (event_id : EventId) (commit_id : CommitId) :=
  index_call (px_inclusion_proof ports tenant event_id commit_id).
Definition get_non_membership_proof (tenant : TenantId) (resource_id : ResourceId) (key : StateKey) (at_ : option CommitId) :=
  index_call (px_non_membership_proof ports tenant resource_id key at_).

(** Load a stored commit or fail with [NotFound]. *)
Definition load_commit (tenant : TenantId) (commit_id : CommitId) : presult (Signed Commit) :=
  let? found := store_call (px_commit_by_id ports tenant commit_id) in
  ok_or found PrNotFound.

Definition service_verify_non_membership (bundle : NonMembershipProofBundle) (verifying_key : VerifyingKey) : presult unit :=
  let key := nb_claimed_key bundle in
  let? signed := load_commit (nb_tenant_id bundle) (cref_commit_id (nb_commit bundle)) in
  verify_non_membership_bundle bundle signed verifying_key key.

Definition get_snapshot_proof (tenant : TenantId) (snapshot_id : string) (state_proof : ResourceStateProof)
    : presult (option SnapshotProof) :=
  let? payload := map_err ProofIndexFailed (px_snapshot ports tenant snapshot_id) in
  Ok ((fun p => build_snapshot_proof snapshot_id p state_proof) <$> payload).

Definition service_verify_with_key (proof : ResourceStateProof) (verifying_key : VerifyingKey) (key : StateKey) : presult unit :=
  let? signed := load_commit (rp_tenant_id proof) (cref_commit_id (rp_commit proof)) in
  verify_bundle proof signed verifying_key key.

Definition service_verify (proof : ResourceStateProof) (verifying_key : VerifyingKey) : presult unit :=
  let? key := derive_state_key proof in
  service_verify_with_key proof verifying_key key.

Definition ensure_canonical (tenant : TenantId) (signed : Signed Commit) : presult unit :=
  let? found := store_call (px_canonical_head ports tenant) in
  let? head := ok_or found CanonicalHeadUnavailable in
  if negb (String.eqb (hd_commit_id head) (cm_commit_id (s_body signed)))
     || negb (hd_sequence head =? cm_sequence (s_body signed))
     || negb (String.eqb (hd_state_root head) (cm_next_state_root (s_body signed)))
  then Err (NonCanonicalCommit tenant (cm_commit_id (s_body signed))) else Ok tt.

Definition service_verify_with_key_canonical (proof : ResourceStateProof) (verifying_key : VerifyingKey) (key : StateKey)
    : presult unit :=
  let? signed := load_commit (rp_tenant_id proof) (cref_commit_id (rp_commit proof)) in
  ensure_canonical (rp_tenant_id proof) signed ;?
  verify_bundle proof signed verifying_key key.

Definition service_verify_canonical (proof : ResourceStateProof) (verifying_key : VerifyingKey) : presult unit :=
  let? key := derive_state_key proof in
  service_verify_with_key_canonical proof verifying_key key.

(** The loop of [verify_trade] that loads the commits of one leg's proofs. *)
Fixpoint load_leg_commits (key_for_tenant : TenantId → option VerifyingKey) (tenant : TenantId)
    (proofs : list ResourceStateProof) (commits : gmap string (Signed Commit * VerifyingKey))
    : presult (gmap string (Signed Commit * VerifyingKey)) :=
  match proofs with
  | [] => Ok commits
  | state_proof :: rest =>
      let commit_id := cref_commit_id (rp_commit state_proof) in
      match commits !! commit_id with
      | Some _ => load_leg_commits key_for_tenant tenant rest commits
      | None =>
          let? signed := load_commit tenant commit_id in
          let? verifying_key := ok_or (key_for_tenant tenant) (PrKeyNotFound tenant) in
          load_leg_commits key_for_tenant tenant rest (<[commit_id := (signed, verifying_key)]> commits)
      end
  end.

Fixpoint load_trade_commits (key_for_tenant : TenantId → option VerifyingKey) (legs : list TradeProofLeg)
    (commits : gmap string (Signed Commit * VerifyingKey)) : presult (gmap string (Signed Commit * VerifyingKey)) :=
  match legs with
  | [] => Ok commits
  | leg :: rest =>
      let? commits := load_leg_commits key_for_tenant (tl_tenant leg) (tl_state_proofs leg) commits in
      load_trade_commits key_for_tenant rest commits
  end.

Definition verify_trade (proof : TradeProof) (key_for_tenant : TenantId → option VerifyingKey) : presult unit :=
  let? commits_by_id := load_trade_commits key_for_tenant (tp_legs proof) ∅ in
  verify_trade_proof proof commits_by_id.
End Service.
End WithCodecs.
End Bundles.
