(* ===== verification/BundleFacts.v ===== *)
(** * Properties of proof bundles

    The dense wire path loses nothing; a verified bundle is true of the committed state; an
    honestly built bundle verifies; what a verified trade proof shows, and what it does not. *)

From Stdlib Require Import ZArith Lia Ascii String Sorted.
From stdpp Require Import prelude gmap strings.
From S2P Require Import Prelude Amount Domain Profile Atomicity Executor.
From S2P Require Import SortFacts Keys Sha256 DefaultHashes Accumulator DefaultTable Merkle Checkpoint Commit Signing Durable Bundle.
Open Scope Z_scope.

(** ** Siblings *)

(** The verifier looks at the steps only through [sibling_at]. *)
Lemma climb_ext H key steps steps' acc n :
  (∀ l, (l < n)%nat → sibling_at steps l = sibling_at steps' l) → climb H key steps acc n = climb H key steps' acc n.
Proof.
  induction n as [|n IH]; intros Hs; [done|]. cbn [climb]. unfold combine.
  rewrite IH by (intros; apply Hs; lia). by rewrite Hs by lia.
Qed.

Lemma sibling_at_nil l : sibling_at [] l = default_hash l.
Proof. done. Qed.

Lemma sibling_at_snoc steps s l :
  sibling_at (steps ++ [s]) l = if decide (ps_level s = l) then ps_sibling s else sibling_at steps l.
Proof.
  unfold sibling_at. rewrite filter_app. destruct (decide (ps_level s = l)) as [E|E].
  - by rewrite filter_cons_True, filter_nil, last_snoc by done.
  - by rewrite filter_cons_False, filter_nil, app_nil_r by done.
Qed.

Lemma sibling_at_absent steps l : Forall (fun s => ps_level s ≠ l) steps → sibling_at steps l = default_hash l.
Proof. intros Hn. unfold sibling_at. by rewrite filter_level_nil. Qed.

Lemma sibling_at_cons_ne s steps l : ps_level s ≠ l → sibling_at (s :: steps) l = sibling_at steps l.
Proof. intros Hn. unfold sibling_at. by rewrite filter_cons_False. Qed.

Lemma sibling_at_cons_eq s steps : Forall (fun s' => ps_level s' ≠ ps_level s) steps →
  sibling_at (s :: steps) (ps_level s) = ps_sibling s.
Proof. intros Hn. unfold sibling_at. rewrite filter_cons_True by done. by rewrite filter_level_nil. Qed.

(** The dense path lists the siblings. *)
Lemma dense_path_siblings steps : dense_path steps = map (sibling_at steps) (seq 0 TREE_DEPTH).
Proof.
  unfold dense_path. induction steps as [|s steps IH] using rev_ind; [done|].
  rewrite foldl_snoc, IH. apply list_eq. intros l.
  destruct (decide (l < TREE_DEPTH)%nat) as [Hl|Hl].
  - rewrite (list_lookup_fmap (sibling_at (steps ++ [s]))), lookup_seq_lt by done. cbn [fmap option_fmap option_map].
    rewrite Nat.add_0_l, sibling_at_snoc. destruct (decide (ps_level s = l)) as [->|Hne].
    + apply list_lookup_insert_eq. by rewrite length_map, length_seq.
    + rewrite list_lookup_insert_ne by done. by rewrite (list_lookup_fmap (sibling_at steps)), lookup_seq_lt by done.
  - rewrite !lookup_ge_None_2; [done|..]; rewrite ?length_insert, !length_map, !length_seq; lia.
Qed.

Lemma dense_steps_levels k path : Forall (fun s => (k ≤ ps_level s)%nat) (dense_steps k path).
Proof.
  revert k. induction path as [|d path IH]; intros k; cbn [dense_steps]; [constructor|]. apply Forall_app. split.
  - destruct (negb _); repeat constructor.
  - eapply Forall_impl; [apply IH|]. cbn. intros; lia.
Qed.

Lemma dense_steps_sibling k path l d : path !! l = Some d → sibling_at (dense_steps k path) (k + l) = d.
Proof.
  revert k l. induction path as [|d0 path IH]; intros k [|l]; cbn [dense_steps lookup list_lookup]; try done.
  - intros [= ->]. rewrite Nat.add_0_r.
    assert (Forall (fun s => ps_level s ≠ k) (dense_steps (S k) path)) as Hn
      by (eapply Forall_impl; [apply dense_steps_levels|]; cbn; intros; lia).
    destruct (String.eqb_spec d (default_hash k)) as [->|Hne]; cbn [negb app].
    + by apply sibling_at_absent.
    + by apply (sibling_at_cons_eq (mkStep k d)).
  - intros Hl. replace (k + S l)%nat with (S k + l)%nat by lia.
    destruct (negb _); cbn [app]; [rewrite sibling_at_cons_ne by (cbn; lia)|]; by apply IH.
Qed.

(** ** Round trips of the dense encoding *)

(** Levels ascending from [k], no sibling equal to its default. *)
Inductive canonical_steps : nat → list PathStep → Prop :=
| canonical_nil k : canonical_steps k []
| canonical_cons k s steps : (k ≤ ps_level s < TREE_DEPTH)%nat → ps_sibling s ≠ default_hash (ps_level s) →
    canonical_steps (S (ps_level s)) steps → canonical_steps k (s :: steps).

Lemma canonical_levels k steps : canonical_steps k steps → Forall (fun s => (k ≤ ps_level s)%nat) steps.
Proof.
  induction 1 as [|k s steps Hl _ _ IH]; constructor; [lia|]. eapply Forall_impl; [done|]. cbn. intros; lia.
Qed.

Lemma canonical_weaken k k' steps : (k' ≤ k)%nat → canonical_steps k steps → canonical_steps k' steps.
Proof. intros Hk Hc. destruct Hc; constructor; try done. lia. Qed.

Lemma canonical_above k steps : canonical_steps k steps → Forall (fun s => ps_level s ≠ k) steps → canonical_steps (S k) steps.
Proof. intros Hc Hn. destruct Hc as [|k s steps]; constructor; try done. inversion_clear Hn. lia. Qed.

Lemma dense_steps_canonical n k steps : (k + n = TREE_DEPTH)%nat → canonical_steps k steps →
  dense_steps k (map (sibling_at steps) (seq k n)) = steps.
Proof.
  revert k steps. induction n as [|n IH]; intros k steps Hkn Hc; cbn [seq map dense_steps].
  { destruct Hc; [done|]. lia. }
  destruct (decide (Forall (fun s => ps_level s ≠ k) steps)) as [Hn|Hn].
  - rewrite (sibling_at_absent steps k) by done. rewrite String.eqb_refl. cbn [negb app]. apply IH; [lia|].
    by apply canonical_above.
  - destruct Hc as [|k s steps Hl Hd Hc]; [by destruct Hn|].
    assert (ps_level s = k) as E.
    { destruct (decide (ps_level s = k)); [done|]. destruct Hn. constructor; [done|].
      eapply Forall_impl; [by apply canonical_levels|]. cbn. intros; lia. }
    assert (Forall (fun s' => ps_level s' ≠ ps_level s) steps) as Hne
      by (eapply Forall_impl; [by apply canonical_levels|]; cbn; intros; lia).
    rewrite <- E, sibling_at_cons_eq by done. destruct (String.eqb_spec (ps_sibling s) (default_hash (ps_level s))); [done|].
    cbn [negb app]. rewrite <- (IH (S (ps_level s)) steps) at 2 by (done || lia).
    destruct s as [l d]. cbn [ps_level ps_sibling] in *. do 2 f_equal. apply map_ext_in. intros l' [? _]%in_seq.
    apply sibling_at_cons_ne. cbn. lia.
Qed.

Lemma canonical_snoc k steps s : canonical_steps k steps → Forall (fun s' => (ps_level s' < ps_level s)%nat) steps →
  (k ≤ ps_level s < TREE_DEPTH)%nat → ps_sibling s ≠ default_hash (ps_level s) → canonical_steps k (steps ++ [s]).
Proof.
  intros Hc. induction Hc as [k|k s' steps Hl Hd Hc IH]; intros Hf Hs Hne; cbn [app].
  - constructor; [done..|constructor].
  - inversion_clear Hf. constructor; [done..|]. apply IH; [done|lia|done].
Qed.

(** The steps the prover collects are canonical. *)
Lemma collect_canonical H entries h target : (h ≤ TREE_DEPTH)%nat →
  canonical_steps 0 (reverse (collect_steps_inner H entries h target)).
Proof.
  revert entries. induction h as [|h IH]; intros entries Hh; cbn [collect_steps_inner]; [constructor|].
  destruct (Nat.ltb_spec TREE_DEPTH (S h)); [constructor|].
  assert (∀ path sibling : list Entry, canonical_steps 0 (reverse
    ((match sibling with [] => [] | _ => if String.eqb (node_hash H sibling h) (default_hash h) then []
        else [mkStep h (node_hash H sibling h)] end) ++ collect_steps_inner H path h target))) as Hgen.
  { intros path sibling. rewrite reverse_app. destruct sibling as [|e l]; [rewrite app_nil_r; apply IH; lia|].
    destruct (String.eqb_spec (node_hash H (e :: l) h) (default_hash h)); [rewrite app_nil_r; apply IH; lia|].
    apply canonical_snoc; [apply IH; lia|apply Forall_reverse, collect_levels|cbn; lia|done]. }
  destruct (bit_at _ _); apply Hgen.
Qed.

(** The dense wire encoding of paths loses nothing.  Encoding the path the prover
    collects for any key of any accumulator and decoding it gives the same steps; decoding
    any accepted wire proof and encoding it gives the same path; and decoding accepts exactly
    the v0 kind with one entry per level. *)
Theorem dense_roundtrip (H : string → string) (a : StateAccumulator) (key : StateKey) (leaf : string) :
  let steps := collect_steps H a key in
  steps_from_sparse_proof (sparse_proof_from_inclusion (mkInclusion key leaf steps)) = Ok steps ∧
  (∀ sparse steps', steps_from_sparse_proof sparse = Ok steps' → dense_path steps' = sp_path sparse) ∧
  (∀ sparse, is_ok (steps_from_sparse_proof sparse) = true ↔
     sp_kind sparse = SPARSE_MERKLE_V0 ∧ length (sp_path sparse) = TREE_DEPTH).
Proof.
  intros steps. split_and!.
  - unfold steps_from_sparse_proof, sparse_proof_from_inclusion, sparse_new. cbn [sp_kind sp_path ip_steps].
    rewrite String.eqb_refl. cbn [negb]. rewrite dense_path_siblings, length_map, length_seq, Nat.eqb_refl. cbn [negb].
    f_equal. apply dense_steps_canonical; [done|]. by apply collect_canonical.
  - intros sparse steps'. unfold steps_from_sparse_proof. intros E. res_inv E. subst steps'.
    rewrite !negb_false_iff, ?Nat.eqb_eq in *. rewrite dense_path_siblings. apply list_eq. intros l.
    match goal with B : length _ = TREE_DEPTH |- _ => rename B into Hlen end.
    destruct (decide (l < TREE_DEPTH)%nat) as [Hl|Hl].
    + destruct (lookup_lt_is_Some_2 (sp_path sparse) l ltac:(lia)) as [d Hd]. rewrite Hd.
      rewrite (list_lookup_fmap (sibling_at _)), lookup_seq_lt by done. cbn. f_equal.
      exact (dense_steps_sibling 0 _ _ _ Hd).
    + rewrite !lookup_ge_None_2; [done|lia|]. rewrite length_map, length_seq. lia.
  - intros sparse. unfold steps_from_sparse_proof.
    destruct (String.eqb_spec (sp_kind sparse) SPARSE_MERKLE_V0); cbn [negb]; [|naive_solver].
    destruct (Nat.eqb_spec (length (sp_path sparse)) TREE_DEPTH); cbn; naive_solver.
Qed.

(** ** Verified bundles *)

(** The accumulator of two batches. *)
Lemma batch_root H prior updates : (insert_batch H (build H [prior]) updates).2 = compute_root H (build H [prior; updates]).
Proof.
  unfold build. cbn [foldl]. generalize (insert_batch H accumulator_empty prior).1. intros a. reflexivity.
Qed.
Lemma join_pair {A} (a b : list A) : mjoin [a; b] = a ++ b.
Proof. cbn. by rewrite app_nil_r. Qed.

#[export] Instance hash_laws_length (H : string → string) `{!HashLaws H} : DigestLength H := hash_length.

Section Facts.
Context (H : string → string) `{!HashLaws H}.
Context {SigningKey VerifyingKey : Type} (scheme : SignatureScheme SigningKey VerifyingKey).
Context (bcs_commit : Bcs Commit) (bcs_state : Bcs ResourceState).
Context (bcs_proof : Bcs ResourceStateProof) (bcs_absence : Bcs NonMembershipProofBundle).

Notation verify_bundle := (verify_bundle H scheme bcs_commit bcs_state bcs_proof).
Notation verify_absence_bundle := (verify_non_membership_bundle H scheme bcs_commit bcs_absence).

(** The signature of a commit covers its canonical bytes. *)
Definition commit_signed_by (key : VerifyingKey) (signed : Signed Commit) : Prop :=
  ∃ bytes, bcs_commit (s_body signed) = Ok bytes ∧
    ed_verify_strict scheme key bytes (sb_sig (s_signature signed)) = Ok tt.

Definition names_commit (ref : CommitRef) (c : Commit) : Prop :=
  cref_commit_id ref = cm_commit_id c ∧ cref_sequence ref = cm_sequence c ∧ cref_state_root ref = cm_next_state_root c.

Lemma envelope_Ok tenant ref signed key :
  verify_commit_envelope scheme bcs_commit tenant ref signed key = Ok tt ↔
  sc_tenant_id (cm_scope (s_body signed)) = Some tenant ∧ names_commit ref (s_body signed) ∧ commit_signed_by key signed.
Proof.
  unfold verify_commit_envelope, names_commit, commit_signed_by, verify_commit_signature_with_key, canonicalize_with, verify.
  destruct (sc_tenant_id _) as [t|]; cbn [ok_or rbind]; [|naive_solver].
  destruct (String.eqb_spec t tenant) as [->|]; cbn [negb]; [|naive_solver].
  destruct (String.eqb_spec (cref_commit_id ref) (cm_commit_id (s_body signed))); cbn [negb]; [|naive_solver].
  destruct (Z.eqb_spec (cref_sequence ref) (cm_sequence (s_body signed))); cbn [negb]; [|naive_solver].
  destruct (String.eqb_spec (cref_state_root ref) (cm_next_state_root (s_body signed))); cbn [negb]; [|naive_solver].
  destruct (bcs_commit (s_body signed)) as [bytes|err]; cbn; [|naive_solver].
  rewrite !map_err_Ok. naive_solver.
Qed.

Lemma sparse_Ok root key sparse : verify_sparse_merkle_v0 H root key sparse = Ok tt ↔
  ∃ steps, steps_from_sparse_proof sparse = Ok steps ∧ verify_path H root key (sp_leaf_hash sparse) steps = true.
Proof.
  unfold verify_sparse_merkle_v0, steps_from_sparse_proof, verify_inclusion.
  destruct (negb (String.eqb (sp_kind sparse) SPARSE_MERKLE_V0)); [split; [done|by intros (? & [=] & _)]|].
  destruct (negb (length (sp_path sparse) =? TREE_DEPTH)%nat); cbn [rbind ip_key ip_leaf_hash ip_steps];
    [split; [done|by intros (? & [=] & _)]|].
  destruct (verify_path H root key (sp_leaf_hash sparse) (dense_steps 0 (sp_path sparse))) eqn:E.
  - split; [by eexists|done].
  - split; [done|]. intros (? & [= <-] & ?). congruence.
Qed.

(** The encoded path of any steps verifies exactly when the steps do. *)
Lemma dense_verifies root key leaf steps :
  verify_sparse_merkle_v0 H root key (sparse_new (dense_path steps) leaf) = Ok tt ↔
  verify_path H root key leaf steps = true.
Proof.
  rewrite sparse_Ok. unfold steps_from_sparse_proof, sparse_new. cbn [sp_kind sp_path sp_leaf_hash].
  rewrite String.eqb_refl. cbn [negb]. rewrite dense_path_siblings, length_map, length_seq, Nat.eqb_refl. cbn [negb].
  assert (verify_path H root key leaf (dense_steps 0 (map (sibling_at steps) (seq 0 TREE_DEPTH))) =
          verify_path H root key leaf steps) as E.
  { unfold verify_path. f_equal. apply climb_ext. intros l Hl.
    apply (dense_steps_sibling 0). by rewrite (list_lookup_fmap (sibling_at steps)), lookup_seq_lt. }
  rewrite <- E. clear E. generalize (dense_steps 0 (map (sibling_at steps) (seq 0 TREE_DEPTH))). intros d.
  split; [intros (s & [= ->] & Hp); exact Hp|intros Hp; exists d; split; [reflexivity|exact Hp]].
Qed.

Lemma bundle_Ok proof signed vk key : verify_bundle proof signed vk key = Ok tt ↔
  check_proof_size bcs_proof proof = Ok tt ∧ rp_schema proof = RESOURCE_STATE_PROOF_SCHEMA ∧
  sc_tenant_id (cm_scope (s_body signed)) = Some (rp_tenant_id proof) ∧
  names_commit (rp_commit proof) (s_body signed) ∧ commit_signed_by vk signed ∧
  verify_sparse_merkle_v0 H (cm_next_state_root (s_body signed)) key (rp_state_inclusion_proof proof) = Ok tt ∧
  ∃ digest, canonicalize_and_digest H bcs_state (rp_claimed_state proof) = Ok digest ∧
    sp_leaf_hash (rp_state_inclusion_proof proof) = leaf_hash H key digest.
Proof.
  unfold Bundle.verify_bundle. rewrite rbind_Ok. split.
  - intros ([] & Hsize & E). destruct (String.eqb_spec (rp_schema proof) RESOURCE_STATE_PROOF_SCHEMA); [|done].
    cbn [negb] in E. apply rbind_Ok in E as ([] & (Ht & Hr & Hs)%envelope_Ok & E). apply rbind_Ok in E as ([] & Hv & E).
    split_and!; try done. unfold verify_claimed_state in E. apply rbind_Ok in E as (d & Hd & E). apply map_err_Ok in Hd.
    exists d. split; [done|]. destruct (String.eqb_spec (leaf_hash H key d) (sp_leaf_hash (rp_state_inclusion_proof proof))); done.
  - intros (Hsize & Hsch & Ht & Hr & Hs & Hv & d & Hd & Hl). exists tt. split; [done|]. rewrite Hsch, String.eqb_refl.
    cbn [negb]. rewrite (proj2 (envelope_Ok _ _ _ _) (conj Ht (conj Hr Hs))), Hv. cbn [rbind].
    unfold verify_claimed_state. rewrite Hd. cbn. by rewrite Hl, String.eqb_refl.
Qed.

(** What the path of a bundle shows of the history under the root: [digest] is what was last
    written to [key]; or the pair is the all-zero one, whose leaf hash is by construction
    that of an empty slot; or the path in the bundle, decoded, exhibits two different messages
    with the same hash. *)
Definition path_shows (batches : list (list Entry)) (key digest : string) (sparse : SparseMerkleProof) : Prop :=
  last_write (mjoin batches) key = Some digest ∨
  (key = zero_block ∧ digest = zero_block ∧ last_write (mjoin batches) key = None) ∨
  ∃ steps, steps_from_sparse_proof sparse = Ok steps ∧
    forged H (build H batches) key (leaf_preimage key digest) (leaf_hash H key digest) steps.

(** A bundle verified against the root of a history of updates names the digest last written
    to its key. *)
Lemma bundle_last_write batches proof signed vk key : valid_batches batches → is_key key →
  cm_next_state_root (s_body signed) = compute_root H (build H batches) →
  verify_bundle proof signed vk key = Ok tt →
  ∃ digest, canonicalize_and_digest H bcs_state (rp_claimed_state proof) = Ok digest ∧
    path_shows batches key digest (rp_state_inclusion_proof proof).
Proof.
  intros Hv Hk Hroot (_ & _ & _ & _ & _ & Hs & d & Hd & Hl)%bundle_Ok. apply sparse_Ok in Hs as (steps & Hst & Hp).
  exists d. split; [done|]. rewrite Hroot, Hl in Hp. unfold path_shows, leaf_hash in *.
  apply verify_sound in Hp as [E|]; [|eauto..]. unfold slot_preimage in E. rewrite (proj2 (build_spec H _ Hv)) in E.
  destruct (last_write _ key) as [d'|].
  - apply leaf_preimage_inj in E as [_ ->]; auto.
  - apply leaf_preimage_inj in E as [-> ->]; auto using zero_block_key.
Qed.

Lemma derive_state_key_is_key proof key : derive_state_key H proof = Ok key → is_key key.
Proof.
  unfold derive_state_key, is_key, for_resource, for_subject_held. intros E.
  destruct (rs_subject _); res_inv E; subst; apply hash_length.
Qed.

(** C13: a verified state bundle is true of the chain.  When a bundle verifies against a
    signed commit that the builder made from prior updates and a batch of events, then the
    commit is signed under the key, belongs to the bundle's tenant and is the one the bundle
    names, and the digest of the claimed state is the one last written to the bundle's state
    key by the prior updates followed by the events.  There are two exceptions ([path_shows]):
    the path carried by the bundle itself exhibits two different messages with the same hash,
    or key and digest are both the all-zero block and the key was never written. *)
Theorem bundle_sound canonicalize_event (b : CommitBuilder) batch previous prior id signed proof vk key :
  Forall (fun u : Entry => is_key u.1) prior →
  commit_build H canonicalize_event b batch previous prior id = Ok (s_body signed) →
  derive_state_key H proof = Ok key →
  verify_bundle proof signed vk key = Ok tt →
  commit_signed_by vk signed ∧ sc_tenant_id (cm_scope (s_body signed)) = Some (rp_tenant_id proof) ∧
  names_commit (rp_commit proof) (s_body signed) ∧
  ∃ updates digest, Forall2 (event_update H) (cb_events batch) updates ∧
    canonicalize_and_digest H bcs_state (rp_claimed_state proof) = Ok digest ∧
    path_shows [prior; updates] key digest (rp_state_inclusion_proof proof).
Proof.
  intros Hp Hb Hkey Hver. pose proof Hver as (_ & _ & Ht & Hr & Hs & _)%bundle_Ok. do 3 (split; [done|]).
  destruct (commit_build_updates H canonicalize_event _ _ _ _ _ _ Hp Hb) as (updates & Hf & Hu & _ & _ & _ & _ & Hroot).
  assert (cm_next_state_root (s_body signed) = compute_root H (build H [prior; updates])) as Hroot' by (rewrite Hroot; apply batch_root).
  assert (valid_batches [prior; updates]) as Hvb by by repeat constructor.
  destruct (bundle_last_write _ _ _ _ _ Hvb (derive_state_key_is_key _ _ Hkey) Hroot' Hver) as (d & Hd & Hcases).
  by exists updates, d.
Qed.

(** An honestly built bundle verifies. *)
Lemma honest_bundle (public : SigningKey → VerifyingKey) `{!SchemeLaws scheme public}
    batches key projection body sk key_id signed operation authority :
  valid_batches batches → is_key key →
  last_write (mjoin batches) key = Some (p_state_hash projection) →
  canonicalize_and_digest H bcs_state (p_state projection) = Ok (p_state_hash projection) →
  cm_scope body = scope_tenant (p_tenant_id projection) →
  cm_next_state_root body = compute_root H (build H batches) →
  sign_commit scheme bcs_commit body sk key_id = Ok signed →
  ∃ inclusion proof, prove_inclusion H (build H batches) key = Some inclusion ∧
    build_state_proof H projection signed inclusion operation authority key = Ok proof ∧
    rp_claimed_state proof = p_state projection ∧ rp_resource_id proof = p_resource_id projection ∧
    (check_proof_size bcs_proof proof = Ok tt → verify_bundle proof signed (public sk) key = Ok tt).
Proof.
  intros Hv Hk Hw Hd Hsc Hroot Hsig. pose proof (verify_complete H batches key Hv Hk) as Hc.
  unfold slot in Hc. unfold prove_inclusion. rewrite (proj2 (build_spec H _ Hv)), Hw in *. cbn [mbind option_bind].
  destruct (sign_commit_verifies scheme public bcs_commit body sk key_id signed Hsig) as (Hbody & _ & Hvc).
  apply verify_commit_Ok in Hvc. revert Hc. generalize (collect_steps H (build H batches) key). intros steps Hc.
  eexists _, _. split; [reflexivity|]. split.
  { unfold build_state_proof. cbn [ip_leaf_hash]. rewrite String.eqb_refl. cbn [negb].
    unfold commit_ref. rewrite Hbody, Hsc. cbn [scope_tenant sc_kind sc_tenant_id scope_kind_tenant negb ok_or rbind]. reflexivity. }
  unfold state_proof_new. cbn [rp_claimed_state rp_resource_id]. split; [reflexivity|]. split; [reflexivity|]. intros Hsize.
  apply bundle_Ok. split; [exact Hsize|]. split; [reflexivity|]. cbn [rp_tenant_id rp_commit rp_state_inclusion_proof rp_claimed_state].
  rewrite Hbody, Hsc. split; [reflexivity|]. split; [done|]. split; [exact Hvc|]. split.
  - rewrite Hroot. apply dense_verifies. exact Hc.
  - by exists (p_state_hash projection).
Qed.

(** C15: honest bundles verify.  For any history of updates, any written key and a projection
    whose state digests to the last written value, the inclusion proof of the accumulator
    exists, the builder assembles a bundle from it and the signed commit, and within the size
    limit the bundle verifies under the signer's public key. *)
Theorem bundle_complete (public : SigningKey → VerifyingKey) `{!SchemeLaws scheme public}
    batches key projection body sk key_id signed operation authority :
  valid_batches batches → is_key key →
  last_write (mjoin batches) key = Some (p_state_hash projection) →
  canonicalize_and_digest H bcs_state (p_state projection) = Ok (p_state_hash projection) →
  cm_scope body = scope_tenant (p_tenant_id projection) →
  cm_next_state_root body = compute_root H (build H batches) →
  sign_commit scheme bcs_commit body sk key_id = Ok signed →
  ∃ inclusion proof, prove_inclusion H (build H batches) key = Some inclusion ∧
    build_state_proof H projection signed inclusion operation authority key = Ok proof ∧
    rp_claimed_state proof = p_state projection ∧ rp_resource_id proof = p_resource_id projection ∧
    (check_proof_size bcs_proof proof = Ok tt → verify_bundle proof signed (public sk) key = Ok tt).
Proof. by apply honest_bundle. Qed.

(** An absence bundle verified against the root of a history means the key was never
    written. *)
Lemma absence_sound batches bundle signed vk key : valid_batches batches → is_key key →
  cm_next_state_root (s_body signed) = compute_root H (build H batches) →
  verify_absence_bundle bundle signed vk key = Ok tt →
  commit_signed_by vk signed ∧ sc_tenant_id (cm_scope (s_body signed)) = Some (nb_tenant_id bundle) ∧
  names_commit (nb_commit bundle) (s_body signed) ∧ nb_claimed_key bundle = key ∧
  (last_write (mjoin batches) key = None ∨
   (key = zero_block ∧ last_write (mjoin batches) key = Some zero_block) ∨
   ∃ steps, steps_from_sparse_proof (nb_state_non_membership_proof bundle) = Ok steps ∧
     forged H (build H batches) key (leaf_preimage zero_block zero_block) EMPTY_LEAF_HASH steps).
Proof.
  intros Hv Hk Hroot E. unfold verify_non_membership_bundle, verify_absence in E.
  destruct (String.eqb_spec (nb_schema bundle) NON_MEMBERSHIP_PROOF_SCHEMA); [|done]. cbn [negb] in E.
  apply rbind_Ok in E as ([] & (Ht & Hr & Hs)%envelope_Ok & E). apply rbind_Ok in E as ([] & _ & E).
  destruct (String.eqb_spec (nb_claimed_key bundle) key); [|done].
  do 3 (split; [done|]). split; [done|]. cbv zeta in E. cbn [negb] in E.
  destruct (negb (String.eqb (sp_kind _) _)); [done|]. destruct (negb (_ =? _)%nat); [done|].
  destruct (String.eqb_spec (sp_leaf_hash (nb_state_non_membership_proof bundle)) EMPTY_LEAF_HASH) as [Hl|]; [|done].
  cbn [negb] in E. apply rbind_Ok in E as (steps & Hst & E).
  unfold verify_non_membership in E. cbn [np_key np_leaf_hash np_steps] in E.
  destruct (verify_path _ _ _ _ _) eqn:Hp in E; [|done]. rewrite Hroot, Hl, <- empty_leaf_law in *. unfold leaf_hash in *.
  apply verify_sound in Hp as [Eq|]; [|eauto..].
  unfold slot_preimage in Eq. rewrite (proj2 (build_spec H _ Hv)) in Eq.
  destruct (last_write _ key) as [d|]; [|auto]. apply leaf_preimage_inj in Eq as [<- <-]; auto using zero_block_key.
Qed.
End Facts.

(** ** Trade proofs *)

Section Trades.
Context (H : string → string) {SigningKey VerifyingKey : Type} (scheme : SignatureScheme SigningKey VerifyingKey).
Context (bcs_commit : Bcs Commit) (bcs_state : Bcs ResourceState) (bcs_proof : Bcs ResourceStateProof).

Notation verify_trade_proof := (verify_trade_proof H scheme bcs_commit bcs_state bcs_proof).

(** What one accepted state proof of a leg shows of its side. *)
Definition leg_proof_shows (commits : gmap string (Signed Commit * VerifyingKey)) (side : TradeSide)
    (p : ResourceStateProof) : Prop :=
  ∃ signed vk key, commits !! cref_commit_id (rp_commit p) = Some (signed, vk) ∧ derive_state_key H p = Ok key ∧
    verify_bundle H scheme bcs_commit bcs_state bcs_proof p signed vk key = Ok tt ∧
    rp_resource_id p ∈ ts_settle_assets side ∧ rs_owner (rp_claimed_state p) = Some (ts_to_owner side) ∧
    er_operation (rp_latest_event p) = "trade.settle".

Lemma verify_leg_proof_Ok commits side p :
  verify_leg_proof H scheme bcs_commit bcs_state bcs_proof commits side p = Ok tt → leg_proof_shows commits side p.
Proof.
  unfold verify_leg_proof. intros E. apply rbind_Ok in E as ([signed vk] & Hc%ok_or_Ok & E).
  apply rbind_Ok in E as (key & Hk & E). apply rbind_Ok in E as ([] & Hv & E).
  destruct (existsb _ _) eqn:Hex; [|done]. cbn [negb] in E. apply rbind_Ok in E as (owner & Ho & E).
  destruct (String.eqb_spec owner (ts_to_owner side)) as [->|]; [|done]. cbn [negb] in E.
  destruct (String.eqb_spec (er_operation (rp_latest_event p)) "trade.settle"); [|done].
  exists signed, vk, key. split_and!; try done.
  - apply existsb_exists in Hex as (a & Hin & ->%String.eqb_eq). by apply list_elem_of_In.
  - unfold owner_of in Ho. apply rbind_Ok in Ho as (o & Ho%ok_or_Ok & E2). destruct (str_is_empty o); [done|].
    by injection E2 as <-.
Qed.

Lemma side_of_Some summary tenant side : side_of summary tenant = Some side →
  side ∈ tsm_sides summary ∧ ts_tenant side = tenant.
Proof.
  unfold side_of. intros [Hin Ht%String.eqb_eq]%find_some. split; [by apply list_elem_of_In|done].
Qed.

Lemma verify_trade_proof_Ok proof commits : verify_trade_proof proof commits = Ok tt →
  tsm_trade_id (tp_summary proof) = tp_trade_id proof ∧ length (tp_legs proof) = length (tsm_sides (tp_summary proof)) ∧
  Forall (fun leg => ∃ side, side ∈ tsm_sides (tp_summary proof) ∧ ts_tenant side = tl_tenant leg ∧
    side_of (tp_summary proof) (tl_tenant leg) = Some side ∧
    length (tl_state_proofs leg) = length (ts_settle_assets side) ∧
    Forall (leg_proof_shows commits side) (tl_state_proofs leg)) (tp_legs proof).
Proof.
  unfold Bundle.verify_trade_proof. destruct (negb (String.eqb (tp_schema proof) _)); [done|].
  destruct (String.eqb_spec (tsm_trade_id (tp_summary proof)) (tp_trade_id proof)); [|done]. cbn [negb]. intros E.
  apply rbind_Ok in E as ([] & Hsize%rforeach_Ok & E). destruct (Nat.eqb_spec (length (tp_legs proof)) (length (tsm_sides (tp_summary proof)))); [|done].
  cbn [negb] in E. apply rforeach_Ok in E. split_and!; [done..|]. rewrite Forall_forall in *. intros leg Hin.
  specialize (Hsize leg Hin). specialize (E leg Hin). unfold check_leg_size, verify_leg in *.
  apply rbind_Ok in Hsize as (side & Hs%ok_or_Ok & Hlen). rewrite Hs in E. cbn [ok_or rbind] in E.
  destruct (side_of_Some _ _ _ Hs). exists side. split_and!; try done.
  - destruct (Nat.eqb_spec (length (tl_state_proofs leg)) (length (ts_settle_assets side))); done.
  - apply rforeach_Ok in E. eapply Forall_impl; [done|]. intros p. apply verify_leg_proof_Ok.
Qed.

(** Distinct elements of a list of the same length cover it. *)
Lemma covers {A} (a b : list A) : NoDup a → (∀ x, x ∈ a → x ∈ b) → length a = length b → a ≡ₚ b.
Proof. intros Hd Hsub Hlen. apply submseteq_length_Permutation; [by apply NoDup_submseteq|lia]. Qed.

(** C16: what a verified trade proof shows.  The summary is of the proof's trade and there are
    as many legs as sides.  Every leg names a side of the summary, carries as many proofs as
    that side declares assets, and each of its proofs verifies under the commit and key
    supplied for the commit it names, is of an asset of that side with the side's new owner,
    and names [trade.settle] as its latest operation.  A side need not have a leg
    ([trade_proof_repeated_leg]): only when the legs name distinct tenants and the proofs of
    a leg distinct resources - which the verifier does not check - is every declared asset of
    every side proven to be owned as the summary says. *)
Theorem trade_proof_shows proof commits : verify_trade_proof proof commits = Ok tt →
  tsm_trade_id (tp_summary proof) = tp_trade_id proof ∧
  length (tp_legs proof) = length (tsm_sides (tp_summary proof)) ∧
  (∀ leg, leg ∈ tp_legs proof → ∃ side, side ∈ tsm_sides (tp_summary proof) ∧ ts_tenant side = tl_tenant leg ∧
     length (tl_state_proofs leg) = length (ts_settle_assets side) ∧
     Forall (leg_proof_shows commits side) (tl_state_proofs leg)) ∧
  (NoDup (map tl_tenant (tp_legs proof)) →
   Forall (fun leg => NoDup (map rp_resource_id (tl_state_proofs leg))) (tp_legs proof) →
   ∀ side asset, side ∈ tsm_sides (tp_summary proof) → asset ∈ ts_settle_assets side →
     ∃ leg p, leg ∈ tp_legs proof ∧ p ∈ tl_state_proofs leg ∧ tl_tenant leg = ts_tenant side ∧
       rp_resource_id p = asset ∧ leg_proof_shows commits side p).
Proof.
  intros (Hid & Hlen & Hlegs)%verify_trade_proof_Ok. rewrite Forall_forall in Hlegs.
  split; [done|]. split; [done|]. split.
  { intros leg (side & ? & ? & _ & ? & ?)%Hlegs. by exists side. }
  intros Hd Hdl side asset Hside Hasset. rewrite Forall_forall in Hdl.
  assert (map tl_tenant (tp_legs proof) ≡ₚ map ts_tenant (tsm_sides (tp_summary proof))) as Hperm.
  { apply covers; [done| |by rewrite !length_map]. intros t (leg & -> & Hleg)%list_elem_of_fmap.
    destruct (Hlegs leg Hleg) as (s & Hs & <- & _). apply list_elem_of_fmap. by exists s. }
  assert (ts_tenant side ∈ map tl_tenant (tp_legs proof)) as (leg & Et & Hleg)%list_elem_of_fmap
    by (rewrite Hperm; apply list_elem_of_fmap; by exists side).
  destruct (Hlegs leg Hleg) as (s & Hs & Ets & _ & Hlp & Hp).
  assert (s = side) as ->.
  { rewrite Hperm in Hd. apply (NoDup_map_inj ts_tenant (tsm_sides (tp_summary proof))); [done..|congruence]. }
  assert (map rp_resource_id (tl_state_proofs leg) ≡ₚ ts_settle_assets side) as Hpa.
  { apply covers; [by apply Hdl| |by rewrite length_map]. intros r (p & -> & Hin)%list_elem_of_fmap.
    rewrite Forall_forall in Hp. by destruct (Hp p Hin) as (? & ? & ? & _ & _ & _ & ? & _ & _). }
  rewrite <- Hpa in Hasset. apply list_elem_of_fmap in Hasset as (p & -> & Hin).
  rewrite Forall_forall in Hp. exists leg, p. split_and!; [done..|congruence|done|by apply Hp].
Qed.
End Trades.

(** ** Samples *)

Module BundleSamples.
(** A signature is the key, a space and the message. *)
Definition scheme : SignatureScheme string string := {|
  ed_sign key m := key +:+ " " +:+ m;
  ed_verify_strict key m sig := if String.eqb sig (key +:+ " " +:+ m) then Ok tt else Err "bad signature";
|}.
#[global] Instance scheme_laws : SchemeLaws scheme (fun k => k).
Proof. intros key m. cbn. by rewrite String.eqb_refl. Qed.

Definition bcs_commit : Bcs Commit := fun c => Ok (cm_commit_id c).
Definition bcs_state : Bcs ResourceState := fun s => Ok (default EmptyString (rs_owner s)).
Definition bcs_proof : Bcs ResourceStateProof := fun p => Ok (rp_resource_id p).
Definition owned (owner : string) : ResourceState := RUniqueAsset (mkUnique owner "active" None).

(** One accumulator per tenant, over a hash. *)
Section Hash.
Context (H : string → string).
Definition key_of (tenant resource : string) : StateKey := for_resource H tenant resource.
Definition updates_of (tenant : string) (resources : list string) (owner : string) : list Entry :=
  map (fun r => (key_of tenant r, H owner)) resources.
Definition commit_body (tenant id : string) (updates : list Entry) : Commit :=
  commit_new (scope_tenant tenant) id None 1 1 "events" "previous" (compute_root H (build H [updates])) 0 "exec" "p".
Definition signed (tenant id : string) (updates : list Entry) : Signed Commit :=
  mkSigned (commit_body tenant id updates) (mkSignature Ed25519 "k" (ed_sign scheme "secret" id)).
Definition projection (tenant resource owner : string) : StateProjection :=
  mkProjection tenant resource StUniqueAsset 2 "evt_1" "cmt_1" (H owner) (owned owner).
Definition proof_of (tenant resource owner id : string) (updates : list Entry) : presult ResourceStateProof :=
  let? inclusion := ok_or (prove_inclusion H (build H [updates]) (key_of tenant resource)) PrNotFound in
  build_state_proof H (projection tenant resource owner) (signed tenant id updates) inclusion "trade.settle" None
    (key_of tenant resource).
End Hash.
End BundleSamples.

(** A hash with the constants of the source and otherwise padding: cheap to evaluate. *)
Module TableHash.
Import CommitSamples.
Definition table : list (string * string) :=
  (leaf_preimage zero_block zero_block, EMPTY_LEAF_HASH) ::
  map (fun h => (internal_preimage (default_hash h) (default_hash h), default_hash (S h))) (seq 0 256).
Definition hash (m : string) : string :=
  match List.find (fun e => String.eqb e.1 m) table with Some e => e.2 | None => pad32 m end.

Lemma table_lengths : forallb (fun e => (String.length e.2 =? 32)%nat) table = true.
Proof. vm_compute. reflexivity. Qed.
Lemma table_values : forallb (fun h => String.eqb (hash (internal_preimage (default_hash h) (default_hash h))) (default_hash (S h)))
  (seq 0 256) = true.
Proof. vm_compute. reflexivity. Qed.
End TableHash.

#[export] Instance table_hash_laws : HashLaws TableHash.hash.
Proof.
  split.
  - intros m. unfold TableHash.hash. destruct (List.find _ _) as [e|] eqn:E; [|apply CommitSamples.pad32_length].
    apply find_some in E as [Hin _]. pose proof TableHash.table_lengths as Hl. rewrite forallb_forall in Hl.
    by apply Nat.eqb_eq, Hl.
  - vm_compute. reflexivity.
  - intros h Hh. pose proof TableHash.table_values as Hv. rewrite forallb_forall in Hv. symmetry.
    apply String.eqb_eq, (Hv h), in_seq. lia.
Qed.

Module TradeSamples.
Import BundleSamples.
Notation hash := TableHash.hash.
Definition updates : list Entry := updates_of hash "acme" ["sword"; "shield"] "bob".
Definition alpha (resource : string) : ResourceStateProof :=
  match proof_of hash "acme" resource "bob" "cmt_1" updates with
  | Ok p => p
  | Err _ => state_proof_new EmptyString EmptyString (owned EmptyString) (mkCommitRef EmptyString 0 EmptyString (mkSignature Ed25519 EmptyString EmptyString)) (sparse_new [] EmptyString)
      (mkEventRef EmptyString EmptyString) None
  end.
Definition ref : CommitRef := rp_commit (alpha "sword").
Definition side (tenant : string) (assets : list string) : TradeSide := mkTradeSide tenant assets "alice" "bob" ref ∅ [].
Definition leg (tenant : string) (proofs : list ResourceStateProof) : TradeProofLeg := mkTradeLeg tenant ref proofs.
Definition trade (sides : list TradeSide) (legs : list TradeProofLeg) : TradeProof :=
  mkTradeProof TRADE_PROOF_SCHEMA "trade_1" (mkTradeSummary "trade_1" TradeSettled sides []) legs.
Definition commits : gmap string (Signed Commit * string) := {["cmt_1" := (signed hash "acme" "cmt_1" updates, "secret")]}.
Definition check (t : TradeProof) : presult unit :=
  verify_trade_proof hash scheme bcs_commit bcs_state bcs_proof t commits.

(** An event that hands the sword to bob, and the commit built from it. *)
Definition event : Event :=
  event_new "acme" "evt_7" "int_7" "asset.transfer" "sword" "alice"
    (mkCommitment 1 (hash "alice") (owned "alice")) (mkCommitment 2 (hash "bob") (owned "bob")) None "exec" 0.
Definition batch : CommitBatch := mkBatch (scope_tenant "acme") [event].
Definition prior : list Entry := [(key_of hash "acme" "shield", hash "bob")].
Definition body : cresult Commit :=
  commit_build hash CommitSamples.codec CommitSamples.builder batch (compute_state_root hash prior) prior (Ok "cmt_7").
End TradeSamples.
Import TradeSamples.

Lemma trade_proof_shows_witness :
  let t := trade [side "acme" ["sword"; "shield"]] [leg "acme" [alpha "shield"; alpha "sword"]] in
  check t = Ok tt ∧
  ∃ p, rp_resource_id p = "sword" ∧ rs_owner (rp_claimed_state p) = Some "bob" ∧
    leg_proof_shows hash BundleSamples.scheme BundleSamples.bcs_commit BundleSamples.bcs_state BundleSamples.bcs_proof
      commits (side "acme" ["sword"; "shield"]) p.
Proof.
  cbv zeta. assert (check (trade [side "acme" ["sword"; "shield"]] [leg "acme" [alpha "shield"; alpha "sword"]]) = Ok tt) as Hc
    by (vm_compute; reflexivity).
  split; [exact Hc|]. destruct (trade_proof_shows _ _ _ _ _ _ _ Hc) as (_ & _ & _ & Hall).
  destruct (Hall ltac:(repeat constructor; by intros ?%not_elem_of_nil)) with (side := side "acme" ["sword"; "shield"]) (asset := "sword")
    as (l & p & _ & _ & _ & Hr & Hs).
  - constructor; [|constructor]. apply (bool_decide_unpack _). vm_compute. exact I.
  - left.
  - left.
  - exists p. split; [exact Hr|]. split; [|exact Hs]. by destruct Hs as (? & ? & ? & _ & _ & _ & _ & Ho & _).
Defined.

(** The verifier counts the proofs of a leg and the legs, but does not compare them: a proof
    of one asset given twice stands for two assets, a leg given twice for two tenants, and a
    leg may carry proofs from another tenant than its own. *)
Example trade_proof_repeated_asset :
  check (trade [side "acme" ["sword"; "helmet"]] [leg "acme" [alpha "sword"; alpha "sword"]]) = Ok tt.
Proof. vm_compute. reflexivity. Qed.
Example trade_proof_repeated_leg :
  check (trade [side "acme" ["sword"]; side "beta" ["crown"]] [leg "acme" [alpha "sword"]; leg "acme" [alpha "sword"]]) = Ok tt.
Proof. vm_compute. reflexivity. Qed.
Example trade_proof_foreign_tenant :
  check (trade [side "beta" ["sword"]] [leg "beta" [alpha "sword"]]) = Ok tt ∧ rp_tenant_id (alpha "sword") = "acme".
Proof. split; vm_compute; reflexivity. Qed.

(** The latest event of a bundle is not covered by any check. *)
Example latest_event_unbound :
  let p := alpha "sword" in
  let forged := state_proof_new (rp_tenant_id p) (rp_resource_id p) (rp_claimed_state p) (rp_commit p)
    (rp_state_inclusion_proof p) (mkEventRef "evt_none" "asset.mint") None in
  verify_bundle hash BundleSamples.scheme BundleSamples.bcs_commit BundleSamples.bcs_state BundleSamples.bcs_proof
    forged (BundleSamples.signed hash "acme" "cmt_1" updates) "secret" (BundleSamples.key_of hash "acme" "sword") = Ok tt.
Proof. vm_compute. reflexivity. Qed.

Lemma bundle_sound_witness : ∃ c p, body = Ok c ∧ rs_owner (rp_claimed_state p) = Some "bob" ∧
  sc_tenant_id (cm_scope c) = Some (rp_tenant_id p) ∧ names_commit (rp_commit p) c.
Proof.
  destruct body as [c|e] eqn:Hb; [|vm_compute in Hb; discriminate Hb].
  pose (signed := mkSigned c (mkSignature Ed25519 "k" (ed_sign BundleSamples.scheme "secret" "cmt_7"))).
  pose (updates := [(BundleSamples.key_of hash "acme" "sword", hash "bob")]).
  destruct (prove_inclusion hash (build hash [prior; updates]) (BundleSamples.key_of hash "acme" "sword")) as [i|] eqn:Hi;
    [|vm_compute in Hi; discriminate Hi].
  destruct (build_state_proof hash (BundleSamples.projection hash "acme" "sword" "bob") signed i "asset.transfer" None
    (BundleSamples.key_of hash "acme" "sword")) as [p|e] eqn:Hp; [|].
  2: { exfalso. vm_compute in Hb. injection Hb as <-. vm_compute in Hi. injection Hi as <-. vm_compute in Hp. discriminate Hp. }
  assert (derive_state_key hash p = Ok (BundleSamples.key_of hash "acme" "sword") ∧
    verify_bundle hash BundleSamples.scheme BundleSamples.bcs_commit BundleSamples.bcs_state BundleSamples.bcs_proof p signed "secret"
      (BundleSamples.key_of hash "acme" "sword") = Ok tt ∧ rs_owner (rp_claimed_state p) = Some "bob") as (Hk & Hv & Ho).
  { clear - Hb Hi Hp. vm_compute in Hb. injection Hb as <-. vm_compute in Hi. injection Hi as <-.
    vm_compute in Hp. injection Hp as <-. split; [|split]; vm_compute; reflexivity. }
  destruct (bundle_sound hash BundleSamples.scheme BundleSamples.bcs_commit BundleSamples.bcs_state BundleSamples.bcs_proof
    CommitSamples.codec CommitSamples.builder batch (compute_state_root hash prior) prior (Ok "cmt_7") signed p "secret"
    (BundleSamples.key_of hash "acme" "sword")) as (_ & Ht & Hn & _).
  - repeat constructor.
  - exact Hb.
  - exact Hk.
  - exact Hv.
  - exists c, p. split; [reflexivity|]. split; [exact Ho|]. split; [exact Ht|exact Hn].
Defined.

Lemma bundle_complete_witness : ∃ p,
  verify_bundle hash BundleSamples.scheme BundleSamples.bcs_commit BundleSamples.bcs_state BundleSamples.bcs_proof p
    (BundleSamples.signed hash "acme" "cmt_1" updates) "secret" (BundleSamples.key_of hash "acme" "shield") = Ok tt.
Proof.
  destruct (bundle_complete hash BundleSamples.scheme BundleSamples.bcs_commit BundleSamples.bcs_state BundleSamples.bcs_proof (fun k => k)
    [updates] (BundleSamples.key_of hash "acme" "shield") (BundleSamples.projection hash "acme" "shield" "bob")
    (BundleSamples.commit_body hash "acme" "cmt_1" updates) "secret" "k" (BundleSamples.signed hash "acme" "cmt_1" updates)
    "asset.transfer" None) as (i & p & _ & _ & _ & Hr & Hv).
  - repeat constructor.
  - vm_compute; reflexivity.
  - vm_compute; reflexivity.
  - vm_compute; reflexivity.
  - reflexivity.
  - reflexivity.
  - reflexivity.
  - exists p. apply Hv. unfold check_proof_size, BundleSamples.bcs_proof. cbn [map_err rbind]. rewrite Hr. vm_compute. reflexivity.
Defined.
