(* ===== verification/KeyRegistry.v ===== *)
(** * The in-memory key registry

    [statechronicle-ports/src/key_registry.rs]: registration, retirement and revocation of
    signing keys, and the two trust decisions made from them.  The [RwLock] is a flag: a
    poisoned lock makes every operation fail.  The theorems relate the decisions to the
    history of accepted operations, and the registry to the executor's key check. *)

From Stdlib Require Import ZArith Lia String.
From stdpp Require Import prelude gmap strings.
From S2P Require Import Prelude Effect Amount Domain Profile Admission Executor Pipeline.

Inductive KeyStatus := KeyActive | KeyRetired | KeyRevoked.
#[export] Instance KeyStatus_eq_dec : EqDecision KeyStatus.
Proof. solve_decision. Defined.

Record KeyRecord := mkKeyRecord {
  k_key_id : string;
  k_tenant : TenantId;
  k_subject : option SubjectId;
  k_operations : list Operation;
  k_valid_from : DateTime;
  k_valid_until : option DateTime;
  k_status : KeyStatus;
}.
#[export] Instance KeyRecord_eq_dec : EqDecision KeyRecord.
Proof. solve_decision. Defined.

Definition with_status (r : KeyRecord) (s : KeyStatus) : KeyRecord :=
  mkKeyRecord (k_key_id r) (k_tenant r) (k_subject r) (k_operations r) (k_valid_from r)
    (k_valid_until r) s.

Definition in_window (r : KeyRecord) (at_ : DateTime) : bool :=
  (k_valid_from r <=? at_) && match k_valid_until r with Some until => at_ <? until | None => true end.

Definition permits (r : KeyRecord) (tenant : TenantId) (subject : SubjectId) (operation : Operation)
    (at_ : DateTime) : bool :=
  String.eqb (k_tenant r) tenant
  && bool_decide (k_subject r = Some subject)
  && bool_decide (k_status r = KeyActive)
  && in_window r at_
  && existsb (String.eqb operation) (k_operations r).

Record MemoryKeyRegistry := mkRegistry {
  kr_records : gmap string KeyRecord;
  kr_poisoned : bool;
}.

Definition new_registry : MemoryKeyRegistry := mkRegistry ∅ false.

Definition lock_records (reg : MemoryKeyRegistry) : result (gmap string KeyRecord) KeyRegistryError :=
  if kr_poisoned reg then Err (KeyUnavailable "registry lock poisoned") else Ok (kr_records reg).

(** Metadata that [register] refuses. *)
Definition malformed (r : KeyRecord) : bool :=
  str_is_empty (k_tenant r)
  || (bool_decide (is_Some (k_subject r)) && match k_operations r with [] => true | _ => false end)
  || match k_valid_until r with Some until => until <=? k_valid_from r | None => false end
  || bool_decide (k_status r = KeyRevoked).

Definition register (record : KeyRecord) : Eff KeyRegistryError MemoryKeyRegistry unit := fun reg =>
  if malformed record then (Err NotTrusted, reg)
  else match lock_records reg with
       | Err e => (Err e, reg)
       | Ok records =>
           match records !! k_key_id record with
           | Some _ => (Err NotTrusted, reg)
           | None => (Ok tt, mkRegistry (<[k_key_id record := record]> records) (kr_poisoned reg))
           end
       end.

Definition set_status (key_id : string) (status : KeyStatus)
    : Eff KeyRegistryError MemoryKeyRegistry unit := fun reg =>
  match lock_records reg with
  | Err e => (Err e, reg)
  | Ok records =>
      match records !! key_id with
      | None => (Err KeyNotFound, reg)
      | Some record =>
          if bool_decide (k_status record = KeyRevoked) && negb (bool_decide (status = KeyRevoked))
          then (Err NotTrusted, reg)
          else (Ok tt, mkRegistry (<[key_id := with_status record status]> records) (kr_poisoned reg))
      end
  end.

Definition retire (key_id : string) : Eff KeyRegistryError MemoryKeyRegistry unit :=
  set_status key_id KeyRetired.
Definition revoke (key_id : string) : Eff KeyRegistryError MemoryKeyRegistry unit :=
  set_status key_id KeyRevoked.

Definition get_key (reg : MemoryKeyRegistry) (key_id : string)
    : result (option KeyRecord) KeyRegistryError :=
  let? records := lock_records reg in Ok (records !! key_id).

Definition resolve_intent_key (reg : MemoryKeyRegistry) (tenant : TenantId) (subject : SubjectId)
    (key_id : string) (operation : Operation) (at_ : DateTime) : result KeyRecord KeyRegistryError :=
  let? found := get_key reg key_id in
  let? record := ok_or found KeyNotFound in
  if permits record tenant subject operation at_ then Ok record else Err NotTrusted.

Definition resolve_commit_key (reg : MemoryKeyRegistry) (tenant : TenantId) (key_id : string)
    (at_ : DateTime) : result KeyRecord KeyRegistryError :=
  let? found := get_key reg key_id in
  let? record := ok_or found KeyNotFound in
  let valid_window := in_window record at_ in
  if String.eqb (k_tenant record) tenant && valid_window && negb (bool_decide (k_status record = KeyRevoked))
  then Ok record else Err NotTrusted.

(** ** Histories

    The lifecycle calls an operator can make; a history is the list of the accepted ones,
    newest first. *)

Inductive key_op := Register (r : KeyRecord) | Retire (k : string) | Revoke (k : string).
#[export] Instance key_op_eq_dec : EqDecision key_op.
Proof. solve_decision. Defined.

Definition run_op (op : key_op) : Eff KeyRegistryError MemoryKeyRegistry unit :=
  match op with Register r => register r | Retire k => retire k | Revoke k => revoke k end.

(** [key_reach history reg]: from an empty registry, calls of which exactly those of
    [history] were accepted lead to [reg]; refused calls may be interleaved. *)
Inductive key_reach : list key_op → MemoryKeyRegistry → Prop :=
| reach_new : key_reach [] new_registry
| reach_accepted op history reg reg' :
    key_reach history reg → run_op op reg = (Ok tt, reg') → key_reach (op :: history) reg'
| reach_refused op e history reg reg' :
    key_reach history reg → run_op op reg = (Err e, reg') → key_reach history reg'.

(** The status a history gives a key registered with status [s]. *)
Definition history_status (history : list key_op) (k : string) (s : KeyStatus) : KeyStatus :=
  if bool_decide (Revoke k ∈ history) then KeyRevoked
  else if bool_decide (Retire k ∈ history) then KeyRetired else s.

(** A call either is refused and changes nothing, or updates one key. *)
Lemma run_op_cases op reg res reg' : run_op op reg = (res, reg') →
  (∃ e, res = Err e ∧ reg' = reg) ∨
  (res = Ok tt ∧ kr_poisoned reg = false ∧ kr_poisoned reg' = false ∧
   match op with
   | Register r => malformed r = false ∧ kr_records reg !! k_key_id r = None ∧
       kr_records reg' = <[k_key_id r := r]> (kr_records reg)
   | Retire k => ∃ r, kr_records reg !! k = Some r ∧ k_status r ≠ KeyRevoked ∧
       kr_records reg' = <[k := with_status r KeyRetired]> (kr_records reg)
   | Revoke k => ∃ r, kr_records reg !! k = Some r ∧
       kr_records reg' = <[k := with_status r KeyRevoked]> (kr_records reg)
   end).
Proof.
  destruct op as [r|k|k]; cbn; unfold register, retire, revoke, set_status, lock_records;
    repeat (case_match; simplify_eq/=; eauto); intros; simplify_eq/=; eauto;
    right; split_and!; eauto.
  - eexists; split_and!; eauto. intros Hr. rewrite Hr in *. by simplify_eq/=.
Qed.

Lemma with_status_id r : with_status r (k_status r) = r.
Proof. by destruct r. Qed.
Lemma with_status_twice r s s' : with_status (with_status r s) s' = with_status r s'.
Proof. done. Qed.

(** Status after one more accepted call. *)
Lemma history_status_cons op history k s :
  history_status (op :: history) k s =
  match op with
  | Revoke k' => if decide (k' = k) then KeyRevoked else history_status history k s
  | Retire k' => if decide (k' = k)
                 then if bool_decide (Revoke k ∈ history) then KeyRevoked else KeyRetired
                 else history_status history k s
  | Register _ => history_status history k s
  end.
Proof.
  unfold history_status. destruct op; repeat case_decide; subst; repeat case_bool_decide; set_solver.
Qed.

Lemma history_status_fresh history k s :
  Retire k ∉ history → Revoke k ∉ history → history_status history k s = s.
Proof. intros. unfold history_status. by rewrite !bool_decide_false. Qed.

(** What the registry stores is what its history says. *)
Definition records_history (history : list key_op) (records : gmap string KeyRecord) : Prop :=
  (∀ k, Retire k ∈ history ∨ Revoke k ∈ history → is_Some (records !! k)) ∧
  (∀ k r, records !! k = Some r ↔ ∃ r0, Register r0 ∈ history ∧ k_key_id r0 = k ∧
     r = with_status r0 (history_status history k (k_status r0))).

Lemma records_history_register history records r : records_history history records →
  records !! k_key_id r = None → records_history (Register r :: history) (<[k_key_id r := r]> records).
Proof.
  intros [Hs Hr] Hn. split.
  - intros k Hk. rewrite lookup_insert_is_Some'. right. apply Hs. set_solver.
  - assert (Hfresh : Retire (k_key_id r) ∉ history ∧ Revoke (k_key_id r) ∉ history).
    { split; intros Hin; destruct (Hs (k_key_id r)); [set_solver|congruence|set_solver|congruence]. }
    intros k r'. setoid_rewrite history_status_cons. destruct (decide (k_key_id r = k)) as [<-|Hk].
    + rewrite lookup_insert_eq. split.
      * intros [= <-]. exists r. rewrite history_status_fresh, with_status_id by naive_solver. set_solver.
      * intros (r0 & Hin & He & ->). apply elem_of_cons in Hin as [[= <-]|Hin].
        -- by rewrite history_status_fresh, with_status_id by naive_solver.
        -- assert (is_Some (records !! k_key_id r)) as [??]; [|congruence]. eexists. apply Hr. eauto.
    + rewrite lookup_insert_ne, Hr by done. split; intros (r0 & Hin & He & ->); exists r0; set_solver.
Qed.

(** The call that gives status [s], other than registration. *)
Definition status_op (k : string) (s : KeyStatus) : key_op :=
  match s with KeyRevoked => Revoke k | _ => Retire k end.

Lemma history_status_set history k s s0 : s ≠ KeyActive →
  (s = KeyRevoked ∨ history_status history k s0 ≠ KeyRevoked) →
  history_status (status_op k s :: history) k s0 = s.
Proof.
  intros Hna Hs. rewrite history_status_cons. unfold history_status in Hs.
  destruct s; cbn; rewrite decide_True by done; [done| |done].
  case_bool_decide; [by destruct Hs|done].
Qed.

Lemma history_status_other history k k' s s0 : k ≠ k' →
  history_status (status_op k s :: history) k' s0 = history_status history k' s0.
Proof. intros. rewrite history_status_cons. destruct s; cbn; by rewrite decide_False. Qed.

Lemma register_in_status r history k s :
  Register r ∈ status_op k s :: history ↔ Register r ∈ history.
Proof. rewrite elem_of_cons. destruct s; naive_solver. Qed.

Lemma with_status_inj r r' s s' t : with_status r s = with_status r' s' → with_status r t = with_status r' t ∧ s = s'.
Proof. unfold with_status. intros [= -> -> -> -> -> -> ->]. done. Qed.

Lemma records_history_status history records k r s : records_history history records →
  s ≠ KeyActive → records !! k = Some r → (s = KeyRevoked ∨ k_status r ≠ KeyRevoked) →
  records_history (status_op k s :: history) (<[k := with_status r s]> records).
Proof.
  intros [Hs Hr] Hna Hk Hrv. split.
  - intros k' Hin. rewrite lookup_insert_is_Some'. destruct (decide (k = k')) as [->|Hne]; [by left|right].
    apply Hs. rewrite !elem_of_cons in Hin. destruct s; cbn in Hin; naive_solver.
  - intros k' r'. setoid_rewrite register_in_status. destruct (decide (k = k')) as [<-|Hne].
    + rewrite lookup_insert_eq. apply Hr in Hk as Hk'. destruct Hk' as (r0 & Hin & He & ->).
      rewrite with_status_twice. cbn in Hrv. split.
      * intros [= <-]. exists r0. by rewrite history_status_set.
      * intros (r1 & Hin1 & He1 & ->). f_equal.
        assert (Hk1 : records !! k = Some (with_status r1 (history_status history k (k_status r1))))
          by (apply Hr; eauto).
        rewrite Hk in Hk1. apply (inj Some) in Hk1.
        destruct (with_status_inj r0 r1 _ _ s Hk1) as [-> Hst].
        rewrite Hst in Hrv. by rewrite history_status_set.
    + rewrite lookup_insert_ne, Hr by done. by setoid_rewrite history_status_other.
Qed.

Lemma reach_history history reg : key_reach history reg →
  kr_poisoned reg = false ∧ records_history history (kr_records reg).
Proof.
  induction 1 as [|op history reg reg' _ IH E|op e history reg reg' _ IH E].
  - split; [done|]. split; [set_solver|]. intros k r. cbn. rewrite lookup_empty. set_solver.
  - destruct IH as [_ IH]. apply run_op_cases in E as [(? & ? & _)|(_ & _ & Hp & E)]; [done|].
    split; [done|]. destruct op as [r|k|k].
    + destruct E as (_ & Hn & ->). by apply records_history_register.
    + destruct E as (r & Hk & Hs & ->). apply (records_history_status _ _ k r KeyRetired); auto.
    + destruct E as (r & Hk & ->). apply (records_history_status _ _ k r KeyRevoked); auto.
  - apply run_op_cases in E as [(? & _ & ->)|(? & _)]; [|done]. done.
Qed.

(** Accepted registrations are well formed. *)
Lemma reach_wf history reg r : key_reach history reg → Register r ∈ history → malformed r = false.
Proof.
  induction 1 as [|op history reg reg' _ IH E|op e history reg reg' _ IH E]; [set_solver| |done].
  intros [<-|Hin]%elem_of_cons; [|auto].
  apply run_op_cases in E as [(? & ? & _)|(_ & _ & _ & E & _)]; done.
Qed.

Lemma lookup_history history reg k : key_reach history reg →
  get_key reg k = Ok (kr_records reg !! k).
Proof. intros H. unfold get_key, lock_records. by destruct (reach_history _ _ H) as [-> _]. Qed.

(** Trust for new intents, in terms of the history. *)
Lemma resolve_intent_iff history reg tenant subject k operation at_ record : key_reach history reg →
  resolve_intent_key reg tenant subject k operation at_ = Ok record ↔
  Register record ∈ history ∧ k_key_id record = k ∧ permits record tenant subject operation at_ = true ∧
  Retire k ∉ history ∧ Revoke k ∉ history.
Proof.
  intros H. destruct (reach_history _ _ H) as [_ [Hs Hr]].
  unfold resolve_intent_key. rewrite (lookup_history _ _ _ H). cbn [rbind]. split.
  - intros E. res_inv E. subst a. pose proof Hb as Hp. unfold permits in Hp.
    rewrite !andb_true_iff, !bool_decide_eq_true in Hp. destruct Hp as [[[[_ _] Hact] _] _].
    apply Hr in Ha as (r0 & Hin & Hk & ->). cbn in Hact.
    assert (Revoke k ∉ history ∧ Retire k ∉ history) as [Hn1 Hn2].
    { unfold history_status in Hact. repeat case_bool_decide; done. }
    rewrite history_status_fresh, with_status_id in * by done. eauto 10.
  - intros (Hin & Hk & Hp & Hn1 & Hn2).
    assert (kr_records reg !! k = Some record) as ->.
    { apply Hr. exists record. by rewrite history_status_fresh, with_status_id. }
    cbn. by rewrite Hp.
Qed.

(** C30: the registry decides trust by its history.  After any sequence of calls, a key is
    accepted for a new intent exactly when a well-formed record for it was registered that
    permits this tenant, subject, operation and time, and the key was neither retired nor
    revoked since; it is accepted for a commit exactly when a record for the tenant was
    registered whose window contains the time and the key was not revoked.  The record
    returned is the registered one with its current status. *)
Theorem key_trust_history (history : list key_op) (reg : MemoryKeyRegistry) (k : string) (record : KeyRecord) :
  key_reach history reg →
  (∀ tenant subject operation at_, resolve_intent_key reg tenant subject k operation at_ = Ok record ↔
     Register record ∈ history ∧ k_key_id record = k ∧ malformed record = false ∧
     permits record tenant subject operation at_ = true ∧ Retire k ∉ history ∧ Revoke k ∉ history) ∧
  (∀ tenant at_, resolve_commit_key reg tenant k at_ = Ok record ↔
     ∃ r0, Register r0 ∈ history ∧ k_key_id r0 = k ∧ malformed r0 = false ∧ k_tenant r0 = tenant ∧
       in_window r0 at_ = true ∧ Revoke k ∉ history ∧
       record = if bool_decide (Retire k ∈ history) then with_status r0 KeyRetired else r0).
Proof.
  intros H. destruct (reach_history _ _ H) as [_ [Hs Hr]].
  assert (Hwf : ∀ r, Register r ∈ history → malformed r = false) by eauto using reach_wf.
  split; [intros; rewrite (resolve_intent_iff _ _ _ _ _ _ _ _ H); naive_solver|].
  unfold resolve_commit_key. rewrite (lookup_history _ _ _ H). cbn [rbind].
  intros tenant at_. split.
  - intros E. res_inv E. subst a. apply Hr in Ha as (r0 & Hin & Hk & ->).
    rewrite !andb_true_iff, negb_true_iff, bool_decide_eq_false in Hb.
    destruct Hb as [[Ht%String.eqb_eq Hw] Hrev]. cbn in *. exists r0. unfold history_status in *.
    case_bool_decide; [done|]. split_and!; eauto. case_bool_decide; [done|apply with_status_id].
  - intros (r0 & Hin & Hk & Hm & Ht & Hw & Hn & ->).
    assert (kr_records reg !! k = Some (if bool_decide (Retire k ∈ history) then with_status r0 KeyRetired else r0)) as ->.
    { apply Hr. exists r0. split_and!; auto. unfold history_status. rewrite (bool_decide_false (Revoke k ∈ history)) by done.
      case_bool_decide; [done|by rewrite with_status_id]. }
    cbn. unfold malformed in Hm. rewrite !orb_false_iff, bool_decide_eq_false in Hm.
    unfold in_window in *.
    destruct (bool_decide (Retire k ∈ history)); cbn; rewrite Ht, String.eqb_refl, bool_decide_false by naive_solver;
      cbn; by rewrite Hw.
Qed.

(** ** The registry behind the executor's key check *)

(** The registry as the executor's key port; the executor only uses that a record came back. *)
Definition registry_port {W} (registry : W → MemoryKeyRegistry) : KeyResolver W :=
  fun w tenant subject key_id operation at_ =>
    let? _ := resolve_intent_key (registry w) tenant subject key_id operation at_ in Ok tt.

(** A signing key that its operator retired or revoked cannot reach a store through the
    player route: whatever else holds of the intent, principal and executor, the call fails
    with an authentication error before any effect; so does a key that was never registered
    for this tenant, principal, operation and time. *)
Theorem untrusted_key_blocks {W Handle} (x : Executor W Handle) (v : ValidatedIntent)
    (principal : AuthenticatedPrincipal) (authorizer : Authorizer W) (sink : MutationSink W)
    (registry : W → MemoryKeyRegistry) (history : list key_op) (block : SignatureBlock) (w : W) :
  key_reach history (registry w) → v_signature v = Some block →
  (∀ r, Register r ∈ history → k_key_id r = sb_key_id block →
     permits r (i_tenant_id (v_intent v)) (pr_subject principal) (i_operation (v_intent v))
       (i_created_at (v_intent v)) = true →
     Retire (sb_key_id block) ∈ history ∨ Revoke (sb_key_id block) ∈ history) →
  ∃ m, execute_player_durable_with_key_registry x v principal authorizer (registry_port registry) sink w
       = (Err (XActorAuthenticationFailed m), w).
Proof.
  intros Hreach Hsig Hbad.
  unfold execute_player_durable_with_key_registry, require_signature, xbind at 1, xlift.
  rewrite Hsig; cbn. unfold xbind at 1, resolve_key, xquery, registry_port.
  destruct (resolve_intent_key _ _ _ _ _ _) as [r|e] eqn:E; cbn; [|eauto].
  apply (resolve_intent_iff _ _ _ _ _ _ _ _ Hreach) in E as (Hin & Hk & Hp & Hn1 & Hn2).
  naive_solver.
Qed.

(** ** Concrete histories *)

(** Replay a history, and whether each of its calls is accepted. *)
Definition replay (history : list key_op) : MemoryKeyRegistry :=
  foldr (fun op reg => snd (run_op op reg)) new_registry history.
Fixpoint accepted (history : list key_op) : bool :=
  match history with
  | [] => true
  | op :: history' => accepted history' && is_ok (fst (run_op op (replay history')))
  end.

Lemma replay_reach history : accepted history = true → key_reach history (replay history).
Proof.
  induction history as [|op history IH]; cbn; [constructor|].
  intros [Ha Hop]%andb_true_iff. apply (reach_accepted op history (replay history)); [auto|].
  change (foldr _ _ history) with (replay history).
  destruct (run_op op (replay history)) as [[[]|e] reg']; done.
Qed.

Module KeySamples.
Definition key : KeyRecord :=
  mkKeyRecord "key_1" "acme" (Some "alice") ["asset.lock"; "asset.transfer"] 100 (Some 500) KeyActive.
Definition signer : KeyRecord := mkKeyRecord "key_2" "acme" None [] 0 None KeyActive.

Definition history : list key_op := [Revoke "key_2"; Retire "key_1"; Register signer; Register key].
Definition registry : MemoryKeyRegistry := replay history.
Definition block : SignatureBlock := mkSignature Ed25519 "key_1" "sig".

Lemma sample_reach : key_reach history registry.
Proof. apply replay_reach. vm_compute. reflexivity. Qed.
End KeySamples.

Lemma key_trust_history_witness :
  resolve_intent_key KeySamples.registry "acme" "alice" "key_1" "asset.lock" 200 ≠ Ok KeySamples.key ∧
  resolve_commit_key KeySamples.registry "acme" "key_1" 200 = Ok (with_status KeySamples.key KeyRetired) ∧
  ∀ record, resolve_commit_key KeySamples.registry "acme" "key_2" 200 ≠ Ok record.
Proof.
  split_and!.
  - intros E. apply (key_trust_history _ _ _ _ KeySamples.sample_reach) in E. vm_compute in E.
    destruct E as (_ & _ & _ & _ & Hn & _). apply Hn. right; left.
  - apply (key_trust_history _ _ _ _ KeySamples.sample_reach). exists KeySamples.key.
    split_and!; [by repeat constructor|done..| |done]. by apply (bool_decide_unpack _); vm_compute.
  - intros record E. apply (key_trust_history _ _ _ _ KeySamples.sample_reach) in E.
    destruct E as (r0 & _ & _ & _ & _ & _ & Hn & _). apply Hn. left.
Defined.

(** An intent signed with the retired key. *)
Lemma untrusted_key_blocks_witness : ∃ m,
  execute_player_durable_with_key_registry Memory.exec
    (from_intent (v_intent MemorySamples.sale) (Some KeySamples.block)) (mkPrincipal "alice" "c" "acme")
    (fun _ _ _ => Ok tt) (registry_port (fun _ => KeySamples.registry)) (fun w _ _ _ => (Ok tt, w)) Memory.start
  = (Err (XActorAuthenticationFailed m), Memory.start).
Proof.
  apply (untrusted_key_blocks _ _ _ _ _ _ KeySamples.history KeySamples.block).
  - apply KeySamples.sample_reach.
  - reflexivity.
  - intros; left; apply (bool_decide_unpack _); vm_compute; reflexivity.
Defined.
