(* ===== verification/Outbox.v ===== *)
(** * Outbox delivery

    [statechronicle-ports/src/outbox.rs]: the worker that claims outbox rows, checks their
    digests, publishes and completes them, its bounded drivers, and the consumer that applies
    a delivery once.  The stores, the broker, the clock and the sleeper are parameters over a
    world [W].  To speak about the order of calls, the same code is run over stores that
    append each call and its answer to a log. *)

From Stdlib Require Import ZArith Lia String.
From stdpp Require Import prelude strings.
From S2P Require Import Prelude Effect Amount RateLimit Domain Durable Ledger.

Inductive OutboxPayload :=
| Opaque (tenant : TenantId) (commit_id : CommitId) (payload_digest : ContentDigest) (payload : string).

Inductive OutboxError := ObUnavailable (msg : string) | ObCorrupt (msg : string).

Definition outbox_is_retryable (e : OutboxError) : bool :=
  match e with ObUnavailable _ => true | ObCorrupt _ => false end.

Notation Row := (string * OutboxPayload)%type.
Notation Out W A := (Eff OutboxError W A).

(** The store: the operations the workers call, and the count of pending rows. *)
Record OutboxStore (W : Type) := mkOutboxStore {
  claim : string → nat → Z → W → result (list Row) OutboxError * W;
  mark_delivered_by : string → string → W → result unit OutboxError * W;
  release_by : string → string → string → W → result unit OutboxError * W;
  quarantine_by : string → string → string → W → result unit OutboxError * W;
  pending_count : option TenantId → W → result Z OutboxError;
}.
Arguments pending_count {W}. Arguments claim {W}. Arguments mark_delivered_by {W}. Arguments release_by {W}. Arguments quarantine_by {W}.

(** The methods an adapter inherits when it does not override them: each refuses. *)
Definition default_mark_delivered {W} (_ : string) : Out W unit :=
  xlift (Err (ObUnavailable "ownerless delivery completion is disabled; use mark_delivered_by")).
Definition default_mark_delivered_by {W} (_ _ : string) : Out W unit :=
  xlift (Err (ObUnavailable "ownership-aware delivery completion is not supported by this adapter")).
Definition default_release {W} (_ _ : string) : Out W unit :=
  xlift (Err (ObUnavailable "ownerless delivery release is disabled; use release_by")).
Definition default_release_by {W} (_ _ _ : string) : Out W unit :=
  xlift (Err (ObUnavailable "ownership-aware delivery release is not supported by this adapter")).
Definition default_quarantine {W} (release : string → string → Out W unit) (key error : string) : Out W unit :=
  release key error.
Definition default_quarantine_by {W} (_ _ _ : string) : Out W unit :=
  xlift (Err (ObUnavailable "ownership-aware quarantine is not supported by this adapter")).

Notation OutboxPublisher W := (string → OutboxPayload → W → result unit string * W).

Record DispatchReport := mkDispatchReport { d_delivered : Z; d_retried : Z; d_quarantined : Z }.
Definition dispatch_default : DispatchReport := mkDispatchReport 0 0 0.

Inductive PoisonPolicy := PoisonRetry | PoisonQuarantine.

Definition DIGEST_MISMATCH : string := "payload digest mismatch".

(** [Duration]: seconds in a [u64] and nanoseconds, here the total in nanoseconds. *)
Notation Duration := Z.
Definition DURATION_MAX : Duration := U64_MAX * 1000000000 + 999999999.
Definition duration_saturating_mul (d n : Z) : Duration := Z.min (d * n) DURATION_MAX.

Definition I64_MAX : Z := 2^63 - 1.
Definition I64_MIN : Z := - 2^63.
Definition saturating_add_i64 (x y : Z) : Z := Z.max I64_MIN (Z.min (x + y) I64_MAX).

Record OutboxWorkerConfig := mkWorkerConfig {
  wc_batch_size : nat;
  wc_lease_duration_secs : Z;
  wc_max_ticks : nat;
  wc_idle_backoff : Duration;
  wc_error_backoff : Duration;
  wc_max_error_backoff : Duration;
  wc_poison_policy : PoisonPolicy;
}.

Record WorkerReport := mkWorkerReport {
  w_ticks : Z; w_delivered : Z; w_retried : Z; w_quarantined : Z; w_transient_errors : Z }.
Definition worker_default : WorkerReport := mkWorkerReport 0 0 0 0 0.

Definition commit_delivery_key (tenant : TenantId) (commit_id : CommitId) : string :=
  "commit:" +:+ tenant +:+ ":" +:+ commit_id.

Section Dispatch.
Context (H : string → string) {W : Type} (store : OutboxStore W) (publisher : OutboxPublisher W).

Definition payload_ok (p : OutboxPayload) : bool :=
  match p with Opaque _ _ expected bytes => String.eqb (H bytes) expected end.

Definition add_delivered (r : DispatchReport) : DispatchReport :=
  mkDispatchReport (saturating_add_u64 (d_delivered r) 1) (d_retried r) (d_quarantined r).
Definition add_retried (r : DispatchReport) : DispatchReport :=
  mkDispatchReport (d_delivered r) (saturating_add_u64 (d_retried r) 1) (d_quarantined r).
Definition add_quarantined (r : DispatchReport) : DispatchReport :=
  mkDispatchReport (d_delivered r) (d_retried r) (saturating_add_u64 (d_quarantined r) 1).

(** The body of the loop for one claimed row. *)
Definition dispatch_row (worker_id : string) (poison_policy : PoisonPolicy) (report : DispatchReport)
    (row : Row) : Out W DispatchReport :=
  let '(delivery_key, payload) := row in
  if negb (payload_ok payload) then
    match poison_policy with
    | PoisonRetry =>
        release_by store delivery_key worker_id DIGEST_MISMATCH ;!
        xlift (Err (ObCorrupt ("payload digest mismatch for `" +:+ delivery_key +:+ "`")))
    | PoisonQuarantine =>
        quarantine_by store delivery_key worker_id DIGEST_MISMATCH ;! xret (add_quarantined report)
    end
  else
    let! published := xeffect (publisher delivery_key payload) in
    match published with
    | Ok _ => mark_delivered_by store delivery_key worker_id ;! xret (add_delivered report)
    | Err error => release_by store delivery_key worker_id error ;! xret (add_retried report)
    end.

Fixpoint dispatch_rows (worker_id : string) (poison_policy : PoisonPolicy) (report : DispatchReport)
    (claimed : list Row) : Out W DispatchReport :=
  match claimed with
  | [] => xret report
  | row :: rest =>
      let! report := dispatch_row worker_id poison_policy report row in
      dispatch_rows worker_id poison_policy report rest
  end.

Definition dispatch_once_with_policy (worker_id : string) (limit : nat) (lease_until_unix : Z)
    (poison_policy : PoisonPolicy) : Out W DispatchReport :=
  let! claimed := claim store worker_id limit lease_until_unix in
  dispatch_rows worker_id poison_policy dispatch_default claimed.

Definition dispatch_once (worker_id : string) (limit : nat) (lease_until_unix : Z) : Out W DispatchReport :=
  dispatch_once_with_policy worker_id limit lease_until_unix PoisonRetry.

Definition add_reports (total report : DispatchReport) : DispatchReport :=
  mkDispatchReport (saturating_add_u64 (d_delivered total) (d_delivered report))
    (saturating_add_u64 (d_retried total) (d_retried report))
    (saturating_add_u64 (d_quarantined total) (d_quarantined report)).

Fixpoint drain_passes (worker_id : string) (limit : nat) (lease_until_unix : Z) (passes : nat)
    (total : DispatchReport) : Out W DispatchReport :=
  match passes with
  | O => xret total
  | S passes' =>
      let! report := dispatch_once worker_id limit lease_until_unix in
      let total := add_reports total report in
      if (d_delivered report =? 0) && (d_retried report =? 0) then xret total
      else drain_passes worker_id limit lease_until_unix passes' total
  end.

Definition dispatch_until_idle (worker_id : string) (limit : nat) (lease_until_unix : Z)
    (max_passes : nat) : Out W DispatchReport :=
  if (limit =? 0)%nat || (max_passes =? 0)%nat then
    xlift (Err (ObUnavailable "outbox drain limit and max_passes must be non-zero"))
  else drain_passes worker_id limit lease_until_unix max_passes dispatch_default.

(** ** The supervisor *)

Context (clock : W → Z * W) (sleep : Duration → W → unit * W) (should_stop : W → bool * W).

Definition tick_done (report : WorkerReport) (tick : DispatchReport) : WorkerReport :=
  mkWorkerReport (w_ticks report) (saturating_add_u64 (w_delivered report) (d_delivered tick))
    (saturating_add_u64 (w_retried report) (d_retried tick))
    (saturating_add_u64 (w_quarantined report) (d_quarantined tick)) (w_transient_errors report).
Definition tick_started (report : WorkerReport) : WorkerReport :=
  mkWorkerReport (saturating_add_u64 (w_ticks report) 1) (w_delivered report) (w_retried report)
    (w_quarantined report) (w_transient_errors report).
Definition tick_failed (report : WorkerReport) : WorkerReport :=
  mkWorkerReport (w_ticks report) (w_delivered report) (w_retried report) (w_quarantined report)
    (saturating_add_u64 (w_transient_errors report) 1).
Definition idle (tick : DispatchReport) : bool :=
  (d_delivered tick =? 0) && (d_retried tick =? 0) && (d_quarantined tick =? 0).

(** A computation whose error is inspected instead of propagated ([match .. .await]). *)
Definition xcatch {A} (m : Out W A) : Out W (result A OutboxError) := fun w =>
  let (r, w') := m w in (Ok r, w').

Fixpoint worker_ticks (worker_id : string) (config : OutboxWorkerConfig) (ticks : nat)
    (report : WorkerReport) (error_backoff : Duration) : Out W WorkerReport :=
  match ticks with
  | O => xret report
  | S ticks' =>
      let! stop := xeffect should_stop in
      if (stop : bool) then xret report else
      let report := tick_started report in
      let! now := xeffect clock in
      let lease_until := saturating_add_i64 now (wc_lease_duration_secs config) in
      let! outcome := xcatch (dispatch_once_with_policy worker_id (wc_batch_size config) lease_until
                                (wc_poison_policy config)) in
      match outcome with
      | Ok tick =>
          let report := tick_done report tick in
          (if idle tick then xeffect (sleep (wc_idle_backoff config)) else xret tt) ;!
          worker_ticks worker_id config ticks' report (wc_error_backoff config)
      | Err error =>
          if outbox_is_retryable error then
            let report := tick_failed report in
            xeffect (sleep error_backoff) ;!
            let doubled := duration_saturating_mul error_backoff 2 in
            worker_ticks worker_id config ticks' report (Z.min doubled (wc_max_error_backoff config))
          else xlift (Err error)
      end
  end.

Definition worker_config_invalid (worker_id : string) (config : OutboxWorkerConfig) : bool :=
  str_is_empty worker_id || (wc_batch_size config =? 0)%nat || (wc_max_ticks config =? 0)%nat
  || (wc_lease_duration_secs config <=? 0) || (wc_max_error_backoff config <? wc_error_backoff config).

Definition run_outbox_worker (worker_id : string) (config : OutboxWorkerConfig) : Out W WorkerReport :=
  if worker_config_invalid worker_id config then
    xlift (Err (ObUnavailable "worker id and bounds must be non-empty"))
  else worker_ticks worker_id config (wc_max_ticks config) worker_default (wc_error_backoff config).
End Dispatch.

(** ** The consumer *)

Inductive ConsumerDeliveryClaim :=
| DeliveryNew (attempt_id : string)
| AlreadyApplied
| DeliveryInProgress (attempt_id : string) (lease_expires_at_unix : Z).

Record ConsumerDedupStore (W : Type) := mkDedup {
  claim_delivery : string → Z → W → result ConsumerDeliveryClaim OutboxError * W;
  mark_delivery_applied : string → string → W → result unit OutboxError * W;
  release_delivery : string → string → string → W → result unit OutboxError * W;
}.
Arguments claim_delivery {W}. Arguments mark_delivery_applied {W}. Arguments release_delivery {W}.

Section Consume.
Context {W : Type} (dedup : ConsumerDedupStore W).
Context (apply_delivery : string → OutboxPayload → W → result unit string * W) (clock : W → Z * W).

Definition consume_once (delivery_key : string) (payload : OutboxPayload) (lease_until_unix : Z)
    : Out W bool :=
  if str_is_empty delivery_key then
    xlift (Err (ObUnavailable "consumer delivery key must not be empty"))
  else
  let! now := xeffect clock in
  if lease_until_unix <=? now then
    xlift (Err (ObUnavailable "consumer lease expiration must be in the future"))
  else
  let! claimed := claim_delivery dedup delivery_key lease_until_unix in
  match claimed with
  | AlreadyApplied => xret false
  | DeliveryInProgress _ _ => xlift (Err (ObUnavailable "consumer delivery is already in progress"))
  | DeliveryNew attempt_id =>
      let! applied := xeffect (apply_delivery delivery_key payload) in
      match applied with
      | Err error =>
          release_delivery dedup delivery_key attempt_id error ;! xlift (Err (ObUnavailable error))
      | Ok _ => mark_delivery_applied dedup delivery_key attempt_id ;! xret true
      end
  end.
End Consume.
