(* ===== verification/Delivery.v ===== *)
(** * Delivery guarantees

    What the outbox code of [Outbox] does to its stores, stated over the log of its calls: the
    protocol each claimed row goes through, the bounds of the drivers, and at-most-once
    application by a consumer whose deduplication store keeps its promises. *)

From Stdlib Require Import ZArith Lia String.
From stdpp Require Import prelude strings gmap.
From S2P Require Import Prelude Effect Amount RateLimit Domain Durable Ledger Outbox.

(** ** Logged stores *)

Inductive ob_call :=
| CClaim (worker : string) (limit : nat) (lease : Z) (answer : result (list Row) OutboxError)
| CPublish (key : string) (payload : OutboxPayload) (answer : result unit string)
| CDeliver (key worker : string) (answer : result unit OutboxError)
| CRelease (key worker msg : string) (answer : result unit OutboxError)
| CQuarantine (key worker msg : string) (answer : result unit OutboxError)
| CSleep (duration : Duration).

Section Logged.
Context {W : Type}.
Notation LW := (W * list ob_call)%type.

Definition logged {A} (call : A → ob_call) (f : W → A * W) : LW → A * LW :=
  fun '(w, log) => let (a, w') := f w in (a, (w', log ++ [call a])).
Definition unlogged {A} (f : W → A * W) : LW → A * LW :=
  fun '(w, log) => let (a, w') := f w in (a, (w', log)).

Definition logged_store (store : OutboxStore W) : OutboxStore LW :=
  mkOutboxStore LW
    (fun worker limit lease => logged (CClaim worker limit lease) (claim store worker limit lease))
    (fun key worker => logged (CDeliver key worker) (mark_delivered_by store key worker))
    (fun key worker msg => logged (CRelease key worker msg) (release_by store key worker msg))
    (fun key worker msg => logged (CQuarantine key worker msg) (quarantine_by store key worker msg))
    (fun tenant s => pending_count store tenant s.1).
Definition logged_publisher (publisher : OutboxPublisher W) : OutboxPublisher LW :=
  fun key payload => logged (CPublish key payload) (publisher key payload).
Definition logged_sleep (sleep : Duration → W → unit * W) : Duration → LW → unit * LW :=
  fun d => logged (fun _ => CSleep d) (sleep d).

Lemma logged_run {A} (call : A → ob_call) f (a : A) w log w' log' :
  logged call f (w, log) = (a, (w', log')) → log' = log ++ [call a].
Proof. cbn. destruct (f w). naive_solver. Qed.
Lemma unlogged_run {A} (f : W → A * W) (a : A) w log w' log' :
  unlogged f (w, log) = (a, (w', log')) → log' = log.
Proof. cbn. destruct (f w). naive_solver. Qed.
End Logged.

(** ** The protocol of one row *)

Section Protocol.
Context (H : string → string).

Inductive row_outcome := Delivered | Retried | Quarantined.

(** The calls made for one claimed row, in order, and how the row ends. *)
Inductive row_trace (worker : string) (policy : PoisonPolicy)
    : Row → list ob_call → result row_outcome OutboxError → Prop :=
| row_published key p answer : payload_ok H p = true →
    row_trace worker policy (key, p) [CPublish key p (Ok tt); CDeliver key worker answer]
      (match answer with Ok _ => Ok Delivered | Err e => Err e end)
| row_unpublished key p error answer : payload_ok H p = true →
    row_trace worker policy (key, p) [CPublish key p (Err error); CRelease key worker error answer]
      (match answer with Ok _ => Ok Retried | Err e => Err e end)
| row_quarantined key p answer : payload_ok H p = false → policy = PoisonQuarantine →
    row_trace worker policy (key, p) [CQuarantine key worker DIGEST_MISMATCH answer]
      (match answer with Ok _ => Ok Quarantined | Err e => Err e end)
| row_poisoned key p answer : payload_ok H p = false → policy = PoisonRetry →
    row_trace worker policy (key, p) [CRelease key worker DIGEST_MISMATCH answer]
      (Err match answer with
           | Ok _ => ObCorrupt ("payload digest mismatch for `" +:+ key +:+ "`")
           | Err e => e end).

(** A batch handles its rows in order and stops at the first row that ends in an error. *)
Inductive batch_trace (worker : string) (policy : PoisonPolicy)
    : list Row → list ob_call → result (list row_outcome) OutboxError → Prop :=
| batch_done : batch_trace worker policy [] [] (Ok [])
| batch_stops row rows calls e : row_trace worker policy row calls (Err e) →
    batch_trace worker policy (row :: rows) calls (Err e)
| batch_next row rows calls calls' o r :
    row_trace worker policy row calls (Ok o) → batch_trace worker policy rows calls' r →
    batch_trace worker policy (row :: rows) (calls ++ calls')
      (match r with Ok os => Ok (o :: os) | Err e => Err e end).

Definition count_outcome (o : row_outcome) (report : DispatchReport) : DispatchReport :=
  match o with
  | Delivered => add_delivered report
  | Retried => add_retried report
  | Quarantined => add_quarantined report
  end.
Definition report_of (report : DispatchReport) (os : list row_outcome) : DispatchReport :=
  fold_left (fun report o => count_outcome o report) os report.

Context {W : Type} (store : OutboxStore W) (publisher : OutboxPublisher W).
Notation lstore := (logged_store store).
Notation lpublisher := (logged_publisher publisher).

(** A logged call followed by a continuation. *)
Lemma xbind_logged {A B} (call : result A OutboxError → ob_call) (f : W → result A OutboxError * W)
    (k : A → Out (W * list ob_call) B) w log r w' log' :
  xbind (logged call f) k (w, log) = (r, (w', log')) →
  (∃ e, f w = (Err e, w') ∧ r = Err e ∧ log' = log ++ [call (Err e)]) ∨
  (∃ a w1, f w = (Ok a, w1) ∧ k a (w1, log ++ [call (Ok a)]) = (r, (w', log'))).
Proof. unfold xbind. cbn. destruct (f w) as [[a|e] w1]; naive_solver. Qed.

Lemma dispatch_row_trace worker policy report row w log r w' log' :
  dispatch_row H lstore lpublisher worker policy report row (w, log) = (r, (w', log')) →
  ∃ calls o, row_trace worker policy row calls o ∧ log' = log ++ calls ∧
    r = match o with Ok oc => Ok (count_outcome oc report) | Err e => Err e end.
Proof.
  destruct row as [key p]. unfold dispatch_row. destruct (payload_ok H p) eqn:Ep; cbn [negb].
  - unfold xbind at 1, xeffect, logged_publisher at 1. cbn [logged].
    destruct (publisher key p w) as [[[]|m] w1]; cbn [mark_delivered_by release_by logged_store];
      intros [(e & _ & -> & ->)|([] & w2 & _ & E)]%xbind_logged.
    + eexists _, _. split; [by apply (row_published _ _ key p (Err e))|]. by rewrite <- app_assoc.
    + injection E as <- <- <-. eexists _, _. split; [by apply (row_published _ _ key p (Ok tt))|]. by rewrite <- app_assoc.
    + eexists _, _. split; [by apply (row_unpublished _ _ key p m (Err e))|]. by rewrite <- app_assoc.
    + injection E as <- <- <-. eexists _, _. split; [by apply (row_unpublished _ _ key p m (Ok tt))|]. by rewrite <- app_assoc.
  - destruct policy; cbn [quarantine_by release_by logged_store];
      intros [(e & _ & -> & ->)|([] & w2 & _ & E)]%xbind_logged; try injection E as <- <- <-.
    + eexists _, _. split; [by apply (row_poisoned _ _ key p (Err e))|done].
    + eexists _, _. split; [by apply (row_poisoned _ _ key p (Ok tt))|done].
    + eexists _, _. split; [by apply (row_quarantined _ _ key p (Err e))|done].
    + eexists _, _. split; [by apply (row_quarantined _ _ key p (Ok tt))|done].
Qed.

Lemma dispatch_rows_trace worker policy rows : ∀ report w log r w' log',
  dispatch_rows H lstore lpublisher worker policy report rows (w, log) = (r, (w', log')) →
  ∃ calls o, batch_trace worker policy rows calls o ∧ log' = log ++ calls ∧
    r = match o with Ok os => Ok (report_of report os) | Err e => Err e end.
Proof.
  induction rows as [|row rows IH]; intros report w log r w' log'; cbn [dispatch_rows].
  - intros [= <- <- <-]. exists [], (Ok []). rewrite app_nil_r. split_and!; [constructor|done|done].
  - intros [(e & E & ->)|(report' & [w1 log1] & E & Hk)]%xbind_inv;
      apply dispatch_row_trace in E as (calls & o & Ht & -> & Ho).
    + exists calls, (Err e). destruct o as [oc|e']; [done|injection Ho as ->]. split_and!; [by constructor|done|done].
    + destruct o as [oc|]; [injection Ho as ->|done]. apply IH in Hk as (calls' & o' & Hb & -> & ->).
      eexists _, _. split_and!; [by econstructor|by rewrite app_assoc|by destruct o'].
Qed.

(** One pass claims once, then runs the protocol on the rows it got. *)
Lemma dispatch_trace worker limit lease policy w log r w' log' :
  dispatch_once_with_policy H lstore lpublisher worker limit lease policy (w, log) = (r, (w', log')) →
  (∃ e, r = Err e ∧ log' = log ++ [CClaim worker limit lease (Err e)]) ∨
  (∃ rows calls o, batch_trace worker policy rows calls o ∧ log' = log ++ CClaim worker limit lease (Ok rows) :: calls ∧
     r = match o with Ok os => Ok (report_of dispatch_default os) | Err e => Err e end).
Proof.
  intros [(e & _ & -> & ->)|(rows & w1 & _ & E)]%xbind_logged; [eauto|right].
  apply dispatch_rows_trace in E as (calls & o & Hb & -> & ->). exists rows, calls, o.
  by rewrite <- app_assoc.
Qed.
End Protocol.

(** ** What the protocol guarantees *)

#[export] Instance row_outcome_eq_dec : EqDecision row_outcome.
Proof. solve_decision. Defined.

Definition count_if {A} (f : A → bool) (l : list A) : Z := Z.of_nat (length (List.filter f l)).

Lemma count_if_app {A} (f : A → bool) l l' : count_if f (l ++ l') = count_if f l + count_if f l'.
Proof. unfold count_if. rewrite List.filter_app, length_app. lia. Qed.
Lemma count_if_cons {A} (f : A → bool) a l : count_if f (a :: l) = (if f a then 1 else 0) + count_if f l.
Proof. unfold count_if. cbn. destruct (f a); cbn [length]; lia. Qed.
Lemma count_if_nonneg {A} (f : A → bool) l : 0 ≤ count_if f l.
Proof. unfold count_if. lia. Qed.
#[export] Hint Resolve count_if_nonneg : core.

(** The counter an outcome increments. *)
Definition counter (o : row_outcome) (report : DispatchReport) : Z :=
  match o with
  | Delivered => d_delivered report | Retried => d_retried report | Quarantined => d_quarantined report
  end.

Section Guarantees.
Context (H : string → string).

(** A batch splits into the rows that ended and, when it stops, the row it stopped at. *)
Lemma batch_split worker policy rows calls r : batch_trace H worker policy rows calls r →
  ∃ handled segments os, Forall3 (fun row segment o => row_trace H worker policy row segment (Ok o)) handled segments os ∧
    match r with
    | Ok os' => os' = os ∧ rows = handled ∧ calls = concat segments
    | Err e => ∃ row rest tail, rows = handled ++ row :: rest ∧ calls = concat segments ++ tail ∧
        row_trace H worker policy row tail (Err e)
    end.
Proof.
  induction 1 as [|row rows calls e Ht|row rows calls calls' o r Ht _ (handled & segments & os & Hf & Hr)].
  - exists [], [], []. by repeat constructor.
  - exists [], [], []. split; [constructor|]. by exists row, rows, calls.
  - exists (row :: handled), (calls :: segments), (o :: os). split; [by constructor|]. destruct r as [os'|e].
    + by destruct Hr as (-> & -> & ->).
    + destruct Hr as (row' & rest & tail & -> & -> & Hrow). exists row', rest, tail. split; [done|]. split; [|done]. cbn [concat]. by rewrite app_assoc.
Qed.

Lemma report_counter o os : ∀ report, 0 ≤ counter o report ≤ U64_MAX →
  counter o (report_of report os) = Z.min (counter o report + count_if (fun o' => bool_decide (o' = o)) os) U64_MAX.
Proof.
  induction os as [|o1 os IH]; intros report Hr; cbn [report_of fold_left].
  - unfold count_if; cbn. lia.
  - fold (report_of (count_outcome o1 report) os). rewrite count_if_cons.
    pose proof (count_if_nonneg (fun o' => bool_decide (o' = o)) os).
    assert (counter o (count_outcome o1 report)
            = if bool_decide (o1 = o) then Z.min (counter o report + 1) U64_MAX else counter o report) as Hc
      by (destruct o, o1; reflexivity).
    rewrite IH; rewrite Hc; case_bool_decide; lia.
Qed.

Lemma batch_calls worker policy rows calls r : batch_trace H worker policy rows calls r →
  (∀ key p answer, CPublish key p answer ∈ calls → (key, p) ∈ rows ∧ payload_ok H p = true) ∧
  (∀ key wk answer, CDeliver key wk answer ∈ calls → wk = worker ∧
     ∃ p before after, (key, p) ∈ rows ∧
       calls = before ++ CPublish key p (Ok tt) :: CDeliver key wk answer :: after).
Proof.
  assert (Hrow : ∀ row cs o, row_trace H worker policy row cs o →
    (∀ key p answer, CPublish key p answer ∈ cs → (key, p) = row ∧ payload_ok H p = true) ∧
    (∀ key wk answer, CDeliver key wk answer ∈ cs → wk = worker ∧
       ∃ p, (key, p) = row ∧ cs = [CPublish key p (Ok tt); CDeliver key wk answer])).
  { intros row cs o Ht. inversion Ht; subst; split; intros key' ? answer' Hin;
      rewrite ?elem_of_cons, ?elem_of_nil in Hin; naive_solver. }
  induction 1 as [|row rows calls e Ht|row rows calls calls' o r Ht _ [IH1 IH2]]; [set_solver|..];
    apply Hrow in Ht as [H1 H2]; split.
  - intros key p answer Hin. apply H1 in Hin as [<- ?]. split; [left|done].
  - intros key wk answer Hin. apply H2 in Hin as (-> & p & <- & ->). split; [done|].
    exists p, [], []. split; [left|done].
  - intros key p answer [Hin|Hin]%elem_of_app; [apply H1 in Hin as [<- ?]|apply IH1 in Hin as [??]];
      (split; [|done]); [left|by right].
  - intros key wk answer [Hin|Hin]%elem_of_app.
    + apply H2 in Hin as (-> & p & <- & ->). split; [done|]. exists p, [], calls'. split; [left|done].
    + apply IH2 in Hin as (-> & p & before & after & Hin & ->). split; [done|].
      exists p, (calls ++ before), after. rewrite <- app_assoc. split; [by right|done].
Qed.

Lemma batch_poison worker rows calls os key p : batch_trace H worker PoisonRetry rows calls (Ok os) →
  (key, p) ∈ rows → payload_ok H p = true.
Proof.
  remember (Ok os) as r eqn:Er. intros Hb. revert os Er.
  induction Hb as [|row rows calls e _|row rows calls calls' o1 r Hrow _ IH]; intros os Er; simplify_eq; [set_solver|].
  destruct r as [os'|]; [|done]. intros [<-|Hin]%elem_of_cons; [|eauto].
  inversion Hrow; subst; done.
Qed.
End Guarantees.

(** C28: one worker pass over any store and any broker.  It claims once, with the worker,
    limit and lease it was given; if that fails, it does nothing else.  Otherwise it handles
    the claimed rows in order, and the calls it makes are the concatenation of one segment per
    row ([row_trace]):
    - a row whose payload hashes to its stored digest is handed to the broker once; then, under
      its own key and worker, it is marked delivered if the broker accepted it and released
      with the broker's message if not;
    - any other row is never handed to the broker: it is quarantined or released, under its own
      key and worker, as the policy says.
    A pass that returns has ended every claimed row this way, and its three counters
    (saturating at the [u64] maximum) count the rows delivered, retried and quarantined.  A
    pass that fails stopped at one row, with the error of that row's store call or, under the
    retry policy, the report that its payload is corrupt; under the quarantine policy corrupt
    rows do not fail the pass. *)
Theorem dispatch_safe (H : string → string) {W} (store : OutboxStore W) (publisher : OutboxPublisher W)
    (worker : string) (limit : nat) (lease : Z) (policy : PoisonPolicy) (w w' : W)
    (r : result DispatchReport OutboxError) (log : list ob_call) :
  dispatch_once_with_policy H (logged_store store) (logged_publisher publisher) worker limit lease policy (w, [])
    = (r, (w', log)) →
  (∃ e, r = Err e ∧ log = [CClaim worker limit lease (Err e)]) ∨
  ∃ rows handled segments os tail,
    log = CClaim worker limit lease (Ok rows) :: concat segments ++ tail ∧
    Forall3 (fun row segment o => row_trace H worker policy row segment (Ok o)) handled segments os ∧
    match r with
    | Ok report => rows = handled ∧ tail = [] ∧
        ∀ o, counter o report = Z.min (count_if (fun o' => bool_decide (o' = o)) os) U64_MAX
    | Err e => ∃ row rest, rows = handled ++ row :: rest ∧ row_trace H worker policy row tail (Err e)
    end ∧
    (∀ key p answer, CPublish key p answer ∈ log → (key, p) ∈ rows ∧ payload_ok H p = true) ∧
    (policy = PoisonRetry → is_ok r = true → ∀ key p, (key, p) ∈ rows → payload_ok H p = true).
Proof.
  intros [(e & -> & ->)|(rows & calls & o & Hb & -> & ->)]%dispatch_trace; [eauto|right]. exists rows.
  destruct (batch_calls _ _ _ _ _ _ Hb) as [H1 _]. pose proof (batch_poison H worker rows calls) as H2.
  destruct (batch_split _ _ _ _ _ _ Hb) as (handled & segments & os & Hf & Ho). exists handled, segments, os.
  assert (H3 : ∀ key p answer, CPublish key p answer ∈ CClaim worker limit lease (Ok rows) :: calls →
    (key, p) ∈ rows ∧ payload_ok H p = true) by (intros key p answer [|?]%elem_of_cons; [done|eauto]).
  destruct o as [os'|e]; cbn [app].
  - destruct Ho as (-> & <- & ->). exists []. rewrite app_nil_r. split_and!; try done.
    + intros o. by rewrite report_counter; destruct o.
    + intros -> _ key p. by apply (H2 os).
  - destruct Ho as (row & rest & tail & -> & -> & Hrow). exists tail. split_and!; try done. by exists row, rest.
Qed.

(** ** The bounded drivers *)

Definition is_claim (c : ob_call) : bool := match c with CClaim _ _ _ _ => true | _ => false end.
Definition is_sleep (c : ob_call) : bool := match c with CSleep _ => true | _ => false end.

Section Drivers.
Context (H : string → string) {W : Type} (store : OutboxStore W) (publisher : OutboxPublisher W).
Notation lstore := (logged_store store).
Notation lpublisher := (logged_publisher publisher).

(** Allowed calls: broker calls carry intact payloads, and sleeps come from [sleeps]. *)
Definition call_ok (sleeps : Duration → Prop) (c : ob_call) : Prop :=
  match c with
  | CPublish _ p _ => payload_ok H p = true
  | CSleep d => sleeps d
  | _ => True
  end.

Lemma batch_quiet worker policy rows calls r sleeps : batch_trace H worker policy rows calls r →
  count_if is_claim calls = 0 ∧ count_if is_sleep calls = 0 ∧ Forall (call_ok sleeps) calls.
Proof.
  assert (Hrow : ∀ row cs o, row_trace H worker policy row cs o →
    count_if is_claim cs = 0 ∧ count_if is_sleep cs = 0 ∧ Forall (call_ok sleeps) cs)
    by (inversion 1; subst; split_and!; repeat constructor; done).
  induction 1 as [|row rows calls e Ht|row rows calls calls' o r Ht _ (IH1 & IH2 & IH3)]; [done|by eapply Hrow|].
  apply Hrow in Ht as (H1 & H2 & H3). rewrite !count_if_app, Forall_app. split_and!; [lia|lia|done|done].
Qed.

(** A pass makes exactly one claim and never sleeps. *)
Lemma dispatch_quiet worker limit lease policy w log r w' log' sleeps :
  dispatch_once_with_policy H lstore lpublisher worker limit lease policy (w, log) = (r, (w', log')) →
  ∃ calls, log' = log ++ calls ∧ count_if is_claim calls = 1 ∧ count_if is_sleep calls = 0 ∧
    Forall (call_ok sleeps) calls.
Proof.
  intros [(e & -> & ->)|(rows & calls & o & Hb & -> & ->)]%dispatch_trace; eexists; (split; [done|]).
  - split_and!; [done|done|by repeat constructor].
  - destruct (batch_quiet _ _ _ _ _ sleeps Hb) as (H1 & H2 & H3). rewrite !count_if_cons; cbn.
    split_and!; [lia|lia|by constructor].
Qed.

(** The delay after [k] consecutive transient errors. *)
Definition backoff (config : OutboxWorkerConfig) (k : nat) : Duration :=
  Z.min (wc_error_backoff config * 2 ^ Z.of_nat k) (wc_max_error_backoff config).
Definition config_durations (config : OutboxWorkerConfig) : Prop :=
  0 ≤ wc_error_backoff config ≤ wc_max_error_backoff config ∧ wc_max_error_backoff config ≤ DURATION_MAX.
Definition worker_sleep (config : OutboxWorkerConfig) (d : Duration) : Prop :=
  d = wc_idle_backoff config ∨ ∃ k, d = backoff config k.

Lemma backoff_zero config : config_durations config → backoff config 0 = wc_error_backoff config.
Proof. intros [H0 H1]. unfold backoff. cbn. lia. Qed.

Lemma backoff_next config k : config_durations config →
  Z.min (duration_saturating_mul (backoff config k) 2) (wc_max_error_backoff config) = backoff config (S k).
Proof.
  intros [H0 H1]. unfold backoff, duration_saturating_mul. rewrite Nat2Z.inj_succ, Z.pow_succ_r by lia.
  assert (0 ≤ wc_error_backoff config * 2 ^ Z.of_nat k) by (apply Z.mul_nonneg_nonneg; lia).
  replace (wc_error_backoff config * (2 * 2 ^ Z.of_nat k)) with (2 * (wc_error_backoff config * 2 ^ Z.of_nat k)) by ring.
  lia.
Qed.

Context (clock : W → Z * W) (sleep : Duration → W → unit * W) (should_stop : W → bool * W).
Notation lworker_ticks := (worker_ticks H lstore lpublisher (unlogged clock) (logged_sleep sleep) (unlogged should_stop)).

Lemma worker_ticks_log worker config n : config_durations config → ∀ report k w log r w' log',
  0 ≤ w_ticks report ≤ U64_MAX →
  lworker_ticks worker config n report (backoff config k) (w, log) = (r, (w', log')) →
  ∃ calls, log' = log ++ calls ∧ count_if is_claim calls ≤ Z.of_nat n ∧
    count_if is_sleep calls ≤ count_if is_claim calls ∧ Forall (call_ok (worker_sleep config)) calls ∧
    (∀ e, r = Err e → outbox_is_retryable e = false) ∧
    (∀ rep, r = Ok rep → w_ticks rep = Z.min (w_ticks report + count_if is_claim calls) U64_MAX).
Proof.
  intros Hd. induction n as [|n IH]; intros report k w log r w' log' Hr; cbn [worker_ticks].
  - intros [= <- <- <-]. exists []. rewrite app_nil_r. split_and!; try done. intros rep [= <-]. unfold count_if; cbn. lia.
  - unfold xbind at 1, xeffect at 1. cbn [unlogged]. destruct (should_stop w) as [[|] w1].
    { intros [= <- <- <-]. exists []. rewrite app_nil_r. split_and!; try done. intros rep [= <-]. unfold count_if; cbn. lia. }
    unfold xbind at 1, xeffect at 1. cbn [unlogged]. destruct (clock w1) as [t w2].
    unfold xbind at 1, xcatch. destruct (dispatch_once_with_policy _ _ _ _ _ _ _ _) as [outcome [w3 log3]] eqn:E.
    apply (dispatch_quiet _ _ _ _ _ _ _ _ _ (worker_sleep config)) in E as (calls & -> & Hc & Hs & Hok).
    assert (Ht : 0 ≤ w_ticks (tick_started report) ≤ U64_MAX) by (cbn; unfold saturating_add_u64; lia).
    (* the rest of the run, after [extra] calls of this tick *)
    assert (Hnext : ∀ rep' k' w4 extra, w_ticks rep' = w_ticks (tick_started report) →
      count_if is_claim extra = 0 → count_if is_sleep extra ≤ 1 → Forall (call_ok (worker_sleep config)) extra →
      lworker_ticks worker config n rep' (backoff config k') (w4, (log ++ calls) ++ extra) = (r, (w', log')) →
      ∃ calls, log' = log ++ calls ∧ count_if is_claim calls ≤ Z.of_nat (S n) ∧
        count_if is_sleep calls ≤ count_if is_claim calls ∧ Forall (call_ok (worker_sleep config)) calls ∧
        (∀ e, r = Err e → outbox_is_retryable e = false) ∧
        (∀ rep, r = Ok rep → w_ticks rep = Z.min (w_ticks report + count_if is_claim calls) U64_MAX)).
    { intros rep' k' w4 extra Hrep Hce Hse Hoe Hrun. rewrite <- Hrep in Ht.
      apply IH in Hrun as (calls' & -> & I1 & I2 & I3 & I4 & I5); [|done].
      exists (calls ++ extra ++ calls'). rewrite !count_if_app, !Forall_app, <- !app_assoc.
      split_and!; try done; try lia. intros rep ->. pose proof (count_if_nonneg is_claim calls').
      rewrite (I5 rep eq_refl), Hrep; cbn. unfold saturating_add_u64. lia. }
    destruct outcome as [tick|e].
    + rewrite <- (backoff_zero config) by done. destruct (idle tick).
      * unfold xbind at 1, xeffect at 1, logged_sleep at 1. cbn [logged]. destruct (sleep _ w3) as [[] w4].
        apply (Hnext _ 0%nat); try done. repeat constructor.
      * unfold xbind at 1, xret. rewrite <- (app_nil_r (log ++ calls)).
        by apply (Hnext _ 0%nat).
    + destruct (outbox_is_retryable e) eqn:Er.
      * unfold xbind at 1, xeffect at 1, logged_sleep at 1. cbn [logged]. destruct (sleep _ w3) as [[] w4].
        rewrite backoff_next by done. apply (Hnext _ (S k)); try done. constructor; [right; by exists k|constructor].
      * intros [= <- <- <-]. exists calls. split_and!; try done; try lia. by intros e' [= <-].
Qed.

(** The drain: at most [max_passes] claims. *)
Lemma drain_log worker limit lease n : ∀ total w log r w' log',
  drain_passes H lstore lpublisher worker limit lease n total (w, log) = (r, (w', log')) →
  ∃ calls, log' = log ++ calls ∧ count_if is_claim calls ≤ Z.of_nat n ∧ Forall (call_ok (fun _ => False)) calls.
Proof.
  induction n as [|n IH]; intros total w log r w' log'; cbn [drain_passes].
  { intros [= _ _ <-]. exists []. by rewrite app_nil_r. }
  intros [(e & E & ->)|(report & [w1 log1] & E & Hk)]%xbind_inv;
    apply (dispatch_quiet _ _ _ _ _ _ _ _ _ (fun _ => False)) in E as (calls & -> & Hc & _ & Hok).
  - exists calls. split_and!; [done|lia|done].
  - destruct (_ && _); [injection Hk as <- <- <-; exists calls; split_and!; [done|lia|done]|].
    apply IH in Hk as (calls' & -> & Hc' & Hok'). exists (calls ++ calls').
    rewrite count_if_app, Forall_app, <- app_assoc. split_and!; [done|lia|done|done].
Qed.
End Drivers.

(** The supervisor is bounded and fails closed.  A worker with an invalid configuration
    does nothing.  Otherwise it makes at most [max_ticks] claims; it sleeps at most once per
    tick, for the idle delay or, after [k] consecutive transient errors, for the base delay
    doubled [k] times, capped at the configured maximum; it never hands a payload to the broker
    whose digest does not match; it reports the ticks it made; and the only errors it returns
    are the permanent ones. *)
Theorem worker_bounded (H : string → string) {W} (store : OutboxStore W) (publisher : OutboxPublisher W)
    (clock : W → Z * W) (sleep : Duration → W → unit * W) (should_stop : W → bool * W)
    (worker : string) (config : OutboxWorkerConfig) (w w' : W) (r : result WorkerReport OutboxError)
    (log : list ob_call) :
  0 ≤ wc_error_backoff config → wc_max_error_backoff config ≤ DURATION_MAX →
  run_outbox_worker H (logged_store store) (logged_publisher publisher) (unlogged clock)
    (logged_sleep sleep) (unlogged should_stop) worker config (w, []) = (r, (w', log)) →
  if worker_config_invalid worker config then
    w' = w ∧ log = [] ∧ r = Err (ObUnavailable "worker id and bounds must be non-empty")
  else
    count_if is_claim log ≤ Z.of_nat (wc_max_ticks config) ∧
    count_if is_sleep log ≤ count_if is_claim log ∧
    (∀ d, CSleep d ∈ log → d = wc_idle_backoff config ∨
       ∃ k, d = Z.min (wc_error_backoff config * 2 ^ Z.of_nat k) (wc_max_error_backoff config)) ∧
    (∀ key p answer, CPublish key p answer ∈ log → payload_ok H p = true) ∧
    (∀ e, r = Err e → outbox_is_retryable e = false) ∧
    (∀ rep, r = Ok rep → w_ticks rep = Z.min (count_if is_claim log) U64_MAX).
Proof.
  intros H0 H1. unfold run_outbox_worker. destruct (worker_config_invalid worker config) eqn:Ec.
  { intros [= <- <- <-]. done. }
  unfold worker_config_invalid in Ec. rewrite !orb_false_iff, Z.ltb_ge in Ec.
  assert (Hd : config_durations config) by (split; [lia|done]).
  intros E. rewrite <- (backoff_zero config) in E by done.
  apply worker_ticks_log in E as (calls & -> & C1 & C2 & C3 & C4 & C5); [|done|done]. cbn [app].
  rewrite Forall_forall in C3. split; [done|]. split; [done|]. split_and!; [..|done|].
  - intros d Hin. apply C3 in Hin. exact Hin.
  - intros key p answer Hin. apply C3 in Hin. exact Hin.
  - intros rep Hr. rewrite (C5 rep Hr). done.
Qed.

(** ** Consumers *)

(** What a deduplication store promises: a claim answers [AlreadyApplied] exactly for the keys
    marked applied, marking succeeds only by making it so, and nothing unmarks a key. *)
Class DedupLaws {W} (dedup : ConsumerDedupStore W) (applied : W → string → Prop) := {
  claim_reads w k lease c w' : claim_delivery dedup k lease w = (Ok c, w') →
    (c = AlreadyApplied ↔ applied w k);
  claim_keeps w k lease r w' k' : claim_delivery dedup k lease w = (r, w') → applied w k' → applied w' k';
  mark_marks w k attempt w' : mark_delivery_applied dedup k attempt w = (Ok tt, w') → applied w' k;
  mark_keeps w k attempt r w' k' : mark_delivery_applied dedup k attempt w = (r, w') → applied w k' → applied w' k';
  release_keeps w k attempt msg r w' k' :
    release_delivery dedup k attempt msg w = (r, w') → applied w k' → applied w' k';
}.

(** Callback runs: key, payload and answer. *)
Notation ApplyRun := (string * OutboxPayload * result unit string)%type.

Section Consumer.
Context {W : Type} (dedup : ConsumerDedupStore W) (applied : W → string → Prop) `{!DedupLaws dedup applied}.
Context (apply_delivery : string → OutboxPayload → W → result unit string * W) (clock : W → Z * W).
Context (apply_keeps : ∀ k p w r w' k', apply_delivery k p w = (r, w') → applied w k' → applied w' k').
Context (clock_keeps : ∀ w t w' k, clock w = (t, w') → applied w k ↔ applied w' k).

(** The same parts over a world that records the callback runs. *)
Definition carry {A} (f : W → A * W) : W * list ApplyRun → A * (W * list ApplyRun) :=
  fun '(w, runs) => let (a, w') := f w in (a, (w', runs)).
Definition recorded_dedup : ConsumerDedupStore (W * list ApplyRun) :=
  mkDedup _ (fun k lease => carry (claim_delivery dedup k lease))
    (fun k attempt => carry (mark_delivery_applied dedup k attempt))
    (fun k attempt msg => carry (release_delivery dedup k attempt msg)).
Definition recorded_apply (k : string) (p : OutboxPayload) : W * list ApplyRun → result unit string * (W * list ApplyRun) :=
  fun '(w, runs) => let (a, w') := apply_delivery k p w in (a, (w', runs ++ [(k, p, a)])).

Notation consume := (consume_once recorded_dedup recorded_apply (carry clock)).

Fixpoint consume_all (calls : list (string * OutboxPayload * Z)) (s : W * list ApplyRun)
    : list (result bool OutboxError) * (W * list ApplyRun) :=
  match calls with
  | [] => ([], s)
  | (k, p, lease) :: calls' =>
      let (r, s1) := consume k p lease s in
      let (rs, s2) := consume_all calls' s1 in (r :: rs, s2)
  end.

(** Every outcome of one delivery. *)
Lemma consume_outcome k p lease w runs r w' runs' : consume k p lease (w, runs) = (r, (w', runs')) →
  (∀ k', applied w k' → applied w' k') ∧
  ((r = Ok true ∧ runs' = runs ++ [(k, p, Ok tt)] ∧ applied w' k ∧ ¬ applied w k) ∨
   (r = Ok false ∧ runs' = runs ∧ applied w k) ∨
   (∃ e, r = Err e ∧ (runs' = runs ∨ (∃ a, runs' = runs ++ [(k, p, a)] ∧ ¬ applied w k)))).
Proof using All.
  unfold consume_once. destruct (str_is_empty k); [intros [= <- <- <-]; naive_solver|].
  unfold xbind at 1, xeffect at 1. cbn [carry]. destruct (clock w) as [t w1] eqn:Et.
  assert (K1 : ∀ k', applied w k' ↔ applied w1 k') by eauto.
  destruct (lease <=? t); [intros [= <- <- <-]; naive_solver|].
  unfold xbind at 1. cbn [claim_delivery recorded_dedup carry].
  destruct (claim_delivery dedup k lease w1) as [rc w2] eqn:Ec.
  assert (K2 : ∀ k', applied w k' → applied w2 k') by (intros ? ?%K1; by eapply claim_keeps).
  destruct rc as [c|e]; [|intros [= <- <- <-]; naive_solver].
  pose proof (claim_reads _ _ _ _ _ Ec) as Hc. rewrite <- K1 in Hc.
  destruct c as [attempt| |attempt expires]; [|intros [= <- <- <-]; naive_solver|intros [= <- <- <-]; naive_solver].
  assert (Hn : ¬ applied w k) by (intros Ha; by apply Hc in Ha).
  unfold xbind at 1, xeffect at 1. cbn [recorded_apply]. destruct (apply_delivery k p w2) as [a w3] eqn:Ea.
  assert (K3 : ∀ k', applied w k' → applied w3 k') by eauto.
  destruct a as [[]|m]; unfold xbind at 1; cbn [mark_delivery_applied release_delivery recorded_dedup carry].
  - destruct (mark_delivery_applied dedup k attempt w3) as [rm w4] eqn:Em.
    assert (K4 : ∀ k', applied w k' → applied w4 k') by (intros; eapply mark_keeps; eauto).
    destruct rm as [[]|e]; unfold xret, xlift; intros [= <- <- <-]; [|naive_solver].
    apply mark_marks in Em. naive_solver.
  - destruct (release_delivery dedup k attempt m w3) as [rm w4] eqn:Em.
    assert (K4 : ∀ k', applied w k' → applied w4 k') by (intros; eapply release_keeps; eauto).
    destruct rm as [[]|e]; unfold xret, xlift; intros [= <- <- <-]; naive_solver.
Qed.

(** Once applied, no later delivery of the key runs the callback. *)
Lemma consume_all_applied k calls : ∀ w runs rs w' runs', applied w k →
  consume_all calls (w, runs) = (rs, (w', runs')) →
  ∃ extra, runs' = runs ++ extra ∧ Forall (fun '(k', _, _) => k' ≠ k) extra ∧
    Forall2 (fun '(k', _, _) r => k' = k → r ≠ Ok true) calls rs.
Proof using All.
  induction calls as [|[[k1 p1] lease] calls IH]; intros w runs rs w' runs' Ha; cbn [consume_all].
  { intros [= <- <- <-]. exists []. by rewrite app_nil_r. }
  destruct (consume k1 p1 lease (w, runs)) as [r1 [w1 runs1]] eqn:E1.
  destruct (consume_all calls (w1, runs1)) as [rs1 [w2 runs2]] eqn:E2. intros [= <- <- <-].
  apply consume_outcome in E1 as [K1 Hr]. apply IH in E2 as (extra & -> & He & Hrs); [|auto].
  assert (∃ e1, runs1 = runs ++ e1 ∧ Forall (fun '(k', _, _) => k' ≠ k) e1 ∧ (k1 = k → r1 ≠ Ok true)) as (e1 & -> & He1 & Hr1).
  { destruct Hr as [(-> & -> & _ & Hn)|[(-> & -> & _)|(e & -> & [->|(a & -> & Hn)])]].
    - eexists; split; [done|]. split; [|by intros ->]. repeat constructor. by intros ->.
    - exists []. by rewrite app_nil_r.
    - exists []. by rewrite app_nil_r.
    - eexists; split; [done|]. split; [|done]. repeat constructor. by intros ->. }
  exists (e1 ++ extra). rewrite <- app_assoc, Forall_app. split_and!; [done..|by constructor].
Qed.

(** At-most-once application.  With a deduplication store that keeps its promises, a
    delivery reported as applied ran the callback once, successfully, and in whatever sequence
    of deliveries follows, the callback is never run for that key again and no delivery of the
    key is reported as applied again. *)
Theorem consume_at_most_once (k : string) (p : OutboxPayload) (lease : Z) (w w1 w2 : W)
    (runs runs1 runs2 : list ApplyRun) (later : list (string * OutboxPayload * Z))
    (rs : list (result bool OutboxError)) :
  consume k p lease (w, runs) = (Ok true, (w1, runs1)) →
  consume_all later (w1, runs1) = (rs, (w2, runs2)) →
  runs1 = runs ++ [(k, p, Ok tt)] ∧
  ∃ extra, runs2 = runs1 ++ extra ∧ Forall (fun '(k', _, _) => k' ≠ k) extra ∧
    Forall2 (fun '(k', _, _) r => k' = k → r ≠ Ok true) later rs.
Proof using All.
  intros [_ [(_ & -> & Ha & _)|[(? & _)|(? & ? & _)]]]%consume_outcome Hall; [|done..].
  split; [done|]. by eapply consume_all_applied.
Qed.
End Consumer.

(** ** A lawful deduplication store and sample deliveries *)

Module DeliverySamples.
Definition dedup : ConsumerDedupStore (gset string) :=
  mkDedup _ (fun k _ s => (Ok (if bool_decide (k ∈ s) then AlreadyApplied else DeliveryNew "attempt"), s))
    (fun k _ s => (Ok tt, {[k]} ∪ s)) (fun _ _ _ s => (Ok tt, s)).

#[export] Instance dedup_laws : DedupLaws dedup (fun s k => k ∈ s).
Proof.
  split; cbn; try (intros; simplify_eq; set_solver).
  intros w k lease c w' [= <- <-]. case_bool_decide; naive_solver.
Qed.

Definition payload : OutboxPayload := Opaque "acme" "cmt_1" "hello" "hello".
Definition broken : OutboxPayload := Opaque "acme" "cmt_2" "other" "hello".

(** A store that hands out fixed rows, and a broker that accepts one key only. *)
Definition store : OutboxStore nat :=
  mkOutboxStore nat (fun _ _ _ n => (Ok [("k1", payload); ("k2", payload); ("k3", broken)], n))
    (fun _ _ n => (Ok tt, S n)) (fun _ _ _ n => (Ok tt, n)) (fun _ _ _ n => (Ok tt, n)) (fun _ n => Ok (3 - Z.of_nat n)).
Definition publisher : OutboxPublisher nat :=
  fun k _ n => (if String.eqb k "k1" then Ok tt else Err "down", n).
Definition config : OutboxWorkerConfig := mkWorkerConfig 8 30 3 10 4 100 PoisonQuarantine.
End DeliverySamples.

Lemma consume_at_most_once_witness : ∃ extra,
  [("k1", DeliverySamples.payload, Ok tt)] = [("k1", DeliverySamples.payload, Ok tt : result unit string)] ++ extra ∧
  Forall (fun '(k', _, _) => k' ≠ "k1") extra ∧
  Forall2 (fun '(k', _, _) r => k' = "k1" → r ≠ Ok true) [("k1", DeliverySamples.payload, 9)] [Ok false : result bool OutboxError].
Proof.
  refine (proj2 (consume_at_most_once DeliverySamples.dedup (fun s k => k ∈ s) (fun _ _ s => (Ok tt, s))
    (fun s => (0, s)) _ _ "k1" DeliverySamples.payload 5 ∅ {["k1"]} {["k1"]} [] _ _ _ _ _ _)).
  - apply DeliverySamples.dedup_laws.
  - intros k p s r s' k' [= _ ->]. tauto.
  - intros s t s' k [= _ ->]. tauto.
  - vm_compute. reflexivity.
  - vm_compute. reflexivity.
Defined.

Lemma dispatch_safe_witness : ∃ report log os,
  dispatch_once_with_policy (fun s => s) (logged_store DeliverySamples.store) (logged_publisher DeliverySamples.publisher)
    "worker" 8 100 PoisonQuarantine (0%nat, []) = (Ok report, (1%nat, log)) ∧ length os = 3%nat ∧
  ∀ o, counter o report = Z.min (count_if (fun o' => bool_decide (o' = o)) os) U64_MAX.
Proof.
  eexists _, _.
  destruct (dispatch_safe (fun s => s) DeliverySamples.store DeliverySamples.publisher "worker" 8 100 PoisonQuarantine
    0%nat 1%nat _ _ eq_refl) as [(e & ? & _)|(rows & handled & segments & os & tail & Hl & Hf & (Hr & _ & Hc) & _)]; [done|].
  exists os. split; [vm_compute; reflexivity|]. split; [|exact Hc].
  apply Forall3_length_lr in Hf. rewrite <- Hf, <- Hr. injection Hl as <- _. reflexivity.
Defined.

(** A corrupt row under the quarantine policy is counted and the pass succeeds. *)
Example quarantined_pass_succeeds :
  is_ok (dispatch_once_with_policy (fun s => s) DeliverySamples.store DeliverySamples.publisher
    "worker" 8 100 PoisonQuarantine 0%nat).1 = true ∧
  payload_ok (fun s => s) DeliverySamples.broken = false.
Proof. split; vm_compute; reflexivity. Qed.

Lemma worker_bounded_witness : ∃ r w' log,
  run_outbox_worker (fun s => s) (logged_store DeliverySamples.store) (logged_publisher DeliverySamples.publisher)
    (unlogged (fun n => (0, n))) (logged_sleep (fun _ n => (tt, n))) (unlogged (fun n => (false, n)))
    "worker" DeliverySamples.config (0%nat, []) = (r, (w', log)) ∧ count_if is_claim log ≤ 3.
Proof.
  eexists _, _, _. split; [vm_compute; reflexivity|].
  eapply (worker_bounded (fun s => s) DeliverySamples.store DeliverySamples.publisher (fun n => (0, n)) (fun _ n => (tt, n))
    (fun n => (false, n)) "worker" DeliverySamples.config 0%nat); [done|done|vm_compute; reflexivity].
Defined.
