(* ===== verification/Quota.v ===== *)
(** * Distributed quotas

    [statechronicle-ports/src/quota.rs]: the checks in front of a shared quota provider, which
    is a parameter.  The theorem states when the provider is reached and with what, and that a
    provider backed by the local limiter behaves as the local limiter. *)

From Stdlib Require Import ZArith Lia String Sorted.
From stdpp Require Import prelude strings gmap.
From S2P Require Import Prelude Effect Amount RateLimit.

Inductive QuotaError := QUnavailable (msg : string) | QInvalid (msg : string) | QUnsupported (msg : string).

Definition quota_error_to_string (e : QuotaError) : string :=
  match e with
  | QUnavailable m => "distributed quota unavailable: " +:+ m
  | QInvalid m => "distributed quota request invalid: " +:+ m
  | QUnsupported m => "distributed quota operation unsupported: " +:+ m
  end.

Definition quota_is_retryable (e : QuotaError) : bool :=
  match e with QUnavailable _ => true | _ => false end.

(** The provider: one key, and several keys charged atomically. *)
Record DistributedQuota (W : Type) := mkQuota {
  q_try_acquire : string → Z → Z → W → result RateLimitDecision QuotaError * W;
  q_try_acquire_many : list string → Z → Z → W → result RateLimitDecision QuotaError * W;
}.
Arguments q_try_acquire {W}. Arguments q_try_acquire_many {W}.

(** The trait's default for providers without an atomic multi-key operation. *)
Definition default_try_acquire_many {W} (_ : list string) (_ _ : Z) : Eff QuotaError W RateLimitDecision :=
  xlift (Err (QUnsupported "atomic multi-dimension quota is not supported")).

Definition validate_request (key : string) (cost now_unix_ms : Z) : result unit QuotaError :=
  if str_is_empty key then Err (QInvalid "quota key must not be empty")
  else if MAX_QUOTA_KEY_BYTES <? slen key then
    Err (QInvalid ("quota key must be at most " +:+ u128_to_string MAX_QUOTA_KEY_BYTES +:+ " bytes"))
  else if cost =? 0 then Err (QInvalid "quota cost must be positive")
  else if now_unix_ms <? 0 then Err (QInvalid "quota timestamp must not be negative")
  else Ok tt.

Section Validated.
Context {W : Type} (provider : DistributedQuota W).

Definition try_acquire_validated (key : string) (cost now_unix_ms : Z) : Eff QuotaError W RateLimitDecision :=
  xlift (validate_request key cost now_unix_ms) ;! q_try_acquire provider key cost now_unix_ms.

Definition try_acquire_many_validated (keys : list string) (cost now_unix_ms : Z)
    : Eff QuotaError W RateLimitDecision :=
  match keys with
  | [] => xlift (Err (QInvalid "quota dimensions must not be empty"))
  | _ =>
      xlift (rforeach (fun key => validate_request key cost now_unix_ms) keys) ;!
      q_try_acquire_many provider (bset_of_list keys) cost now_unix_ms
  end.
End Validated.

(** ** When the provider is reached *)

(** A well-formed request: dimensions present, non-empty and short enough, a positive cost and
    a time that is not negative. *)
Definition request_ok (keys : list string) (cost now : Z) : Prop :=
  keys ≠ [] ∧ Forall (fun key => key_rejected key = false) keys ∧ cost ≠ 0 ∧ 0 ≤ now.

Lemma validate_request_Ok key cost now :
  validate_request key cost now = Ok tt ↔ key_rejected key = false ∧ cost ≠ 0 ∧ 0 ≤ now.
Proof.
  unfold validate_request, key_rejected, slen.
  destruct (str_is_empty key); cbn; [naive_solver|].
  destruct (_ <? _) eqn:E1; cbn; [naive_solver|].
  destruct (Z.eqb_spec cost 0); [naive_solver|]. destruct (Z.ltb_spec now 0); [split; [done|lia]|naive_solver].
Qed.

Lemma validate_request_Err key cost now e : validate_request key cost now = Err e → ∃ m, e = QInvalid m.
Proof. unfold validate_request. repeat case_match; naive_solver. Qed.

Lemma validate_all_Err keys cost now e :
  rforeach (fun key => validate_request key cost now) keys = Err e → ∃ m, e = QInvalid m.
Proof.
  induction keys as [|k keys IH]; cbn; [done|].
  destruct (validate_request k cost now) as [[]|e'] eqn:E; cbn; [auto|]. intros [= <-]. by eapply validate_request_Err.
Qed.

Lemma request_ok_iff keys cost now : request_ok keys cost now ↔
  keys ≠ [] ∧ rforeach (fun key => validate_request key cost now) keys = Ok tt.
Proof.
  unfold request_ok. rewrite rforeach_Ok, !Forall_forall. setoid_rewrite validate_request_Ok.
  split; [naive_solver|]. intros [Hne Hf]. destruct keys as [|k keys]; [done|].
  destruct (Hf k) as (_ & ? & ?); [by left|]. naive_solver.
Qed.

(** The local limiter only looks at the set of keys. *)
Lemma try_acquire_many_set l keys now n :
  try_acquire_many l (bset_of_list keys) now n = try_acquire_many l keys now n.
Proof.
  assert (Hin : ∀ k, k ∈ bset_of_list keys ↔ k ∈ keys) by (intros; apply bset_of_list_elem).
  unfold try_acquire_many. rewrite (bset_of_list_ext (bset_of_list keys) keys Hin).
  assert (existsb key_rejected (bset_of_list keys) = existsb key_rejected keys) as ->.
  { apply eq_true_iff_eq. rewrite !existsb_exists. setoid_rewrite <- list_elem_of_In. by setoid_rewrite Hin. }
  assert (match bset_of_list keys with [] => true | _ => false end = match keys with [] => true | _ => false end) as ->; [|done].
  destruct keys as [|k keys]; [done|]. destruct (bset_of_list (k :: keys)) eqn:E; [|done].
  exfalso. apply (not_elem_of_nil k), Hin. by left.
Qed.

(** The local limiter as a provider. *)
Definition local_quota : DistributedQuota KeyedRateLimiter :=
  mkQuota _ (fun key cost now l => let (d, l') := limiter_acquire l key now cost in (Ok d, l'))
    (fun keys cost now l => let (d, l') := try_acquire_many l keys now cost in (Ok d, l')).

(** C31: the guard in front of a shared provider.  A well-formed request reaches the provider
    exactly once, with its distinct keys in ascending order, so the answer does not depend on
    the order or repetition of the caller's keys; any other request is refused with an error
    that is not retryable, before the provider is reached.  Well formed ([request_ok]) means at
    least one key, each non-empty and within the length limit, a positive cost and a timestamp
    that is not negative: zero is let through ([zero_timestamp_accepted]), which is what the
    function's error section says, while its summary speaks of non-positive timestamps.  With
    the local limiter as provider, a guarded charge is the local limiter's own charge of the
    caller's keys. *)
Theorem quota_guard {W} (provider : DistributedQuota W) (keys : list string) (cost now : Z) (w : W) :
  (request_ok keys cost now →
     try_acquire_many_validated provider keys cost now w
       = q_try_acquire_many provider (bset_of_list keys) cost now w ∧
     StronglySorted str_lt (bset_of_list keys) ∧ (∀ k, k ∈ bset_of_list keys ↔ k ∈ keys) ∧
     (∀ keys', (∀ k, k ∈ keys' ↔ k ∈ keys) →
        try_acquire_many_validated provider keys' cost now w = try_acquire_many_validated provider keys cost now w) ∧
     (∀ l, try_acquire_many_validated local_quota keys cost now l
           = let (d, l') := try_acquire_many l keys now cost in (Ok d, l'))) ∧
  (¬ request_ok keys cost now →
     ∃ e, try_acquire_many_validated provider keys cost now w = (Err e, w) ∧ quota_is_retryable e = false).
Proof.
  assert (Hrun : ∀ V (p : DistributedQuota V) ks v, request_ok ks cost now →
    try_acquire_many_validated p ks cost now v = q_try_acquire_many p (bset_of_list ks) cost now v).
  { intros V p ks v [Hne Hr]%request_ok_iff. unfold try_acquire_many_validated. destruct ks as [|k ks]; [done|].
    unfold xbind, xlift. by rewrite Hr. }
  split.
  - intros Hok. split_and!; [auto|apply bset_of_list_sorted|intros; apply bset_of_list_elem|..].
    + intros keys' Hsame. rewrite !Hrun, (bset_of_list_ext keys' keys Hsame); [done|done|].
      destruct Hok as (Hne & Hf & Hc & Ht). rewrite Forall_forall in Hf. split_and!; [|apply Forall_forall|done|done].
      * intros ->. destruct keys as [|k keys]; [done|]. apply (not_elem_of_nil k), Hsame. by left.
      * intros k Hk. apply Hf. by apply Hsame.
    + intros l. rewrite Hrun by done. cbn. by rewrite try_acquire_many_set.
  - intros Hno. unfold try_acquire_many_validated. destruct keys as [|k keys]; [by eexists|].
    unfold xbind, xlift. destruct (rforeach _ (k :: keys)) as [[]|e] eqn:E.
    + exfalso. apply Hno, request_ok_iff. done.
    + apply validate_all_Err in E as [m ->]. by eexists.
Qed.

Lemma quota_guard_witness :
  (∀ l, try_acquire_many_validated local_quota ["b"; "a"; "b"] 1 7 l
        = let (d, l') := try_acquire_many l ["b"; "a"; "b"] 7 1 in (Ok d, l')) ∧
  (∃ e, try_acquire_many_validated local_quota ["a"; EmptyString] 1 7 (limiter_new 5 1 9) = (Err e, limiter_new 5 1 9) ∧
        quota_is_retryable e = false) ∧
  ∃ e, try_acquire_many_validated local_quota ["a"] 1 (-1) (limiter_new 5 1 9) = (Err e, limiter_new 5 1 9) ∧
       quota_is_retryable e = false.
Proof.
  split_and!.
  - apply (quota_guard local_quota ["b"; "a"; "b"] 1 7 (limiter_new 5 1 9)).
    split_and!; [done|repeat constructor|done|done].
  - apply (quota_guard local_quota ["a"; EmptyString] 1 7 (limiter_new 5 1 9)). intros (_ & Hf & _).
    apply Forall_cons in Hf as [_ Hf]. apply Forall_cons in Hf as [Hf _]. discriminate Hf.
  - apply (quota_guard local_quota ["a"] 1 (-1) (limiter_new 5 1 9)). intros (_ & _ & _ & Ht). by destruct Ht.
Defined.

(** The summary of [validate_request] says that non-positive timestamps are rejected; zero is
    accepted. *)
Example zero_timestamp_accepted : validate_request "key" 1 0 = Ok tt ∧ is_ok (validate_request "key" 1 (-1)) = false.
Proof. split; vm_compute; reflexivity. Qed.
