(* ===== verification/Metrics.v ===== *)
(** * Mutation metrics

    [statechronicle-ports/src/observability.rs]: the bounded in-process sink.  The two mutexes
    are flags; the [BTreeMap] of series is a [gmap], listed in key order by the snapshot. *)

From Stdlib Require Import ZArith Lia String.
From stdpp Require Import prelude strings gmap.
From S2P Require Import Prelude Effect Amount RateLimit Domain Atomicity SortFacts Durable.

Record MetricAggregateState := mkAggState { as_count : Z; as_total_latency_ms : Z; as_max_latency_ms : Z }.
Definition agg_default : MetricAggregateState := mkAggState 0 0 0.

Record MetricAggregate := mkAggregate {
  ma_tenant : TenantId; ma_operation : Operation; ma_outcome : MutationOutcome;
  ma_count : Z; ma_total_latency_ms : Z; ma_max_latency_ms : Z }.

(** The derived order of outcomes and of series keys. *)
Definition outcome_rank (o : MutationOutcome) : nat :=
  match o with OutcomeCommitted => 0 | OutcomeReplay => 1 | OutcomeRejected => 2 | OutcomeRetryableFailure => 3 end.
Definition outcome_of_rank (n : nat) : MutationOutcome :=
  match n with 0%nat => OutcomeCommitted | 1%nat => OutcomeReplay | 2%nat => OutcomeRejected | _ => OutcomeRetryableFailure end.
#[export] Instance MutationOutcome_eq_dec : EqDecision MutationOutcome.
Proof. solve_decision. Defined.
#[export] Instance MutationOutcome_countable : Countable MutationOutcome.
Proof. apply (inj_countable' outcome_rank outcome_of_rank). by intros []. Defined.

Notation SeriesKey := (string * Operation * MutationOutcome)%type.
Definition key_cmp (a b : SeriesKey) : comparison :=
  match str_cmp a.1.1 b.1.1 with
  | Eq => match str_cmp a.1.2 b.1.2 with Eq => Nat.compare (outcome_rank a.2) (outcome_rank b.2) | c => c end
  | c => c
  end.

Record InMemoryMetrics := mkMetrics {
  mt_max_series : Z;
  mt_series : gmap SeriesKey MetricAggregateState;
  mt_dropped : Z;
  mt_series_poisoned : bool;
  mt_dropped_poisoned : bool;
}.

Definition metrics_new (max_series : Z) : InMemoryMetrics := mkMetrics (Z.max max_series 1) ∅ 0 false false.

Definition aggregate_of (entry : SeriesKey * MetricAggregateState) : MetricAggregate :=
  let '((tenant, operation, outcome), state) := entry in
  mkAggregate tenant operation outcome (as_count state) (as_total_latency_ms state) (as_max_latency_ms state).

Definition snapshot (m : InMemoryMetrics) : list MetricAggregate :=
  if mt_series_poisoned m then []
  else map aggregate_of (sort_by (fun a b => key_cmp a.1 b.1) (map_to_list (mt_series m))).

Definition dropped (m : InMemoryMetrics) : Z := if mt_dropped_poisoned m then 0 else mt_dropped m.

Definition add_dropped (m : InMemoryMetrics) : InMemoryMetrics :=
  if mt_dropped_poisoned m then m
  else mkMetrics (mt_max_series m) (mt_series m) (saturating_add_u64 (mt_dropped m) 1) (mt_series_poisoned m) false.

Definition label_rejected (s : string) : bool := (MAX_ID_LENGTH <? char_count s) || has_control s.

Definition metric_key (metric : MutationMetric) : SeriesKey :=
  (mm_tenant metric, mm_operation metric, mm_outcome metric).

Definition observe (latency : Z) (state : MetricAggregateState) : MetricAggregateState :=
  mkAggState (saturating_add_u64 (as_count state) 1) (saturating_add_u64 (as_total_latency_ms state) latency)
    (Z.max (as_max_latency_ms state) latency).

Definition record_mutation (m : InMemoryMetrics) (metric : MutationMetric) : InMemoryMetrics :=
  if label_rejected (mm_tenant metric) || label_rejected (mm_operation metric) then add_dropped m
  else if mt_series_poisoned m then add_dropped m
  else
    let key := metric_key metric in
    match mt_series m !! key with
    | None =>
        if mt_max_series m <=? Z.of_nat (size (mt_series m)) then add_dropped m
        else mkMetrics (mt_max_series m) (<[key := observe (mm_latency_ms metric) agg_default]> (mt_series m))
               (mt_dropped m) (mt_series_poisoned m) (mt_dropped_poisoned m)
    | Some state =>
        mkMetrics (mt_max_series m) (<[key := observe (mm_latency_ms metric) state]> (mt_series m))
          (mt_dropped m) (mt_series_poisoned m) (mt_dropped_poisoned m)
    end.

(** ** What the sink accounts for *)

(** The observations of one series, and their aggregate. *)
Definition of_series (k : SeriesKey) (ms : list MutationMetric) : list MutationMetric :=
  filter (fun metric => metric_key metric = k) ms.
Definition aggregate (ms : list MutationMetric) : MetricAggregateState :=
  foldl (fun state metric => observe (mm_latency_ms metric) state) agg_default ms.

(** The observations of series that are not retained. *)
Definition unretained (series : gmap SeriesKey MetricAggregateState) (ms : list MutationMetric) : list MutationMetric :=
  filter (fun metric => series !! metric_key metric = None) ms.

Definition series_rejected (k : SeriesKey) : bool := label_rejected k.1.1 || label_rejected k.1.2.

(** The state of the sink after the observations [ms]. *)
Record accounts (ms : list MutationMetric) (m : InMemoryMetrics) : Prop := {
  ac_unpoisoned : mt_series_poisoned m = false ∧ mt_dropped_poisoned m = false;
  ac_bound : Z.of_nat (size (mt_series m)) ≤ mt_max_series m;
  ac_kept k st : mt_series m !! k = Some st →
    st = aggregate (of_series k ms) ∧ of_series k ms ≠ [] ∧ series_rejected k = false;
  ac_seen k : mt_series m !! k = None →
    of_series k ms = [] ∨ series_rejected k = true ∨ Z.of_nat (size (mt_series m)) = mt_max_series m;
  ac_dropped : mt_dropped m = Z.min (Z.of_nat (length (unretained (mt_series m) ms))) U64_MAX;
}.

Lemma of_series_same k ms metric : metric_key metric = k → of_series k (ms ++ [metric]) = of_series k ms ++ [metric].
Proof. intros Hk. unfold of_series. by rewrite filter_app, filter_cons_True. Qed.
Lemma of_series_other k ms metric : metric_key metric ≠ k → of_series k (ms ++ [metric]) = of_series k ms.
Proof. intros Hk. unfold of_series. by rewrite filter_app, filter_cons_False, filter_nil, app_nil_r. Qed.

Lemma aggregate_snoc ms metric :
  aggregate (ms ++ [metric]) = observe (mm_latency_ms metric) (aggregate ms).
Proof. unfold aggregate. by rewrite foldl_app. Qed.

Lemma filter_ext_elem {A} (P Q : A → Prop) `{∀ x, Decision (P x), ∀ x, Decision (Q x)} (l : list A) :
  (∀ x, x ∈ l → P x ↔ Q x) → filter P l = filter Q l.
Proof.
  induction l as [|x l IH]; intros Hpq; [done|]. rewrite !filter_cons, IH by (intros; apply Hpq; by right).
  assert (P x ↔ Q x) by (apply Hpq; by left). repeat case_decide; naive_solver.
Qed.

(** Dropping an observation whose series is not retained and will not be. *)
Lemma accounts_drop ms m metric : accounts ms m → mt_series m !! metric_key metric = None →
  (series_rejected (metric_key metric) = true ∨ Z.of_nat (size (mt_series m)) = mt_max_series m) →
  accounts (ms ++ [metric]) (add_dropped m).
Proof.
  intros [[Hp Hq] Hb Hk Hs Hd] Hn Hwhy. unfold add_dropped. rewrite Hq. split; cbn; [done|done|..].
  - intros k st Hst. assert (metric_key metric ≠ k) by congruence. rewrite of_series_other by done. auto.
  - intros k Hnk. destruct (decide (metric_key metric = k)) as [<-|Hne]; [naive_solver|].
    rewrite of_series_other by done. auto.
  - rewrite Hd. unfold unretained. rewrite filter_app, filter_cons_True, filter_nil, length_app by done.
    unfold saturating_add_u64. cbn. lia.
Qed.

(** Retaining an observation. *)
Lemma accounts_keep ms m metric st : accounts ms m → series_rejected (metric_key metric) = false →
  st = aggregate (of_series (metric_key metric) ms) →
  (is_Some (mt_series m !! metric_key metric) ∨
   of_series (metric_key metric) ms = [] ∧ Z.of_nat (size (mt_series m)) < mt_max_series m) →
  accounts (ms ++ [metric])
    (mkMetrics (mt_max_series m) (<[metric_key metric := observe (mm_latency_ms metric) st]> (mt_series m))
       (mt_dropped m) (mt_series_poisoned m) (mt_dropped_poisoned m)).
Proof.
  intros [Hp Hb Hk Hs Hd] Hv -> Hwhy. set (k0 := metric_key metric) in *.
  assert (Hgrow : Z.of_nat (size (mt_series m)) ≤ Z.of_nat (size (<[k0 := observe (mm_latency_ms metric) (aggregate (of_series k0 ms))]> (mt_series m))) ≤ mt_max_series m).
  { destruct (mt_series m !! k0) eqn:E.
    - rewrite map_size_insert_Some by eauto. lia.
    - rewrite map_size_insert_None by done. destruct Hwhy as [[??]|[_ ?]]; [done|lia]. }
  split; cbn [mt_series mt_max_series mt_series_poisoned mt_dropped_poisoned mt_dropped]; [done|lia|..].
  - intros k st. destruct (decide (k0 = k)) as [<-|Hne].
    + rewrite lookup_insert_eq. intros [= <-]. rewrite of_series_same, aggregate_snoc by done.
      split_and!; [done|by destruct (of_series k0 ms)|done].
    + rewrite lookup_insert_ne by done. intros Hst. rewrite of_series_other by done. auto.
  - intros k. destruct (decide (k0 = k)) as [<-|Hne]; [by rewrite lookup_insert_eq|].
    rewrite lookup_insert_ne by done. intros Hn. rewrite of_series_other by done.
    destruct (Hs k Hn) as [?|[?|?]]; [auto|auto|]. right; right. lia.
  - rewrite Hd. do 3 f_equal. unfold unretained. rewrite filter_app, filter_cons_False, filter_nil, app_nil_r
      by (fold k0; by rewrite lookup_insert_eq).
    apply filter_ext_elem. intros x Hx. destruct (decide (k0 = metric_key x)) as [Ek|Hne]; [|by rewrite lookup_insert_ne].
    rewrite <- Ek, lookup_insert_eq. split; [|done]. intros Hn. exfalso.
    destruct Hwhy as [[? E]|[E _]]; [congruence|]. apply (not_elem_of_nil x). rewrite <- E.
    by apply list_elem_of_filter.
Qed.

Lemma record_accounts ms m metric : accounts ms m → accounts (ms ++ [metric]) (record_mutation m metric).
Proof.
  intros Hm. pose proof Hm as [[Hp Hq] Hb Hk Hs Hd]. unfold record_mutation.
  change (label_rejected (mm_tenant metric) || label_rejected (mm_operation metric))
    with (series_rejected (metric_key metric)).
  destruct (series_rejected (metric_key metric)) eqn:Er.
  { apply accounts_drop; [done| |auto]. destruct (mt_series m !! metric_key metric) as [st|] eqn:E; [|done].
    apply Hk in E as (_ & _ & E). congruence. }
  rewrite Hp at 1. destruct (mt_series m !! metric_key metric) as [st|] eqn:E.
  - apply Hk in E as HE. apply (accounts_keep ms m metric st); naive_solver.
  - destruct (Z.leb_spec (mt_max_series m) (Z.of_nat (size (mt_series m)))); [apply accounts_drop; [done..|right; lia]|].
    assert (Hnil : of_series (metric_key metric) ms = []) by (destruct (Hs _ E) as [?|[?|?]]; [done|congruence|lia]).
    apply (accounts_keep ms m metric agg_default); [done|done|by rewrite Hnil|auto].
Qed.

Lemma run_accounts n ms : accounts ms (foldl record_mutation (metrics_new n) ms).
Proof.
  induction ms as [|metric ms IH] using rev_ind.
  - split; cbn; [done|rewrite map_size_empty; lia|..]; [|auto|done].
    intros k st. by rewrite lookup_empty.
  - rewrite foldl_app. cbn. by apply record_accounts.
Qed.

(** What the sink reports after any observations.  It holds at most [max_series] series
    (one, if that is zero); every series it reports aggregates all observations of that
    tenant, operation and outcome, none missing; a series with observations is missing only if
    its labels are rejected or the sink is full; and the dropped counter (saturating) counts
    exactly the observations of the missing series. *)
Theorem metrics_accounting (n : Z) (ms : list MutationMetric) :
  let m := foldl record_mutation (metrics_new n) ms in
  Z.of_nat (length (snapshot m)) ≤ Z.max n 1 ∧
  (∀ a, a ∈ snapshot m ↔ ∃ k, is_Some (mt_series m !! k) ∧ a = aggregate_of (k, aggregate (of_series k ms))) ∧
  (∀ k, of_series k ms ≠ [] → mt_series m !! k = None →
     series_rejected k = true ∨ Z.of_nat (length (snapshot m)) = Z.max n 1) ∧
  dropped m = Z.min (Z.of_nat (length (unretained (mt_series m) ms))) U64_MAX.
Proof.
  intros m. pose proof (run_accounts n ms) as [[Hp Hq] Hb Hk Hs Hd]. fold m in Hp, Hq, Hb, Hk, Hs, Hd.
  assert (Hmax : mt_max_series m = Z.max n 1).
  { unfold m. clear. induction ms as [|x ms IH] using rev_ind; [done|]. rewrite foldl_app, <- IH. cbn.
    unfold record_mutation, add_dropped. by repeat case_match. }
  assert (Hlen : length (snapshot m) = size (mt_series m)).
  { unfold snapshot. rewrite Hp, length_map, sort_by_length. apply length_map_to_list. }
  rewrite Hlen, <- Hmax. split_and!; [done| |naive_solver|unfold dropped; by rewrite Hq].
  intros a. unfold snapshot. rewrite Hp, list_elem_of_fmap. setoid_rewrite sort_by_perm. split.
  - intros ([k st] & -> & Hin%elem_of_map_to_list). exists k. split; [eauto|]. by apply Hk in Hin as [-> _].
  - intros (k & [st Hst] & ->). exists (k, st). split; [|by apply elem_of_map_to_list]. by apply Hk in Hst as [<- _].
Qed.
