(* ===== verification/Index.v ===== *)
(** * The trade index

    [statechronicle-index/src/build.rs], [history.rs] and [service.rs]: the projection of
    committed batches into trade records, the history of a trade, and the service over its
    ports.  A [BTreeMap] of records is a [gmap]; where the code iterates over it, the entries
    are listed in key order.  The ports are parameters over a world [W]. *)

From Stdlib Require Import ZArith Lia String.
From stdpp Require Import prelude gmap strings.
From S2P Require Import Prelude Effect Amount Domain Profile UniqueAsset Atomicity Executor.
From S2P Require Import SortFacts Keys Accumulator Checkpoint Commit Signing Durable Bundle.

Inductive IndexError :=
| IxDomain (e : DomainError)
| MissingTradeId (msg : string)
| NonTenantCommit (msg : string)
| MalformedValue (msg : string)
| IxMissingEvent (event_id : string).

Inductive TradeServiceError :=
| TsIndex (e : IndexError)
| TsDomain (e : DomainError)
| TsProof (e : ProofError)
| TsEventStore (msg : string)
| TsTradeIndex (msg : string)
| TsProofIndex (msg : string)
| TsCommitStore (msg : string)
| TsMissingEvent (event_id : string).

Notation iresult A := (result A IndexError).

Record IngestBatch := mkIngest {
  ib_events : list Event;
  ib_settle_intents : list Intent;
  ib_commit : Signed Commit;
}.

(** ** Reading events and intents *)

Definition ix_state_str_opt (state : ResourceState) (key : string) : option string :=
  let value :=
    if String.eqb key "subject" then rs_subject state
    else if String.eqb key "trade_id" then
      match state with RUniqueAsset v => ua_trade_id v | _ => None end
    else None in
  match value with
  | Some v => if str_is_empty v then None else Some v
  | None => None
  end.

Definition trade_id_of (event : Event) : iresult (option string) :=
  if String.eqb (e_operation event) op.trade_lock then
    match ix_state_str_opt (c_state (e_after event)) "trade_id" with
    | Some id => Ok (Some id)
    | None => Err (MissingTradeId ("trade.lock event " +:+ tick (e_event_id event)
                +:+ " is missing `trade_id` in its after state"))
    end
  else if String.eqb (e_operation event) op.trade_settle || String.eqb (e_operation event) op.trade_unlock then
    match ix_state_str_opt (c_state (e_before event)) "trade_id" with
    | Some id => Ok (Some id)
    | None => Err (MissingTradeId ("trade event " +:+ tick (e_event_id event)
                +:+ " is missing `trade_id` in its before state"))
    end
  else Ok None.

Definition ix_intent_str (intent : Intent) (key : string) : iresult string :=
  match i_inputs intent !! key ≫= as_str with
  | Some value => if str_is_empty value then Err (MalformedValue ("settle intent " +:+ tick (i_intent_id intent)
                    +:+ " is missing a non-empty " +:+ tick key +:+ " input")) else Ok value
  | None => Err (MalformedValue ("settle intent " +:+ tick (i_intent_id intent)
              +:+ " is missing a non-empty " +:+ tick key +:+ " input"))
  end.

Definition batch_trade_ids (batch : IngestBatch) : list string :=
  bset_of_list
    (omap (fun event => match trade_id_of event with Ok (Some id) => Some id | _ => None end) (ib_events batch)
     ++ omap (fun intent => if declares_value_leg intent then
                              match ix_intent_str intent "trade_id" with Ok id => Some id | Err _ => None end
                            else None) (ib_settle_intents batch)).

Definition owner_of_state (state : ResourceState) : iresult string :=
  match rs_owner state with
  | Some owner =>
      if str_is_empty owner then Err (MalformedValue "trade settle event state is missing a non-empty `owner`")
      else Ok owner
  | None => Err (MalformedValue "trade settle event state is missing a non-empty `owner`")
  end.

Definition ix_commit_ref (signed : Signed Commit) : iresult CommitRef :=
  let body := s_body signed in
  if negb (scope_kind_tenant (sc_kind (cm_scope body))) then Err (NonTenantCommit (cm_commit_id body))
  else
    let? _ := ok_or (sc_tenant_id (cm_scope body)) (NonTenantCommit "tenant-scoped commit is missing its tenant id") in
    Ok (mkCommitRef (cm_commit_id body) (cm_sequence body) (cm_next_state_root body) (s_signature signed)).

(** ** Value pairs *)

Record IndexPair := mkIndexPair {
  ip_debit : Amount;
  ip_resource : ResourceId;
  ip_credited_subject : option SubjectId;
  ip_event_ids : list EventId;
  ip_tenant : TenantId;
}.

Definition ix_amount (state : ResourceState) : Amount := default ZERO (rs_amount state "balance").

(** The accumulation loop over the two events of a pair. *)
Fixpoint ix_pair_loop (group : list Event) (debit : Amount) (credited : option SubjectId)
    : iresult (Amount * option SubjectId) :=
  match group with
  | [] => Ok (debit, credited)
  | event :: rest =>
      let before := ix_amount (c_state (e_before event)) in
      let after := ix_amount (c_state (e_after event)) in
      if amount_ltb after before then
        let? delta := ok_or (checked_sub before after) (MalformedValue "debit overflow") in
        let? debit := ok_or (checked_add debit delta) (MalformedValue "debit overflow") in
        ix_pair_loop rest debit credited
      else if amount_ltb before after then
        ix_pair_loop rest debit (ix_state_str_opt (c_state (e_after event)) "subject")
      else ix_pair_loop rest debit credited
  end.

Fixpoint ix_recover_loop (groups : list (IntentId * list Event)) : iresult (list IndexPair) :=
  match groups with
  | [] => Ok []
  | (intent_id, group) :: rest =>
      match group with
      | [] => ix_recover_loop rest
      | first :: _ =>
          if negb (String.eqb (e_operation first) balance_transfer) then ix_recover_loop rest
          else if negb (length group =? 2)%nat then
            Err (MalformedValue ("balance.transfer intent " +:+ tick intent_id
              +:+ " is not an atomic debit + credit pair"))
          else
            let? totals := ix_pair_loop group ZERO None in
            let event_ids := sort_by str_cmp (map e_event_id group) in
            let? pairs := ix_recover_loop rest in
            Ok (mkIndexPair totals.1 (e_resource_id first) totals.2 event_ids (e_tenant_id first) :: pairs)
      end
  end.
Definition ix_recover_value_pairs (events : list Event) : iresult (list IndexPair) :=
  ix_recover_loop (group_by_intent events).

(** ** Value legs *)

Record DeclaredValueLeg := mkDeclared {
  dl_key : ValueTuple;
  dl_trade_id : string;
  dl_amount_str : string;
  dl_to_subject : SubjectId;
}.

Definition declared_leg (intent : Intent) : iresult DeclaredValueLeg :=
  let? resource := ix_intent_str intent "value_resource" in
  let? amount := ix_intent_str intent "value_amount" in
  let? to_subject := ix_intent_str intent "value_to_subject" in
  let? trade_id := ix_intent_str intent "trade_id" in
  let? amount_amt := map_err (fun _ => MalformedValue ("malformed value_amount " +:+ tick amount)) (try_from_str amount) in
  Ok (mkDeclared (amount_amt, resource, Some to_subject) trade_id amount to_subject).

Definition index_pair_key (p : IndexPair) : ValueTuple := (ip_debit p, ip_resource p, ip_credited_subject p).

(** The legs of the declarations and pairs that stand at the same position and agree. *)
Fixpoint zip_legs (commit : CommitRef) (declared : list DeclaredValueLeg) (pairs : list IndexPair)
    : list (string * TradeValueLeg) :=
  match declared, pairs with
  | decl :: declared', p :: pairs' =>
      (if tuple_eqb (dl_key decl) (index_pair_key p)
       then [(dl_trade_id decl, mkTradeValueLeg (ip_resource p) (dl_amount_str decl) (dl_to_subject decl)
                                  (ip_event_ids p) (ip_tenant p) commit)]
       else []) ++ zip_legs commit declared' pairs'
  | _, _ => []
  end.

Definition match_value_legs (batch : IngestBatch) (pairs : list IndexPair) (commit : CommitRef)
    : iresult (list (string * TradeValueLeg)) :=
  let? declared := rmap declared_leg (List.filter declares_value_leg (ib_settle_intents batch)) in
  Ok (zip_legs commit (sort_by (fun left right => tuple_cmp (dl_key left) (dl_key right)) declared)
        (sort_by (fun left right => tuple_cmp (index_pair_key left) (index_pair_key right)) pairs)).

(** ** Updating records *)

Definition set_tr_status (r : TradeRecord) (s : TradeStatus) : TradeRecord :=
  mkTradeRecord (tr_trade_id r) s (tr_sides r) (tr_value_legs r) (tr_events r).
Definition set_tr_sides (r : TradeRecord) (sides : list TradeSide) : TradeRecord :=
  mkTradeRecord (tr_trade_id r) (tr_status r) sides (tr_value_legs r) (tr_events r).
Definition push_event (r : TradeRecord) (e : TradeEventRef) : TradeRecord :=
  mkTradeRecord (tr_trade_id r) (tr_status r) (tr_sides r) (tr_value_legs r) (tr_events r ++ [e]).
Definition push_leg (r : TradeRecord) (leg : TradeValueLeg) : TradeRecord :=
  mkTradeRecord (tr_trade_id r) (tr_status r) (tr_sides r) (tr_value_legs r ++ [leg]) (tr_events r).
Definition event_ref (event : Event) : TradeEventRef :=
  mkTradeEventRef (e_event_id event) (e_tenant_id event) (e_operation event).

(** The first side of the tenant is updated in place; otherwise a side is appended. *)
Fixpoint upsert_sides (sides : list TradeSide) (tenant : TenantId) (asset : ResourceId) (event_id : EventId)
    (from_owner to_owner : string) (commit : CommitRef) : list TradeSide :=
  match sides with
  | [] => [mkTradeSide tenant [asset] from_owner to_owner commit {[asset := commit]} [event_id]]
  | side :: rest =>
      if String.eqb (ts_tenant side) tenant then
        mkTradeSide (ts_tenant side)
          (if existsb (String.eqb asset) (ts_settle_assets side) then ts_settle_assets side else ts_settle_assets side ++ [asset])
          (ts_from_owner side) (ts_to_owner side) (ts_settle_commit side)
          (<[asset := commit]> (ts_settle_commits_by_asset side)) (ts_settle_event_ids side ++ [event_id]) :: rest
      else side :: upsert_sides rest tenant asset event_id from_owner to_owner commit
  end.

Definition upsert_side (record : TradeRecord) (event : Event) (commit : CommitRef) : iresult TradeRecord :=
  let? from_owner := owner_of_state (c_state (e_before event)) in
  let? to_owner := owner_of_state (c_state (e_after event)) in
  Ok (set_tr_sides record (upsert_sides (tr_sides record) (e_tenant_id event) (e_resource_id event) (e_event_id event)
                             from_owner to_owner commit)).

Fixpoint apply_settles (record : TradeRecord) (settles : list Event) (commit : CommitRef) : iresult TradeRecord :=
  match settles with
  | [] => Ok record
  | event :: rest =>
      let? record := upsert_side (set_tr_status record TradeSettled) event commit in
      apply_settles (push_event record (event_ref event)) rest commit
  end.

Definition has_op (operation : Operation) (event : Event) : bool := String.eqb (e_operation event) operation.

Definition apply_trade_events (record : TradeRecord) (events : list Event) (commit : CommitRef) : iresult TradeRecord :=
  let locks := List.filter (has_op op.trade_lock) events in
  let settles := List.filter (has_op op.trade_settle) events in
  let unlocks := List.filter (has_op op.trade_unlock) events in
  let record := foldl (fun r event => push_event (set_tr_status r TradeOpen) (event_ref event)) record locks in
  let? record := apply_settles record settles commit in
  Ok (foldl (fun r event => push_event (set_tr_status r TradeCancelled) (event_ref event)) record unlocks).

Definition sort_sides (record : TradeRecord) : TradeRecord :=
  set_tr_sides record (sort_by (fun left right => str_cmp (ts_tenant left) (ts_tenant right)) (tr_sides record)).

Definition apply_leg (record : TradeRecord) (leg : TradeValueLeg) : TradeRecord :=
  push_leg (foldl (fun r event_id => push_event r (mkTradeEventRef event_id (vl_tenant leg) balance_transfer))
              record (vl_pair_event_ids leg)) leg.

Notation TradeState := (gmap string TradeRecord).

(** [state.entry(id).or_insert_with(..)] followed by a fallible update of the record. *)
Definition update_record (state : TradeState) (trade_id : string) (f : TradeRecord → iresult TradeRecord)
    : iresult TradeState :=
  let? record := f (default (trade_record_new trade_id) (state !! trade_id)) in
  Ok (<[trade_id := record]> state).

Fixpoint update_all (state : TradeState) (updates : list (string * (TradeRecord → iresult TradeRecord)))
    : iresult TradeState :=
  match updates with
  | [] => Ok state
  | (trade_id, f) :: rest => let? state := update_record state trade_id f in update_all state rest
  end.

(** The trade events of a batch by trade id, in id order. *)
Definition by_trade (events : list Event) : iresult (list (string * list Event)) :=
  let? tagged := rmap (fun event => let? id := trade_id_of event in Ok (id, event)) events in
  Ok (foldl (fun groups te => match te.1 with Some id => group_push id te.2 groups | None => groups end) [] tagged).

Definition trade_updates (commit : CommitRef) (groups : list (string * list Event))
    : list (string * (TradeRecord → iresult TradeRecord)) :=
  map (fun '(trade_id, events) =>
         (trade_id, fun record => let? record := apply_trade_events record events commit in Ok (sort_sides record))) groups.
Definition leg_updates (legs : list (string * TradeValueLeg)) : list (string * (TradeRecord → iresult TradeRecord)) :=
  map (fun '(trade_id, leg) => (trade_id, fun record => Ok (apply_leg record leg))) legs.

Definition apply_batch (state : TradeState) (batch : IngestBatch) : iresult TradeState :=
  let? commit := ix_commit_ref (ib_commit batch) in
  let? value_pairs := ix_recover_value_pairs (ib_events batch) in
  let? groups := by_trade (ib_events batch) in
  let? state := update_all state (trade_updates commit groups) in
  let? value_legs := match_value_legs batch value_pairs commit in
  update_all state (leg_updates value_legs).

(** ** History *)

Record TradeEvent := mkTradeEvent { tev_event : Event; tev_tenant_id : TenantId }.
Record TradeHistory := mkTradeHistory {
  th_trade_id : string;
  th_status : TradeStatus;
  th_events : list TradeEvent;
  th_commits : list (TenantId * CommitRef);
}.

(** Append a commit unless its tenant and id were seen. *)
Definition collect (acc : list (TenantId * CommitRef) * list (string * string)) (entry : TenantId * CommitRef)
    : list (TenantId * CommitRef) * list (string * string) :=
  let key := (entry.1, cref_commit_id entry.2) in
  if bool_decide (key ∈ acc.2) then acc else (acc.1 ++ [entry], acc.2 ++ [key]).

Definition collect_commits (record : TradeRecord) : list (TenantId * CommitRef) :=
  let acc := foldl (fun acc side => collect acc (ts_tenant side, ts_settle_commit side)) ([], []) (tr_sides record) in
  (foldl (fun acc leg => collect acc (vl_tenant leg, vl_commit leg)) acc (tr_value_legs record)).1.

Definition reconstruct_history (record : TradeRecord) (events_by_id : gmap (string * string) Event)
    : iresult TradeHistory :=
  let? events := rmap (fun r =>
      let? event := ok_or (events_by_id !! (ter_tenant_id r, ter_event_id r)) (IxMissingEvent (ter_event_id r)) in
      Ok (mkTradeEvent event (ter_tenant_id r))) (tr_events record) in
  Ok (mkTradeHistory (tr_trade_id record) (tr_status record) events (collect_commits record)).

(** ** The service *)

Inductive TradeIndexError := TradeNotFound | TradeIndexUnavailable (msg : string).
Definition trade_index_error_to_string (e : TradeIndexError) : string :=
  match e with
  | TradeNotFound => "no trade record available for the requested trade id"
  | TradeIndexUnavailable m => "trade index unavailable: " +:+ m
  end.

Record TradePorts (W : Type) := mkTradePorts {
  put_trade : TradeRecord → W → result unit TradeIndexError * W;
  get_trade : string → W → result (option TradeRecord) TradeIndexError;
  tp_event_by_id : TenantId → EventId → W → result (option Event) EventStoreError;
  tp_state_proof : TenantId → ResourceId → option CommitId → W → result (option ResourceStateProof) ProofIndexError;
  tp_commit_by_id : TenantId → CommitId → W → result (option (Signed Commit)) CommitStoreError;
}.
Arguments put_trade {W}. Arguments get_trade {W}. Arguments tp_event_by_id {W}.
Arguments tp_state_proof {W}. Arguments tp_commit_by_id {W}.

Notation TEff W A := (Eff TradeServiceError W A).

(** The records of a state in key order. *)
Definition state_values (state : TradeState) : list TradeRecord :=
  map snd (sort_by (fun a b => str_cmp a.1 b.1) (map_to_list state)).

Section Service.
Context {W : Type} (ports : TradePorts W).

Definition trade_index_call {A} (r : result A TradeIndexError) : result A TradeServiceError :=
  map_err (fun err => TsTradeIndex (trade_index_error_to_string err)) r.

Fixpoint seed_state (ids : list string) (state : TradeState) : TEff W TradeState :=
  match ids with
  | [] => xret state
  | trade_id :: rest =>
      let! found := xquery (fun w => trade_index_call (get_trade ports trade_id w)) in
      seed_state rest (match found with Some record => <[trade_id := record]> state | None => state end)
  end.

Definition put_all (state : TradeState) : TEff W unit :=
  xforeach (fun record => xcall (put_trade ports record) (fun err => TsTradeIndex (trade_index_error_to_string err)))
    (state_values state).

Definition ingest_batch (batch : IngestBatch) : TEff W unit :=
  let! state := seed_state (batch_trade_ids batch) ∅ in
  let! state := xlift (map_err TsIndex (apply_batch state batch)) in
  put_all state.

Fixpoint apply_batches (state : TradeState) (batches : list IngestBatch) : iresult TradeState :=
  match batches with
  | [] => Ok state
  | batch :: rest => let? state := apply_batch state batch in apply_batches state rest
  end.

Definition rebuild_index (batches : list IngestBatch) : TEff W unit :=
  let! state := xlift (map_err TsIndex (apply_batches ∅ batches)) in
  put_all state.

(** The events of the record's references, failing at the first that is missing. *)
Fixpoint resolve_events (refs : list TradeEventRef) (found : gmap (string * string) Event)
    : TEff W (gmap (string * string) Event) :=
  match refs with
  | [] => xret found
  | r :: rest =>
      let! event := xquery (fun w => map_err (fun err => TsEventStore (event_store_error_to_string err))
                                       (tp_event_by_id ports (ter_tenant_id r) (ter_event_id r) w)) in
      match event with
      | None => xlift (Err (TsMissingEvent (ter_event_id r)))
      | Some event => resolve_events rest (<[(ter_tenant_id r, ter_event_id r) := event]> found)
      end
  end.

Definition get_history (trade_id : string) : TEff W (option TradeHistory) :=
  let! found := xquery (fun w => trade_index_call (get_trade ports trade_id w)) in
  match found with
  | None => xret None
  | Some record =>
      let! events_by_id := resolve_events (tr_events record) ∅ in
      let! history := xlift (map_err TsIndex (reconstruct_history record events_by_id)) in
      xret (Some history)
  end.

(** ** Trade proofs *)

Context (H : string → string) {SigningKey VerifyingKey : Type} (scheme : SignatureScheme SigningKey VerifyingKey).
Context (bcs_commit : Bcs Commit) (bcs_state : Bcs ResourceState) (bcs_proof : Bcs ResourceStateProof).
Context (key_for_tenant : TenantId → option VerifyingKey).

Fixpoint asset_proofs (side : TradeSide) (assets : list ResourceId) : TEff W (list ResourceStateProof) :=
  match assets with
  | [] => xret []
  | asset :: rest =>
      let settle_commit := default (ts_settle_commit side) (ts_settle_commits_by_asset side !! asset) in
      let! found := xquery (fun w => map_err (fun err => TsProofIndex (proof_index_error_to_string err))
          (tp_state_proof ports (ts_tenant side) asset (Some (cref_commit_id settle_commit)) w)) in
      let! proof := xlift (ok_or found (TsProofIndex ("no state proof stored for settle asset " +:+ tick asset
          +:+ " in tenant " +:+ tick (ts_tenant side) +:+ " at commit " +:+ tick (cref_commit_id settle_commit)))) in
      let! proofs := asset_proofs side rest in
      xret (proof :: proofs)
  end.

Fixpoint side_proofs (sides : list TradeSide) : TEff W (list (TenantId * list ResourceStateProof)) :=
  match sides with
  | [] => xret []
  | side :: rest =>
      let! state_proofs := asset_proofs side (ts_settle_assets side) in
      let! proofs := side_proofs rest in
      xret (match state_proofs with [] => proofs | _ => (ts_tenant side, state_proofs) :: proofs end)
  end.

Notation CommitsById := (gmap string (Signed Commit * VerifyingKey)).

(** Load the commit a state proof pins, unless a commit with its id is loaded. *)
Definition load_pinned (tenant : TenantId) (state_proof : ResourceStateProof) (commits : CommitsById) : TEff W CommitsById :=
  let commit_id := cref_commit_id (rp_commit state_proof) in
  match commits !! commit_id with
  | Some _ => xret commits
  | None =>
      let! found := xquery (fun w => map_err (fun err => TsCommitStore (commit_store_error_to_string err))
                                       (tp_commit_by_id ports tenant commit_id w)) in
      match found with
      | None => xlift (Err (TsCommitStore ("commit " +:+ tick commit_id +:+ " not found for tenant " +:+ tick tenant)))
      | Some signed =>
          match key_for_tenant tenant with
          | None => xlift (Err (TsProof (PrKeyNotFound tenant)))
          | Some key => xret (<[commit_id := (signed, key)]> commits)
          end
      end
  end.

Fixpoint load_leg (tenant : TenantId) (state_proofs : list ResourceStateProof) (commits : CommitsById) : TEff W CommitsById :=
  match state_proofs with
  | [] => xret commits
  | state_proof :: rest => let! commits := load_pinned tenant state_proof commits in load_leg tenant rest commits
  end.
Fixpoint load_legs (legs : list TradeProofLeg) (commits : CommitsById) : TEff W CommitsById :=
  match legs with
  | [] => xret commits
  | leg :: rest => let! commits := load_leg (tl_tenant leg) (tl_state_proofs leg) commits in load_legs rest commits
  end.

Definition verify_inline (proof : TradeProof) : TEff W unit :=
  let! commits := load_legs (tp_legs proof) ∅ in
  xlift (map_err TsProof (verify_trade_proof H scheme bcs_commit bcs_state bcs_proof proof commits)).

Definition get_proof (trade_id : string) : TEff W (option TradeProof) :=
  let! found := xquery (fun w => trade_index_call (get_trade ports trade_id w)) in
  match found with
  | None => xret None
  | Some record =>
      let! proofs := side_proofs (tr_sides record) in
      let! proof := xlift (map_err TsProof (build_trade_proof record proofs)) in
      verify_inline proof ;!
      xret (Some proof)
  end.
End Service.
