(* ===== verification/IndexFacts.v ===== *)
(** * Correctness of the trade index

    Incremental ingestion equals replay from scratch: applying a batch reads and writes only the
    trades it names, so the state seeded by [ingest_batch] is enough.  A batch the settlement
    validator accepted has all its declared value legs attributed. *)

From Stdlib Require Import ZArith Lia String.
From stdpp Require Import prelude gmap strings.
From S2P Require Import Prelude Effect Amount Domain Profile Admission UniqueAsset Atomicity Executor Pipeline.
From S2P Require Import SortFacts Economy Batches Keys Accumulator Checkpoint Commit Signing Durable Bundle Index.

(** ** Locality *)

Definition agree_on (ids : list string) (s t : TradeState) : Prop := ∀ k, k ∈ ids → s !! k = t !! k.
Definition same_off (ids : list string) (s t : TradeState) : Prop := ∀ k, k ∉ ids → s !! k = t !! k.

(** Two runs that fail with the same error, or succeed with related states. *)
Definition both {A E} (R : A → A → Prop) (r1 r2 : result A E) : Prop :=
  match r1, r2 with Ok a, Ok b => R a b | Err e, Err f => e = f | _, _ => False end.

Lemma both_bind {A B E} (R : A → A → Prop) (Q : B → B → Prop) (r1 r2 : result A E) (k1 k2 : A → result B E) :
  both R r1 r2 → (∀ a b, R a b → both Q (k1 a) (k2 b)) → both Q (rbind r1 k1) (rbind r2 k2).
Proof. destruct r1, r2; cbn; naive_solver. Qed.
Lemma both_refl {A B E} (Q : B → B → Prop) (r : result A E) (k1 k2 : A → result B E) :
  (∀ a, r = Ok a → both Q (k1 a) (k2 a)) → both Q (rbind r k1) (rbind r k2).
Proof. destruct r; cbn; naive_solver. Qed.

Lemma update_all_local ids ups : (∀ id f, (id, f) ∈ ups → id ∈ ids) → ∀ s t,
  agree_on ids s t →
  both (fun s' t' => agree_on ids s' t' ∧ same_off ids s s' ∧ same_off ids t t') (update_all s ups) (update_all t ups).
Proof.
  induction ups as [|[id f] ups IH]; intros Hids s t Hst; cbn [update_all]; [done|].
  assert (Hid : id ∈ ids) by (apply (Hids id f); by left).
  unfold update_record at 1 2. rewrite (Hst id Hid).
  destruct (f _) as [record|e]; cbn [rbind]; [|done].
  assert (Hst' : agree_on ids (<[id := record]> s) (<[id := record]> t)).
  { intros k Hk. destruct (decide (id = k)) as [->|Hne]; [by rewrite !lookup_insert_eq|].
    rewrite !lookup_insert_ne by done. auto. }
  specialize (IH (fun id' f' H => Hids id' f' (list_elem_of_further _ _ _ H)) _ _ Hst').
  destruct (update_all (<[id := record]> s) ups) as [s'|], (update_all (<[id := record]> t) ups) as [t'|];
    cbn in *; try done. destruct IH as (H1 & H2 & H3). split_and!; [done|..]; intros k Hk;
    (assert (id ≠ k) by congruence); [rewrite <- H2|rewrite <- H3]; by rewrite ?lookup_insert_ne.
Qed.

Lemma group_push_entry {A} key (e : A) l k es : (k, es) ∈ group_push key e l → k = key ∨ ∃ es', (k, es') ∈ l.
Proof.
  intros Hin. assert (Hk : k ∈ map fst (group_push key e l)) by (apply list_elem_of_fmap; by exists (k, es)).
  apply group_push_keys in Hk as [->|Hk]; [by left|right]. apply list_elem_of_fmap in Hk as ([k' es'] & -> & Hk). eauto.
Qed.

Lemma by_trade_ids events groups id es : by_trade events = Ok groups → (id, es) ∈ groups →
  ∃ event, event ∈ events ∧ trade_id_of event = Ok (Some id).
Proof.
  unfold by_trade. intros E Hin. res_inv E. subst groups. apply rmap_Ok in Ha.
  enough (Hgen : ∀ acc, (id, es) ∈ foldl (fun groups te => match te.1 with Some id => group_push id te.2 groups | None => groups end) acc a →
    (∃ es', (id, es') ∈ acc) ∨ ∃ event, event ∈ events ∧ trade_id_of event = Ok (Some id)).
  { destruct (Hgen [] Hin) as [(? & ?)|?]; [set_solver|done]. }
  clear Hin. induction Ha as [|event [o ev] events a He _ IH]; intros acc Hin; cbn in Hin; [eauto|].
  res_inv He. simplify_eq. apply IH in Hin as [(es' & Hin)|(event' & ? & ?)]; [|right; exists event'; set_solver].
  destruct o as [id'|]; [|eauto]. apply group_push_entry in Hin as [->|?]; [right; exists ev; set_solver|eauto].
Qed.

Lemma zip_legs_ids commit declared pairs id leg : (id, leg) ∈ zip_legs commit declared pairs →
  ∃ decl, decl ∈ declared ∧ dl_trade_id decl = id.
Proof.
  revert pairs. induction declared as [|decl declared IH]; intros [|p pairs]; cbn; try set_solver.
  intros [Hin|Hin]%elem_of_app.
  - destruct (tuple_eqb _ _); [|set_solver]. apply list_elem_of_singleton in Hin as [= -> ->]. exists decl. set_solver.
  - apply IH in Hin as (d & ? & ?). exists d. set_solver.
Qed.

Lemma match_legs_ids batch pairs commit legs id leg : match_value_legs batch pairs commit = Ok legs →
  (id, leg) ∈ legs → id ∈ batch_trade_ids batch.
Proof.
  unfold match_value_legs. intros E Hin. res_inv E. subst legs.
  apply zip_legs_ids in Hin as (decl & Hin & <-). rewrite sort_by_perm in Hin.
  apply rmap_Ok in Ha. apply list_elem_of_lookup in Hin as (i & Hi).
  destruct (Forall2_lookup_r _ _ _ _ _ Ha Hi) as (intent & Hint & Hd).
  apply list_elem_of_lookup_2, list_elem_of_In, filter_In in Hint as [Hint Hv]. apply list_elem_of_In in Hint.
  unfold batch_trade_ids. apply bset_of_list_elem, elem_of_app. right. apply list_elem_of_omap.
  exists intent. split; [done|]. rewrite Hv. unfold declared_leg in Hd. res_inv Hd. subst decl. cbn.
  match goal with E : ix_intent_str intent "trade_id" = Ok _ |- _ => by rewrite E end.
Qed.

(** A batch touches only the trades it names, and reads nothing else. *)
Lemma apply_batch_local batch s t : agree_on (batch_trade_ids batch) s t →
  both (fun s' t' => agree_on (batch_trade_ids batch) s' t' ∧ same_off (batch_trade_ids batch) s s' ∧
                     same_off (batch_trade_ids batch) t t') (apply_batch s batch) (apply_batch t batch).
Proof.
  intros Hst. unfold apply_batch. apply both_refl; intros commit _. apply both_refl; intros pairs _.
  apply both_refl; intros groups Hg. eapply both_bind.
  { apply update_all_local; [|exact Hst]. intros id f Hin. unfold trade_updates in Hin.
    apply list_elem_of_fmap in Hin as ([id' es] & [= -> _] & Hin). eapply by_trade_ids in Hin as (event & He & Ht); [|done].
    unfold batch_trade_ids. apply bset_of_list_elem, elem_of_app. left. apply list_elem_of_omap. exists event. by rewrite Ht. }
  intros s1 t1 (H1 & H2 & H3). apply both_refl; intros legs Hl.
  assert (Hloc := update_all_local (batch_trade_ids batch) (leg_updates legs)). 
  specialize (Hloc ltac:(intros id f Hin; apply list_elem_of_fmap in Hin as ([id' leg] & [= -> _] & Hin);
    by eapply match_legs_ids) s1 t1 H1).
  destruct (update_all s1 _), (update_all t1 _); cbn in *; try done. destruct Hloc as (L1 & L2 & L3).
  split_and!; [done|..]; intros k Hk; [by rewrite H2, L2|by rewrite H3, L3].
Qed.

(** ** Records keep their key *)

Definition keyed (s : TradeState) : Prop := ∀ k r, s !! k = Some r → tr_trade_id r = k.
Definition keeps_id (f : TradeRecord → iresult TradeRecord) : Prop :=
  ∀ r r', f r = Ok r' → tr_trade_id r' = tr_trade_id r.

Lemma foldl_keeps_id {A} (g : TradeRecord → A → TradeRecord) l r :
  (∀ r a, tr_trade_id (g r a) = tr_trade_id r) → tr_trade_id (foldl g r l) = tr_trade_id r.
Proof. intros Hg. revert r. induction l as [|a l IH]; intros r; cbn; [done|]. by rewrite IH, Hg. Qed.

Lemma apply_settles_id settles commit : ∀ r r', apply_settles r settles commit = Ok r' → tr_trade_id r' = tr_trade_id r.
Proof.
  induction settles as [|event settles IH]; intros r r' E; cbn in E; [by injection E as ->|].
  apply rbind_Ok in E as (r1 & E1 & E). apply IH in E as ->. unfold upsert_side in E1. res_inv E1. by subst r1.
Qed.

Lemma update_all_keyed ups : (∀ id f, (id, f) ∈ ups → keeps_id f) → ∀ s s', keyed s → update_all s ups = Ok s' → keyed s'.
Proof.
  induction ups as [|[id f] ups IH]; intros Hf s s' Hs E; cbn in E; [by injection E as <-|].
  apply rbind_Ok in E as (s1 & E1 & E). unfold update_record in E1. apply rbind_Ok in E1 as (r & Er & [= <-]).
  eapply IH; [intros id' f' Hin; apply (Hf id' f'); by right| |exact E].
  intros k r' [[-> ->]|[Hne Hl]]%lookup_insert_Some; [|by apply Hs].
  apply (Hf k f) in Er as ->; [|by left]. destruct (s !! k) eqn:El; [by apply Hs|done].
Qed.

Lemma apply_batch_keyed s batch s' : keyed s → apply_batch s batch = Ok s' → keyed s'.
Proof.
  unfold apply_batch. intros Hs E. apply rbind_Ok in E as (commit & _ & E). apply rbind_Ok in E as (pairs & _ & E).
  apply rbind_Ok in E as (groups & _ & E). apply rbind_Ok in E as (s1 & E1 & E). apply rbind_Ok in E as (legs & _ & E).
  apply (update_all_keyed _) in E; [done| |].
  - intros id f Hin. apply list_elem_of_fmap in Hin as ([id' leg] & [= _ ->] & _). intros r r' [= <-].
    unfold apply_leg. cbn. by apply foldl_keeps_id.
  - apply (update_all_keyed _) in E1; [done| |done].
    intros id f Hin. apply list_elem_of_fmap in Hin as ([id' es] & [= _ ->] & _). intros r r' E'. res_inv E'. subst r'.
    cbn. unfold apply_trade_events in Ha. res_inv Ha. subst a. rewrite foldl_keeps_id by done.
    apply apply_settles_id in Ha0 as ->. by apply foldl_keeps_id.
Qed.

(** Updates add trades and never remove one. *)
Lemma update_all_grows ups : ∀ s s' k, update_all s ups = Ok s' → is_Some (s !! k) → is_Some (s' !! k).
Proof.
  induction ups as [|[id f] ups IH]; intros s s' k E Hk; cbn in E; [by injection E as <-|].
  apply rbind_Ok in E as (s1 & E1 & E). unfold update_record in E1. apply rbind_Ok in E1 as (r & _ & [= <-]).
  eapply IH; [exact E|]. rewrite lookup_insert_is_Some'. by right.
Qed.
Lemma apply_batch_grows s batch s' k : apply_batch s batch = Ok s' → is_Some (s !! k) → is_Some (s' !! k).
Proof.
  unfold apply_batch. intros E Hk. apply rbind_Ok in E as (commit & _ & E). apply rbind_Ok in E as (pairs & _ & E).
  apply rbind_Ok in E as (groups & _ & E). apply rbind_Ok in E as (s1 & E1 & E). apply rbind_Ok in E as (legs & _ & E).
  eauto using update_all_grows.
Qed.

Lemma insert_records_lookup (state : TradeState) rs : (∀ r, r ∈ rs → state !! tr_trade_id r = Some r) → ∀ v k,
  (foldl (fun v r => <[tr_trade_id r := r]> v) v rs : TradeState) !! k
  = if decide (k ∈ map tr_trade_id rs) then state !! k else v !! k.
Proof.
  induction rs as [|r rs IH]; intros Hrs v k; cbn [foldl map].
  { by rewrite decide_False by set_solver. }
  rewrite IH by (intros; apply Hrs; by right). destruct (decide (k = tr_trade_id r)) as [->|Hne].
  - rewrite (decide_True _ _ (list_elem_of_here (tr_trade_id r) _)), lookup_insert_eq, Hrs by (by left). by case_decide.
  - rewrite lookup_insert_ne by done. assert (k ∈ tr_trade_id r :: map tr_trade_id rs ↔ k ∈ map tr_trade_id rs) by set_solver.
    repeat case_decide; naive_solver.
Qed.

(** ** The service over a lawful index *)

(** What the service relies on of the trade index port: reads return the stored record, a
    successful write stores the record under its id. *)
Class TradeIndexLaws {W} (ports : TradePorts W) (view : W → TradeState) := {
  get_reads id w found : get_trade ports id w = Ok found → found = view w !! id;
  put_writes r w w' : put_trade ports r w = (Ok tt, w') → view w' = <[tr_trade_id r := r]> (view w);
}.

Section Service.
Context {W : Type} (ports : TradePorts W) (view : W → TradeState) `{!TradeIndexLaws ports view}.

(** The seed is the part of the index that the batch names. *)
Lemma seed_state_spec ids : ∀ s w s' w', seed_state ports ids s w = (Ok s', w') →
  w' = w ∧ ∀ k, s' !! k = if decide (k ∈ ids) then union (view w !! k) (s !! k) else s !! k.
Proof using TradeIndexLaws0.
  induction ids as [|id ids IH]; intros s w s' w' E; cbn [seed_state] in E.
  { injection E as <- <-. split; [done|]. intros k. by rewrite decide_False by set_solver. }
  apply xbind_Ok in E as (found & w1 & Eq & E). apply xquery_Ok in Eq as [Eq ->].
  unfold trade_index_call in Eq. apply map_err_Ok, get_reads in Eq as ->.
  apply IH in E as [-> Hs']. split; [done|]. intros k. rewrite Hs'. destruct (decide (k = id)) as [->|Hne].
  - rewrite (decide_True _ _ (list_elem_of_here id ids)). destruct (view w !! id) as [r|] eqn:Ev; rewrite ?lookup_insert_eq;
      case_decide; by destruct (s !! id).
  - assert (Hk : k ∈ id :: ids ↔ k ∈ ids) by set_solver.
    assert (Hlk : match view w !! id with Some r => <[id := r]> s | None => s end !! k = s !! k)
      by (destruct (view w !! id); [by rewrite lookup_insert_ne|done]).
    rewrite Hlk. repeat case_decide; naive_solver.
Qed.

Lemma seed_state_err ids e w' : ∀ s w, seed_state ports ids s w ≠ (Err (TsIndex e), w').
Proof using.
  induction ids as [|id ids IH]; intros s w Es; cbn [seed_state] in Es; [done|].
  apply xbind_inv in Es as [(e' & Eq & [= <-])|(found & w1 & _ & Es)]; [|by apply IH in Es].
  unfold xquery, trade_index_call in Eq. by destruct (get_trade ports id w).
Qed.

(** The port documents [NotFound] for a trade without a record; an adapter that answers so
    makes every batch that names a new trade fail. *)
Theorem not_found_blocks_ingest batch w :
  (∃ id, id ∈ batch_trade_ids batch ∧ get_trade ports id w = Err TradeNotFound) →
  ∃ m, ingest_batch ports batch w = (Err (TsTradeIndex m), w).
Proof using.
  intros (id & Hin & Hg). unfold ingest_batch, xbind at 1. revert Hin. generalize (∅ : TradeState).
  induction (batch_trade_ids batch) as [|id' ids IH]; intros s Hin; [by apply not_elem_of_nil in Hin|].
  cbn [seed_state]. unfold xbind at 1, xquery, trade_index_call. destruct (get_trade ports id' w) as [found|e] eqn:E; cbn [map_err]; [|eauto].
  apply elem_of_cons in Hin as [->|Hin]; [congruence|]. by apply IH.
Qed.

Lemma put_list_spec rs : ∀ w w',
  xforeach (fun record => xcall (put_trade ports record) (fun err => TsTradeIndex (trade_index_error_to_string err))) rs w
    = (Ok tt, w') →
  view w' = foldl (fun v r => <[tr_trade_id r := r]> v) (view w) rs.
Proof using TradeIndexLaws0.
  induction rs as [|r rs IH]; intros w w' E; cbn [xforeach] in E; [by injection E as <-|].
  apply xbind_Ok in E as ([] & w1 & E1 & E). apply xcall_Ok, put_writes in E1. apply IH in E as ->. by rewrite E1.
Qed.

Lemma put_list_err rs e w' : ∀ w,
  xforeach (fun record => xcall (put_trade ports record) (fun err => TsTradeIndex (trade_index_error_to_string err))) rs w
    ≠ (Err (TsIndex e), w').
Proof using.
  induction rs as [|r rs IH]; intros w E; cbn [xforeach] in E; [done|].
  apply xbind_inv in E as [(e' & E1 & [= <-])|([] & w1 & _ & E)]; [|by apply IH in E].
  unfold xcall in E1. by destruct (put_trade ports r w) as [[|] ?].
Qed.

(** Storing a state overwrites the index by it. *)
Lemma put_all_spec state w w' : keyed state → put_all ports state w = (Ok tt, w') → view w' = state ∪ view w.
Proof using TradeIndexLaws0.
  intros Hk E. apply put_list_spec in E as ->.
  assert (Hval : ∀ r, r ∈ state_values state ↔ state !! tr_trade_id r = Some r).
  { intros r. unfold state_values. rewrite list_elem_of_fmap. setoid_rewrite sort_by_perm. split.
    - intros ([k r'] & -> & Hin%elem_of_map_to_list). cbn. by rewrite (Hk _ _ Hin).
    - intros Hl. exists (tr_trade_id r, r). split; [done|]. by apply elem_of_map_to_list. }
  apply map_eq. intros k. rewrite (insert_records_lookup state) by (intros r; apply Hval). rewrite lookup_union.
  case_decide as Hin.
  - apply list_elem_of_fmap in Hin as (r & -> & Hr%Hval). rewrite Hr. by rewrite union_Some_l.
  - destruct (state !! k) as [r|] eqn:El; [|by rewrite (left_id _ _)]. exfalso. apply Hin, list_elem_of_fmap. exists r.
    pose proof (Hk _ _ El) as <-. split; [done|]. by apply Hval.
Qed.

(** One ingested batch changes the index as the builder changes the whole state. *)
Lemma ingest_batch_spec batch w r w' : keyed (view w) → ingest_batch ports batch w = (r, w') →
  match r with
  | Ok _ => apply_batch (view w) batch = Ok (view w') ∧ keyed (view w')
  | Err (TsIndex e) => apply_batch (view w) batch = Err e ∧ w' = w
  | Err _ => True
  end.
Proof using TradeIndexLaws0.
  intros Hk E. unfold ingest_batch in E. apply xbind_inv in E as [(e & Es & ->)|(seed & w1 & Es & E)].
  { destruct e; try done. exfalso. by eapply seed_state_err. }
  apply seed_state_spec in Es as [-> Hseed].
  assert (Hagree : agree_on (batch_trade_ids batch) seed (view w)).
  { intros k Hin. rewrite Hseed, decide_True, lookup_empty by done. by destruct (view w !! k). }
  assert (Hoff : ∀ k, k ∉ batch_trade_ids batch → seed !! k = None)
    by (intros k Hn; by rewrite Hseed, decide_False, lookup_empty).
  assert (Hks : keyed seed).
  { intros k r' Hl. destruct (decide (k ∈ batch_trade_ids batch)) as [Hin|Hn]; [|by rewrite Hoff in Hl].
    rewrite (Hagree k Hin) in Hl. by apply Hk. }
  pose proof (apply_batch_local batch seed (view w) Hagree) as Hloc.
  apply xbind_inv in E as [(e & El & ->)|(state & w1 & El & E)]; unfold xlift in El; injection El as El <-.
  - destruct (apply_batch seed batch) as [|e'], (apply_batch (view w) batch) as [|e'']; cbn in *; try done.
    injection El as <-. by subst.
  - apply map_err_Ok in El. rewrite El in Hloc. destruct (apply_batch (view w) batch) as [full|] eqn:Ef; [|done].
    destruct Hloc as (H1 & H2 & H3).
    destruct r as [[]|e]; [|destruct e; try done].
    + apply put_all_spec in E; [|by eapply apply_batch_keyed]. assert (view w' = full) as <-.
      { rewrite E. apply map_eq. intros k. rewrite lookup_union. destruct (decide (k ∈ batch_trade_ids batch)) as [Hin|Hn].
        - rewrite (H1 k Hin). destruct (full !! k) as [r'|] eqn:Efk; [by rewrite union_Some_l|].
          destruct (view w !! k) eqn:Evk; [|done].
          assert (is_Some (full !! k)) as [? ?] by (eapply apply_batch_grows; eauto). congruence.
        - rewrite <- (H2 k Hn), Hoff, <- (H3 k Hn) by done. by rewrite (left_id _ _). }
      split; [done|]. by apply (apply_batch_keyed (view w) batch).
    + exfalso. exact (put_list_err _ _ _ _ E).
Qed.

(** Ingest batches one after the other, stopping at the first error. *)
Definition ingest_all (batches : list IngestBatch) : TEff W unit := xforeach (ingest_batch ports) batches.

Lemma ingest_all_spec batches : ∀ w r w', keyed (view w) → ingest_all batches w = (r, w') →
  match r with
  | Ok _ => apply_batches (view w) batches = Ok (view w') ∧ keyed (view w')
  | Err (TsIndex e) => apply_batches (view w) batches = Err e
  | Err _ => True
  end.
Proof using TradeIndexLaws0.
  unfold ingest_all. induction batches as [|batch batches IH]; intros w r w' Hk E; cbn [xforeach] in E.
  { by injection E as <- <-. }
  apply xbind_inv in E as [(e & E1 & ->)|([] & w1 & E1 & E)]; apply ingest_batch_spec in E1; try done.
  - destruct e; try done. destruct E1 as [E1 _]. cbn. by rewrite E1.
  - destruct E1 as [E1 Hk1]. apply IH in E; [|done]. cbn. rewrite E1. exact E.
Qed.

Lemma apply_batches_keyed batches : ∀ s s', keyed s → apply_batches s batches = Ok s' → keyed s'.
Proof using.
  induction batches as [|batch batches IH]; intros s s' Hs E; cbn in E; [by injection E as <-|].
  apply rbind_Ok in E as (s1 & E1 & E). eauto using apply_batch_keyed.
Qed.

(** C26: incremental ingestion is replay.  Starting from an empty index, ingesting batches one
    by one (each call seeded only with the trades its batch names) leaves exactly the index
    that the builder computes from the whole stream, and that a rebuild of the stream writes
    into another empty index; a stream that ingestion rejects is rejected by the rebuild with the
    same error, before anything is written.  Other failures are failures of the index port. *)
Theorem ingest_is_replay (batches : list IngestBatch) (w w' : W) (r : result unit TradeServiceError) :
  view w = ∅ → ingest_all batches w = (r, w') →
  match r with
  | Ok _ => apply_batches ∅ batches = Ok (view w') ∧
      ∀ v v', view v = ∅ → rebuild_index ports batches v = (Ok tt, v') → view v' = view w'
  | Err (TsIndex e) => ∀ v, rebuild_index ports batches v = (Err (TsIndex e), v)
  | Err _ => True
  end.
Proof using TradeIndexLaws0.
  intros Hw E. assert (Hk : keyed (view w)) by (rewrite Hw; intros ? ?; by rewrite lookup_empty).
  apply ingest_all_spec in E; [|done]. rewrite Hw in E. destruct r as [[]|e].
  - destruct E as [E _]. split; [done|]. intros v v' Hv Er. unfold rebuild_index in Er. rewrite E in Er.
    apply xbind_Ok in Er as (state & v1 & El & Er). apply xlift_Ok in El as [[= <-] ->].
    apply put_all_spec in Er; [|rewrite <- Hw in E; by eapply apply_batches_keyed]. rewrite Er, Hv. apply (right_id_L _ _).
  - destruct e; try done. intros v. unfold rebuild_index. by rewrite E.
Qed.
End Service.

(** ** Attribution of value legs *)

Lemma sort_insert_map {A B} (f : A → B) (cmp : B → B → comparison) x l :
  map f (sort_insert (fun a b => cmp (f a) (f b)) x l) = sort_insert cmp (f x) (map f l).
Proof. induction l as [|y l IH]; cbn; [done|]. destruct (cmp (f x) (f y)); cbn; by rewrite ?IH. Qed.
Lemma sort_by_map {A B} (f : A → B) (cmp : B → B → comparison) l :
  map f (sort_by (fun a b => cmp (f a) (f b)) l) = sort_by cmp (map f l).
Proof. unfold sort_by. induction l as [|x l IH]; cbn [foldr map]; [done|]. by rewrite sort_insert_map, IH. Qed.

Definition non_empty (s : string) : option string := if str_is_empty s then None else Some s.

(** The index reads the same pairs as the validator, except that it reads an empty recipient
    as none, and it keeps the event ids and the tenant of the pair. *)
Definition same_pair (groups : list (IntentId * list Event)) (p : RecoveredValuePair) (q : IndexPair) : Prop :=
  ip_debit q = rp_debit p ∧ ip_resource q = rp_resource p ∧
  ip_credited_subject q = (rp_credited_subject p ≫= non_empty) ∧
  ∃ first group, (rp_intent_id p, first :: group) ∈ groups ∧
    ip_event_ids q = sort_by str_cmp (map e_event_id (first :: group)) ∧ ip_tenant q = e_tenant_id first.

Lemma same_pair_weaken g groups p q : same_pair groups p q → same_pair (g :: groups) p q.
Proof. intros (H1 & H2 & H3 & first & group & Hin & H4). do 3 (split; [done|]). exists first, group. by split; [right|]. Qed.

Lemma ix_pair_loop_spec group : Forall event_wf group → ∀ d d' acc,
  value_pair_debit group d = Ok d' →
  ix_pair_loop group d (acc ≫= non_empty) = Ok (d',
    foldl (fun acc event =>
      if amount_ltb (commitment_amount (e_before event) "balance") (commitment_amount (e_after event) "balance")
      then rs_subject (c_state (e_after event)) else acc) acc group ≫= non_empty).
Proof.
  induction 1 as [|event group [Wb Wa] _ IH]; intros d d' acc E; cbn [value_pair_debit ix_pair_loop foldl] in *;
    [by injection E as <-|].
  change (ix_amount (c_state (e_before event))) with (commitment_amount (e_before event) "balance").
  change (ix_amount (c_state (e_after event))) with (commitment_amount (e_after event) "balance").
  pose proof (amount_ltb_spec _ _ (commitment_amount_wf _ "balance" Wa) (commitment_amount_wf _ "balance" Wb)) as L1.
  pose proof (amount_ltb_spec _ _ (commitment_amount_wf _ "balance" Wb) (commitment_amount_wf _ "balance" Wa)) as L2.
  destruct (amount_ltb (commitment_amount (e_after event) "balance") _) eqn:E1.
  - assert (amount_ltb (commitment_amount (e_before event) "balance") (commitment_amount (e_after event) "balance") = false) as ->.
    { apply not_true_iff_false. intros HL%L2. assert (HL' := proj1 L1 eq_refl). lia. }
    destruct (checked_sub _ _) as [delta|]; cbn [ok_or rbind] in *; [|done].
    destruct (checked_add d delta) as [d1|]; cbn [ok_or rbind] in *; [|done]. by apply IH.
  - destruct (amount_ltb (commitment_amount (e_before event) "balance") _); [|by apply IH].
    rewrite <- (IH d d' (rs_subject (c_state (e_after event))) E). f_equal.
Qed.

Lemma ix_recover_spec groups : (∀ g, g ∈ groups → Forall event_wf g.2) → ∀ ps, recover_pairs_loop groups = Ok ps →
  ∃ qs, ix_recover_loop groups = Ok qs ∧ Forall2 (same_pair groups) ps qs.
Proof.
  induction groups as [|[id group] groups IH]; intros Hw ps E; cbn [recover_pairs_loop ix_recover_loop] in *.
  { injection E as <-. exists []. by split; [|constructor]. }
  specialize (IH (fun g Hg => Hw g (list_elem_of_further _ _ _ Hg))).
  assert (Hskip : ∀ ps, recover_pairs_loop groups = Ok ps →
    ∃ qs, ix_recover_loop groups = Ok qs ∧ Forall2 (same_pair ((id, group) :: groups)) ps qs).
  { intros ps' (qs & -> & HF)%IH. exists qs. split; [done|]. eapply Forall2_impl; [done|]. intros. by apply same_pair_weaken. }
  destruct group as [|first group]; [by apply Hskip|].
  destruct (String.eqb (e_operation first) balance_transfer); cbn [negb]; [|by apply Hskip].
  destruct (length (first :: group) =? 2)%nat; cbn [negb] in *; [|done].
  apply rbind_Ok in E as (debit & Ed & E). apply rbind_Ok in E as (ps' & Ep & [= <-]).
  apply (ix_pair_loop_spec _ (Hw (id, first :: group) (list_elem_of_here _ _)) _ _ None) in Ed. cbn [mbind option_bind snd] in Ed.
  rewrite Ed. cbn [rbind]. apply Hskip in Ep as (qs & -> & HF). cbn [rbind]. eexists. split; [done|].
  constructor; [|done]. do 3 (split; [done|]). exists first, group. by split; [left|].
Qed.

Lemma declared_leg_spec intent t id : declared_value_leg_tuple intent = Ok t → ix_intent_str intent "trade_id" = Ok id →
  ∃ d, declared_leg intent = Ok d ∧ dl_key d = t ∧ dl_trade_id d = id.
Proof.
  unfold declared_value_leg_tuple, declared_leg. intros E Hid. res_inv E. subst t.
  rewrite orb_false_iff in *. destruct_and!. unfold ix_intent_str at 1 2 3.
  repeat match goal with E : i_inputs intent !! _ = Some _ |- _ => rewrite E; clear E end. cbn [mbind option_bind].
  repeat match goal with E : as_str _ = Some _ |- _ => rewrite E; clear E end.
  repeat match goal with E : str_is_empty _ = false |- _ => rewrite E; clear E end.
  destruct (str_is_empty a4) eqn:Ea; [by destruct a4|]. rewrite Hid. cbn [rbind]. rewrite Ha5. cbn. by eexists.
Qed.

(** The key of a declaration is its parsed amount, resource and recipient. *)
Lemma declared_leg_key intent d : declared_leg intent = Ok d →
  try_from_str (dl_amount_str d) = Ok (dl_key d).1.1 ∧ (dl_key d).2 = Some (dl_to_subject d).
Proof. unfold declared_leg. intros E. res_inv E. subst d. done. Qed.

(** A declared leg names a recipient. *)
Lemma declared_recipient intent t : declared_value_leg_tuple intent = Ok t → t.2 ≫= non_empty = t.2.
Proof.
  unfold declared_value_leg_tuple. intros E. res_inv E. subst t. cbn. unfold non_empty.
  rewrite orb_false_iff in *. destruct_and!. by case_match.
Qed.

Lemma tuple_eqb_recipient (a b : ValueTuple) : tuple_eqb a b = true → a.2 = b.2.
Proof.
  unfold tuple_eqb, tuple_cmp. destruct (amount_cmp a.1.1 b.1.1), (str_cmp a.1.2 b.1.2), (option_cmp a.2 b.2) eqn:E; try done.
  intros _. by apply option_cmp_eq.
Qed.

(** When every position agrees, the zip attributes everything. *)
Definition leg_of (commit : CommitRef) (d : DeclaredValueLeg) (q : IndexPair) : string * TradeValueLeg :=
  (dl_trade_id d, mkTradeValueLeg (ip_resource q) (dl_amount_str d) (dl_to_subject d) (ip_event_ids q) (ip_tenant q) commit).

Lemma zip_legs_all commit declared pairs :
  Forall2 (fun d q => tuple_eqb (dl_key d) (index_pair_key q) = true) declared pairs →
  zip_legs commit declared pairs = zip_with (leg_of commit) declared pairs.
Proof.
  induction 1 as [|d q declared pairs Ht _ IH]; cbn [zip_legs zip_with]; [done|]. rewrite Ht. cbn [app]. by rewrite IH.
Qed.

Lemma declared_legs_spec intents ts : rmap declared_value_leg_tuple intents = Ok ts →
  Forall (fun intent => ∃ id, ix_intent_str intent "trade_id" = Ok id) intents →
  ∃ ds, rmap declared_leg intents = Ok ds ∧ map dl_key ds = ts.
Proof.
  intros HF%rmap_Ok. induction HF as [|intent t intents ts Ht _ IH]; intros Hid; [by exists []|].
  apply Forall_cons in Hid as [(id & Hid) Hrest]. destruct (IH Hrest) as (ds & Hds & <-).
  destruct (declared_leg_spec intent t id Ht Hid) as (d & Hd & <- & _).
  exists (d :: ds). cbn. by rewrite Hd, Hds.
Qed.

(** The events of a payment. *)
Definition payment_events (events : list Event) (p : RecoveredValuePair) : list Event :=
  List.filter (of_intent (rp_intent_id p)) events.

(** What an index pair says of the validator's payment [p]. *)
Definition pair_recorded (events : list Event) (p : RecoveredValuePair) (q : IndexPair) : Prop :=
  index_pair_key q = pair_tuple p ∧
  ip_event_ids q = sort_by str_cmp (map e_event_id (payment_events events p)) ∧
  ∃ e, e ∈ payment_events events p ∧ ip_tenant q = e_tenant_id e.

(** A recorded leg, its declaration [d] and its payment [p]: the payment is two events of the
    batch that move the declared amount of the declared resource to the declared recipient,
    and the leg names the declaration's trade and exactly those events. *)
Record leg_records (events : list Event) (commit : CommitRef) (d : DeclaredValueLeg) (p : RecoveredValuePair)
    (l : string * TradeValueLeg) : Prop := {
  lr_payment : is_payment events p;
  lr_amount : ∃ a, try_from_str (dl_amount_str d) = Ok a ∧ aval a = aval (rp_debit p);
  lr_resource : (dl_key d).1.2 = rp_resource p;
  lr_recipient : rp_credited_subject p = Some (dl_to_subject d);
  lr_leg : l = (dl_trade_id d, mkTradeValueLeg (rp_resource p) (dl_amount_str d) (dl_to_subject d)
    (sort_by str_cmp (map e_event_id (payment_events events p))) (vl_tenant l.2) commit);
  lr_tenant : Forall (fun e => e_tenant_id e = vl_tenant l.2) (payment_events events p);
}.

(** In an accepted batch every payment has a recipient that is not empty. *)
Lemma accepted_recipients intents ts ps : rmap declared_value_leg_tuple intents = Ok ts →
  list_eqb tuple_eqb (sort_by tuple_cmp ts) (sort_by tuple_cmp (map pair_tuple ps)) = true →
  ∀ p, p ∈ ps → rp_credited_subject p ≫= non_empty = rp_credited_subject p.
Proof.
  intros Hts Heq p Hp. apply sorted_eq_match in Heq as (b & Hperm & HF).
  assert (Hin : pair_tuple p ∈ b) by (rewrite Hperm; apply list_elem_of_fmap; eauto).
  apply list_elem_of_lookup in Hin as (i & Hi). destruct (Forall2_lookup_r _ _ _ _ _ HF Hi) as (t & Ht & He).
  apply tuple_eqb_recipient in He. cbn in He. rewrite <- He.
  apply rmap_Ok in Hts. destruct (Forall2_lookup_r _ _ _ _ _ Hts Ht) as (intent & _ & Hd).
  by eapply declared_recipient.
Qed.

(** The payments of an accepted batch, as the index recovers them. *)
Lemma recovered_pairs_recorded events ps : Forall event_wf events → recover_value_pairs events = Ok ps →
  (∀ p, p ∈ ps → rp_credited_subject p ≫= non_empty = rp_credited_subject p) →
  ∃ qs, ix_recover_value_pairs events = Ok qs ∧ Forall2 (pair_recorded events) ps qs.
Proof.
  intros Hw Hps Hrec. destruct (group_by_intent_spec events) as [Hsorted Hl].
  assert (Hg : ∀ id es, (id, es) ∈ group_by_intent events → es = List.filter (of_intent id) events).
  { intros id es Hin. pose proof (alookup_In _ _ _ Hsorted Hin) as Hg. by rewrite Hl in Hg. }
  destruct (ix_recover_spec (group_by_intent events)) with (ps := ps) as (qs & Hqs & Hpq); [|done|].
  { intros [id es] Hin. cbn [snd]. rewrite (Hg id es Hin). rewrite Forall_forall in *.
    intros e He%list_elem_of_In. apply filter_In in He as [He%list_elem_of_In _]. auto. }
  exists qs. split; [done|]. clear Hps Hqs. induction Hpq as [|p q ps qs (H1 & H2 & H3 & first & group & Hin & H4 & H5) _ IH];
    constructor; [|apply IH; intros; apply Hrec; by right].
  unfold pair_recorded, payment_events. rewrite <- (Hg _ _ Hin). split; [|split; [done|]].
  - unfold index_pair_key, pair_tuple. by rewrite H1, H2, H3, Hrec by left.
  - exists first. split; [left|done].
Qed.

(** A pair that agrees with a declaration gives the leg of its payment. *)
Lemma leg_of_records events commit intent d p q : Forall event_wf events →
  validate_batch_consistency events = Ok tt → amount_wf (rp_debit p) → is_payment events p →
  declared_leg intent = Ok d → pair_recorded events p q → tuple_eqb (dl_key d) (index_pair_key q) = true →
  leg_records events commit d p (leg_of commit d q).
Proof.
  intros Hw Hbc Wd Hpay Hd (Hkey & Hids & e & He & Ht) Heq. apply declared_leg_key in Hd as [Ha Hr].
  rewrite Hkey in Heq. apply tuple_eqb_true in Heq as (Ea & Er & Es); [|by eapply try_from_str_wf|done].
  cbn in Ea, Er, Es. rewrite Hr in Es. injection Hkey as _ Hres _.
  split; [done|by eexists|done|done| |]; cbn [leg_of snd vl_tenant].
  - unfold leg_of. by rewrite Hids, Hres.
  - destruct (batch_consistency_sound events (rp_intent_id p) Hw Hbc) as (_ & Hten & _).
    rewrite Ht. apply Forall_forall. intros e' He'. unfold payment_events in *.
    apply list_elem_of_In, filter_In in He as [He%list_elem_of_In _], He' as [He'%list_elem_of_In _]. by apply Hten.
Qed.

Lemma zip_records events commit ds ps qs : Forall event_wf events → validate_batch_consistency events = Ok tt →
  Forall (fun p => amount_wf (rp_debit p) ∧ is_payment events p) ps →
  Forall (fun d => ∃ intent, declared_leg intent = Ok d) ds → Forall2 (pair_recorded events) ps qs →
  Forall2 (fun d q => tuple_eqb (dl_key d) (index_pair_key q) = true) ds qs →
  Forall3 (leg_records events commit) ds ps (zip_with (leg_of commit) ds qs).
Proof.
  intros Hw Hbc Hpay Hds Hpq Hdq. revert ps Hpay Hds Hpq.
  induction Hdq as [|d q ds qs Heq _ IH]; intros ps Hpay Hds Hpq; inversion Hpq; subst; [constructor|].
  apply Forall_cons in Hpay as [[W P] Hpay]. apply Forall_cons in Hds as [[intent Hd] Hds].
  constructor; [by eapply leg_of_records|by apply IH].
Qed.

(** C29: the read side attributes what the validator accepted.  Take a settlement batch that
    passed the batch and the settlement validators, whose value-declaring settle intents name
    their trade.  The index recovers exactly the payments the settlement validator recovered,
    and the legs it records, the declarations of the intents and those payments correspond
    one to one, in some order: each leg names its declaration's trade, amount and recipient,
    and the events of its own payment, which moves that amount of that resource to that
    recipient ([leg_records]). *)
Theorem settled_legs_attributed (events : list Event) (intents : list Intent) (signed : Signed Commit) (commit : CommitRef) :
  Forall event_wf events → validate_batch_consistency events = Ok tt → validate_settle_batch events intents = Ok tt →
  (∀ intent, intent ∈ intents → declares_value_leg intent = true → ∃ id, ix_intent_str intent "trade_id" = Ok id) →
  ∃ payments pairs declared legs, recover_value_pairs events = Ok payments ∧
    ix_recover_value_pairs events = Ok pairs ∧ map index_pair_key pairs = map pair_tuple payments ∧
    rmap declared_leg (List.filter declares_value_leg intents) = Ok declared ∧
    match_value_legs (mkIngest events intents signed) pairs commit = Ok legs ∧
    ∃ ds ps, ds ≡ₚ declared ∧ ps ≡ₚ payments ∧ Forall3 (leg_records events commit) ds ps legs.
Proof.
  intros Hw Hbc Hv Hid. unfold validate_settle_batch in Hv.
  apply rbind_Ok in Hv as ([] & _ & Hv). apply rbind_Ok in Hv as ([] & _ & Hv).
  apply rbind_Ok in Hv as (ps & Hps & Hv). apply rbind_Ok in Hv as ([] & _ & Hv).
  apply rbind_Ok in Hv as ([] & _ & Hv). apply rbind_Ok in Hv as (ts & Hts & Hv).
  res_inv Hv. apply negb_false_iff in Hb0.
  destruct (recovered_pairs_recorded events ps Hw Hps) as (qs & Hqs & Hpq); [by eapply accepted_recipients|].
  destruct (declared_legs_spec _ _ Hts) as (ds & Hds & Hkeys).
  { apply Forall_forall. intros intent Hin%list_elem_of_In. apply filter_In in Hin as [Hin%list_elem_of_In Hd]. auto. }
  assert (Hsame : map index_pair_key qs = map pair_tuple ps).
  { clear -Hpq. induction Hpq as [|p q ps qs [H1 _] _ IH]; cbn; [done|]. by rewrite H1, IH. }
  eexists ps, qs, ds, _. do 4 (split; [done|]). unfold match_value_legs. cbn [ib_settle_intents]. rewrite Hds.
  split; [done|]. set (qs' := sort_by _ qs). set (ds' := sort_by _ ds).
  assert (qs' ≡ₚ qs) as Hq by apply sort_by_perm. assert (ds' ≡ₚ ds) as Hd by apply sort_by_perm.
  destruct (Permutation_Forall2 (symmetry Hq) (proj2 (Forall2_flip _ _ _) Hpq)) as (ps' & Hp & Hqp).
  assert (Hall : Forall2 (fun d q => tuple_eqb (dl_key d) (index_pair_key q) = true) ds' qs').
  { apply (Forall2_fmap_1 dl_key index_pair_key (fun a b => tuple_eqb a b = true)). fold (map dl_key) (map index_pair_key).
    unfold ds', qs'. rewrite (sort_by_map dl_key), (sort_by_map index_pair_key).
    rewrite Hkeys, Hsame. by apply list_eqb_Forall2. }
  rewrite zip_legs_all by done. exists ds', ps'. split; [done|]. split; [by symmetry|].
  apply zip_records; [done|done| | |by apply Forall2_flip|done].
  - rewrite <- Hp. by apply recovered_is_payment.
  - rewrite Hd. apply rmap_Ok in Hds. clear -Hds. induction Hds; constructor; eauto.
Qed.

(** ** Histories and proofs served *)

(** Collected commits: one per tenant and commit id, all of those offered. *)
Lemma collect_spec entries : ∀ acc, acc.2 = map (fun e => (e.1, cref_commit_id e.2)) acc.1 → NoDup acc.2 →
  let out := foldl collect acc entries in
  out.2 = map (fun e => (e.1, cref_commit_id e.2)) out.1 ∧ NoDup out.2 ∧
  (∀ key, key ∈ out.2 ↔ key ∈ acc.2 ∨ key ∈ map (fun e => (e.1, cref_commit_id e.2)) entries).
Proof.
  induction entries as [|e entries IH]; intros acc Hm Hn; cbn [foldl map]; [set_solver|].
  assert (Hstep : (collect acc e).2 = map (fun e => (e.1, cref_commit_id e.2)) (collect acc e).1 ∧ NoDup (collect acc e).2 ∧
    ∀ key, key ∈ (collect acc e).2 ↔ key ∈ acc.2 ∨ key = (e.1, cref_commit_id e.2)).
  { unfold collect. case_bool_decide as Hin; cbn [fst snd].
    - split_and!; [done|done|]. intros key. split; [by left|by intros [?| ->]].
    - split_and!; [by rewrite Hm, map_app| |].
      + apply NoDup_app. split_and!; [done|set_solver|apply NoDup_singleton].
      + intros key. by rewrite elem_of_app, list_elem_of_singleton. }
  destruct Hstep as (S1 & S2 & S3). destruct (IH (collect acc e) S1 S2) as (I1 & I2 & I3).
  split_and!; [done|done|]. intros key. rewrite I3, S3, elem_of_cons. tauto.
Qed.

Section Serve.
Context {W : Type} (ports : TradePorts W).

Lemma resolve_events_spec refs : ∀ found w out w', resolve_events ports refs found w = (Ok out, w') →
  (∀ k e, found !! k = Some e → tp_event_by_id ports k.1 k.2 w = Ok (Some e)) →
  w' = w ∧ (∀ k e, out !! k = Some e → tp_event_by_id ports k.1 k.2 w = Ok (Some e)).
Proof.
  induction refs as [|r refs IH]; intros found w out w' E Hf; cbn [resolve_events] in E; [by injection E as <- <-|].
  apply xbind_Ok in E as (event & w1 & Eq & E). apply xquery_Ok in Eq as [Eq%map_err_Ok ->].
  destruct event as [event|]; [|done]. apply (IH _ _ _ _ E).
  intros k e [[<- <-]|[_ Hl]]%lookup_insert_Some; [done|auto].
Qed.

(** The history of a trade.  A history is returned only for an indexed trade, with the
    record's status; its events are those the event store holds for the record's references,
    all of them and in the record's order; and its commits are the distinct (tenant, commit)
    pairs that committed the record's sides and value legs. *)
Theorem history_exact (trade_id : string) (w w' : W) (h : TradeHistory) :
  get_history ports trade_id w = (Ok (Some h), w') →
  w' = w ∧ ∃ record, get_trade ports trade_id w = Ok (Some record) ∧
    th_trade_id h = tr_trade_id record ∧ th_status h = tr_status record ∧
    Forall2 (fun r te => tp_event_by_id ports (ter_tenant_id r) (ter_event_id r) w = Ok (Some (tev_event te)) ∧
               tev_tenant_id te = ter_tenant_id r) (tr_events record) (th_events h) ∧
    NoDup (map (fun c => (c.1, cref_commit_id c.2)) (th_commits h)) ∧
    (∀ tenant id, (tenant, id) ∈ map (fun c => (c.1, cref_commit_id c.2)) (th_commits h) ↔
       (∃ side, side ∈ tr_sides record ∧ ts_tenant side = tenant ∧ cref_commit_id (ts_settle_commit side) = id) ∨
       (∃ leg, leg ∈ tr_value_legs record ∧ vl_tenant leg = tenant ∧ cref_commit_id (vl_commit leg) = id)).
Proof.
  unfold get_history. intros E. apply xbind_Ok in E as (found & w1 & Eq & E).
  apply xquery_Ok in Eq as [Eq%map_err_Ok ->]. destruct found as [record|]; [|done].
  apply xbind_Ok in E as (events & w2 & Er & E). apply xbind_Ok in E as (h' & w3 & El & E).
  apply xret_Ok in E as [[= ->] ->]. apply xlift_Ok in El as [El%map_err_Ok ->].
  apply resolve_events_spec in Er as [-> Her]; [|intros k e; by rewrite lookup_empty]. split; [done|].
  exists record. split; [done|]. unfold reconstruct_history in El. res_inv El. subst h'. cbn.
  split; [done|]. split; [done|]. split.
  { apply rmap_Ok in Ha. eapply Forall2_impl; [exact Ha|]. cbn. intros r te Ht. res_inv Ht. subst te. cbn.
    split; [|done]. by apply (Her (_, _)). }
  unfold collect_commits.
  assert (Hs : foldl (fun acc side => collect acc (ts_tenant side, ts_settle_commit side)) ([], []) (tr_sides record)
    = foldl collect ([], []) (map (fun side => (ts_tenant side, ts_settle_commit side)) (tr_sides record)))
    by (generalize (([], []) : list (TenantId * CommitRef) * list (string * string)); induction (tr_sides record); cbn; auto).
  assert (Hl : ∀ acc, foldl (fun acc leg => collect acc (vl_tenant leg, vl_commit leg)) acc (tr_value_legs record)
    = foldl collect acc (map (fun leg => (vl_tenant leg, vl_commit leg)) (tr_value_legs record)))
    by (induction (tr_value_legs record); cbn; auto).
  rewrite Hl, Hs. rewrite <- foldl_app.
  destruct (collect_spec (map (fun side => (ts_tenant side, ts_settle_commit side)) (tr_sides record)
    ++ map (fun leg => (vl_tenant leg, vl_commit leg)) (tr_value_legs record)) ([], [])) as (C1 & C2 & C3);
    [done|constructor|]. rewrite <- C1. split; [done|]. intros tenant id. rewrite C3, map_app, elem_of_app, !map_map.
  cbn [fst snd]. rewrite !list_elem_of_fmap. set_solver.
Qed.
End Serve.

Section Proofs.
Context {W : Type} (ports : TradePorts W) (H : string → string).
Context {SigningKey VerifyingKey : Type} (scheme : SignatureScheme SigningKey VerifyingKey).
Context (bcs_commit : Bcs Commit) (bcs_state : Bcs ResourceState) (bcs_proof : Bcs ResourceStateProof).
Context (key_for_tenant : TenantId → option VerifyingKey).
Notation CommitsById := (gmap string (Signed Commit * VerifyingKey)).

(** A loaded commit is the stored one of some leg's tenant, with that tenant's key. *)
Definition loaded_from (tenants : list TenantId) (w : W) (commits : CommitsById) : Prop :=
  ∀ id signed key, commits !! id = Some (signed, key) →
    ∃ tenant, tenant ∈ tenants ∧ tp_commit_by_id ports tenant id w = Ok (Some signed) ∧ key_for_tenant tenant = Some key.

Lemma load_leg_spec tenants tenant proofs : tenant ∈ tenants → ∀ commits w out w', loaded_from tenants w commits →
  load_leg ports key_for_tenant tenant proofs commits w = (Ok out, w') → w' = w ∧ loaded_from tenants w out.
Proof.
  intros Hin. induction proofs as [|p proofs IH]; intros commits w out w' Hl E; cbn [load_leg] in E; [by injection E as <- <-|].
  apply xbind_Ok in E as (c1 & w1 & E1 & E). unfold load_pinned in E1.
  destruct (commits !! cref_commit_id (rp_commit p)).
  { apply xret_Ok in E1 as [-> ->]. by apply IH in E. }
  apply xbind_Ok in E1 as (found & w2 & Eq & E1). apply xquery_Ok in Eq as [Eq%map_err_Ok ->].
  destruct found as [signed|]; [|done]. destruct (key_for_tenant tenant) as [key|] eqn:Ek; [|done].
  apply xret_Ok in E1 as [-> ->]. apply IH in E; [done|].
  intros id s k [[<- [= <- <-]]|[_ Hid]]%lookup_insert_Some; [by exists tenant|by apply Hl].
Qed.

Lemma load_legs_spec tenants legs : (∀ leg, leg ∈ legs → tl_tenant leg ∈ tenants) → ∀ commits w out w',
  loaded_from tenants w commits → load_legs ports key_for_tenant legs commits w = (Ok out, w') →
  w' = w ∧ loaded_from tenants w out.
Proof.
  induction legs as [|leg legs IH]; intros Hin commits w out w' Hl E; cbn [load_legs] in E; [by injection E as <- <-|].
  apply xbind_Ok in E as (c1 & w1 & E1 & E). apply (load_leg_spec tenants) in E1 as [-> Hl1]; [|apply Hin; by left|done].
  apply IH in E; [done| |done]. intros leg' Hleg. apply Hin. by right.
Qed.

Lemma asset_proofs_world side assets : ∀ w out w', asset_proofs ports side assets w = (Ok out, w') → w' = w.
Proof.
  induction assets as [|asset assets IH]; intros w out w' E; cbn [asset_proofs] in E; [by injection E as _ <-|].
  apply xbind_Ok in E as (found & w1 & Eq & E). apply xquery_Ok in Eq as [_ ->].
  apply xbind_Ok in E as (proof & w1 & Eq & E). apply xlift_Ok in Eq as [_ ->].
  apply xbind_Ok in E as (proofs & w1 & Ep & E). apply IH in Ep as ->. by apply xret_Ok in E as [_ ->].
Qed.
Lemma side_proofs_world sides : ∀ w out w', side_proofs ports sides w = (Ok out, w') → w' = w.
Proof.
  induction sides as [|side sides IH]; intros w out w' E; cbn [side_proofs] in E; [by injection E as _ <-|].
  apply xbind_Ok in E as (found & w1 & Eq & E). apply asset_proofs_world in Eq as ->.
  apply xbind_Ok in E as (proofs & w1 & Ep & E). apply IH in Ep as ->. by apply xret_Ok in E as [_ ->].
Qed.

(** A proof the service returns describes the indexed record and passed the verifier, against
    commits stored for the legs' tenants and under those tenants' keys. *)
Theorem served_proof_verified (trade_id : string) (w w' : W) (proof : TradeProof) :
  get_proof ports H scheme bcs_commit bcs_state bcs_proof key_for_tenant trade_id w = (Ok (Some proof), w') →
  w' = w ∧ ∃ record commits, get_trade ports trade_id w = Ok (Some record) ∧
    tp_trade_id proof = tr_trade_id record ∧ tsm_sides (tp_summary proof) = tr_sides record ∧
    tsm_status (tp_summary proof) = tr_status record ∧
    verify_trade_proof H scheme bcs_commit bcs_state bcs_proof proof commits = Ok tt ∧
    loaded_from (map tl_tenant (tp_legs proof)) w commits.
Proof.
  unfold get_proof. intros E. apply xbind_Ok in E as (found & w1 & Eq & E).
  apply xquery_Ok in Eq as [Eq%map_err_Ok ->]. destruct found as [record|]; [|done].
  apply xbind_Ok in E as (proofs & w2 & Er & E). apply side_proofs_world in Er as ->.
  apply xbind_Ok in E as (p & w3 & El & E). apply xlift_Ok in El as [El%map_err_Ok ->].
  apply xbind_Ok in E as ([] & w4 & Ev & E). apply xret_Ok in E as [[= ->] ->].
  unfold verify_inline in Ev. apply xbind_Ok in Ev as (commits & w5 & Ec & Ev). apply xlift_Ok in Ev as [Ev%map_err_Ok ->].
  apply (load_legs_spec (map tl_tenant (tp_legs p))) in Ec as [-> Hl].
  - split; [done|]. exists record, commits. unfold build_trade_proof in El. res_inv El. subst p. by split_and!.
  - intros leg Hin. apply list_elem_of_fmap. eauto.
  - intros id s k. by rewrite lookup_empty.
Qed.

(** The service proves open trades: [get_proof] is documented to return a proof for a settled
    trade, but a record with no settled side, whatever its status, yields a proof without legs
    that verifies. *)
Theorem unsettled_trade_proved (trade_id : string) (w : W) (record : TradeRecord) :
  get_trade ports trade_id w = Ok (Some record) → tr_sides record = [] →
  ∃ proof, get_proof ports H scheme bcs_commit bcs_state bcs_proof key_for_tenant trade_id w = (Ok (Some proof), w) ∧
    tp_legs proof = [] ∧ tsm_status (tp_summary proof) = tr_status record.
Proof.
  intros Hg Hs. unfold get_proof, xbind at 1, xquery, trade_index_call. rewrite Hg. cbn [map_err].
  unfold xbind, side_proofs, build_trade_proof, verify_inline, load_legs, xlift, xret. rewrite Hs. cbn -[verify_trade_proof].
  unfold verify_trade_proof. cbn. rewrite String.eqb_refl. cbn. eexists. split; [reflexivity|done].
Qed.
End Proofs.

(** ** Sample batches *)

Module IndexSamples.
(** An in-memory trade index over fixed events. *)
Definition events : list Event := Memory.events_of SettleSamples.outcome.
Definition ports : TradePorts TradeState :=
  mkTradePorts _ (fun r s => (Ok tt, <[tr_trade_id r := r]> s)) (fun id s => Ok (s !! id))
    (fun tenant id _ => Ok (List.find (fun e => String.eqb (e_tenant_id e) tenant && String.eqb (e_event_id e) id) events))
    (fun _ _ _ _ => Ok None) (fun _ _ _ => Ok None).

#[export] Instance memory_index_laws : TradeIndexLaws ports (fun s => s).
Proof. split; cbn; intros; by simplify_eq. Qed.

Definition signed (id : string) : Signed Commit :=
  mkSigned (commit_new (scope_tenant "acme") id None 1 3 "er" "r0" "r1" 0 "exec" "p") (mkSignature Ed25519 "k" "s").
Definition settle : Intent := v_intent SettleSamples.settle.
Definition batch : IngestBatch := mkIngest events [settle] (signed "cmt_1").
Definition index : TradeState := match apply_batch ∅ batch with Ok s => s | Err _ => ∅ end.

(** A second settle intent of the same trade, whose smaller payment is in another batch. *)
Definition other_settle : Intent :=
  intent_new "acme" "int_9" "trade.settle" "dave" "asset:helmet" (Some StUniqueAsset) 1
    (list_to_map [("trade_id", VString "t1"); ("value_resource", VString "asset:sword"); ("value_amount", VString "5");
       ("value_to_subject", VString "erin")]) None 0 None "n".
Definition crowded : IngestBatch := mkIngest events [settle; other_settle] (signed "cmt_1").

(** The payments in the events, whether an intent declares one, and the legs recorded. *)
Definition payments : list IndexPair := match ix_recover_value_pairs events with Ok ps => ps | Err _ => [] end.
Definition declared_by (intent : Intent) (p : IndexPair) : bool :=
  match declared_leg intent with Ok d => tuple_eqb (dl_key d) (index_pair_key p) | Err _ => false end.
Definition leg_count (b : IngestBatch) : iresult nat :=
  let? legs := match_value_legs b payments (mkCommitRef "cmt_1" 1 "r1" (mkSignature Ed25519 "k" "s")) in Ok (length legs).
End IndexSamples.

Lemma ingest_is_replay_witness :
  apply_batches ∅ [IndexSamples.batch] = Ok (ingest_all IndexSamples.ports [IndexSamples.batch] ∅).2.
Proof.
  refine (proj1 (ingest_is_replay IndexSamples.ports (fun s => s) [IndexSamples.batch] ∅
    (ingest_all IndexSamples.ports [IndexSamples.batch] ∅).2 (Ok tt) eq_refl _)).
  - exact IndexSamples.memory_index_laws.
  - vm_compute. reflexivity.
Defined.

Lemma settled_legs_attributed_witness : ∃ d p l,
  match_value_legs IndexSamples.batch IndexSamples.payments (mkCommitRef "cmt_1" 1 "r1" (mkSignature Ed25519 "k" "s")) = Ok [l] ∧
  leg_records IndexSamples.events (mkCommitRef "cmt_1" 1 "r1" (mkSignature Ed25519 "k" "s")) d p l.
Proof.
  destruct (settled_legs_attributed IndexSamples.events [IndexSamples.settle] (IndexSamples.signed "cmt_1")
    (mkCommitRef "cmt_1" 1 "r1" (mkSignature Ed25519 "k" "s")))
    as (payments & pairs & declared & legs & _ & Hq & _ & Hd & Hm & ds & ps & Pd & _ & Hf).
  - let evs := eval vm_compute in IndexSamples.events in change (Forall event_wf evs).
    repeat constructor; try exact I; cbn; unfold in_u128, U128_MAX, MAX_SCALE; lia.
  - vm_compute. reflexivity.
  - vm_compute. reflexivity.
  - intros intent ->%list_elem_of_singleton _. exists "t1". vm_compute. reflexivity.
  - assert (length ds = 1%nat) as Hlen.
    { rewrite Pd. clear -Hd. vm_compute in Hd. injection Hd as <-. reflexivity. }
    destruct ds as [|d [|]]; [discriminate Hlen| |discriminate Hlen].
    inversion Hf as [|d0 p l ds0 ps' legs' Hl Hf' E1 E2 E3]; subst. inversion Hf'; subst.
    exists d, p, l. split; [|exact Hl]. unfold IndexSamples.payments. rewrite Hq. exact Hm.
Defined.

Lemma history_exact_witness : ∃ h, (get_history IndexSamples.ports "t1" IndexSamples.index).1 = Ok (Some h) ∧
  th_status h = TradeSettled ∧ NoDup (map (fun c => (c.1, cref_commit_id c.2)) (th_commits h)).
Proof.
  assert (∃ h, get_history IndexSamples.ports "t1" IndexSamples.index = (Ok (Some h), IndexSamples.index)) as (h & E)
    by (eexists; vm_compute; reflexivity).
  exists h. destruct (history_exact IndexSamples.ports "t1" IndexSamples.index IndexSamples.index h E)
    as (_ & record & Hg & _ & Hs & _ & Hn & _).
  split; [by rewrite E|]. split; [|exact Hn]. rewrite Hs. vm_compute in Hg. by injection Hg as <-.
Defined.

(** Matching by position loses legs: the batch carries a pair and the intent that declares it,
    but a second declaration, whose pair is in another batch and which sorts first, moves the
    matching by one and the leg is not recorded; without that declaration it is. *)
Theorem misaligned_leg_lost :
  existsb (IndexSamples.declared_by IndexSamples.settle) IndexSamples.payments = true ∧
  IndexSamples.leg_count IndexSamples.batch = Ok 1%nat ∧
  IndexSamples.leg_count IndexSamples.crowded = Ok 0%nat.
Proof. split_and!; vm_compute; reflexivity. Qed.
