(* ===== verification/RebuildFacts.v ===== *)
(** * Interrupted rebuilds

    The projection of a validated event stream, the invariant that any interrupted rebuild
    keeps, and the theorem that a resumed rebuild completes it. *)

From Stdlib Require Import ZArith Lia String Sorted.
From stdpp Require Import prelude gmap strings.
From S2P Require Import Prelude Effect Amount RateLimit Domain Profile Atomicity Executor SortFacts Commit Signing Rebuild.

Notation version_of e := (c_version (e_after (fst e))).

(** Later events of a resource have higher versions. *)
Definition before (e e' : Entry) : Prop := entry_key e = entry_key e' → version_of e < version_of e'.
Definition ordered (events : list Entry) : Prop := StronglySorted before events.

(** The last projection of each resource. *)
Definition project (events : list Entry) : gmap ResourceKey StateProjection :=
  foldl (fun m e => <[entry_key e := entry_projection e]> m) ∅ events.

Lemma projection_version e : p_version (entry_projection e) = version_of e.
Proof. by destruct e. Qed.
Lemma projection_key e : (p_tenant_id (entry_projection e), p_resource_id (entry_projection e)) = entry_key e.
Proof. by destruct e. Qed.

Lemma ordered_snoc l e : ordered (l ++ [e]) → ordered l ∧ ∀ x, x ∈ l → before x e.
Proof.
  induction l as [|y l IH]; cbn; intros Ho; [split; [constructor|set_solver]|].
  apply StronglySorted_inv in Ho as [Ho Hy]. apply IH in Ho as [Hl Hx]. apply Forall_app in Hy as [Hyl Hye].
  split; [by constructor|]. intros x [->|Hin]%elem_of_cons; [exact (proj1 (Forall_singleton _ _) Hye)|auto].
Qed.

Lemma ordered_app l l' : ordered (l ++ l') → ordered l ∧ ordered l'.
Proof.
  induction l as [|y l IH]; cbn; intros Ho; [split; [constructor|done]|].
  apply StronglySorted_inv in Ho as [Ho Hy]. apply IH in Ho as [Hl Hl']. apply Forall_app in Hy as [Hyl _].
  split; [by constructor|done].
Qed.

(** Two events of a resource with the same version are the same event. *)
Lemma ordered_inj l e e' : ordered l → e ∈ l → e' ∈ l → entry_key e = entry_key e' → version_of e = version_of e' → e = e'.
Proof.
  induction 1 as [|x l _ IH Hx]; [set_solver|]. rewrite Forall_forall in Hx.
  rewrite !elem_of_cons. intros [->|He] [->|He'] Hk Hv; [done|..|auto].
  - specialize (Hx e' He' Hk). lia.
  - specialize (Hx e He (eq_sym Hk)). lia.
Qed.

(** ** Validated streams *)

Section Validated.
Context (H : string → string) (bcs_state : Bcs ResourceState).

Lemma validate_loop_ordered events : ∀ ids previous, validate_loop H bcs_state events ids previous = Ok tt →
  (∀ e v h, e ∈ events → previous !! entry_key e = Some (v, h) → v < version_of e) ∧
  ordered events ∧ Forall (fun e => scope_empty e.1 = false) events.
Proof.
  induction events as [|[event commit] events IH]; intros ids previous E; cbn [validate_loop] in E.
  { split; [set_solver|]. split; constructor. }
  apply rbind_Ok in E as ([] & Ev & E).
  destruct (scope_empty event) eqn:Es; [done|]. case_bool_decide; [done|].
  match type of E with (if ?b then _ else _) = _ => destruct b eqn:Ep; [done|] end.
  assert (Hver : c_version (e_after event) = c_version (e_before event) + 1).
  { unfold validate_event_for_rebuild in Ev. res_inv Ev. unfold checked_add_u64 in *.
    match goal with A : checked_op _ _ = Some _ |- _ => apply checked_op_Some in A as [-> _] end.
    match goal with B : negb (_ =? _) = false |- _ => apply negb_false_iff, Z.eqb_eq in B; exact B end. }
  apply IH in E as (Hprev & Ho & Hs).
  assert (Hx : ∀ e, e ∈ events → entry_key (event, commit) = entry_key e → c_version (e_after event) < version_of e).
  { intros e He Hk. apply (Hprev e _ (c_state_hash (e_after event)) He). by rewrite <- Hk, lookup_insert_eq. }
  split; [|split; [constructor; [done|]; apply Forall_forall; intros e He Hk; by apply Hx|by constructor]].
  assert (Hhead : ∀ v h, previous !! entry_key (event, commit) = Some (v, h) → v < c_version (e_after event)).
  { intros v h Hp. rewrite Hp in Ep. apply orb_false_iff in Ep as [Ep%negb_false_iff%Z.eqb_eq _]. lia. }
  intros e v h [->|He]%elem_of_cons Hp; [by eapply Hhead|].
  destruct (decide (entry_key (event, commit) = entry_key e)) as [Hk|Hk].
  - rewrite <- Hk in Hp. apply Hhead in Hp. specialize (Hx e He Hk). lia.
  - apply (Hprev e v h He). by rewrite lookup_insert_ne.
Qed.

(** Validation against less history accepts more. *)
Lemma validate_loop_mono events : ∀ ids previous ids' previous', ids' ⊆ ids → previous' ⊆ previous →
  validate_loop H bcs_state events ids previous = Ok tt → validate_loop H bcs_state events ids' previous' = Ok tt.
Proof.
  induction events as [|[event commit] events IH]; intros ids previous ids' previous' Hi Hp E; cbn [validate_loop] in *; [done|].
  apply rbind_Ok in E as ([] & -> & E). cbn [rbind]. destruct (scope_empty event); [done|].
  case_bool_decide; [done|]. rewrite bool_decide_false by set_solver.
  destruct (previous' !! entry_key (event, commit)) as [[v h]|] eqn:E1.
  - rewrite (lookup_weaken _ _ _ _ E1 Hp) in E. destruct (_ || _); [done|].
    eapply IH; [| |exact E]; [set_solver|by apply insert_mono].
  - match type of E with (if ?b then _ else _) = _ => destruct b; [done|] end.
    eapply IH; [| |exact E]; [set_solver|by apply insert_mono].
Qed.

Lemma validate_loop_app l l' : ∀ ids previous, validate_loop H bcs_state (l ++ l') ids previous = Ok tt →
  validate_loop H bcs_state l ids previous = Ok tt ∧ validate_rebuild_stream H bcs_state l' = Ok tt.
Proof.
  induction l as [|[event commit] l IH]; intros ids previous E; cbn [app validate_loop] in *.
  { split; [done|]. eapply validate_loop_mono; [| |exact E]; [set_solver|apply map_empty_subseteq]. }
  apply rbind_Ok in E as ([] & -> & E). cbn [rbind]. destruct (scope_empty event); [done|].
  case_bool_decide; [done|]. match type of E with (if ?b then _ else _) = _ => destruct b; [done|] end. by apply IH.
Qed.

(** A segment of a validated stream is validated. *)
Lemma validate_segment events n m : validate_rebuild_stream H bcs_state events = Ok tt →
  validate_rebuild_stream H bcs_state (take n (drop m events)) = Ok tt.
Proof.
  intros E. rewrite <- (take_drop m events) in E. apply validate_loop_app in E as [_ E].
  rewrite <- (take_drop n (drop m events)) in E. by apply validate_loop_app in E as [E _].
Qed.

Lemma validate_ordered events : validate_rebuild_stream H bcs_state events = Ok tt →
  ordered events ∧ Forall (fun e => scope_empty e.1 = false) events.
Proof. intros E. by apply validate_loop_ordered in E as (_ & ? & ?). Qed.
End Validated.

(** On an ordered stream the loop computes the projection and finds no conflict. *)
Lemma latest_loop_project events : ordered events → Forall (fun e => scope_empty e.1 = false) events → ∀ latest,
  (∀ e p, e ∈ events → latest !! entry_key e = Some p → p_version p < version_of e) →
  latest_loop events latest = Ok (foldl (fun m e => <[entry_key e := entry_projection e]> m) latest events).
Proof.
  induction 1 as [|e events _ IH Hx]; intros Hs latest Hl; cbn [latest_loop foldl]; [done|].
  apply Forall_cons in Hs as [He Hs]. rewrite Forall_forall in Hx. rewrite He, projection_key, projection_version.
  assert (Hnext : ∀ e' p, e' ∈ events → <[entry_key e := entry_projection e]> latest !! entry_key e' = Some p →
    p_version p < version_of e').
  { intros e' p Hin [[Hk <-]|[_ Hp]]%lookup_insert_Some; [rewrite projection_version; by apply Hx|].
    apply Hl; [by right|done]. }
  destruct (latest !! entry_key e) as [p|] eqn:E; [|by apply IH].
  assert (p_version p < version_of e) by (apply Hl; [by left|done]).
  destruct (Z.ltb_spec (version_of e) (p_version p)); [lia|].
  destruct (Z.eqb_spec (version_of e) (p_version p)); [lia|]. by apply IH.
Qed.

(** ** The invariant of an interrupted rebuild *)

(** Every stored projection comes from the stream, and the first [n] events are reflected, each
    by its own or a later version. *)
Definition progress (events : list Entry) (n : nat) (v : gmap ResourceKey StateProjection) : Prop :=
  (∀ k p, v !! k = Some p → ∃ e, e ∈ events ∧ entry_key e = k ∧ p = entry_projection e) ∧
  (∀ e, e ∈ take n events → ∃ p, v !! entry_key e = Some p ∧ version_of e ≤ p_version p).

Lemma progress_unique events v v' : ordered events →
  progress events (length events) v → progress events (length events) v' → v = v'.
Proof.
  intros Ho. assert (Hhalf : ∀ v v', progress events (length events) v → progress events (length events) v' →
    ∀ k p, v !! k = Some p → v' !! k = Some p).
  { intros u u' [U1 U2] [V1 V2] k p Hp. rewrite firstn_all in U2, V2.
    destruct (U1 k p Hp) as (e & He & <- & ->). destruct (V2 e He) as (q & Hq & Hle).
    destruct (V1 _ q Hq) as (e' & He' & Hk & ->). destruct (U2 e' He') as (p' & Hp' & Hle').
    rewrite Hk, Hp in Hp'. injection Hp' as <-. rewrite projection_version in *.
    rewrite Hq. do 2 f_equal. apply (ordered_inj events); [done..|lia]. }
  intros Hv Hv'. apply map_eq. intros k. apply option_eq. naive_solver.
Qed.

Lemma project_progress events : ordered events → progress events (length events) (project events).
Proof.
  induction events as [|e events IH] using rev_ind; intros Ho.
  { split; [intros k p; unfold project; cbn; by rewrite lookup_empty|set_solver]. }
  apply ordered_snoc in Ho as [Ho He]. destruct (IH Ho) as [I1 I2]. unfold project in *.
  rewrite foldl_app. cbn [foldl]. split.
  - intros k p [[<- <-]|[_ Hp]]%lookup_insert_Some; [exists e; set_solver|].
    destruct (I1 k p Hp) as (e' & ? & ? & ?). exists e'. set_solver.
  - rewrite firstn_all in *. intros x [Hx| ->%list_elem_of_singleton]%elem_of_app.
    + destruct (decide (entry_key e = entry_key x)) as [Hk|Hk].
      * exists (entry_projection e). rewrite <- Hk, lookup_insert_eq, projection_version. split; [done|].
        specialize (He x Hx (eq_sym Hk)). lia.
      * rewrite lookup_insert_ne by done. auto.
    + exists (entry_projection e). by rewrite lookup_insert_eq, projection_version.
Qed.

(** The projection of a prefix is progress. *)
Lemma progress_prefix events n : ordered events → progress events n (project (take n events)).
Proof.
  intros Ho. rewrite <- (take_drop n events) in Ho. apply ordered_app in Ho as [Ho _].
  destruct (project_progress _ Ho) as [P1 P2]. rewrite firstn_all in P2. split; [|done].
  intros k p Hp. destruct (P1 k p Hp) as (e & He & Hk). exists e. split; [|done].
  rewrite <- (take_drop n events). apply elem_of_app. by left.
Qed.

Definition put_projection (p : StateProjection) (v : gmap ResourceKey StateProjection) : gmap ResourceKey StateProjection :=
  let key := (p_tenant_id p, p_resource_id p) in
  match v !! key with
  | Some q => if p_version p <? p_version q then v else <[key := p]> v
  | None => <[key := p]> v
  end.

(** Writing raises versions and never loses one. *)
Lemma put_projection_ge p v : (∃ q, put_projection p v !! (p_tenant_id p, p_resource_id p) = Some q ∧ p_version p ≤ p_version q) ∧
  (∀ k q, v !! k = Some q → ∃ q', put_projection p v !! k = Some q' ∧ p_version q ≤ p_version q') ∧
  (∀ k q, put_projection p v !! k = Some q → v !! k = Some q ∨ (q = p ∧ k = (p_tenant_id p, p_resource_id p))).
Proof.
  unfold put_projection. set (key := (p_tenant_id p, p_resource_id p)).
  destruct (v !! key) as [q0|] eqn:E; [destruct (Z.ltb_spec (p_version p) (p_version q0))|].
  - split; [exists q0; split; [done|lia]|]. split; [eauto with lia|auto].
  - split; [exists p; by rewrite lookup_insert_eq|]. split.
    + intros k q Hq. destruct (decide (key = k)) as [<-|]; [|exists q; by rewrite lookup_insert_ne].
      exists p. rewrite lookup_insert_eq. split; [done|]. rewrite E in Hq. injection Hq as <-. lia.
    + intros k q [[<- <-]|[_ ?]]%lookup_insert_Some; auto.
  - split; [exists p; by rewrite lookup_insert_eq|]. split.
    + intros k q Hq. exists q. rewrite lookup_insert_ne by congruence. done.
    + intros k q [[<- <-]|[_ ?]]%lookup_insert_Some; auto.
Qed.

Lemma progress_put events n v e : e ∈ events → progress events n v → progress events n (put_projection (entry_projection e) v).
Proof.
  intros He [P1 P2]. destruct (put_projection_ge (entry_projection e) v) as (_ & G2 & G3). split.
  - intros k p [Hp|[-> ->]]%G3; [auto|]. exists e. by rewrite projection_key.
  - intros x Hx. destruct (P2 x Hx) as (q & Hq & Hle). destruct (G2 _ _ Hq) as (q' & Hq' & Hle'). exists q'. split; [done|lia].
Qed.

(** What a rebuild relies on of its sink: a write that succeeds is a monotonic upsert, one that
    fails may or may not have been applied. *)
Class SinkLaws {W} (upsert : StateProjection → W → result unit string * W)
    (view : W → gmap ResourceKey StateProjection) := {
  upsert_puts p w w' : upsert p w = (Ok tt, w') → view w' = put_projection p (view w);
  upsert_fails p w m w' : upsert p w = (Err m, w') → view w' = view w ∨ view w' = put_projection p (view w);
}.

(** And of its checkpoint store: reads return what was saved; a save that fails may or may not
    have been applied.  The two stores do not touch each other. *)
Class CheckpointLaws {W} (upsert : StateProjection → W → result unit string * W)
    (load : string → W → result (option nat) string) (save : string → nat → W → result unit string * W)
    (view : W → gmap ResourceKey StateProjection) (saved : W → string → option nat) := {
  load_reads k w o : load k w = Ok o → o = saved w k;
  save_saves k n w w' : save k n w = (Ok tt, w') → saved w' k = Some n;
  save_fails k n w m w' : save k n w = (Err m, w') → saved w' k = saved w k ∨ saved w' k = Some n;
  save_view k n w r w' : save k n w = (r, w') → view w' = view w;
  upsert_saved p w r w' k : upsert p w = (r, w') → saved w' k = saved w k;
}.

Section Resume.
Context (H : string → string) (bcs_state : Bcs ResourceState) {W : Type}.
Context (upsert : StateProjection → W → result unit string * W).
Context (load : string → W → result (option nat) string) (save : string → nat → W → result unit string * W).
Context (view : W → gmap ResourceKey StateProjection) (saved : W → string → option nat).
Context `{!SinkLaws upsert view} `{!CheckpointLaws upsert load save view saved}.

(** Writing projections of the stream keeps the invariant, and on success reflects them all. *)
Lemma upserts_progress events n ps : (∀ p, p ∈ ps → ∃ e, e ∈ events ∧ p = entry_projection e) → ∀ w r w' key,
  progress events n (view w) → xforeach (fun p => xcall (upsert p) RbSink) ps w = (r, w') →
  progress events n (view w') ∧ saved w' key = saved w key ∧
  (∀ e, r = Err e → ∃ m, e = RbSink m) ∧
  (r = Ok tt → (∀ p, p ∈ ps → ∃ q, view w' !! (p_tenant_id p, p_resource_id p) = Some q ∧ p_version p ≤ p_version q) ∧
     ∀ k q, view w !! k = Some q → ∃ q', view w' !! k = Some q' ∧ p_version q ≤ p_version q').
Proof using All.
  induction ps as [|p ps IH]; intros Hps w r w' key Hpr E; cbn [xforeach] in E.
  { injection E as <- <-. split_and!; [done|done|done|]. intros _. split; [set_solver|eauto with lia]. }
  destruct (Hps p) as (e & He & Ee); [by left|].
  assert (Hput : progress events n (put_projection p (view w))) by (rewrite Ee; by apply progress_put).
  apply xbind_inv in E as [(e' & E1 & ->)|([] & w1 & E1 & E)]; unfold xcall in E1;
    destruct (upsert p w) as [[[]|m] w2] eqn:Eu; cbn in E1; try done; injection E1 as <-.
  - subst w'. split_and!; [|by eapply upsert_saved|naive_solver|done].
    destruct (upsert_fails _ _ _ _ Eu) as [->| ->]; done.
  - pose proof (upsert_puts _ _ _ Eu) as Hv. apply (IH ltac:(intros; apply Hps; by right) _ _ _ key) in E as (I1 & I2 & I3 & I4);
      [|by rewrite Hv]. split_and!; [done|rewrite I2; by eapply upsert_saved|done|].
    intros Hr. destruct (I4 Hr) as [J1 J2]. destruct (put_projection_ge p (view w)) as ((q0 & Q1 & Q2) & G2 & _).
    rewrite Hv in J2. split.
    + intros p' [->|Hin]%elem_of_cons; [|auto]. destruct (J2 _ _ Q1) as (q & Hq & Hle). exists q. split; [done|lia].
    + intros k q Hq. destruct (G2 _ _ Hq) as (q1 & Hq1 & Hle1). destruct (J2 _ _ Hq1) as (q2 & Hq2 & Hle2).
      exists q2. split; [done|lia].
Qed.

Lemma latest_values_elem m p : p ∈ latest_values m ↔ ∃ k, m !! k = Some p.
Proof using.
  unfold latest_values. rewrite list_elem_of_fmap. setoid_rewrite sort_by_perm. split.
  - intros ([k q] & -> & Hin%elem_of_map_to_list). by exists k.
  - intros (k & Hk). exists (k, p). split; [done|]. by apply elem_of_map_to_list.
Qed.

(** One pass over a segment. *)
Lemma rebuild_segment events n c w r w' key : validate_rebuild_stream H bcs_state events = Ok tt →
  progress events n (view w) →
  rebuild_projections H bcs_state upsert (take c (drop n events)) w = (r, w') →
  progress events n (view w') ∧ saved w' key = saved w key ∧ (∀ e, r = Err e → ∃ m, e = RbSink m) ∧
  (∀ z, r = Ok z → progress events (n + c) (view w')).
Proof using All.
  intros Hv Hp E. set (chunk := take c (drop n events)) in *.
  pose proof (validate_segment _ _ _ c n Hv) as Hvc. fold chunk in Hvc. destruct (validate_ordered _ _ _ Hvc) as [Ho Hs].
  assert (Hsub : ∀ e, e ∈ chunk → e ∈ events).
  { intros e He. rewrite <- (take_drop n events), <- (take_drop c (drop n events)).
    apply elem_of_app. right. apply elem_of_app. by left. }
  unfold rebuild_projections in E. rewrite Hvc in E.
  rewrite (latest_loop_project chunk Ho Hs ∅) in E by (intros e p _; by rewrite lookup_empty).
  change (xbind (xforeach (fun p => xcall (upsert p) RbSink) (latest_values (project chunk)))
    (fun _ => xret (Z.of_nat (size (project chunk)))) w = (r, w')) in E.
  destruct (project_progress chunk Ho) as [C1 C2]. rewrite firstn_all in C2.
  assert (Hps : ∀ p, p ∈ latest_values (project chunk) → ∃ e, e ∈ events ∧ p = entry_projection e).
  { intros p (k & Hk)%latest_values_elem. destruct (C1 k p Hk) as (e & He & _ & ->). eauto. }
  apply xbind_inv in E as [(e & E1 & ->)|([] & w1 & E1 & E)];
    apply (upserts_progress events n _ Hps _ _ _ key Hp) in E1 as (I1 & I2 & I3 & I4).
  - split_and!; [done|done|naive_solver|done].
  - injection E as <- <-. split_and!; [done|done|done|]. intros z _. destruct (I4 eq_refl) as [J1 _].
    split; [apply I1|]. rewrite <- take_take_drop. intros e [He|He]%elem_of_app; [by apply I1|].
    destruct (C2 e He) as (p & Hp' & Hle). destruct (C1 _ p Hp') as (e' & _ & Hk & Ep).
    destruct (J1 p) as (q & Hq & Hle'); [apply latest_values_elem; eauto|].
    exists q. split; [|lia]. rewrite <- Hk, <- projection_key, <- Ep. exact Hq.
Qed.

(** The loop, from an offset that the store records. *)
Lemma resume_loop_spec events key chunk_size : validate_rebuild_stream H bcs_state events = Ok tt → chunk_size ≠ 0%nat →
  ∀ fuel offset written w r w', (length events - offset < fuel)%nat → (offset ≤ length events)%nat →
  default 0%nat (saved w key) = offset → progress events offset (view w) →
  resume_loop H bcs_state upsert save fuel events key chunk_size offset written w = (r, w') →
  (default 0 (saved w' key) ≤ length events)%nat ∧ progress events (default 0%nat (saved w' key)) (view w') ∧
  (∀ e, r = Err e → ∃ m, e = RbSink m) ∧ (∀ z, r = Ok z → default 0%nat (saved w' key) = length events).
Proof using All.
  intros Hv Hc. induction fuel as [|fuel IH]; intros offset written w r w' Hf Hle Hsv Hp E; cbn [resume_loop] in E; [lia|].
  destruct (Nat.ltb_spec offset (length events)) as [Hlt|Hge].
  2: { injection E as <- <-. rewrite Hsv. split_and!; [done|done|done|]. intros _ _. lia. }
  unfold rebuild_projections_chunk in E. destruct (chunk_size =? 0)%nat eqn:Ec; [by apply Nat.eqb_eq in Ec|].
  destruct (Nat.ltb_spec (length events) offset); [lia|]. cbn [orb] in E.
  set (end_ := Nat.min (offset + chunk_size) (length events)) in *.
  assert (Hend : (offset < end_ ≤ length events)%nat) by lia.
  apply xbind_inv in E as [(e & E1 & ->)|(cp & w1 & E1 & E)]; apply xbind_inv in E1 as [(e1 & E2 & E3)|(z & w2 & E2 & E3)];
    apply (rebuild_segment events offset _ _ _ _ key Hv Hp) in E2 as (I1 & I2 & I3 & I4); try done.
  - rewrite I2, Hsv. split_and!; [done|done|naive_solver|done].
  - injection E3 as <- <-. cbn [rc_next_event rc_projections_written] in E.
    specialize (I4 z eq_refl). replace (offset + (end_ - offset))%nat with end_ in I4 by lia.
    apply xbind_inv in E as [(e & E1 & ->)|([] & w3 & E1 & E)]; unfold xcall in E1;
      destruct (save key end_ w2) as [[[]|m] w4] eqn:Es; cbn in E1; try done; injection E1 as <-.
    + subst w'. rewrite (save_view _ _ _ _ _ Es).
      destruct (save_fails _ _ _ _ _ Es) as [->| ->]; cbn [default id from_option]; [rewrite I2, Hsv|];
        (split_and!; [lia|done|naive_solver|done]).
    + apply (IH end_ _ w4) in E; [done|lia|lia|by rewrite (save_saves _ _ _ _ Es)|by rewrite (save_view _ _ _ _ _ Es)].
Qed.

(** C27: interrupted rebuilds resume to the one-shot result.  Over a validated stream and any
    lawful sink and checkpoint store, starting from whatever an earlier interrupted run left
    behind: if the run returns, the store holds exactly the projection of the whole stream, as
    after one uninterrupted pass over an empty store; and however it ends, it fails only because
    of a store, and what it leaves behind is again a state from which it can be resumed. *)
Theorem rebuild_resumes (events : list Entry) (key : string) (chunk_size : nat) (w w' : W) (r : result Z RebuildError) :
  validate_rebuild_stream H bcs_state events = Ok tt → str_is_empty key = false → chunk_size ≠ 0%nat →
  (default 0 (saved w key) ≤ length events)%nat → progress events (default 0%nat (saved w key)) (view w) →
  rebuild_projections_resumable H bcs_state upsert load save events key chunk_size w = (r, w') →
  (default 0 (saved w' key) ≤ length events)%nat ∧ progress events (default 0%nat (saved w' key)) (view w') ∧
  (∀ e, r = Err e → ∃ m, e = RbSink m) ∧
  (∀ z, r = Ok z → view w' = project events ∧
     ∀ v v' z', view v = ∅ → rebuild_projections H bcs_state upsert events v = (Ok z', v') → view v' = view w').
Proof using All.
  intros Hv Hk Hc Hle Hp E. unfold rebuild_projections_resumable in E. rewrite Hk in E.
  destruct (chunk_size =? 0)%nat eqn:Ec; [by apply Nat.eqb_eq in Ec|]. cbn [orb] in E. rewrite Hv in E.
  apply xbind_inv in E as [(e & E1 & _)|([] & w0 & E0 & E)]; [done|]. injection E0 as <-.
  apply xbind_inv in E as [(e & E1 & ->)|(found & w1 & E1 & E)].
  { unfold xquery in E1. destruct (load key w); cbn in E1; simplify_eq. naive_solver. }
  unfold xquery in E1. injection E1 as E1%map_err_Ok%load_reads <-. subst found.
  destruct (Nat.ltb_spec (length events) (default 0%nat (saved w key))); [lia|].
  apply resume_loop_spec in E as (I1 & I2 & I3 & I4); [|done|done|lia|done|done|done].
  split_and!; [done|done|done|]. intros z ->. rewrite (I4 z eq_refl) in I2.
  destruct (validate_ordered _ _ _ Hv) as [Ho _].
  assert (view w' = project events) as Hw by (apply (progress_unique events); [done|done|by apply project_progress]).
  split; [done|]. intros v v' z' Hemp Er. rewrite Hw. 
  assert (Hv0 : progress events 0 (view v)) by (rewrite Hemp; split; [intros k p; by rewrite lookup_empty|set_solver]).
  rewrite <- (firstn_all events) in Er at 1. rewrite <- (drop_0 events) in Er at 2.
  apply (rebuild_segment events 0 (length events) _ _ _ key Hv Hv0) in Er as (_ & _ & _ & J).
  apply (progress_unique events); [done|by apply (J z')|by apply project_progress].
Qed.
End Resume.

(** ** A sample stream, interrupted after its first event *)

Module RebuildSamples.
Notation World := (gmap ResourceKey StateProjection * gmap string nat)%type.
Definition upsert (p : StateProjection) (w : World) : result unit string * World := (Ok tt, (put_projection p w.1, w.2)).
Definition load (k : string) (w : World) : result (option nat) string := Ok (w.2 !! k).
Definition save (k : string) (n : nat) (w : World) : result unit string * World := (Ok tt, (w.1, <[k := n]> w.2)).
Definition saved (w : World) (k : string) : option nat := w.2 !! k.

#[export] Instance memory_sink : SinkLaws upsert fst.
Proof. split; unfold upsert; intros; by simplify_eq. Qed.
#[export] Instance memory_checkpoints : CheckpointLaws upsert load save fst saved.
Proof.
  split; unfold saved, upsert, load, save; intros; simplify_eq; try done. cbn. apply lookup_insert_eq.
Qed.

(** A text encoding of states: the owner of an asset. *)
Definition bcs (s : ResourceState) : result string string := Ok (default EmptyString (rs_owner s)).
Definition owned (owner : string) : ResourceState := RUniqueAsset (mkUnique owner "active" None).
Definition step (id from to_ : string) (version : Z) : Entry :=
  (event_new "acme" id "int_1" "asset.transfer" "sword" from
     (mkCommitment version from (owned from)) (mkCommitment (version + 1) to_ (owned to_)) None "exec" 0, "cmt_1").
Definition events : list Entry := [step "evt_1" "alice" "bob" 1; step "evt_2" "bob" "carol" 2; step "evt_3" "carol" "dave" 3].
Definition interrupted : World := (project (take 1 events), {["job" := 1%nat]}).
End RebuildSamples.

Lemma rebuild_resumes_witness : ∃ z w',
  rebuild_projections_resumable (fun s => s) RebuildSamples.bcs RebuildSamples.upsert RebuildSamples.load RebuildSamples.save
    RebuildSamples.events "job" 1 RebuildSamples.interrupted = (Ok z, w') ∧ w'.1 = project RebuildSamples.events.
Proof.
  eexists _, _. split; [vm_compute; reflexivity|].
  refine (proj1 (proj2 (proj2 (proj2 (rebuild_resumes (fun s => s) RebuildSamples.bcs RebuildSamples.upsert RebuildSamples.load
    RebuildSamples.save fst RebuildSamples.saved (SinkLaws0 := RebuildSamples.memory_sink)
    (CheckpointLaws0 := RebuildSamples.memory_checkpoints) RebuildSamples.events "job" 1 RebuildSamples.interrupted
    _ (Ok _) _ _ _ _ _ _))) _ eq_refl)); try (vm_compute; reflexivity).
  - done.
  - vm_compute. lia.
  - apply (progress_prefix RebuildSamples.events 1). apply (validate_ordered (fun s => s) RebuildSamples.bcs).
    vm_compute. reflexivity.
Defined.
