(* ===== verification/Composition.v ===== *)
(** * From execution to the ledger

    The composition of the executor ([crates/statechronicle-executor/src/executor.rs]), the
    commit builder ([crates/statechronicle-commit/src/builder.rs]) and the durable boundary
    ([crates/statechronicle-commit/src/persist.rs]): what the first two produce passes every
    check the third makes before it opens a transaction. *)

From Stdlib Require Import ZArith Lia String.
From stdpp Require Import prelude gmap strings.
From S2P Require Import Prelude Effect Amount RateLimit Domain Profile UniqueAsset PaidUniqueAsset.
From S2P Require Import ConsumableStack FungibleBalance Entitlement Meter Marketplace Transition Resource.
From S2P Require Import Registry Admission Atomicity Executor Lifecycle Economy Pipeline.
From S2P Require Import SortFacts Keys Accumulator Merkle Checkpoint Commit Signing Durable Ledger.
Open Scope Z_scope.

(** ** The types of a native transition *)

Lemma resolved_native custom st inputs rules : st ≠ StCustom →
  resolve (baseline_with custom) st inputs = Ok rules →
  execution_policy rules = ResourceExecution st.
Proof. unfold resolve. destruct st; [..|done]; cbn; by intros _ [= <-]. Qed.

Lemma empty_state_type st s : empty_state_for st = Ok s → rs_state_type s = st.
Proof. destruct st; cbn; by intros [= <-]. Qed.

Lemma state_amount_type p key a : state_amount p key = Ok a →
  (key = "quantity" → rs_state_type (p_state p) = StConsumableStack) ∧
  (key = "balance" → rs_state_type (p_state p) = StFungibleBalance).
Proof. unfold state_amount. destruct (p_state p); intros E; try done; split; intros ->; by cbn in *. Qed.

(** A transfer is accepted only by the profile of the quantity it moves. *)
Lemma transfer_native custom st inputs rules intent p after : st ≠ StCustom →
  resolve (baseline_with custom) st inputs = Ok rules → gated_step rules intent (Some p) = Ok after →
  (i_operation intent = "stack.transfer" → st = StConsumableStack) ∧
  (i_operation intent = "balance.transfer" → st = StFungibleBalance).
Proof.
  intros Hne Hr (_ & Hc & _)%gated_step_inv. unfold resolve in Hr.
  destruct st; cbn in Hr; try done; injection Hr as <-; split; intros Ho; try done; rewrite Ho in Hc;
    vm_compute in Hc; discriminate Hc.
Qed.

Lemma credit_types st (p : StateProjection) dest op inputs q : is_transfer_operation op = true →
  (op = "stack.transfer" → st = StConsumableStack) → (op = "balance.transfer" → st = StFungibleBalance) →
  transfer_after_state p dest op inputs = Ok q →
  rs_state_type q = st ∧ ∀ d, dest = Some d → rs_state_type (p_state d) = st.
Proof.
  unfold is_transfer_operation, transfer_after_state.
  intros Ho%orb_true_iff Hs Hb E. rewrite !String.eqb_eq in Ho.
  destruct Ho as [-> | ->]; cbn in E; res_inv E; subst q; [rewrite Hs by done|rewrite Hb by done];
    (split; [done|]); intros d Hd; rewrite Hd in *; eapply state_amount_type; eauto.
Qed.

(** ** Batches and sizes *)

(** Adding the events of an execution to a batch, one by one. *)
Fixpoint add_events (canon : Event → result string StateChronicleError) (batch : CommitBatch) (events : list Event)
    : cresult CommitBatch :=
  match events with
  | [] => Ok batch
  | event :: rest => let? batch := add_event canon batch event in add_events canon batch rest
  end.

Lemma add_events_Ok canon events : ∀ batch batch', add_events canon batch events = Ok batch' →
  cb_events batch' = cb_events batch ++ events ∧
  (NoDup (map e_event_id (cb_events batch)) → NoDup (map e_event_id (cb_events batch'))).
Proof.
  induction events as [|e events IH]; intros batch batch' E; cbn in E.
  { injection E as <-. by rewrite app_nil_r. }
  apply rbind_Ok in E as (b1 & E1 & E). apply IH in E as [Hev Hnd]. unfold add_event in E1. res_inv E1. subst b1.
  cbn [cb_events] in *. split; [by rewrite Hev, <- app_assoc|]. intros Hd. apply Hnd.
  rewrite map_app. apply NoDup_app. split_and!; [done| |apply NoDup_singleton].
  intros i (e0 & -> & H0)%list_elem_of_fmap Hi%list_elem_of_singleton.
  match goal with B : existsb _ _ = false |- _ => apply not_true_iff_false in B; apply B end.
  apply existsb_exists. exists e0. split; [by apply list_elem_of_In|by apply String.eqb_eq].
Qed.

Lemma batch_bytes_total codecs events : ∀ t n, total_bytes (canonicalize_event codecs) events t = Ok n →
  event_batch_bytes codecs t events = Ok n.
Proof.
  induction events as [|e events IH]; intros t n E; [by injection E as ->|].
  cbn [total_bytes event_batch_bytes] in *. res_inv E.
  unfold canonicalize_event, canonicalize_with in *.
  repeat match goal with B : map_err _ _ = Ok _ |- _ => apply map_err_Ok in B end.
  match goal with B : bcs_event codecs e = Ok _ |- _ => rewrite B end. cbn [rbind].
  match goal with B : checked_add_u64 _ _ = Some _ |- _ => apply checked_op_Some in B as [-> ?] end.
  unfold saturating_add_u64. rewrite Z.min_l by lia. by apply IH.
Qed.

Lemma cmp_frac_refl n f : cmp_frac n f f = Eq.
Proof. revert f. induction n as [|n IH]; intros f; cbn; [done|]. destruct (next_or_zero f). by rewrite Z.compare_refl. Qed.

Lemma amount_eqb_refl a : amount_eqb a a = true.
Proof.
  unfold amount_eqb, amount_cmp, cmp_unsigned. destruct (decimal_digits a) as [i f].
  by rewrite Nat.eqb_refl, str_cmp_refl, cmp_frac_refl.
Qed.

Lemma rs_eqb_refl s : rs_eqb s s = true.
Proof.
  destruct s; cbn; rewrite ?String.eqb_refl, ?amount_eqb_refl, ?Z.eqb_refl, ?eqb_reflx; try done.
  by destruct (ua_trade_id _); cbn; rewrite ?String.eqb_refl.
Qed.

Lemma projections_match l : list_eqb projection_eqb l l = true.
Proof.
  induction l as [|p l IH]; [done|]. cbn [list_eqb]. rewrite IH. unfold projection_eqb.
  by rewrite !String.eqb_refl, Z.eqb_refl, rs_eqb_refl, bool_decide_true.
Qed.

(** ** Executed events *)

Section Executed.
Context {W Handle : Type} (x : Executor W Handle) (H : string → string) (codecs : CommitCodecs).

(** The executor digests states as the ledger does and draws well-formed event ids. *)
Record one_deployment : Prop := {
  od_digest : ∀ s, digest_state x s = state_digest H codecs s;
  od_ids : ∀ w, ∃ id, event_id_new (event_id_fn x w).1 = Ok id;
}.

(** The index serves rows with [u64] versions and the hash of the state they carry. *)
Definition row_bound (p : StateProjection) : Prop :=
  0 ≤ p_version p ∧ state_digest H codecs (p_state p) = Ok (p_state_hash p).
Definition index_bound (w : W) : Prop := ∀ w1 t s r p w', quiet x w w1 →
  read_address x t s r w1 = (Ok (Some p), w') → row_bound p.

(** Distinct checked entries are accepted. *)
Lemma distinct_accepted {A} (check : A → cresult unit) key duplicate l : ∀ seen,
  Forall (fun a => check a = Ok tt) l → NoDup (map key l) → (∀ a, a ∈ l → key a ∉ seen) →
  validate_distinct check key duplicate seen l = Ok tt.
Proof.
  induction l as [|a l IH]; intros seen Hc Hd Hs; [done|]. cbn [validate_distinct map] in *.
  apply Forall_cons in Hc as [-> Hc]. apply NoDup_cons in Hd as [Hn Hd]. cbn [rbind].
  rewrite decide_False by (apply Hs; left). apply IH; [done..|]. intros b Hb.
  apply not_elem_of_union. split; [|apply Hs; by right].
  intros E%elem_of_singleton. apply Hn. rewrite <- E. by apply list_elem_of_fmap_2.
Qed.

Lemma described_valid intent st cur after a e : one_deployment → st ≠ StCustom →
  (∃ id, intent_id_new (i_intent_id intent) = Ok id) → i_state_type intent = Some st →
  describes x intent (ResourceExecution st) (i_resource_id intent) cur after a e →
  rs_state_type after = st → (∀ p, cur = Some p → row_bound p ∧ rs_state_type (p_state p) = st) →
  validate_committed_event H codecs (mkCommitted e st) = Ok tt ∧
  validate_event_binding e intent (i_tenant_id intent) = Ok tt.
Proof.
  intros [Hdg Hids] Hne [iid Hiid] Hst [(S1 & S2 & S3 & S4 & S5 & _ & S6 & wi & S7) (V1 & V2 & V3) Hb [A1 A2] _] Hta Hcur.
  assert (0 ≤ version_of cur ∧ rs_state_type (c_state (e_before e)) = st ∧
    state_digest H codecs (c_state (e_before e)) = Ok (c_state_hash (e_before e))) as (Hv & Htb & Hdb).
  { destruct cur as [p|].
    - destruct Hb as [-> ->], (Hcur p eq_refl) as [[? ?] ?]. done.
    - destruct Hb as [Hu Hd]. rewrite Hdg in Hd. apply empty_state_type in Hu. done. }
  rewrite Hdg, <- A1 in A2. destruct (Hids wi) as [eid Heid].
  assert (Hcu : ∀ B (k : CustomState → B) (d : B), match c_state (e_after e) with RCustom c => k c | _ => d end = d).
  { intros B k d. rewrite <- A1 in Hta. by destruct (c_state (e_after e)). }
  split.
  - unfold validate_committed_event. cbn [ce_event ce_state_type].
    rewrite S6, String.eqb_refl, S7, Heid, S2, Hiid, Hcu. cbn [negb rbind map_err].
    unfold checked_add_u64. rewrite V1. rewrite (proj2 (checked_op_Some _ _ (version_of cur + 1))) by lia.
    cbn [ok_or rbind]. rewrite V2, Z.eqb_refl, A1, Hta, Htb, bool_decide_true by done. cbn [negb orb rbind].
    rewrite Hdb, <- A1, A2. cbn [map_err rbind]. by rewrite !String.eqb_refl.
  - unfold validate_event_binding. by rewrite S1, S2, S3, S4, S5, !String.eqb_refl, Hcu, A1, Hta, Hst, bool_decide_true.
Qed.

Lemma executed_valid custom st v coord persist w events w' : profiles x = baseline_with custom →
  one_deployment → index_bound w → i_state_type (v_intent v) = Some st → st ≠ StCustom →
  (∃ id, intent_id_new (i_intent_id (v_intent v)) = Ok id) →
  execute_inner x v coord persist w = (Ok events, w') →
  (length events ≤ 2)%nat ∧ Forall (fun e =>
    validate_committed_event H codecs (mkCommitted e st) = Ok tt ∧
    validate_event_binding e (v_intent v) (i_tenant_id (v_intent v)) = Ok tt) events.
Proof.
  intros Hprof Hod Hix Hst Hne Hiid (_ & Hs)%execute_inner_Ok.
  destruct Hs as [|bytes rules cur a after w2 events _ _ _ _ _ Hp Hq2 Hem]; [cbn; auto with lia|].
  pose proof (quiet_now_step x w) as Hq1.
  destruct Hp as [(st' & Hst' & Hres & Hct & Hta & _) _ Hload _ Hstep _ _].
  rewrite Hst in Hst'. injection Hst' as <-. rewrite Hprof in Hres.
  pose proof (resolved_native _ _ _ _ Hne Hres) as Hpol.
  assert (∀ p, cur = Some p → row_bound p ∧ rs_state_type (p_state p) = st) as Hcur.
  { intros p ->. apply load_current_Ok in Hload as [_ [s0 Hrd0]]. split; [by eapply Hix|].
    unfold check_state_type in Hct. res_inv Hct.
    match goal with B : _ || _ = false |- _ => apply orb_false_iff in B as [_ B%negb_false_iff] end.
    by eapply bool_decide_eq_true. }
  destruct Hem as [e Ht De|e e2 target p dest q w3 Ht -> Hq3 Hrd Hap De De2]; rewrite Hpol in *.
  { split; [cbn; lia|]. repeat constructor; by eapply described_valid. }
  change (resource_companion_target (v_intent v) = Ok (Some target)) in Ht.
  unfold resource_companion_target in Ht. destruct (is_transfer_operation _) eqn:Htr; [|done].
  cbn [negb] in Ht. res_inv Ht. subst target. cbn [sa_resource sa_subject] in *.
  destruct (transfer_native _ _ _ _ _ _ _ Hne Hres Hstep) as [Hso Hbo].
  destruct (credit_types st p dest _ _ q Htr Hso Hbo Hap) as [Hq Hdt].
  split; [cbn; lia|]. repeat apply Forall_cons_2; [| |apply Forall_nil_2].
  - by eapply described_valid.
  - eapply described_valid; try done. intros d ->. split; [|auto].
    eapply (Hix w3); [|done]. by do 2 (etrans; [done|]).
Qed.
End Executed.

(** ** The request *)

Section Request.
Context {W Handle : Type} (x : Executor W Handle) (H : string → string) (codecs : CommitCodecs).

(** The entries and rows a caller derives from the events of one intent. *)
Definition entries_of (st : StateType) (events : list Event) : list CommittedEvent :=
  map (fun e => mkCommitted e st) events.
Definition request_of (principal : AuthenticatedPrincipal) (intent : Intent) (digest : ContentDigest)
    (st : StateType) (events : list Event) (commit : Signed Commit) : DurableCommitRequest :=
  mkRequest principal intent digest (entries_of st events) commit
    (projections_for (cm_commit_id (s_body commit)) (entries_of st events)) [].

Lemma entries_events st events : map ce_event (entries_of st events) = events.
Proof. unfold entries_of. rewrite map_map. apply map_id. Qed.

Lemma entries_valid st events : NoDup (map e_event_id events) →
  Forall (fun e => validate_committed_event H codecs (mkCommitted e st) = Ok tt) events →
  validate_committed_events H codecs (entries_of st events) = Ok tt.
Proof.
  intros Hd Hv. apply distinct_accepted; [by apply Forall_map| |set_solver].
  unfold entries_of. by rewrite map_map.
Qed.

Lemma rows_accepted st events commit_id tenant :
  Forall (fun e => rs_state_type (c_state (e_after e)) = st ∧ e_tenant_id e = tenant) events →
  validate_projection_bindings commit_id (entries_of st events) (projections_for commit_id (entries_of st events)) = Ok tt ∧
  rforeach (projection_bound tenant commit_id) (projections_for commit_id (entries_of st events)) = Ok tt.
Proof.
  intros Hv. split.
  - unfold validate_projection_bindings. rewrite projections_match.
    assert (existsb (fun entry => negb (bool_decide (ce_state_type entry =
      rs_state_type (c_state (e_after (ce_event entry)))))) (entries_of st events) = false) as ->.
    { induction Hv as [|e l [Ht _] _ IH]; [done|]. cbn. by rewrite Ht, bool_decide_true. }
    by destruct (projections_for _ _).
  - apply rforeach_Ok. unfold projections_for, entries_of. rewrite map_map. apply Forall_map.
    eapply Forall_impl; [done|]. intros e [_ Ht]. unfold projection_bound. cbn. by rewrite Ht, !String.eqb_refl.
Qed.

Lemma built_root b batch previous prior id c : commit_build H (canonicalize_event codecs) b batch previous prior id = Ok c →
  cb_events batch ≠ [] ∧ cm_event_count c = Z.of_nat (length (cb_events batch)) ∧
  0 ≤ Z.of_nat (length (cb_events batch)) ≤ U64_MAX ∧
  event_root H (canonicalize_event codecs) (cb_events batch) = Ok (cm_event_merkle_root c) ∧
  ∃ total, event_batch_bytes codecs 0 (cb_events batch) = Ok total ∧ total ≤ MAX_COMMIT_BYTES.
Proof.
  unfold commit_build. intros E. res_inv E. subst c. cbn [commit_new cm_event_count cm_event_merkle_root].
  match goal with B : Prelude.checked_op _ _ = Some _ |- _ => apply checked_op_Some in B as [-> ?] end.
  match goal with B : batch_validate _ _ = Ok _ |- _ => unfold batch_validate in B; rename B into Hb end.
  destruct (cb_events batch) as [|e es] eqn:Ees; [done|].
  apply rbind_Ok in Hb as (total & Ht & Hb). rewrite <- Ees in *. res_inv Hb.
  match goal with B : (_ <? _) = false |- _ => apply Z.ltb_ge in B end.
  split_and!; [by rewrite Ees|done|lia|lia|done|].
  exists total. split; [by apply batch_bytes_total|done].
Qed.

(** C5: the pipeline composes, for native state types.  Take a state type that is not custom,
    the baseline registry (with any custom rules besides), one digest function shared by
    executor and commit layer, and an index whose rows carry the hash of their state.  Suppose
    an intent with a valid id executes, its events fit a batch of its tenant, the builder makes
    a commit of that batch, and the signed commit encodes within the size limit.  Then the
    request made of the intent, those events, that commit, the rows derived from the events and
    no outbox records passes the three checks the durable boundary makes after authorization:
    on the events, on the rows, and on the event count and event Merkle root of the commit.
    When the commit's scope is the intent's tenant it passes the plain persist validator too.
    The state root is not among those checks. *)
Theorem executed_request_accepted (custom : list ProfileRules) (st : StateType) (v : ValidatedIntent)
    (coord persist : bool) (w w' : W) (events : list Event) (batch : CommitBatch) (b : CommitBuilder)
    (previous : ContentDigest) (prior : list Entry) (id : cresult CommitId) (c : Commit) (signature : SignatureBlock)
    (bytes : string) (principal : AuthenticatedPrincipal) (digest : ContentDigest) :
  profiles x = baseline_with custom → one_deployment x H codecs → index_bound x H codecs w →
  i_state_type (v_intent v) = Some st → st ≠ StCustom → (∃ i, intent_id_new (i_intent_id (v_intent v)) = Ok i) →
  execute_inner x v coord persist w = (Ok events, w') →
  add_events (canonicalize_event codecs) (batch_new (scope_tenant (i_tenant_id (v_intent v)))) events = Ok batch →
  commit_build H (canonicalize_event codecs) b batch previous prior id = Ok c →
  bcs_signed_commit codecs (mkSigned c signature) = Ok bytes → slen bytes ≤ MAX_COMMIT_BYTES →
  let request := request_of principal (v_intent v) digest st events (mkSigned c signature) in
  validate_durable_events H codecs request (i_tenant_id (v_intent v)) = Ok tt ∧
  validate_durable_rows H request (i_tenant_id (v_intent v)) = Ok tt ∧
  validate_durable_root H codecs request = Ok tt ∧
  (commit_tenant c = Ok (i_tenant_id (v_intent v)) →
   validate_persist H codecs (mkSigned c signature) (entries_of st events) = Ok (i_tenant_id (v_intent v))).
Proof.
  intros Hprof Hod Hix Hst Hne Hiid He Hadd Hbuild Hbytes Hsize request.
  destruct (executed_valid _ _ _ _ _ _ _ _ _ _ _ Hprof Hod Hix Hst Hne Hiid He) as [Hlen Hval].
  apply add_events_Ok in Hadd as [Hev Hnd]. cbn in Hev. specialize (Hnd NoDup_nil_2). rewrite Hev in Hnd.
  apply built_root in Hbuild as (Hne' & Hcount & Hu64 & Hroot & total & Htotal & Hmax). rewrite Hev in *.
  assert (validate_committed_events H codecs (entries_of st events) = Ok tt) as Hce.
  { apply entries_valid; [done|]. eapply Forall_impl; [exact Hval|]. by intros e [? _]. }
  assert (Forall (fun e => rs_state_type (c_state (e_after e)) = st ∧ e_tenant_id e = i_tenant_id (v_intent v)) events) as Hsc.
  { eapply Forall_impl; [exact Hval|]. intros e [H1 H2].
    apply committed_event_Ok in H1 as (_ & _ & Ht & _). by apply event_binding_Ok in H2 as [-> _]. }
  destruct (rows_accepted st events (cm_commit_id c) _ Hsc) as [Hr1 Hr2].
  assert (Hev' : map ce_event (rq_entries request) = events) by apply entries_events.
  split_and!.
  - unfold validate_durable_events. rewrite Hev'. destruct events as [|e es]; [done|].
    rewrite (proj2 (Z.ltb_ge _ _)) by (unfold MAX_EVENTS_PER_COMMIT; cbn [length] in *; lia).
    rewrite Htotal. cbn [map_err rbind]. unfold check_size.
    rewrite (proj2 (Z.ltb_ge _ _)) by (unfold MAX_EVENT_BATCH_BYTES, MAX_COMMIT_BYTES in *; lia).
    cbn [map_err rbind rq_commit request request_of]. rewrite Hbytes. cbn [map_err rbind].
    rewrite (proj2 (Z.ltb_ge _ _)) by done. cbn [map_err rbind].
    change (rq_entries request) with (entries_of st (e :: es)). rewrite Hce. cbn [rbind].
    apply rforeach_Ok. eapply Forall_impl; [exact Hval|]. by intros e' [_ ?].
  - unfold validate_durable_rows. cbn. unfold commit_id_of. cbn. by rewrite Hr1, Hr2.
  - unfold validate_durable_root. rewrite Hev'. cbn [rq_commit request request_of s_body].
    rewrite (proj2 (checked_op_Some _ _ (Z.of_nat (length events)))) by done. cbn [ok_or rbind].
    rewrite Hcount, Z.eqb_refl, Hroot. cbn [negb rbind]. by rewrite String.eqb_refl.
  - intros Ht. unfold validate_persist. cbn [s_body]. rewrite Ht, entries_events. cbn [rbind].
    rewrite (proj2 (checked_op_Some _ _ (Z.of_nat (length events)))) by done. cbn [ok_or rbind].
    rewrite Hcount, Z.eqb_refl, Hce. cbn [negb rbind].
    rewrite (proj2 (rforeach_Ok _ _)), Hroot; [cbn; by rewrite String.eqb_refl|].
    eapply Forall_impl; [exact Hsc|]. intros e [_ ->]. by rewrite String.eqb_refl.
Qed.
End Request.

(** ** A deployment with one digest *)

Module CompositionSamples.
Definition exec : Executor Memory.World unit := {|
  Executor.ports := Memory.ports;
  profiles := baseline;
  executor := "exec";
  now := now Memory.exec;
  event_id_fn w := (if Memory.w_next w =? 1 then "evt_1" else "evt_2", (event_id_fn Memory.exec w).2);
  intent_verifier := intent_verifier Memory.exec;
  canonicalize_intent := canonicalize_intent Memory.exec;
  digest_state := state_digest CommitSamples.pad32 LedgerSamples.codecs;
  digest_aggregate := digest_aggregate Memory.exec;
|}.
Definition row : StateProjection :=
  mkProjection "acme" "asset:sword" StFungibleBalance 1 "evt_0" "cmt_0" (CommitSamples.pad32 EmptyString)
    (RFungibleBalance (mkBalance "alice" (Quantities.units 100) "gold")).
Definition start : Memory.World := Memory.mkWorld ∅ ∅ (list_to_map [(("acme", "alice", "asset:sword"), row)]) 0 1.
Definition run : result (list Event) ExecutorError * Memory.World :=
  execute_inner exec MemorySamples.payment false false start.
Definition events : list Event := Memory.events_of run.
Definition batch : CommitBatch := mkBatch (scope_tenant "acme") events.
Definition built : cresult Commit :=
  commit_build CommitSamples.pad32 (canonicalize_event LedgerSamples.codecs) CommitSamples.builder batch
    CommitSamples.previous CommitSamples.prior (Ok "cmt_7").
Definition key : SignatureBlock := mkSignature Ed25519 "key" "sig".
Definition payer : AuthenticatedPrincipal := mkPrincipal "alice" "session" "acme".
End CompositionSamples.

Lemma sample_deployment : one_deployment CompositionSamples.exec CommitSamples.pad32 LedgerSamples.codecs.
Proof. split; [done|]. intros w. cbn. destruct (_ =? 1); eexists; vm_compute; reflexivity. Qed.

Lemma sample_index : index_bound CompositionSamples.exec CommitSamples.pad32 LedgerSamples.codecs CompositionSamples.start.
Proof.
  intros w1 t s r p w' Hq.
  assert (Memory.w_states w1 = Memory.w_states CompositionSamples.start ∧ Memory.w_subjects w1 = Memory.w_subjects CompositionSamples.start)
    as [E1 E2] by (induction Hq as [|a b c [-> | ->] _ IH]; [done|exact IH..]).
  unfold read_address, read_subject, read_resource, xquery. destruct s; cbn -[CompositionSamples.start];
    rewrite ?E1, ?E2; cbn -[CompositionSamples.row]; rewrite ?lookup_empty; [|intros [=]].
  intros [= H _]. apply lookup_insert_Some in H as [[_ <-]|[_ H]]; [|by rewrite lookup_empty in H].
  split; [done|]. vm_compute. reflexivity.
Qed.

Lemma executed_request_accepted_witness : ∃ c, CompositionSamples.built = Ok c ∧ cm_event_count c = 2 ∧
  validate_durable_events CommitSamples.pad32 LedgerSamples.codecs
    (request_of CompositionSamples.payer (v_intent MemorySamples.payment) EmptyString StFungibleBalance
       CompositionSamples.events (mkSigned c CompositionSamples.key)) "acme" = Ok tt.
Proof.
  destruct CompositionSamples.built as [c|e] eqn:E; [|vm_compute in E; discriminate E].
  exists c. split; [reflexivity|].
  assert (cm_event_count c = 2 ∧ cm_commit_id c = "cmt_7") as [Hn Hc]
    by (vm_compute in E; injection E as <-; split; reflexivity).
  split; [exact Hn|].
  destruct (executed_request_accepted CompositionSamples.exec CommitSamples.pad32 LedgerSamples.codecs [] StFungibleBalance
    MemorySamples.payment false false CompositionSamples.start CompositionSamples.run.2 CompositionSamples.events
    CompositionSamples.batch CommitSamples.builder CommitSamples.previous CommitSamples.prior (Ok "cmt_7") c
    CompositionSamples.key "cmt_7" CompositionSamples.payer EmptyString) as [Hv _]; try exact Hv.
  - reflexivity.
  - exact sample_deployment.
  - exact sample_index.
  - reflexivity.
  - discriminate.
  - eexists. vm_compute. reflexivity.
  - vm_compute; reflexivity.
  - vm_compute; reflexivity.
  - exact E.
  - cbn. by rewrite Hc.
  - vm_compute; discriminate.
Defined.
