(* ===== verification/Codec.v ===== *)
(** * The portable canonical codec

    Models [crates/statechronicle-portable/src/codec.rs]: the bounded writer over a
    caller-owned buffer, the borrowed reader and the minimal ULEB128 prefix.  Bytes are
    [string]; the reader's state is the bytes that remain, the writer's its buffer and
    cursor, both threaded by the effect monad. *)

From Stdlib Require Import ZArith Lia Ascii String.
From stdpp Require Import prelude strings.
From S2P Require Import Prelude Effect Amount Keys.
Open Scope Z_scope.

Inductive CodecError := Capacity | Truncated | NonCanonical | CodecOverflow | Trailing | Utf8.

(** ** ULEB128 prefixes *)

(** The loop of [uleb_bytes] over the slots that are left: the bytes it writes. *)
Fixpoint uleb_loop (slots : nat) (value : Z) : string :=
  match slots with
  | O => EmptyString
  | S slots' =>
      let low := Z.land value 127 in
      let value := Z.shiftr value 7 in
      if value =? 0 then byte low else byte (Z.lor low 128) +:+ uleb_loop slots' value
  end.

Fixpoint zeros (n : nat) : string :=
  match n with O => EmptyString | S n' => byte 0 +:+ zeros n' end.

(** The five-byte array and the number of bytes used. *)
Definition uleb_bytes (value : Z) : string * nat :=
  let written := uleb_loop 5 value in
  let count := String.length written in
  (written +:+ zeros (5 - count), count).

(** [slice.get(..n)]. *)
Definition get_to (s : string) (n : nat) : option string :=
  if (n <=? String.length s)%nat then Some (str_take n s) else None.
Definition get_from (s : string) (n : nat) : option string :=
  if (n <=? String.length s)%nat then Some (str_drop n s) else None.

(** ** The writer *)

Module Encoder.
Record t := mk { buffer : string; position : nat }.

Notation enc := (Eff CodecError t unit).

Definition new (buffer : string) : t := mk buffer 0.

Definition written (e : t) : string := default EmptyString (get_to (buffer e) (position e)).

(** [checked_add] on [usize] of 64 bits. *)
Definition add_usize (a b : nat) : option nat :=
  Z.to_nat <$> checked_add_u64 (Z.of_nat a) (Z.of_nat b).

(** The writes happen only after both bounds are checked. *)
Definition fixed (bytes : string) : enc := fun e =>
  match add_usize (position e) (String.length bytes) with
  | None => (Err Capacity, e)
  | Some fin =>
      if ((position e <=? fin) && (fin <=? String.length (buffer e)))%nat then
        (Ok tt, mk (str_take (position e) (buffer e) +:+ bytes +:+ str_drop fin (buffer e)) fin)
      else (Err Capacity, e)
  end.

Definition boolean (value : bool) : enc := fixed (byte (if value then 1 else 0)).
Definition u32 (value : Z) : enc := fixed (le_bytes 4 value).
Definition u64 (value : Z) : enc := fixed (le_bytes 8 value).

Definition uleb (value : Z) : enc :=
  let (bytes, count) := uleb_bytes value in
  let! prefix := xlift (ok_or (get_to bytes count) CodecOverflow) in
  fixed prefix.

Definition bytes (value : string) : enc :=
  let! length := xlift (ok_or (checked_op U32_MAX (slen value)) CodecOverflow) in
  let (prefix, count) := uleb_bytes length in
  let! total := xlift (ok_or (add_usize count (String.length value)) Capacity) in
  let! fin := xquery (fun e => ok_or (add_usize (position e) total) Capacity) in
  xquery (fun e => if (String.length (buffer e) <? fin)%nat then Err Capacity else Ok tt) ;!
  let! prefix := xlift (ok_or (get_to prefix count) CodecOverflow) in
  fixed prefix ;! fixed value.

Definition string (value : string) : enc := bytes value.
End Encoder.

(** ** The reader *)

(** [u32::from_le_bytes] and [u64::from_le_bytes]. *)
Fixpoint le_value (s : string) : Z :=
  match s with EmptyString => 0 | String c s' => byte_val c + 256 * le_value s' end.

Definition in_range (lo hi : Z) (c : ascii) : bool := (lo <=? byte_val c) && (byte_val c <=? hi).
Definition continuation (c : ascii) : bool := in_range 128 191 c.

(** [core::str::from_utf8]: shortest forms only, no surrogates, at most U+10FFFF. *)
Fixpoint utf8_valid (s : string) : bool :=
  match s with
  | EmptyString => true
  | String a s1 =>
      if in_range 0 127 a then utf8_valid s1
      else
        match s1 with
        | EmptyString => false
        | String b s2 =>
            if in_range 194 223 a then continuation b && utf8_valid s2
            else
              match s2 with
              | EmptyString => false
              | String c s3 =>
                  if in_range 224 239 a then
                    (if byte_val a =? 224 then in_range 160 191 b
                     else if byte_val a =? 237 then in_range 128 159 b
                     else continuation b)
                    && continuation c && utf8_valid s3
                  else
                    match s3 with
                    | EmptyString => false
                    | String d s4 =>
                        in_range 240 244 a
                        && (if byte_val a =? 240 then in_range 144 191 b
                            else if byte_val a =? 244 then in_range 128 143 b
                            else continuation b)
                        && continuation c && continuation d && utf8_valid s4
                    end
              end
        end
  end.

Module Decoder.
Notation dec A := (Eff CodecError string A).

(** [finish] leaves the reader as it is. *)
Definition finish : dec unit := xquery (fun remaining => if str_is_empty remaining then Ok tt else Err Trailing).

Definition fixed (count : nat) : dec string := fun remaining =>
  match get_to remaining count, get_from remaining count with
  | Some bytes, Some rest => (Ok bytes, rest)
  | _, _ => (Err Truncated, remaining)
  end.

(** [fixed(1)?.first().copied()]. *)
Definition first_byte : dec (option Z) :=
  let! s := fixed 1 in
  xret match s with String c _ => Some (byte_val c) | EmptyString => None end.

Definition boolean : dec bool :=
  let! b := first_byte in
  xlift match b with
        | Some 0 => Ok false
        | Some 1 => Ok true
        | _ => Err NonCanonical
        end.

Definition u32 : dec Z := let! bytes := fixed 4 in xret (le_value bytes).
Definition u64 : dec Z := let! bytes := fixed 8 in xret (le_value bytes).

(** The loop over the shifts that are left. *)
Fixpoint uleb_from (shifts : list Z) (value : Z) : dec Z :=
  match shifts with
  | [] => xlift (Err CodecOverflow)
  | shift :: shifts' =>
      let! b := first_byte in
      let! b := xlift (ok_or b Truncated) in
      if (shift =? 28) && (15 <? b) then xlift (Err CodecOverflow)
      else
        let value := Z.lor value (Z.shiftl (Z.land b 127) shift mod 2 ^ 32) in
        if Z.land b 128 =? 0 then
          if negb (shift =? 0) && (b =? 0) then xlift (Err NonCanonical) else xret value
        else uleb_from shifts' value
  end.

Definition uleb : dec Z := uleb_from [0; 7; 14; 21; 28] 0.

(** [usize::try_from] of a [u32] does not fail on 64 bits. *)
Definition bytes (maximum : Z) : dec string :=
  let! count := uleb in
  if maximum <? count then xlift (Err Capacity) else fixed (Z.to_nat count).

Definition string (maximum : Z) : dec string :=
  let! s := bytes maximum in
  xlift (if utf8_valid s then Ok s else Err Utf8).
End Decoder.
