(* ===== verification/CodecFacts.v ===== *)
(** * Properties of the portable codec

    The readers accept exactly the encodings, each of exactly one value, and the writer's
    primitives append exactly that encoding or change nothing. *)

From Stdlib Require Import ZArith Lia Ascii String.
From stdpp Require Import prelude strings.
From S2P Require Import Prelude Effect Amount Keys Codec.
Open Scope Z_scope.

(** ** Bits *)

Lemma lor_shiftl_add a x n : 0 ≤ n → 0 ≤ a < 2 ^ n → Z.lor a (Z.shiftl x n) = a + x * 2 ^ n.
Proof.
  intros Hn Ha. rewrite <- Z.add_nocarry_lor; [by rewrite Z.shiftl_mul_pow2|].
  apply Z.bits_inj'. intros i Hi. rewrite Z.land_spec, Z.shiftl_spec, Z.bits_0 by done.
  destruct (Z.lt_ge_cases i n) as [Hlt|Hge].
  - by rewrite (Z.testbit_neg_r x), andb_false_r by lia.
  - rewrite <- (Z.mod_small a (2 ^ n)) by done. by rewrite Z.mod_pow2_bits_high by lia.
Qed.

Lemma land_127 b : Z.land b 127 = b mod 128.
Proof. change 127 with (Z.ones 7). by rewrite Z.land_ones by lia. Qed.

Lemma lor_128 low : 0 ≤ low < 128 → Z.lor low 128 = low + 128.
Proof. intros Hl. change 128 with (Z.shiftl 1 7) at 1. rewrite lor_shiftl_add by lia. lia. Qed.

(** The continuation bit of a byte. *)
Lemma land_128 b : 0 ≤ b < 256 → (Z.land b 128 =? 0) = (b <? 128).
Proof.
  intros Hb. destruct (Z.ltb_spec b 128) as [Hlt|Hge].
  - apply Z.eqb_eq. change 128 with (Z.shiftl 1 7). apply Z.bits_inj'. intros i Hi.
    rewrite Z.land_spec, Z.shiftl_spec, Z.bits_0 by done. destruct (Z.lt_ge_cases i 7).
    + by rewrite (Z.testbit_neg_r 1), andb_false_r by lia.
    + rewrite <- (Z.mod_small b (2 ^ 7)) by lia. by rewrite Z.mod_pow2_bits_high by lia.
  - apply Z.eqb_neq. intros E. assert (Z.testbit (Z.land b 128) 7 = false) as Ht by (rewrite E; apply Z.bits_0).
    rewrite Z.land_spec in Ht. change (Z.testbit 128 7) with true in Ht. rewrite andb_true_r in Ht.
    apply Z.testbit_false in Ht; [|lia]. change (2 ^ 7) with 128 in Ht. 
    assert (b / 128 = 1) as Hd by (symmetry; apply (Z.div_unique b 128 1 (b - 128)); lia). by rewrite Hd in Ht.
Qed.

(** ** Encodings *)

(** A reader that accepts exactly the encodings of the valid values. *)
Definition codes {A} (dec : Eff CodecError string A) (enc : A → string) (valid : A → Prop) : Prop :=
  ∀ s v rest, dec s = (Ok v, rest) ↔ valid v ∧ s = enc v +:+ rest.

Definition uleb (value : Z) : string := uleb_loop 5 value.
Definition is_u32 (v : Z) : Prop := 0 ≤ v < 2 ^ 32.
Definition is_u64 (v : Z) : Prop := 0 ≤ v < 2 ^ 64.

Lemma fixed_codes n : codes (Decoder.fixed n) (fun s => s) (fun s => String.length s = n).
Proof.
  intros s v rest. unfold Decoder.fixed, get_to, get_from. destruct (Nat.leb_spec n (String.length s)) as [Hl|Hl].
  - split.
    + intros [= <- <-]. rewrite str_take_length, str_take_drop. split; [lia|done].
    + intros [<- ->]. f_equal; [f_equal|].
      * apply str_app_inv with (b := str_drop (String.length v) (v +:+ rest)) (d := rest).
        { rewrite str_take_length, string_length_app. lia. }
        apply str_take_drop.
      * apply (str_app_inv (str_take (String.length v) (v +:+ rest)) _ v rest).
        { rewrite str_take_length, string_length_app. lia. }
        apply str_take_drop.
  - split; [done|]. intros [<- ->]. rewrite string_length_app in Hl. lia.
Qed.

Lemma first_byte_Ok s b rest : Decoder.first_byte s = (Ok b, rest) ↔
  ∃ c, b = Some (byte_val c) ∧ s = String c rest.
Proof.
  unfold Decoder.first_byte. rewrite xbind_Ok. split.
  - intros (v & w & Hf & H). apply fixed_codes in Hf as [Hl ->]. apply xret_Ok in H as [-> ->].
    destruct v as [|c [|]]; try discriminate Hl. eauto.
  - intros (c & -> & ->). exists (String c EmptyString), rest. split; [by apply fixed_codes|done].
Qed.

(** ** ULEB128 *)

Lemma uleb_loop_S n v : 0 ≤ v →
  uleb_loop (S n) v = if v <? 128 then byte v else byte (v mod 128 + 128) +:+ uleb_loop n (v / 128).
Proof.
  intros Hv. cbn [uleb_loop]. rewrite land_127, Z.shiftr_div_pow2 by lia. change (2 ^ 7) with 128.
  pose proof (Z.mod_pos_bound v 128). destruct (Z.ltb_spec v 128) as [Hlt|Hge].
  - by rewrite Z.div_small, Z.mod_small by lia.
  - destruct (Z.eqb_spec (v / 128) 0) as [E|_]; [|by rewrite lor_128 by lia].
    apply Z.div_small_iff in E; lia.
Qed.

(** The shifts of the last [n] rounds, and the bits a value may have there. *)
Fixpoint shifts_left (n : nat) : list Z :=
  match n with O => [] | S n' => 35 - 7 * Z.of_nat n :: shifts_left n' end.
Definition room (n : nat) : Z := 2 ^ (7 * Z.of_nat n - 3).

(** One round of the reader. *)
Lemma uleb_round n acc c s : (n < 5)%nat → let sh := 35 - 7 * Z.of_nat (S n) in let b := byte_val c in
  0 ≤ acc < 2 ^ sh →
  Decoder.uleb_from (shifts_left (S n)) acc (String c s) =
    if (n =? 0)%nat && (15 <? b) then (Err CodecOverflow, s)
    else if b <? 128 then
      if (n <? 4)%nat && (b =? 0) then (Err NonCanonical, s) else (Ok (acc + b * 2 ^ sh), s)
    else Decoder.uleb_from (shifts_left n) (acc + (b - 128) * 2 ^ sh) s.
Proof.
  intros Hn sh b Ha. pose proof (byte_val_bound c) as Hb. fold b in Hb.
  cbn [shifts_left Decoder.uleb_from]. unfold xbind at 1.
  assert (Decoder.first_byte (String c s) = (Ok (Some b), s)) as -> by (apply first_byte_Ok; eauto).
  unfold xbind, xlift at 1. cbn [ok_or]. fold sh.
  assert ((sh =? 28) = (n =? 0)%nat) as -> by (unfold sh; destruct (Nat.eqb_spec n 0); [by subst|apply Z.eqb_neq; lia]).
  destruct ((n =? 0)%nat && (15 <? b)) eqn:Eo; [done|]. rewrite land_128 by done.
  assert ((sh =? 0) = negb (n <? 4)%nat) as ->
    by (unfold sh; destruct (Nat.ltb_spec n 4); [apply Z.eqb_neq; lia|apply Z.eqb_eq; lia]).
  rewrite negb_involutive, land_127.
  assert (Hlow : 0 ≤ b mod 128 < 128) by (apply Z.mod_pos_bound; lia).
  assert (Hsm : b < 128 ∨ (0 < n)%nat → b mod 128 * 2 ^ sh < 2 ^ 32).
  { intros Hor. destruct n as [|n].
    - destruct Hor as [|]; [|lia]. cbn in Eo. apply Z.ltb_ge in Eo.
      rewrite Z.mod_small by lia. unfold sh. cbn. lia.
    - apply Z.lt_le_trans with (128 * 2 ^ sh); [apply Z.mul_lt_mono_pos_r; [apply Z.pow_pos_nonneg; unfold sh; lia|lia]|].
      change 128 with (2 ^ 7). rewrite <- Z.pow_add_r by (unfold sh; lia). apply Z.pow_le_mono_r; unfold sh; lia. }
  assert (Hpos : 0 ≤ b mod 128 * 2 ^ sh) by (apply Z.mul_nonneg_nonneg; [lia|apply Z.pow_nonneg; lia]).
  assert (Hlor : b < 128 ∨ (0 < n)%nat → Z.lor acc (Z.shiftl (b mod 128) sh mod 2 ^ 32) = acc + b mod 128 * 2 ^ sh).
  { intros Hor. rewrite Z.mod_small by (rewrite Z.shiftl_mul_pow2 by (unfold sh; lia); auto with lia).
    apply lor_shiftl_add; [unfold sh; lia|done]. }
  destruct (Z.ltb_spec b 128) as [Hlt|Hge].
  - rewrite Hlor by lia. rewrite Z.mod_small by lia. by destruct ((n <? 4)%nat && (b =? 0)).
  - destruct n as [|n]; [cbn in Eo; apply Z.ltb_ge in Eo; lia|].
    rewrite Hlor by lia. do 3 f_equal. symmetry. apply (Z.mod_unique b 128 1); lia.
Qed.

Lemma room_S n : (0 < n)%nat → room (S n) = 128 * room n.
Proof.
  intros Hn. unfold room. replace (7 * Z.of_nat (S n) - 3) with (7 + (7 * Z.of_nat n - 3)) by lia.
  rewrite Z.pow_add_r by lia. done.
Qed.

Lemma byte_app c s : byte (byte_val c) +:+ s = String c s.
Proof.
  change (String (ascii_of_N (Z.to_N (byte_val c))) s = String c s). f_equal.
  apply byte_val_inj, byte_val_byte, byte_val_bound.
Qed.

Lemma byte_cons n s c s' : 0 ≤ n < 256 → byte n +:+ s = String c s' → n = byte_val c ∧ s = s'.
Proof.
  intros Hn E. change (String (ascii_of_N (Z.to_N n)) s = String c s') in E. injection E as <- ->.
  by rewrite byte_val_byte.
Qed.

(** Reading the last [n] rounds accepts exactly the minimal encodings. *)
Lemma uleb_from_spec n : ∀ acc s r rest, (n ≤ 5)%nat → 0 ≤ acc < 2 ^ (35 - 7 * Z.of_nat n) →
  Decoder.uleb_from (shifts_left n) acc s = (Ok r, rest) ↔
  ∃ v, 0 ≤ v < room n ∧ ((n < 5)%nat → v ≠ 0) ∧ s = uleb_loop n v +:+ rest ∧ r = acc + v * 2 ^ (35 - 7 * Z.of_nat n).
Proof.
  induction n as [|n IH]; intros acc s r rest Hn Ha.
  { split; [done|]. intros (v & Hv & _). unfold room in Hv. cbn in Hv. lia. }
  set (sh := 35 - 7 * Z.of_nat (S n)) in *.
  assert (Hsh : 2 ^ (35 - 7 * Z.of_nat n) = 128 * 2 ^ sh).
  { replace (35 - 7 * Z.of_nat n) with (7 + sh) by (unfold sh; lia). by rewrite Z.pow_add_r by (unfold sh; lia). }
  assert (0 < 2 ^ sh) as Hp by (apply Z.pow_pos_nonneg; unfold sh; lia).
  destruct s as [|c s].
  { split; [done|]. intros (v & Hv & _ & E & _). rewrite uleb_loop_S in E by lia. by destruct (v <? 128). }
  rewrite uleb_round by (done || lia). fold sh. pose proof (byte_val_bound c) as Hb. set (b := byte_val c) in *.
  assert (Hroom : b < 128 → ((n =? 0)%nat && (15 <? b)) = false → b < room (S n)).
  { intros Hlt Eo. destruct n as [|n]; [cbn in Eo; apply Z.ltb_ge in Eo; unfold room; cbn; lia|].
    rewrite room_S by lia. assert (0 < room (S n)) by (apply Z.pow_pos_nonneg; lia). nia. }
  split.
  - destruct ((n =? 0)%nat && (15 <? b)) eqn:Eo; [done|]. destruct (Z.ltb_spec b 128) as [Hlt|Hge].
    + destruct ((n <? 4)%nat && (b =? 0)) eqn:Ez; [done|]. intros [= <- <-]. exists b.
      split_and!; [lia|auto| |rewrite uleb_loop_S, (proj2 (Z.ltb_lt b 128)) by lia; by rewrite <- (byte_app c)|done].
      intros H5 E0. rewrite E0 in Ez. apply andb_false_iff in Ez as [Ez|Ez]; [|done]. apply Nat.ltb_ge in Ez. lia.
    + rewrite IH by (lia || nia). intros (v & Hv & Hnz & -> & ->). exists (b - 128 + 128 * v).
      assert (0 < n)%nat as Hn0. { destruct n; [|lia]. unfold room in Hv. cbn in Hv. lia. }
      rewrite room_S by done. specialize (Hnz ltac:(lia)).
      split_and!; [lia|lia|lia| |rewrite Hsh; lia].
      rewrite uleb_loop_S, (proj2 (Z.ltb_ge (b - 128 + 128 * v) 128)) by lia.
      rewrite (Z.mul_comm 128 v), Z.div_add, Z.mod_add, Z.div_small, Z.mod_small by lia.
      rewrite Z.add_0_l, Z.sub_add. by rewrite <- (byte_app c), str_app_assoc.
  - intros (v & Hv & Hnz & E & ->). rewrite uleb_loop_S in E by lia. destruct (Z.ltb_spec v 128) as [Hlt|Hge].
    + symmetry in E. apply byte_cons in E as [-> ->]; [|lia]. fold b in Hv, Hlt, Hnz |- *.
      rewrite (proj2 (Z.ltb_lt b 128)) by done.
      assert (((n =? 0)%nat && (15 <? b)) = false) as ->.
      { destruct n; [|done]. unfold room in Hv. cbn in Hv |- *. apply Z.ltb_ge. lia. }
      destruct (Nat.ltb_spec n 4); [|done]. by rewrite (proj2 (Z.eqb_neq b 0)) by (apply Hnz; lia).
    + rewrite str_app_assoc in E. symmetry in E. pose proof (Z.mod_pos_bound v 128).
      apply byte_cons in E as [E <-]; [|lia]. fold b in E.
      assert (0 < n)%nat as Hn0. { destruct n; [|lia]. unfold room in Hv. cbn in Hv. lia. }
      rewrite (proj2 (Nat.eqb_neq n 0)) by lia. cbn [andb]. rewrite (proj2 (Z.ltb_ge b 128)) by lia.
      rewrite room_S in Hv by done. apply IH; [lia|nia|]. exists (v / 128).
      pose proof (Z.div_mod v 128). split_and!; [lia..| |done|rewrite Hsh; nia].
      intros _ E0. lia.
Qed.

Lemma uleb_codes : codes Decoder.uleb uleb is_u32.
Proof.
  intros s v rest. unfold Decoder.uleb. change [0; 7; 14; 21; 28] with (shifts_left 5).
  rewrite uleb_from_spec by (cbn; lia). unfold uleb, is_u32, room. change (7 * Z.of_nat 5 - 3) with 32.
  change (35 - 7 * Z.of_nat 5) with 0. split.
  - intros (u & Hu & _ & -> & ->). by rewrite Z.mul_1_r.
  - intros [Hv ->]. exists v. split_and!; [lia..|lia|done|lia].
Qed.

(** ** Fixed-width integers and sequences *)

Lemma le_value_bound s : 0 ≤ le_value s < 256 ^ slen s.
Proof.
  unfold slen. induction s as [|c s IH]; [done|]. cbn [String.length le_value].
  rewrite Nat2Z.inj_succ, Z.pow_succ_r by lia. pose proof (byte_val_bound c). lia.
Qed.

Lemma le_value_bytes w n : 0 ≤ n < 256 ^ Z.of_nat w → le_value (le_bytes w n) = n.
Proof.
  revert n. induction w as [|w IH]; intros n Hn; [cbn in *; lia|].
  rewrite Nat2Z.inj_succ, Z.pow_succ_r in Hn by lia.
  change (byte_val (ascii_of_N (Z.to_N (n mod 256))) + 256 * le_value (le_bytes w (n / 256)) = n).
  pose proof (Z.mod_pos_bound n 256). rewrite byte_val_byte by lia.
  rewrite IH by (split; [apply Z.div_pos; lia|apply Z.div_lt_upper_bound; lia]).
  rewrite (Z.div_mod n 256) at 3 by lia. lia.
Qed.

Lemma le_bytes_value s : le_bytes (String.length s) (le_value s) = s.
Proof.
  induction s as [|c s IH]; [done|]. cbn [String.length le_bytes le_value]. pose proof (byte_val_bound c).
  rewrite (Z.mul_comm 256), Z.div_add, Z.mod_add, Z.div_small, Z.mod_small by lia.
  by rewrite Z.add_0_l, IH, byte_app.
Qed.

Lemma le_codes w : codes (let! bytes := Decoder.fixed w in xret (le_value bytes)) (le_bytes w)
  (fun v => 0 ≤ v < 256 ^ Z.of_nat w).
Proof.
  intros s v rest. rewrite xbind_Ok. split.
  - intros (b & w1 & Hf & H). apply fixed_codes in Hf as [<- ->]. apply xret_Ok in H as [-> ->].
    rewrite le_bytes_value. split; [apply le_value_bound|done].
  - intros [Hv ->]. exists (le_bytes w v), rest. split; [apply fixed_codes; by rewrite le_bytes_length|].
    by rewrite le_value_bytes.
Qed.

Definition encode_bool (b : bool) : string := byte (if b then 1 else 0).

Lemma boolean_codes : codes Decoder.boolean encode_bool (fun _ => True).
Proof.
  intros s v rest. unfold Decoder.boolean. rewrite xbind_Ok. split.
  - intros (b & w & (c & -> & ->)%first_byte_Ok & H). split; [done|]. rewrite <- (byte_app c).
    destruct (byte_val c) as [|[]|]; cbn in H; apply xlift_Ok in H as [H ->]; try discriminate H; by injection H as <-.
  - intros [_ ->]. destruct v; eexists _, rest; (split; [apply first_byte_Ok; eexists; split; [done|reflexivity]|reflexivity]).
Qed.

(** A length-prefixed sequence. *)
Definition sequence (s : string) : string := uleb (slen s) +:+ s.

Lemma bytes_codes maximum : codes (Decoder.bytes maximum) sequence (fun s => slen s ≤ maximum ∧ slen s ≤ U32_MAX).
Proof.
  intros s v rest. unfold Decoder.bytes. rewrite xbind_Ok. split.
  - intros (n & w & Hu & H). apply uleb_codes in Hu as [Hn ->]. unfold is_u32 in Hn.
    destruct (Z.ltb_spec maximum n) as [|Hm]; [by apply xlift_Ok in H as [? _]|].
    apply fixed_codes in H as [Hl ->]. unfold sequence, slen, U32_MAX. rewrite Hl, Z2Nat.id by lia.
    split; [lia|]. by rewrite str_app_assoc.
  - intros [[Hm Hn] ->]. unfold sequence. rewrite str_app_assoc. pose proof (slen_nonneg v).
    exists (slen v), (v +:+ rest). split; [apply uleb_codes; unfold is_u32, U32_MAX in *; split; [lia|done]|].
    rewrite (proj2 (Z.ltb_ge _ _)) by done. apply fixed_codes. split; [unfold slen; lia|done].
Qed.

Lemma string_codes maximum :
  codes (Decoder.string maximum) sequence (fun s => utf8_valid s = true ∧ slen s ≤ maximum ∧ slen s ≤ U32_MAX).
Proof.
  intros s v rest. unfold Decoder.string. rewrite xbind_Ok. split.
  - intros (b & w & Hb & H). apply bytes_codes in Hb as [Hv ->]. destruct (utf8_valid b) eqn:E; apply xlift_Ok in H as [H ->];
      [|done]. by injection H as <-.
  - intros [[Hu Hv] ->]. exists v, rest. split; [by apply bytes_codes|]. by rewrite Hu.
Qed.

(** ** The writer *)

Section Writer.
Definition encoder_wf (e : Encoder.t) : Prop :=
  (Encoder.position e ≤ String.length (Encoder.buffer e))%nat ∧ slen (Encoder.buffer e) ≤ U64_MAX.
Definition free (e : Encoder.t) : nat := String.length (Encoder.buffer e) - Encoder.position e.

(** The cursor moved over [s], which is what was written; nothing else changed. *)
Definition appended (e e' : Encoder.t) (s : string) : Prop :=
  encoder_wf e' ∧ Encoder.written e' = Encoder.written e +:+ s ∧ free e = (String.length s + free e')%nat ∧
  str_drop (Encoder.position e') (Encoder.buffer e') = str_drop (Encoder.position e') (Encoder.buffer e).

(** A write of [s]: all of it, or nothing and [Capacity]. *)
Definition writes (op : Eff CodecError Encoder.t unit) (s : string) : Prop := ∀ e, encoder_wf e →
  if (String.length s <=? free e)%nat then ∃ e', op e = (Ok tt, e') ∧ appended e e' s
  else op e = (Err Capacity, e).

Lemma add_usize_spec a b : Encoder.add_usize a b = if Z.of_nat (a + b) <=? U64_MAX then Some (a + b)%nat else None.
Proof.
  unfold Encoder.add_usize, checked_add_u64, checked_op. rewrite (proj2 (Z.leb_le 0 _)) by lia. cbn [andb].
  replace (Z.of_nat a + Z.of_nat b) with (Z.of_nat (a + b)) by lia.
  destruct (_ <=? _); [|done]. cbn. f_equal. lia.
Qed.

Lemma str_take_app s t : str_take (String.length s) (s +:+ t) = s.
Proof. induction s as [|c s IH]; [by destruct t|]. rewrite str_app_cons. cbn [String.length str_take]. by rewrite IH. Qed.
Lemma str_drop_app s t : str_drop (String.length s) (s +:+ t) = t.
Proof. induction s as [|c s IH]; [by destruct t|]. rewrite str_app_cons. cbn [String.length str_drop]. by rewrite IH. Qed.

Lemma str_drop_drop n m s : str_drop m (str_drop n s) = str_drop (n + m) s.
Proof. revert s. induction n as [|n IH]; intros [|c s]; cbn; [by destruct m..|by destruct m|apply IH]. Qed.

Lemma written_wf e : encoder_wf e → Encoder.written e = str_take (Encoder.position e) (Encoder.buffer e).
Proof. intros [Hp _]. unfold Encoder.written, get_to. by rewrite (proj2 (Nat.leb_le _ _)). Qed.

Lemma fixed_writes s : writes (Encoder.fixed s) s.
Proof.
  intros e He. pose proof He as [Hp Hu]. unfold Encoder.fixed, free. rewrite add_usize_spec. unfold slen in Hu.
  destruct (Nat.leb_spec (String.length s) (String.length (Encoder.buffer e) - Encoder.position e)) as [Hl|Hl].
  - rewrite (proj2 (Z.leb_le _ _)) by lia. rewrite !(proj2 (Nat.leb_le _ _)) by lia. cbn [andb].
    eexists. split; [done|]. set (e' := Encoder.mk _ _).
    assert (String.length (Encoder.buffer e') = String.length (Encoder.buffer e)) as Hbl.
    { cbn. rewrite !string_length_app, str_take_length, str_drop_length. lia. }
    assert (Hsplit : Encoder.buffer e' = (str_take (Encoder.position e) (Encoder.buffer e) +:+ s) +:+ str_drop (Encoder.position e') (Encoder.buffer e))
      by (cbn; by rewrite str_app_assoc).
    assert (Hpl : Encoder.position e' = String.length (str_take (Encoder.position e) (Encoder.buffer e) +:+ s))
      by (cbn; rewrite string_length_app, str_take_length; lia).
    assert (encoder_wf e') as He'. { split; [rewrite Hbl; cbn; lia|unfold slen; rewrite Hbl; lia]. }
    split_and!; [done| |unfold free; rewrite Hbl; cbn; lia|].
    + rewrite !written_wf by done. by rewrite Hsplit, Hpl, str_take_app.
    + by rewrite Hsplit at 1; rewrite Hpl at 1; rewrite str_drop_app.
  - destruct (_ <=? U64_MAX); [|done]. by rewrite (proj2 (Nat.leb_gt (Encoder.position e + _) _)), andb_false_r by lia.
Qed.

(** Two writes whose room was checked before. *)
Lemma writes_pair op1 op2 s1 s2 : writes op1 s1 → writes op2 s2 →
  ∀ e, encoder_wf e → (String.length (s1 +:+ s2) ≤ free e)%nat →
  ∃ e', (op1 ;! op2) e = (Ok tt, e') ∧ appended e e' (s1 +:+ s2).
Proof.
  intros H1 H2 e He Hl. rewrite string_length_app in Hl. specialize (H1 e He).
  rewrite (proj2 (Nat.leb_le _ _)) in H1 by lia. destruct H1 as (e1 & E1 & W1 & A1 & F1 & D1).
  specialize (H2 e1 W1). rewrite (proj2 (Nat.leb_le _ _)) in H2 by lia. destruct H2 as (e2 & E2 & W2 & A2 & F2 & D2).
  exists e2. unfold xbind. rewrite E1. split; [done|].
  assert (Hpos : Encoder.position e2 = (Encoder.position e1 + String.length s2)%nat).
  { apply (f_equal String.length) in A2. rewrite string_length_app, !written_wf, !str_take_length in A2 by done.
    destruct W1, W2. lia. }
  split_and!; [done|by rewrite A2, A1, str_app_assoc|rewrite string_length_app; lia|].
  rewrite D2, Hpos. apply (f_equal (str_drop (String.length s2))) in D1. by rewrite !str_drop_drop in D1.
Qed.

Lemma uleb_length v : (String.length (uleb v) ≤ 5)%nat.
Proof.
  unfold uleb. generalize 5%nat. intros n. revert v. induction n as [|n IH]; intros v; [done|]. cbn [uleb_loop].
  destruct (_ =? 0); [cbn; lia|]. rewrite string_length_app. specialize (IH (Z.shiftr v 7)). cbn. lia.
Qed.

Lemma uleb_prefix v : get_to (uleb_bytes v).1 (uleb_bytes v).2 = Some (uleb v).
Proof.
  unfold uleb_bytes, get_to. cbn [fst snd]. rewrite (proj2 (Nat.leb_le _ _)) by (rewrite string_length_app; lia).
  by rewrite str_take_app.
Qed.

Lemma uleb_writes v : writes (Encoder.uleb v) (uleb v).
Proof.
  intros e He. pose proof (fixed_writes (uleb v) e He) as Hw. unfold Encoder.uleb.
  pose proof (uleb_prefix v) as Hp. destruct (uleb_bytes v) as [b c]. cbn [fst snd] in Hp. rewrite Hp. exact Hw.
Qed.

Lemma sequence_length s : String.length (sequence s) = (String.length (uleb (slen s)) + String.length s)%nat.
Proof. apply string_length_app. Qed.

Lemma bytes_run s e : slen s ≤ U32_MAX → encoder_wf e →
  Encoder.bytes s e =
    if (String.length (sequence s) <=? free e)%nat then (Encoder.fixed (uleb (slen s)) ;! Encoder.fixed s) e
    else (Err Capacity, e).
Proof.
  intros Hs [He1 He2]. pose proof (slen_nonneg s) as H0. pose proof (uleb_length (slen s)) as Hul.
  unfold Encoder.bytes, xbind at 1, xlift at 1.
  rewrite (proj2 (checked_op_Some _ _ (slen s))) by (split; [done|lia]). cbn [ok_or].
  pose proof (uleb_prefix (slen s)) as Hp. unfold uleb_bytes in *. cbn [fst snd] in Hp. fold (uleb (slen s)) in *.
  rewrite Hp. unfold xbind at 1, xlift at 1. rewrite add_usize_spec, <- sequence_length.
  rewrite (proj2 (Z.leb_le _ _)) by (rewrite sequence_length; unfold slen, U32_MAX, U64_MAX in *; lia). cbn [ok_or].
  unfold xbind at 1, xquery at 1. rewrite add_usize_spec. unfold free, slen in *.
  destruct (Nat.leb_spec (String.length (sequence s)) (String.length (Encoder.buffer e) - Encoder.position e)) as [Hf|Hf].
  - rewrite (proj2 (Z.leb_le _ _)) by lia. cbn [ok_or]. unfold xbind at 1, xquery at 1.
    by rewrite (proj2 (Nat.ltb_ge _ _)) by lia.
  - destruct (Z.of_nat _ <=? U64_MAX); [|done]. cbn [ok_or]. unfold xbind at 1, xquery at 1.
    by rewrite (proj2 (Nat.ltb_lt _ _)) by lia.
Qed.

Lemma bytes_writes s : slen s ≤ U32_MAX → writes (Encoder.bytes s) (sequence s).
Proof.
  intros Hs e He. rewrite bytes_run by done. destruct (Nat.leb_spec (String.length (sequence s)) (free e)); [|done].
  apply writes_pair; [apply fixed_writes..|done|done].
Qed.
End Writer.

(** ** Properties *)

(** C22: the canonical codec is exact.  Each reader accepts an input exactly when it starts with
    the encoding of a value in bounds and then returns that value and leaves the rest, so
    encodings are unique and no other byte string is accepted; each writer appends exactly
    that encoding when it fits the buffer, and otherwise reports [Capacity] and changes
    neither buffer nor cursor; a sequence too long for its prefix is refused. *)
Theorem portable_codec_exact :
  codes Decoder.boolean encode_bool (fun _ => True) ∧ codes Decoder.u32 (le_bytes 4) is_u32 ∧
  codes Decoder.u64 (le_bytes 8) is_u64 ∧ codes Decoder.uleb uleb is_u32 ∧
  (∀ maximum, codes (Decoder.bytes maximum) sequence (fun s => slen s ≤ maximum ∧ slen s ≤ U32_MAX)) ∧
  (∀ maximum, codes (Decoder.string maximum) sequence
     (fun s => utf8_valid s = true ∧ slen s ≤ maximum ∧ slen s ≤ U32_MAX)) ∧
  (∀ b, writes (Encoder.boolean b) (encode_bool b)) ∧ (∀ v, writes (Encoder.u32 v) (le_bytes 4 v)) ∧
  (∀ v, writes (Encoder.u64 v) (le_bytes 8 v)) ∧ (∀ v, writes (Encoder.uleb v) (uleb v)) ∧
  ∀ s, (slen s ≤ U32_MAX → writes (Encoder.bytes s) (sequence s) ∧ writes (Encoder.string s) (sequence s)) ∧
       (U32_MAX < slen s → ∀ e, Encoder.bytes s e = (Err CodecOverflow, e)).
Proof.
  split_and!; [exact boolean_codes|exact (le_codes 4)|exact (le_codes 8)|exact uleb_codes|exact bytes_codes
    |exact string_codes|intros; apply fixed_writes..|exact uleb_writes|].
  intros s. split; [intros Hs; split; by apply bytes_writes|]. intros Hs e. unfold Encoder.bytes.
  destruct (checked_op U32_MAX (slen s)) eqn:E; [|done]. apply checked_op_Some in E as [_ ?]. lia.
Qed.
