(* ===== verification/Integrity.v ===== *)
(** * Portable integrity checks

    Models [crates/statechronicle-portable/src/integrity.rs]: the key derivation, the hash of
    the custom-state envelope and the allocation-free verification of sparse Merkle proofs,
    and shows that they agree with the accumulator.  SHA-256 is the parameter [H]; feeding it
    piecewise is hashing the concatenation.  The parsing of an ed25519 key and the strict
    verification are parameters of [verify_signature]. *)

From Stdlib Require Import ZArith Lia Ascii String.
From stdpp Require Import prelude strings.
From S2P Require Import Prelude Effect Amount Domain Keys Sha256 DefaultHashes Accumulator Merkle.
From S2P Require Import DefaultTable Signing Bundle BundleFacts Codec CodecFacts.
Open Scope Z_scope.

Module Portable.
(** A step of a portable proof; the level is a [u8]. *)
Record PathStep := mkPathStep { level : nat; sibling : string }.

Section Hash.
Context (H : string → string).

Definition hash (bytes : string) : string := H bytes.

Definition resource_key (tenant resource : string) : string :=
  H (byte 0 +:+ le_bytes 8 (slen tenant) +:+ tenant +:+ byte 1 +:+ le_bytes 8 (slen resource) +:+ resource).

(** The digest so far is the bytes fed to it. *)
Definition update_field (digest bytes : string) : result string CodecError :=
  let? length := ok_or (checked_op U32_MAX (slen bytes)) CodecOverflow in
  let (prefix, count) := uleb_bytes length in
  let? prefix := ok_or (get_to prefix count) CodecOverflow in
  Ok (digest +:+ prefix +:+ bytes).

Definition custom_state_hash (domain : string) (schema : Z) (payload : string) : result string CodecError :=
  let? digest := update_field (byte 7) domain in
  let? digest := update_field (digest +:+ le_bytes 4 schema) payload in
  Ok (H digest).

Definition node_hash (tag : Z) (left right : string) : string := H (byte tag +:+ left +:+ right).

(** [windows(2).any(first.level >= second.level)]. *)
Fixpoint unordered (steps : list PathStep) : bool :=
  match steps with
  | first :: rest =>
      match rest with
      | second :: _ => (level second <=? level first)%nat || unordered rest
      | [] => false
      end
  | [] => false
  end.

(** The loop over [n] levels from [lvl], with the peeked path, the running hash and the
    default of the level; [None] is the early [return false]. *)
Fixpoint path_loop (n : nat) (lvl : nat) (key : string) (path : list PathStep) (current default : string)
    : option (list PathStep * string) :=
  match n with
  | O => Some (path, current)
  | S n' =>
      let (sib, path) := match path with
        | step :: rest => if (level step =? lvl)%nat then (sibling step, rest) else (default, path)
        | [] => (default, [])
        end in
      let byte_position := ((255 - lvl) / 8)%nat in
      match String.get byte_position key with
      | None => None
      | Some b =>
          let right := Z.land (Z.shiftr (byte_val b) (Z.of_nat (lvl mod 8))) 1 =? 1 in
          let current := if right then node_hash 16 sib current else node_hash 16 current sib in
          path_loop n' (S lvl) key path current (node_hash 16 default default)
      end
  end.

Definition verify_path (root key leaf : string) (steps : list PathStep) : bool :=
  if (256 <? length steps)%nat || unordered steps then false
  else
    match path_loop 256 0 key steps leaf (node_hash 17 zero_block zero_block) with
    | None => false
    | Some (path, current) => match path with [] => String.eqb current root | _ => false end
    end.

Definition verify_inclusion (root key state : string) (steps : list PathStep) : bool :=
  verify_path root key (node_hash 17 key state) steps.
Definition verify_non_membership (root key : string) (steps : list PathStep) : bool :=
  verify_path root key (node_hash 17 zero_block zero_block) steps.
End Hash.

(** Strict verification under a key given as bytes. *)
Section Signature.
Context {SigningKey VerifyingKey : Type} (scheme : SignatureScheme SigningKey VerifyingKey).
Context (from_bytes : string → result VerifyingKey string).

Definition verify_signature (body key signature : string) : bool :=
  match from_bytes key with
  | Err _ => false
  | Ok verifier => match ed_verify_strict scheme verifier body signature with Ok _ => true | Err _ => false end
  end.

(** It accepts what the engine's verifier accepts under the parsed key. *)
Lemma portable_signature_agrees body key signature :
  verify_signature body key signature = true ↔
  ∃ verifier, from_bytes key = Ok verifier ∧ verify scheme body verifier signature = Ok tt.
Proof.
  unfold verify_signature, verify. destruct (from_bytes key) as [verifier|e].
  - destruct (ed_verify_strict scheme verifier body signature) as [[]|e] eqn:E.
    + split; [|done]. intros _. exists verifier. by rewrite E.
    + split; [done|]. intros (v & [= <-] & Hv). by rewrite E in Hv.
  - split; [done|]. by intros (v & [=] & _).
Qed.
End Signature.
End Portable.

(** ** Agreement with the accumulator *)

Definition to_step (s : Portable.PathStep) : PathStep := mkStep (Portable.level s) (Portable.sibling s).
Definition of_step (s : PathStep) : Portable.PathStep := Portable.mkPathStep (ps_level s) (ps_sibling s).

Inductive ascending : nat → list PathStep → Prop :=
| ascending_nil k : ascending k []
| ascending_cons k s steps : (k ≤ ps_level s)%nat → ascending (S (ps_level s)) steps → ascending k (s :: steps).

Lemma ascending_levels k steps : ascending k steps → Forall (fun s => (k ≤ ps_level s)%nat) steps.
Proof.
  induction 1 as [|k s steps Hl _ IH]; constructor; [done|]. eapply Forall_impl; [done|]. cbn. intros; lia.
Qed.

Lemma ascending_weaken k k' steps : (k' ≤ k)%nat → ascending k steps → ascending k' steps.
Proof. intros Hk Hc. destruct Hc; constructor; try done. lia. Qed.

Lemma ascending_above k steps : ascending k steps → Forall (fun s => ps_level s ≠ k) steps → ascending (S k) steps.
Proof. intros Hc Hn. destruct Hc as [|k s steps]; constructor; try done. inversion_clear Hn. lia. Qed.

Lemma unordered_spec steps : Portable.unordered steps = false ↔ ascending 0 (map to_step steps).
Proof.
  induction steps as [|s steps IH]; [split; [constructor|done]|]. destruct steps as [|s' steps].
  { split; [|done]. intros _. constructor; [lia|constructor]. }
  change (Portable.unordered (s :: s' :: steps)) with
    ((Portable.level s' <=? Portable.level s)%nat || Portable.unordered (s' :: steps)).
  rewrite orb_false_iff, IH, Nat.leb_gt. split.
  - intros [Hlt Ha]. constructor; [lia|]. inversion Ha; subst. constructor; [cbn; lia|done].
  - intros Ha. inversion Ha as [|k a l _ Ha']; subst. inversion Ha' as [|k a l Hl Ha'']; subst. cbn in Hl.
    split; [lia|]. constructor; [lia|done].
Qed.

Lemma ascending_length k steps : ascending k steps → Forall (fun s => (ps_level s < 256)%nat) steps →
  (k ≤ 256)%nat → (length steps + k ≤ 256)%nat.
Proof.
  induction 1 as [|k s steps Hl _ IH]; intros Hf Hk; [done|]. inversion_clear Hf. cbn [length].
  specialize (IH ltac:(done) ltac:(lia)). lia.
Qed.

Lemma get_some s n : (n < String.length s)%nat → ∃ c, String.get n s = Some c.
Proof. revert n. induction s as [|c s IH]; intros [|n] Hn; cbn in *; try lia; eauto with lia. Qed.

(** The bit a level decides on, read by the portable verifier. *)
Lemma portable_bit key lvl : is_key key → (lvl < 256)%nat → ∃ b, String.get ((255 - lvl) / 8) key = Some b ∧
  (Z.land (Z.shiftr (byte_val b) (Z.of_nat (lvl mod 8))) 1 =? 1) = bit_at key (Z.of_nat (TREE_DEPTH - 1 - lvl)).
Proof.
  intros Hk Hl. destruct (get_some key ((255 - lvl) / 8)) as [b Hb].
  { rewrite Hk. apply Nat.Div0.div_lt_upper_bound. lia. }
  exists b. split; [done|]. rewrite bit_at_byte by lia. change (TREE_DEPTH - 1)%nat with 255%nat.
  replace (Z.to_nat (Z.of_nat (255 - lvl) / 8)) with ((255 - lvl) / 8)%nat
    by (change 8 with (Z.of_nat 8); rewrite <- Nat2Z.inj_div; lia).
  rewrite Hb, bit_of_byte by lia. f_equal. rewrite Nat2Z.inj_mod. change (Z.of_nat 8) with 8.
  pose proof (Z.div_mod (Z.of_nat lvl) 8 ltac:(lia)). pose proof (Z.mod_pos_bound (Z.of_nat lvl) 8 ltac:(lia)).
  assert (7 - Z.of_nat lvl mod 8 = Z.of_nat (255 - lvl) mod 8) as <- by
    (apply (Z.mod_unique _ 8 (31 - Z.of_nat lvl / 8)); lia). lia.
Qed.

Section Agreement.
Context (H : string → string) `{!HashLaws H}.

Lemma node_hash_internal l r : Portable.node_hash H 16 l r = internal_hash H l r.
Proof. reflexivity. Qed.
Lemma node_hash_leaf k d : Portable.node_hash H 17 k d = leaf_hash H k d.
Proof. reflexivity. Qed.

(** One round consumes the step of its level, if any, and climbs one level. *)
Lemma path_round key all path lvl (n : nat) current : is_key key → (lvl < 256)%nat →
  ascending lvl (map to_step path) → (∀ l, (lvl ≤ l)%nat → sibling_at all l = sibling_at (map to_step path) l) →
  ∃ path', Portable.path_loop H (S n) lvl key path current (default_hash lvl) =
      Portable.path_loop H n (S lvl) key path' (combine H key all lvl current) (default_hash (S lvl)) ∧
    ascending (S lvl) (map to_step path') ∧
    (∀ l, (S lvl ≤ l)%nat → sibling_at all l = sibling_at (map to_step path') l) ∧
    (∀ s, s ∈ path' → s ∈ path).
Proof.
  intros Hk Hl Ha Hs. destruct (portable_bit key lvl Hk Hl) as (b & Hb & Hbit).
  cbn [Portable.path_loop]. rewrite Hb, Hbit, !node_hash_internal, <- default_law by done. unfold combine.
  destruct path as [|s path].
  { exists []. rewrite (Hs lvl) by lia. split_and!; [done|constructor| |done]. intros l Hll. apply Hs. lia. }
  destruct (Nat.eqb_spec (Portable.level s) lvl) as [E|E].
  - exists path. cbn [map] in Ha. inversion Ha as [|k s0 l0 Hl0 Ha' E1 E2]; subst. change (ps_level (to_step s)) with (Portable.level s) in *.
    assert (sibling_at (to_step s :: map to_step path) (Portable.level s) = Portable.sibling s) as Hsib.
    { apply (sibling_at_cons_eq (to_step s)). eapply Forall_impl; [by apply ascending_levels|]. cbn. intros; lia. }
    rewrite (Hs (Portable.level s)) by lia. cbn [map]. rewrite Hsib.
    split_and!; [done|done| |by right]. intros l Hll. rewrite Hs by lia. cbn [map]. apply sibling_at_cons_ne. cbn. lia.
  - exists (s :: path).
    assert (Forall (fun s' => ps_level s' ≠ lvl) (map to_step (s :: path))) as Hab.
    { cbn [map] in Ha |- *. inversion Ha as [|k s0 l0 Hl0 Ha' E1 E2]; subst. constructor; [done|].
      eapply Forall_impl; [by apply ascending_levels|]. cbn in Hl0 |- *. intros; lia. }
    rewrite (Hs lvl) by lia. rewrite sibling_at_absent by done.
    split_and!; [done|by apply ascending_above| |done]. intros l Hll. apply Hs. lia.
Qed.

Lemma path_loop_climbs key all leaf n : ∀ path lvl, is_key key → (lvl + n = 256)%nat →
  ascending lvl (map to_step path) → Forall (fun s => (Portable.level s < 256)%nat) path →
  (∀ l, (lvl ≤ l)%nat → sibling_at all l = sibling_at (map to_step path) l) →
  Portable.path_loop H n lvl key path (climb H key all leaf lvl) (default_hash lvl) = Some ([], climb H key all leaf 256).
Proof.
  induction n as [|n IH]; intros path lvl Hk Hn Ha Hf Hs.
  - replace lvl with 256%nat in * by lia. destruct path as [|s path]; [done|].
    cbn in Ha. inversion Ha as [|k s0 l0 Hl0 _ E1 E2]; subst. inversion_clear Hf. cbn in Hl0. lia.
  - destruct (path_round key all path lvl n (climb H key all leaf lvl)) as (path' & -> & Ha' & Hs' & Hin); [done|lia|done..|].
    change (combine H key all lvl (climb H key all leaf lvl)) with (climb H key all leaf (S lvl)).
    apply IH; [done|lia|done| |done]. rewrite Forall_forall in Hf |- *. auto.
Qed.

(** The portable check is the accumulator's, on ordered paths. *)
Lemma verify_path_agrees root key leaf steps : is_key key → Forall (fun s => (Portable.level s < 256)%nat) steps →
  Portable.verify_path H root key leaf steps =
  negb (Portable.unordered steps) && verify_path H root key leaf (map to_step steps).
Proof.
  intros Hk Hf. unfold Portable.verify_path. destruct (Portable.unordered steps) eqn:Eu; [by rewrite orb_true_r|].
  apply unordered_spec in Eu.
  pose proof (ascending_length _ _ Eu ltac:(by apply Forall_map) ltac:(lia)) as Hlen. rewrite length_map in Hlen.
  rewrite (proj2 (Nat.ltb_ge _ _)) by lia. cbn [orb negb andb].
  rewrite node_hash_leaf, empty_leaf_law, <- default_hash_0.
  change leaf with (climb H key (map to_step steps) leaf 0) at 1.
  rewrite (path_loop_climbs key (map to_step steps) leaf 256 steps 0); done.
Qed.

Lemma canonical_ascending k steps : canonical_steps k steps → ascending k steps ∧ Forall (fun s => (ps_level s < 256)%nat) steps.
Proof.
  induction 1 as [|k s steps Hl _ _ [IH1 IH2]]; [split; constructor|]. unfold TREE_DEPTH in Hl.
  split; constructor; (done || lia).
Qed.

Lemma to_of_steps steps : map to_step (map of_step steps) = steps.
Proof. rewrite map_map. rewrite <- (map_id steps) at 2. apply map_ext. by intros []. Qed.

(** A path the prover collects, accepted from the slot's hash. *)
Lemma collected_accepted batches key leaf : valid_batches batches → is_key key →
  slot H (leaves (build H batches)) key = leaf →
  Portable.verify_path H (compute_root H (build H batches)) key leaf
    (map of_step (collect_steps H (build H batches) key)) = true.
Proof.
  intros Hv Hk <-.
  destruct (canonical_ascending 0 (collect_steps H (build H batches) key)) as [Ha Hf]; [by apply collect_canonical|].
  rewrite verify_path_agrees; [|done|by apply Forall_map].
  rewrite to_of_steps, verify_complete by done. rewrite andb_true_r. apply negb_true_iff, unordered_spec.
  by rewrite to_of_steps.
Qed.

(** ** Properties *)

(** C21: the portable verifier is the accumulator's.  On any path of [u8] levels it accepts
    exactly the strictly ascending ones the accumulator's verifier accepts from the same
    leaf, for a claimed state and for absence alike; every proof the accumulator makes, of a
    written key or of an absent one, is accepted; and it derives the same resource keys. *)
Theorem portable_proofs_agree (key : string) (steps : list Portable.PathStep) (batches : list (list Entry)) :
  is_key key → Forall (fun s => (Portable.level s < 256)%nat) steps → valid_batches batches →
  (∀ root state, Portable.verify_inclusion H root key state steps =
     negb (Portable.unordered steps) &&
     verify_inclusion H root (mkInclusion key (leaf_hash H key state) (map to_step steps))) ∧
  (∀ root, Portable.verify_non_membership H root key steps =
     negb (Portable.unordered steps) &&
     verify_non_membership H root (mkNonMembership key EMPTY_LEAF_HASH (map to_step steps))) ∧
  (let a := build H batches in
   match last_write (mjoin batches) key with
   | Some d => ∃ proof, prove_inclusion H a key = Some proof ∧
       Portable.verify_inclusion H (compute_root H a) key d (map of_step (ip_steps proof)) = true
   | None => ∃ proof, prove_non_membership H a key = Some proof ∧
       Portable.verify_non_membership H (compute_root H a) key (map of_step (np_steps proof)) = true
   end) ∧
  (∀ tenant resource, Portable.resource_key H tenant resource = for_resource H tenant resource).
Proof.
  intros Hk Hf Hv. split_and!.
  - intros root state. unfold Portable.verify_inclusion, verify_inclusion. cbn [ip_key ip_leaf_hash ip_steps].
    by rewrite node_hash_leaf, verify_path_agrees.
  - intros root. unfold Portable.verify_non_membership, verify_non_membership. cbn [np_key np_leaf_hash np_steps].
    by rewrite node_hash_leaf, empty_leaf_law, verify_path_agrees.
  - cbv zeta. pose proof (collected_accepted batches key _ Hv Hk eq_refl) as Hc.
    unfold slot in Hc. unfold prove_inclusion, prove_non_membership.
    rewrite (proj2 (build_spec H _ Hv)) in *. destruct (last_write _ key) as [d|].
    + eexists. split; [reflexivity|]. cbn [ip_steps]. unfold Portable.verify_inclusion.
      rewrite node_hash_leaf. exact Hc.
    + eexists. split; [reflexivity|]. cbn [np_steps]. unfold Portable.verify_non_membership.
      rewrite node_hash_leaf, empty_leaf_law. exact Hc.
  - done.
Qed.
End Agreement.

Lemma portable_proofs_agree_witness : ∃ proof,
  prove_inclusion sha256 (build sha256 MerkleSamples.history) MerkleSamples.key_a = Some proof ∧
  Portable.verify_inclusion sha256 (compute_root sha256 (build sha256 MerkleSamples.history)) MerkleSamples.key_a
    MerkleSamples.digest_2 (map of_step (ip_steps proof)) = true.
Proof.
  destruct (portable_proofs_agree sha256 MerkleSamples.key_a [] MerkleSamples.history) as (_ & _ & Hc & _).
  - reflexivity.
  - constructor.
  - exact MerkleSamples.history_valid.
  - exact Hc.
Defined.
