(* ===== verification/Custom.v ===== *)
(** * Typed consumer profiles

    Models the [StateProfile] contract of [crates/statechronicle-profile/src/contract.rs] and
    the adapter [TypedProfile] of [crates/statechronicle-profiles/src/custom.rs], which turns
    a consumer's native states and commands into the rule set the executor runs.  The
    consumer's profile is a record of operations.  BCS and JSON come from libraries: what BCS
    writes and reads of a type is the record [Serde], the bytes of a JSON array are a
    parameter; what the adapter relies on is the class [SerdeLaws]. *)

From Stdlib Require Import ZArith Lia String.
From stdpp Require Import prelude gmap strings.
From S2P Require Import Prelude Amount Domain Profile Transition Resource Registry.
From S2P Require Import Keys Signing Durable.
Open Scope Z_scope.

(** ** The contract *)

Record StateProfile (State Command Error : Type) := mkStateProfile {
  DOMAIN_ID : string;
  SCHEMA_VERSION : Z;
  MAX_PAYLOAD_BYTES : Z;
  sp_operation : Command → string;
  sp_validate : option State → Command → result unit Error;
  sp_apply : option State → Command → result State Error;
  sp_validate_state : State → result unit Error;
}.
Arguments DOMAIN_ID {State Command Error}. Arguments SCHEMA_VERSION {State Command Error}.
Arguments MAX_PAYLOAD_BYTES {State Command Error}. Arguments sp_operation {State Command Error}.
Arguments sp_validate {State Command Error}. Arguments sp_apply {State Command Error}.
Arguments sp_validate_state {State Command Error}.

(** What BCS does with a type: the byte strings it writes, in order, and how it ends; and
    the value it reads. *)
Record Serde (T : Type) := mkSerde {
  serde_writes : T → list string * result unit string;
  serde_from_bytes : string → result T string;
}.
Arguments serde_writes {T}. Arguments serde_from_bytes {T}.

(** ** The bounded buffer *)

Record BoundedBuffer := mkBounded { bb_bytes : string; bb_limit : Z }.

Definition bb_write (b : BoundedBuffer) (bytes : string) : result BoundedBuffer string :=
  if saturating_sub_u64 (bb_limit b) (slen (bb_bytes b)) <? slen bytes then Err "payload size limit"
  else Ok (mkBounded (bb_bytes b +:+ bytes) (bb_limit b)).

(** BCS feeding a writer: the first refused write ends it, its error rendered by [io]. *)
Fixpoint write_chunks (io : string → string) (b : BoundedBuffer) (chunks : list string) : result BoundedBuffer string :=
  match chunks with
  | [] => Ok b
  | bytes :: chunks' => let? b := map_err io (bb_write b bytes) in write_chunks io b chunks'
  end.

Definition serialize_into {T} (io : string → string) (serde : Serde T) (b : BoundedBuffer) (value : T)
    : result BoundedBuffer string :=
  let (chunks, outcome) := serde_writes serde value in
  let? b := write_chunks io b chunks in
  outcome ;? Ok b.

(** ** The adapter *)

Record TypedProfile (State Command Error : Type) := mkTyped {
  tp_profile : StateProfile State Command Error;
  tp_operations : list Operation;
  tp_authority_required : bool;
}.
Arguments mkTyped {State Command Error}. Arguments tp_profile {State Command Error}.
Arguments tp_operations {State Command Error}. Arguments tp_authority_required {State Command Error}.

Definition typed_new {State Command Error} (profile : StateProfile State Command Error) (operations : list Operation) :=
  mkTyped profile operations true.
Definition with_optional_authority {State Command Error} (t : TypedProfile State Command Error) :=
  mkTyped (tp_profile t) (tp_operations t) false.

Definition invalid (message : string) : ProfileError := PInvalidInput message.

Definition as_array (v : Value) : option (list Value) :=
  match v with VArray l => Some l | _ => None end.

Section Adapter.
Context {State Command Error : Type} (display : Error → string) (io : string → string).
Context (state_serde : Serde State) (command_serde : Serde Command) (from_value : Value → result string string).
Context (t : TypedProfile State Command Error).

Local Notation profile := (tp_profile t).

Definition identity : presult ProfileId :=
  map_err (fun e => invalid (domain_error_to_string e)) (profile_id_new (DOMAIN_ID profile)).

Definition payload_limit : Z := Z.min (MAX_PAYLOAD_BYTES profile) MAX_INTENT_BYTES.

Definition check_payload_size (size : Z) : presult unit :=
  if (SCHEMA_VERSION profile =? 0) || (MAX_PAYLOAD_BYTES profile =? 0) || (payload_limit <? size)
  then Err (invalid "invalid schema or payload size limit") else Ok tt.

Definition bound (payload : string) : presult unit := check_payload_size (slen payload).

Definition encode {T} (serde : Serde T) (value : T) : presult string :=
  check_payload_size 0 ;?
  let? buffer := map_err invalid (serialize_into io serde (mkBounded EmptyString payload_limit) value) in
  Ok (bb_bytes buffer).

Definition decode_state (state : ResourceState) : presult State :=
  match state with
  | RCustom custom =>
      let? id := identity in
      if negb (String.eqb (cu_domain custom) id) || negb (cu_schema_version custom =? SCHEMA_VERSION profile)
      then Err (invalid "domain/schema mismatch")
      else
        bound (cu_payload custom) ;?
        let? decoded := map_err invalid (serde_from_bytes state_serde (cu_payload custom)) in
        let? encoded := encode state_serde decoded in
        if negb (String.eqb encoded (cu_payload custom)) then Err (invalid "noncanonical state")
        else
          map_err (fun e => invalid (display e)) (sp_validate_state profile decoded) ;?
          Ok decoded
  | _ => Err (invalid "custom state required")
  end.

Definition arguments (operation : Operation) (current : option StateProjection) (inputs : Inputs)
    : presult (option State * Command) :=
  if negb (contains (tp_operations t) operation) then Err (UnknownOperation operation)
  else
    let? domain := ok_or (inputs !! "profile" ≫= as_str) (invalid "missing profile") in
    let? id := map_err (fun e => invalid (domain_error_to_string e)) (profile_id_new domain) in
    let? own := identity in
    if negb (String.eqb id own)
       || negb (bool_decide (inputs !! "schema_version" ≫= as_u64 = Some (SCHEMA_VERSION profile)))
    then Err (invalid "domain/schema mismatch")
    else
      let? command_value := ok_or (inputs !! "command") (invalid "missing command") in
      let? command_array := ok_or (as_array command_value) (invalid "command must be a BCS byte array") in
      check_payload_size (Z.of_nat (length command_array)) ;?
      let? command_bytes := map_err invalid (from_value command_value) in
      bound command_bytes ;?
      let? command := map_err invalid (serde_from_bytes command_serde command_bytes) in
      let? encoded := encode command_serde command in
      if negb (String.eqb encoded command_bytes) then Err (invalid "noncanonical command")
      else
        let? command_operation :=
          map_err (fun e => invalid (domain_error_to_string e)) (operation_new (sp_operation profile command)) in
        if negb (String.eqb command_operation operation) then Err (invalid "command operation mismatch")
        else
          let? state :=
            match current with
            | None => Ok None
            | Some projection =>
                if negb (bool_decide (p_state_type projection = StCustom))
                then Err (invalid "projection state type mismatch")
                else let? s := decode_state (p_state projection) in Ok (Some s)
            end in
          Ok (state, command).

Definition typed_check (operation : Operation) (current : option StateProjection) (inputs : Inputs) : presult unit :=
  let? args := arguments operation current inputs in
  map_err (fun e => invalid (display e)) (sp_validate profile args.1 args.2).

Definition typed_apply (current : option StateProjection) (operation : Operation) (inputs : Inputs)
    : presult ResourceState :=
  let? args := arguments operation current inputs in
  map_err (fun e => invalid (display e)) (sp_validate profile args.1 args.2) ;?
  let? next := map_err (fun e => invalid (display e)) (sp_apply profile args.1 args.2) in
  map_err (fun e => invalid (display e)) (sp_validate_state profile next) ;?
  let? payload := encode state_serde next in
  bound payload ;?
  let? id := identity in
  Ok (RCustom (mkCustom id (SCHEMA_VERSION profile) payload)).

(** [impl ProfileRules for TypedProfile]. *)
Definition typed_rules : ProfileRules :=
  mkRules (policy StCustom) StCustom (DOMAIN_ID profile) (tp_operations t) typed_check typed_apply
    (SCHEMA_VERSION profile) (check_payload_size 0) (fun _ => tp_authority_required t) (fun _ => RequireAll).

(** ** Recomputing a committed transition *)

Context (H : string → string) (bcs_state : Bcs ResourceState).

Definition custom_digest (s : ResourceState) : presult ContentDigest :=
  map_err (fun e => invalid (core_error_to_string e)) (canonicalize_and_digest H bcs_state s).

(** The state before: the projection's, or the after-state with its payload cleared. *)
Definition expected_before (current : option StateProjection) (intent : Intent) (after : ResourceState)
    : presult ResourceState :=
  match current with
  | Some projection =>
      if negb (String.eqb (p_tenant_id projection) (i_tenant_id intent))
         || negb (String.eqb (p_resource_id projection) (i_resource_id intent))
      then Err (invalid "prior state scope mismatch")
      else
        let? digest := custom_digest (p_state projection) in
        if negb (String.eqb digest (p_state_hash projection)) then Err (invalid "prior state hash mismatch")
        else Ok (p_state projection)
  | None =>
      match after with
      | RCustom unborn => Ok (RCustom (mkCustom (cu_domain unborn) (cu_schema_version unborn) EmptyString))
      | _ => Err (invalid "custom state required")
      end
  end.

Definition verify_transition (current : option StateProjection) (intent : Intent) (event : Event) : presult unit :=
  if negb (String.eqb (e_schema event) EVENT_SCHEMA)
     || negb (String.eqb (e_tenant_id event) (i_tenant_id intent))
     || negb (String.eqb (e_resource_id event) (i_resource_id intent))
     || negb (String.eqb (e_intent_id event) (i_intent_id intent))
     || negb (String.eqb (e_actor event) (i_actor intent))
     || negb (String.eqb (e_operation event) (i_operation intent))
     || negb (bool_decide (i_state_type intent = Some StCustom))
  then Err (invalid "transition identity mismatch")
  else
    let version := match current with Some projection => p_version projection | None => 0 end in
    let mismatch := Err (invalid "transition version mismatch") in
    if match current with Some projection => p_version projection =? 0 | None => false end
       || negb (i_expected_version intent =? version) || negb (c_version (e_before event) =? version)
    then mismatch
    else
      let? next := ok_or (checked_add_u64 version 1) (invalid "version overflow") in
      if negb (c_version (e_after event) =? next) then mismatch
      else
        let? after := typed_apply current (i_operation intent) (i_inputs intent) in
        let? before := expected_before current intent after in
        let bad := Err (invalid "transition commitment mismatch") in
        if negb (rs_eqb (c_state (e_before event)) before) || negb (rs_eqb (c_state (e_after event)) after) then bad
        else
          let? before_digest := custom_digest before in
          if negb (String.eqb before_digest (c_state_hash (e_before event))) then bad
          else
            let? after_digest := custom_digest after in
            if negb (String.eqb after_digest (c_state_hash (e_after event))) then bad else Ok tt.
End Adapter.
