(* ===== verification/CustomFacts.v ===== *)
(** * Properties of typed consumer profiles

    The round-trip law a consumer's types must satisfy, as the class [SerdeLaws]; what the
    adapter makes of it: every state it produces decodes again; and the executor's events are
    the ones the adapter recomputes. *)

From Stdlib Require Import ZArith Lia String.
From stdpp Require Import prelude gmap strings.
From S2P Require Import Prelude Effect Amount RateLimit Domain Profile Transition Resource Registry.
From S2P Require Import Admission Atomicity Executor Lifecycle Economy Pipeline Keys Commit Signing Durable Composition Codec CodecFacts Custom.
Open Scope Z_scope.

Definition concat (chunks : list string) : string := foldr String.append EmptyString chunks.

(** The canonical bytes of a value. *)
Definition encoding {T} (serde : Serde T) (value : T) : result string string :=
  let (chunks, outcome) := serde_writes serde value in outcome ;? Ok (concat chunks).

(** Serialization round-trips, as the contract requires. *)
Class SerdeLaws {T} (serde : Serde T) : Prop := {
  serde_roundtrip : ∀ v bytes, encoding serde v = Ok bytes → serde_from_bytes serde bytes = Ok v;
}.

(** ** The bounded buffer *)

Lemma write_chunks_Ok io chunks : ∀ b b', slen (bb_bytes b) ≤ bb_limit b →
  write_chunks io b chunks = Ok b' ↔
  b' = mkBounded (bb_bytes b +:+ concat chunks) (bb_limit b) ∧ slen (bb_bytes b +:+ concat chunks) ≤ bb_limit b.
Proof.
  induction chunks as [|c chunks IH]; intros b b' Hb; cbn [write_chunks concat foldr].
  { rewrite str_app_nil_r. destruct b. cbn in *. split; [by intros [= <-]|by intros [-> _]]. }
  rewrite rbind_Ok. unfold bb_write, saturating_sub_u64. pose proof (slen_nonneg c).
  destruct (Z.ltb_spec (Z.max (bb_limit b - slen (bb_bytes b)) 0) (slen c)) as [Hlt|Hge].
  - split; [by intros (? & ? & ?)|]. intros [_ Hl]. rewrite !slen_app in Hl.
    pose proof (slen_nonneg (foldr String.append EmptyString chunks)). lia.
  - split.
    + intros (b1 & [= <-] & E). apply IH in E as [-> Hl]; cbn in *; [|rewrite slen_app; lia].
      by rewrite <- str_app_assoc.
    + intros [-> Hl]. eexists. split; [done|]. apply IH; cbn; [rewrite slen_app; lia|].
      by rewrite str_app_assoc.
Qed.

Section Facts.
Context {State Command Error : Type} (display : Error → string) (io : string → string).
Context (state_serde : Serde State) (command_serde : Serde Command) (from_value : Value → result string string).
Context (t : TypedProfile State Command Error).
Context `{!SerdeLaws state_serde} `{!SerdeLaws command_serde}.

Local Notation profile := (tp_profile t).
Local Notation arguments := (arguments display io state_serde command_serde from_value t).
Local Notation decode_state := (decode_state display io state_serde t).
Local Notation apply := (typed_apply display io state_serde command_serde from_value t).
Local Notation check := (typed_check display io state_serde command_serde from_value t).

Lemma size_Ok n : check_payload_size t n = Ok tt ↔
  SCHEMA_VERSION profile ≠ 0 ∧ MAX_PAYLOAD_BYTES profile ≠ 0 ∧ n ≤ payload_limit t.
Proof.
  unfold check_payload_size. destruct (Z.eqb_spec (SCHEMA_VERSION profile) 0), (Z.eqb_spec (MAX_PAYLOAD_BYTES profile) 0);
    cbn; try naive_solver. destruct (Z.ltb_spec (payload_limit t) n); cbn; naive_solver lia.
Qed.

Lemma encode_Ok {T} (serde : Serde T) v bytes : encode io t serde v = Ok bytes ↔
  encoding serde v = Ok bytes ∧ check_payload_size t 0 = Ok tt ∧ slen bytes ≤ payload_limit t.
Proof.
  unfold encode, encoding, serialize_into. rewrite rbind_Ok. split.
  - intros ([] & Hs & E). pose proof Hs as Hs'. apply size_Ok in Hs' as (_ & _ & H0).
    apply rbind_Ok in E as (b & Eb & [= <-]). apply map_err_Ok in Eb.
    destruct (serde_writes serde v) as [chunks o]. apply rbind_Ok in Eb as (b1 & Ew & Eo).
    apply rbind_Ok in Eo as ([] & -> & [= <-]). apply write_chunks_Ok in Ew as [-> Hl]; [|done]. done.
  - intros (E & Hs & Hl). exists tt. split; [done|]. pose proof Hs as Hs'. apply size_Ok in Hs' as (_ & _ & H0).
    destruct (serde_writes serde v) as [chunks o]. apply rbind_Ok in E as ([] & -> & [= <-]).
    assert (write_chunks io (mkBounded EmptyString (payload_limit t)) chunks =
      Ok (mkBounded (concat chunks) (payload_limit t))) as -> by (by apply write_chunks_Ok). done.
Qed.

(** Reading and re-encoding accepts exactly the canonical bytes. *)
Lemma canonical_Ok {T} (serde : Serde T) `{!SerdeLaws serde} v bytes :
  serde_from_bytes serde bytes = Ok v ∧ encode io t serde v = Ok bytes ↔ encode io t serde v = Ok bytes.
Proof. split; [by intros [_ ?]|]. intros E. split; [|done]. apply encode_Ok in E as [E _]. by apply serde_roundtrip. Qed.

Lemma encode_bound {T} (serde : Serde T) v bytes : encode io t serde v = Ok bytes → bound t bytes = Ok tt.
Proof. intros (_ & Hs & Hl)%encode_Ok. apply size_Ok in Hs as (? & ? & _). by apply size_Ok. Qed.

(** What a decodable state is. *)
Lemma decode_state_Ok s v : decode_state s = Ok v ↔
  ∃ id payload, identity t = Ok id ∧ s = RCustom (mkCustom id (SCHEMA_VERSION profile) payload) ∧
    encode io t state_serde v = Ok payload ∧ sp_validate_state profile v = Ok tt.
Proof.
  split.
  - unfold Custom.decode_state. intros E. destruct s as [| | | | | | |c]; try done. res_inv E. subst.
    repeat match goal with B : map_err _ _ = Ok _ |- _ => apply map_err_Ok in B end.
    repeat match goal with B : _ || _ = false |- _ => apply orb_false_iff in B as [? ?] end.
    rewrite !negb_false_iff, ?String.eqb_eq, ?Z.eqb_eq in *. destruct c as [d sv payload]. cbn in *. subst.
    repeat match goal with B : unit |- _ => destruct B end. eexists _, _. by split_and!.
  - intros (id & payload & Hid & -> & He & Hv). unfold Custom.decode_state. rewrite Hid. cbn [rbind cu_domain cu_schema_version cu_payload].
    rewrite String.eqb_refl, Z.eqb_refl. cbn [negb orb]. rewrite (encode_bound _ _ _ He). cbn [rbind].
    pose proof He as He'. apply canonical_Ok in He' as [Hf _]; [|done]. rewrite Hf. cbn [map_err rbind]. rewrite He. cbn [rbind].
    rewrite String.eqb_refl, Hv. done.
Qed.

(** ** Arguments and results *)

(** The prior state a call decodes. *)
Definition prior (current : option StateProjection) (st : option State) : Prop :=
  match current with
  | None => st = None
  | Some p => ∃ s, st = Some s ∧ p_state_type p = StCustom ∧ decode_state (p_state p) = Ok s
  end.

Lemma arguments_Ok operation current inputs st command : arguments operation current inputs = Ok (st, command) ↔
  contains (tp_operations t) operation = true ∧
  (∃ id, identity t = Ok id ∧ (∃ text, inputs !! "profile" ≫= as_str = Some text ∧ profile_id_new text = Ok id)) ∧
  inputs !! "schema_version" ≫= as_u64 = Some (SCHEMA_VERSION profile) ∧
  (∃ value values bytes, inputs !! "command" = Some value ∧ as_array value = Some values ∧
     Z.of_nat (length values) ≤ payload_limit t ∧ from_value value = Ok bytes ∧
     encode io t command_serde command = Ok bytes) ∧
  operation_new operation = Ok operation ∧ sp_operation profile command = operation ∧ prior current st.
Proof.
  split.
  - unfold Custom.arguments. intros E. res_inv E. subst.
    repeat match goal with B : map_err _ _ = Ok _ |- _ => apply map_err_Ok in B end.
    repeat match goal with B : _ || _ = false |- _ => apply orb_false_iff in B as [? ?] end.
    rewrite !negb_false_iff, ?String.eqb_eq, ?Z.eqb_eq, ?bool_decide_eq_true in *.
    repeat match goal with B : unit |- _ => destruct B end.
    repeat match goal with B : check_payload_size t _ = Ok tt |- _ => apply size_Ok in B as (? & ? & ?) end.
    match goal with B : operation_new _ = Ok _ |- _ =>
      pose proof B as Hnew; unfold operation_new in B; apply rbind_Ok in B as (_ & _ & [= Eop]) end.
    subst. split_and!; eauto 10. unfold prior. destruct current as [p|].
    + match goal with B : (if _ then _ else _) = Ok _ |- _ => res_inv B; subst end.
      rewrite !negb_false_iff, ?bool_decide_eq_true in *. eauto.
    + match goal with B : Ok None = Ok _ |- _ => by injection B as <- end.
  - intros (Ho & (id & Hid & text & Htext & Hnew) & Hsv & (value & values & bytes & Hv & Hvs & Hl & Hfv & He) & Hon & Hop & Hp).
    unfold Custom.arguments. rewrite Ho. cbn [negb]. rewrite Htext. cbn [ok_or rbind]. rewrite Hnew. cbn [map_err rbind].
    rewrite Hid. cbn [rbind]. rewrite String.eqb_refl, bool_decide_true by done. cbn [negb orb].
    rewrite Hv. cbn [ok_or rbind]. rewrite Hvs. cbn [ok_or rbind].
    pose proof He as (_ & (? & ? & _)%size_Ok & _)%encode_Ok.
    rewrite (proj2 (size_Ok (Z.of_nat (length values)))) by done. cbn [rbind]. rewrite Hfv. cbn [map_err rbind].
    rewrite (encode_bound _ _ _ He). cbn [rbind]. pose proof He as He'. apply canonical_Ok in He' as [Hf _]; [|done].
    rewrite Hf. cbn [map_err rbind]. rewrite He. cbn [rbind]. rewrite String.eqb_refl. cbn [negb].
    rewrite Hop, Hon. cbn [map_err rbind]. rewrite String.eqb_refl. cbn [negb].
    destruct current as [p|]; cbn in Hp; [|by subst st]. destruct Hp as (s & -> & Ht & Hd).
    rewrite bool_decide_true by done. cbn [negb]. by rewrite Hd.
Qed.

(** A successful reduction: the steps it made and the state it packed. *)
Lemma apply_Ok current operation inputs s : apply current operation inputs = Ok s ↔
  ∃ st command next id payload, arguments operation current inputs = Ok (st, command) ∧
    sp_validate profile st command = Ok tt ∧ sp_apply profile st command = Ok next ∧
    sp_validate_state profile next = Ok tt ∧ encode io t state_serde next = Ok payload ∧
    identity t = Ok id ∧ s = RCustom (mkCustom id (SCHEMA_VERSION profile) payload).
Proof.
  unfold typed_apply. split.
  - intros E. apply rbind_Ok in E as ([st command] & Ha & E). res_inv E.
    repeat match goal with B : unit |- _ => destruct B end. cbn [fst snd] in *. eauto 15.
  - intros (st & command & next & id & payload & Ha & Hv & Hap & Hvs & He & Hid & ->).
    rewrite Ha. cbn [rbind fst snd]. rewrite Hv. cbn [map_err rbind]. rewrite Hap. cbn [map_err rbind].
    rewrite Hvs. cbn [map_err rbind]. rewrite He. cbn [rbind]. rewrite (encode_bound _ _ _ He). cbn [rbind].
    by rewrite Hid.
Qed.
End Facts.

(** ** Properties *)

Section Properties.
Context {State Command Error : Type} (display : Error → string) (io : string → string).
Context (state_serde : Serde State) (command_serde : Serde Command) (from_value : Value → result string string).
Context (t : TypedProfile State Command Error).
Context `{!SerdeLaws state_serde} `{!SerdeLaws command_serde}.

Local Notation profile := (tp_profile t).
Local Notation decode_state := (decode_state display io state_serde t).
Local Notation apply := (typed_apply display io state_serde command_serde from_value t).
Local Notation check := (typed_check display io state_serde command_serde from_value t).

(** C23: the representation invariant of typed states.  With types that round-trip, a state the
    adapter produces is tagged with its domain and schema, its payload is within the limit
    and decodes to the very value the consumer's reducer returned, which satisfies the
    consumer's invariant; the reducer ran on the decoded prior state, on a command whose own
    operation is the submitted, registered one; and the rule check accepts the same call.  A
    current state that does not decode makes check and reducer fail. *)
Theorem typed_state_invariant (current : option StateProjection) (operation : Operation) (inputs : Inputs) :
  (∀ s, apply current operation inputs = Ok s → ∃ st command next payload,
     s = RCustom (mkCustom (DOMAIN_ID profile) (SCHEMA_VERSION profile) payload) ∧
     slen payload ≤ payload_limit t ∧ decode_state s = Ok next ∧ sp_validate_state profile next = Ok tt ∧
     sp_apply profile st command = Ok next ∧ sp_operation profile command = operation ∧
     operation ∈ tp_operations t ∧
     match current, st with
     | None, None => True
     | Some p, Some v => decode_state (p_state p) = Ok v
     | _, _ => False
     end ∧
     check operation current inputs = Ok tt) ∧
  (∀ p e, current = Some p → decode_state (p_state p) = Err e →
     (∃ e', check operation current inputs = Err e') ∧ ∃ e', apply current operation inputs = Err e').
Proof.
  split.
  - intros s E. apply apply_Ok in E as (st & command & next & id & payload & Ha & Hv & Hap & Hvs & He & Hid & ->); [|done..].
    assert (id = DOMAIN_ID profile) as ->.
    { unfold identity, profile_id_new in Hid. apply map_err_Ok in Hid. by apply rbind_Ok in Hid as (_ & _ & [= <-]). }
    exists st, command, next, payload. pose proof He as (_ & _ & Hl)%encode_Ok.
    split_and!; try done.
    + apply decode_state_Ok; [done|]. eauto 10.
    + by apply arguments_Ok in Ha as (_ & _ & _ & _ & _ & Hop & _).
    + apply arguments_Ok in Ha as (Hc & _); [|done..]. unfold contains in Hc.
      apply existsb_exists in Hc as (o & Ho & ->%String.eqb_eq). by apply list_elem_of_In.
    + apply arguments_Ok in Ha as (_ & _ & _ & _ & _ & _ & Hp); [|done..]. destruct current as [p|]; cbn in Hp; [|by subst st].
      destruct Hp as (s & -> & _ & Hd). done.
    + unfold typed_check. rewrite Ha. cbn [rbind fst snd]. by rewrite Hv.
  - intros p e -> Hd.
    assert (∃ e', arguments display io state_serde command_serde from_value t operation (Some p) inputs = Err e') as [e' He].
    { destruct (arguments _ _ _ _ _ _ _ _ _) as [[st command]|e'] eqn:Ha; [|eauto].
      apply arguments_Ok in Ha as (_ & _ & _ & _ & _ & _ & s & -> & _ & Hs); [|done..]. congruence. }
    unfold typed_check, typed_apply. rewrite He. eauto.
Qed.

(** ** Executed events are the recomputed ones *)

Section Executed.
Context {W Handle : Type} (x : Executor W Handle) (H : string → string) (bcs_state : Bcs ResourceState).

Local Notation verify := (verify_transition display io state_serde command_serde from_value t H bcs_state).
Local Notation rules := (typed_rules display io state_serde command_serde from_value t).

(** The rows the index serves: scoped as asked, of a live version, with the hash of their
    state. *)
Definition custom_index (w : W) : Prop := ∀ s tn r p w', read_address x tn s r w = (Ok (Some p), w') →
  p_tenant_id p = tn ∧ p_resource_id p = r ∧ 0 < p_version p ∧
  canonicalize_and_digest H bcs_state (p_state p) = Ok (p_state_hash p).

Lemma custom_eqb_eq c s : rs_eqb s (RCustom c) = true → s = RCustom c.
Proof.
  destruct s as [| | | | | | |d]; cbn; try done. rewrite !andb_true_iff, !String.eqb_eq, Z.eqb_eq.
  destruct c, d; cbn. by intros [[-> ->] ->].
Qed.

(** The event a run of [execute_inner] describes is the one the adapter expects. *)
Lemma described_verifies intent cur after a e : i_state_type intent = Some StCustom →
  (∀ s, digest_state x s = canonicalize_and_digest H bcs_state s) →
  (∀ p, cur = Some p → p_tenant_id p = i_tenant_id intent ∧ p_resource_id p = i_resource_id intent ∧ 0 < p_version p ∧
     canonicalize_and_digest H bcs_state (p_state p) = Ok (p_state_hash p)) →
  version_of cur = i_expected_version intent → 
  apply cur (i_operation intent) (i_inputs intent) = Ok after →
  describes x intent NATIVE_EXECUTION (i_resource_id intent) cur after a e →
  verify cur intent e = Ok tt.
Proof.
  intros Hst Hdg Hrow Hver Hap [(S1 & S2 & S3 & S4 & S5 & _ & S6 & _) (V1 & V2 & V3) Hb [A1 A2] _].
  rewrite Hdg in A2. unfold verify_transition.
  rewrite S1, S2, S3, S4, S5, S6, !String.eqb_refl, bool_decide_true by done. cbn [negb orb].
  change (match cur with Some projection => p_version projection | None => 0 end) with (version_of cur).
  rewrite Hver, V1, Hver, !Z.eqb_refl. cbn [negb].
  assert (match cur with Some projection => p_version projection =? 0 | None => false end = false) as ->.
  { destruct cur as [p|]; [|done]. destruct (Hrow p eq_refl) as (_ & _ & ? & _). by apply Z.eqb_neq; lia. }
  assert (0 ≤ version_of cur) as H0. { destruct cur as [p|]; [|done]. destruct (Hrow p eq_refl) as (_ & _ & ? & _). cbn. lia. }
  cbn [orb]. unfold checked_add_u64. rewrite (proj2 (checked_op_Some _ _ (i_expected_version intent + 1))) by (rewrite <- Hver in *; lia).
  cbn [ok_or rbind]. rewrite V2, Hver, Z.eqb_refl. cbn [negb]. rewrite Hap. cbn [rbind].
  assert (expected_before H bcs_state cur intent after = Ok (c_state (e_before e)) ∧
    canonicalize_and_digest H bcs_state (c_state (e_before e)) = Ok (c_state_hash (e_before e))) as [-> Hd].
  { unfold expected_before. destruct cur as [p|].
    - destruct (Hrow p eq_refl) as (-> & -> & _ & Hh). rewrite !String.eqb_refl. cbn [negb orb]. unfold custom_digest.
      destruct Hb as [-> ->]. rewrite Hh. cbn [map_err rbind]. by rewrite String.eqb_refl.
    - destruct Hb as [Hu Hd]. rewrite Hdg in Hd. split; [|done]. by destruct after. }
  cbn [rbind]. rewrite A1, !rs_eqb_refl. cbn [negb orb]. unfold custom_digest. rewrite Hd. cbn [map_err rbind].
  rewrite String.eqb_refl. cbn [negb]. rewrite A2. cbn [map_err rbind]. by rewrite String.eqb_refl.
Qed.

Lemma verified_commitments cur intent e : verify cur intent e = Ok tt → ∃ c before before_hash after_hash,
  apply cur (i_operation intent) (i_inputs intent) = Ok (RCustom c) ∧
  expected_before H bcs_state cur intent (RCustom c) = Ok before ∧ rs_eqb (c_state (e_before e)) before = true ∧
  custom_digest H bcs_state before = Ok before_hash ∧ custom_digest H bcs_state (RCustom c) = Ok after_hash ∧
  e_after e = mkCommitment (version_of cur + 1) after_hash (RCustom c) ∧
  c_version (e_before e) = version_of cur ∧ c_state_hash (e_before e) = before_hash.
Proof.
  unfold verify_transition. intros E. res_inv E.
  repeat match goal with B : _ || _ = false |- _ => apply orb_false_iff in B as [? ?] end.
  rewrite !negb_false_iff in *. rewrite ?String.eqb_eq, ?Z.eqb_eq, ?bool_decide_eq_true in *.
  repeat match goal with B : Prelude.checked_op _ _ = Some _ |- _ => apply checked_op_Some in B as [-> _] end.
  repeat match goal with B : checked_add_u64 _ _ = Some _ |- _ => apply checked_op_Some in B as [-> _] end.
  match goal with B : typed_apply _ _ _ _ _ _ _ _ _ = Ok _ |- _ =>
    pose proof B as Hap; apply apply_Ok in B as (st & command & next & id & payload & _ & _ & _ & _ & _ & _ & ->); [|done..] end.
  match goal with B : rs_eqb _ (RCustom _) = true |- _ => apply custom_eqb_eq in B end.
  eexists _, _, _, _. split_and!; try eassumption; [|by symmetry].
  destruct (e_after e). cbn in *. by subst.
Qed.

(** C24: executed custom events are auditable.  When the executor resolves an intent to a typed
    profile and executes it over an index of scoped rows carrying the hash of their state, it
    returns one event, and recomputing the transition from the intent and the prior state
    accepts it; of all events the recomputation accepts for that intent and state, every one
    carries the same after-commitment and before-hash. *)
Theorem executed_custom_verified (v : ValidatedIntent) (coord persist : bool) (w w' : W) (events : list Event) :
  0 ≤ i_expected_version (v_intent v) → custom_index (now x w).2 → (∀ s, digest_state x s = canonicalize_and_digest H bcs_state s) →
  i_state_type (v_intent v) = Some StCustom → resolve (profiles x) StCustom (i_inputs (v_intent v)) = Ok rules →
  execute_inner x v coord persist w = (Ok events, w') → events ≠ [] →
  ∃ cur e, events = [e] ∧ load_current x NATIVE_EXECUTION (v_intent v) (now x w).2 = (Ok cur, (now x w).2) ∧
    verify cur (v_intent v) e = Ok tt ∧
    ∀ e', verify cur (v_intent v) e' = Ok tt →
      e_after e' = e_after e ∧ c_state_hash (e_before e') = c_state_hash (e_before e).
Proof.
  intros Hev Hix Hdg Hst Hres (_ & Hs)%execute_inner_Ok Hne.
  destruct Hs as [|bytes rules' cur a after w2 events _ _ _ _ _ Hp _ Hem]; [done|].
  destruct Hp as [(st & Hst' & Hres' & _ & _ & _) _ Hload Hver Hstep _ _].
  rewrite Hst in Hst'. injection Hst' as <-. rewrite Hres in Hres'. injection Hres' as <-.
  apply gated_step_inv in Hstep as (_ & _ & Hap).
  apply expected_version_Ok in Hver; [|done].
  change (execution_policy rules) with NATIVE_EXECUTION in *.
  destruct Hem as [e _ De|e e2 target p dest q w3 Ht]; [|discriminate Ht].
  assert (verify cur (v_intent v) e = Ok tt) as Hve.
  { eapply described_verifies; eauto. intros p ->. apply load_current_Ok in Hload as [_ [s0 Hrd]]. by eapply Hix. }
  exists cur, e. split_and!; [done..|]. intros e' Hve'.
  apply verified_commitments in Hve as (c & b & bh & ah & E1 & E2 & _ & E3 & E4 & E5 & _ & E6).
  apply verified_commitments in Hve' as (c' & b' & bh' & ah' & E1' & E2' & _ & E3' & E4' & E5' & _ & E6').
  rewrite E1 in E1'. injection E1' as <-. rewrite E2 in E2'. injection E2' as <-. split; congruence.
Qed.
End Executed.
End Properties.

(** ** A counter

    The profile of the source's tests: a [u64] state of at most 100 that a command replaces. *)

Module Counter.
Definition u64_serde : Serde Z := {|
  serde_writes v := if bool_decide (is_u64 v) then ([le_bytes 8 v], Ok tt) else ([], Err "not a u64");
  serde_from_bytes s := if (String.length s =? 8)%nat then Ok (le_value s) else Err "not eight bytes";
|}.
#[global] Instance u64_laws : SerdeLaws u64_serde.
Proof.
  split. intros v bytes. unfold encoding. cbn [serde_writes u64_serde]. case_bool_decide as Hv; [|done]. cbn [rbind]. intros E. assert (bytes = le_bytes 8 v) as ->.
  { rewrite <- (str_app_nil_r (le_bytes 8 v)). change (Ok (E := string) (le_bytes 8 v +:+ EmptyString) = Ok bytes) in E. congruence. }
  unfold u64_serde, serde_from_bytes. rewrite le_bytes_length. cbn [Nat.eqb].
  f_equal. by apply le_value_bytes.
Qed.

Definition profile : StateProfile Z Z string := {|
  DOMAIN_ID := "test.counter";
  SCHEMA_VERSION := 1;
  MAX_PAYLOAD_BYTES := 8;
  sp_operation _ := "counter.set";
  sp_validate _ _ := Ok tt;
  sp_apply _ command := Ok command;
  sp_validate_state v := if 100 <? v then Err "counter limit" else Ok tt;
|}.
Definition typed : TypedProfile Z Z string := with_optional_authority (typed_new profile ["counter.set"]).

(** The bytes of a JSON array of small numbers. *)
Definition from_value (v : Value) : result string string :=
  match v with
  | VArray l => let? bytes := rmap (fun n => match n with VPosInt n => Ok (byte n) | _ => Err "not a byte" end) l in
                Ok (concat bytes)
  | _ => Err "not an array"
  end.
Definition rules : ProfileRules := typed_rules (fun e => e) (fun e => e) u64_serde u64_serde from_value typed.

Definition command (n : Z) : Value := VArray (VPosInt n :: repeat (VPosInt 0) 7).
Definition inputs (n : Z) : Inputs := list_to_map
  [("profile", VString "test.counter"); ("schema_version", VPosInt 1); ("command", command n)].
Definition bcs (s : ResourceState) : result string string :=
  match s with RCustom c => Ok (cu_payload c) | _ => Ok EmptyString end.
Definition row : StateProjection :=
  mkProjection "acme" "ctr" StCustom 1 "evt_0" "cmt_0" (CommitSamples.pad32 (le_bytes 8 5))
    (RCustom (mkCustom "test.counter" 1 (le_bytes 8 5))).
Definition exec : Executor Memory.World unit := {|
  Executor.ports := Memory.ports;
  profiles := baseline_with [rules];
  executor := "exec";
  now := now Memory.exec;
  event_id_fn := event_id_fn Memory.exec;
  intent_verifier := intent_verifier Memory.exec;
  canonicalize_intent := canonicalize_intent Memory.exec;
  digest_state := canonicalize_and_digest CommitSamples.pad32 bcs;
  digest_aggregate := digest_aggregate Memory.exec;
|}.
Definition start : Memory.World := Memory.mkWorld ∅ (list_to_map [(("acme", "ctr"), row)]) ∅ 0 1.
Definition set (n : Z) : ValidatedIntent := Memory.signed
  (intent_new "acme" "int_1" "counter.set" "alice" "ctr" (Some StCustom) 1 (inputs n) None 0 (Some 50) "n").
Definition run (n : Z) : result (list Event) ExecutorError * Memory.World := execute_inner exec (set n) false true start.
End Counter.

Lemma typed_state_invariant_witness : ∃ next, 
  typed_apply (fun e => e) (fun e => e) Counter.u64_serde Counter.u64_serde Counter.from_value Counter.typed
    (Some Counter.row) "counter.set" (Counter.inputs 7) = Ok (RCustom (mkCustom "test.counter" 1 (le_bytes 8 7))) ∧
  decode_state (fun e => e) (fun e => e) Counter.u64_serde Counter.typed (RCustom (mkCustom "test.counter" 1 (le_bytes 8 7))) = Ok next.
Proof.
  destruct (typed_state_invariant (fun e => e) (fun e => e) Counter.u64_serde Counter.u64_serde Counter.from_value
    Counter.typed (Some Counter.row) "counter.set" (Counter.inputs 7)) as [Hs _].
  assert (typed_apply (fun e => e) (fun e => e) Counter.u64_serde Counter.u64_serde Counter.from_value Counter.typed
    (Some Counter.row) "counter.set" (Counter.inputs 7) = Ok (RCustom (mkCustom "test.counter" 1 (le_bytes 8 7)))) as E
    by (vm_compute; reflexivity).
  destruct (Hs _ E) as (st & command & next & payload & _ & _ & Hd & _). exists next. split; [exact E|exact Hd].
Defined.

Lemma counter_resolved n : resolve (profiles Counter.exec) StCustom (Counter.inputs n) = Ok Counter.rules.
Proof.
  unfold resolve. rewrite bool_decide_true by done. cbn [negb].
  assert (input_str (Counter.inputs n) "profile" = Ok "test.counter") as -> by reflexivity. cbn [rbind].
  assert (profile_id_of "test.counter" = Ok "test.counter") as Hid by (vm_compute; reflexivity).
  rewrite Hid. cbn [rbind].
  assert (((Counter.inputs n !! "schema_version") ≫= as_u64) ≫= u32_of_u64 = Some 1) as -> by reflexivity. cbn [ok_or rbind].
  cbn [resolve_custom profiles Counter.exec baseline_with custom].
  change (profile_id Counter.rules) with "test.counter". rewrite Hid. reflexivity.
Qed.

Lemma executed_custom_verified_witness : ∃ cur e, Memory.events_of (Counter.run 7) = [e] ∧
  verify_transition (fun e => e) (fun e => e) Counter.u64_serde Counter.u64_serde Counter.from_value Counter.typed
    CommitSamples.pad32 Counter.bcs cur (v_intent (Counter.set 7)) e = Ok tt.
Proof.
  destruct (executed_custom_verified (fun e => e) (fun e => e) Counter.u64_serde Counter.u64_serde Counter.from_value
    Counter.typed Counter.exec CommitSamples.pad32 Counter.bcs (Counter.set 7) false true Counter.start
    (Counter.run 7).2 (Memory.events_of (Counter.run 7))) as (cur & e & He & _ & Hv & _).
  - vm_compute; discriminate.
  - intros s tn r p w' E. destruct s; cbn in E; injection E as E _; [discriminate E|].
    apply lookup_insert_Some in E as [[Ek <-]|[_ E]]; [|discriminate E]. injection Ek as <- <-.
    split; [reflexivity|]. split; [reflexivity|]. split; vm_compute; reflexivity.
  - intros s. reflexivity.
  - reflexivity.
  - exact (counter_resolved 7).
  - vm_compute; reflexivity.
  - vm_compute; discriminate.
  - exists cur, e. split; [exact He|exact Hv].
Defined.

(** A value over the consumer's limit is refused. *)
Example counter_limit : (Counter.run 101).1 = Err (XTransitionInvalid "invalid input: counter limit").
Proof. vm_compute. reflexivity. Qed.
