(* ===== verification/Reduce.v ===== *)
(** * Portable transitions

    Models [crates/statechronicle-portable/src/transition.rs]: the reduction of one native
    profile over caller-owned buffers, and shows that it is the typed adapter's.  The output
    and the scratch buffer are threaded as the state of the run. *)

From Stdlib Require Import ZArith Lia String.
From stdpp Require Import prelude gmap strings.
From S2P Require Import Prelude Effect Amount RateLimit Domain Profile Transition Resource Registry.
From S2P Require Import Keys Sha256 Accumulator Merkle Commit Signing Durable Codec CodecFacts Integrity Custom CustomFacts.
Open Scope Z_scope.

(** The [CanonicalCodec] trait. *)
Record CanonicalCodec (T : Type) := mkCodec {
  cc_encode : T → Eff CodecError Encoder.t unit;
  cc_decode : Eff CodecError string T;
}.
Arguments cc_encode {T}. Arguments cc_decode {T}.

Record EncodedState := mkEncoded { es_domain : string; es_schema : Z; es_version : Z; es_payload : string }.

Record TransitionRequest := mkTransition {
  tq_domain : string;
  tq_schema : Z;
  tq_expected_version : Z;
  tq_operation : string;
  tq_command : string;
  tq_current : option EncodedState;
}.

Record TransitionResult := mkResult { tr_payload_len : Z; tr_version : Z; tr_state_hash : string }.

Inductive TransitionError (Error : Type) :=
| TIdentity | TVersion | TOperation | TCodec (e : CodecError) | TDomain (e : Error).
Arguments TIdentity {Error}. Arguments TVersion {Error}. Arguments TOperation {Error}.
Arguments TCodec {Error}. Arguments TDomain {Error}.

Record Buffers := mkBuffers { output : string; scratch : string }.

(** [buffer.get_mut(..capacity)] with a capacity within the buffer: run a writer on that
    prefix and keep the rest. *)
Definition on_prefix {A} (capacity : nat) (m : Eff CodecError Encoder.t A) : Eff CodecError string A := fun buffer =>
  let (r, e) := m (Encoder.new (str_take capacity buffer)) in
  (r, Encoder.buffer e +:+ str_drop capacity buffer).

Definition capacity_of (buffer : string) (maximum : Z) : nat := Z.to_nat (Z.min (slen buffer) maximum).

(** Decode, require the end of the input, encode into the scratch buffer and compare. *)
Definition decode_canonical {T} (codec : CanonicalCodec T) (bytes : string) (maximum : Z) : Eff CodecError string T :=
  if maximum <? slen bytes then xlift (Err Capacity)
  else
    let (r, rest) := cc_decode codec bytes in
    let! decoded := xlift r in
    xlift (Decoder.finish rest).1 ;!
    fun buffer => on_prefix (capacity_of buffer maximum)
      (cc_encode codec decoded ;!
       xquery (fun writer => if negb (String.eqb (Encoder.written writer) bytes) then Err NonCanonical else Ok decoded)) buffer.

Section Execute.
Context {State Command Error : Type} (H : string → string) (profile : StateProfile State Command Error).
Context (state_codec : CanonicalCodec State) (command_codec : CanonicalCodec Command).

Notation run A := (Eff (TransitionError Error) Buffers A).

Definition on_scratch {A} (m : Eff CodecError string A) : run A := fun b =>
  let (r, s) := m (scratch b) in (map_err TCodec r, mkBuffers (output b) s).
Definition on_output {A} (m : Eff CodecError string A) : run A := fun b =>
  let (r, s) := m (output b) in (map_err TCodec r, mkBuffers s (scratch b)).

(** The constants of the profile, and the request's. *)
Definition bad_identity (request : TransitionRequest) : bool :=
  str_is_empty (DOMAIN_ID profile) || (128 <? Z.min 129 (char_count (DOMAIN_ID profile)))
  || has_control (DOMAIN_ID profile) || (SCHEMA_VERSION profile =? 0) || (MAX_PAYLOAD_BYTES profile =? 0)
  || negb (String.eqb (tq_domain request) (DOMAIN_ID profile)) || negb (tq_schema request =? SCHEMA_VERSION profile).

Definition current_version (request : TransitionRequest) : Z :=
  match tq_current request with Some state => es_version state | None => 0 end.

Definition decode_current (current : option EncodedState) : run (option State) :=
  match current with
  | None => xret None
  | Some state =>
      if negb (String.eqb (es_domain state) (DOMAIN_ID profile)) || negb (es_schema state =? SCHEMA_VERSION profile)
      then xlift (Err TIdentity)
      else
        let! decoded := on_scratch (decode_canonical state_codec (es_payload state) (MAX_PAYLOAD_BYTES profile)) in
        xlift (map_err TDomain (sp_validate_state profile decoded)) ;!
        xret (Some decoded)
  end.

Definition portable_execute (request : TransitionRequest) : run TransitionResult :=
  if bad_identity request then xlift (Err TIdentity)
  else if negb (current_version request =? tq_expected_version request)
          || match tq_current request with Some state => es_version state =? 0 | None => false end
  then xlift (Err TVersion)
  else
    let! version := xlift (ok_or (checked_add_u64 (current_version request) 1) TVersion) in
    let! command := on_scratch (decode_canonical command_codec (tq_command request) (MAX_PAYLOAD_BYTES profile)) in
    if negb (String.eqb (sp_operation profile command) (tq_operation request)) then xlift (Err TOperation)
    else
      let! current := decode_current (tq_current request) in
      xlift (map_err TDomain (sp_validate profile current command)) ;!
      let! next := xlift (map_err TDomain (sp_apply profile current command)) in
      xlift (map_err TDomain (sp_validate_state profile next)) ;!
      let! payload := on_output (fun buffer => on_prefix (capacity_of buffer (MAX_PAYLOAD_BYTES profile))
        (cc_encode state_codec next ;! xquery (fun encoder => Ok (Encoder.written encoder))) buffer) in
      let! state_hash := xlift (map_err TCodec
        (Portable.custom_state_hash H (DOMAIN_ID profile) (SCHEMA_VERSION profile) payload)) in
      xret (mkResult (slen payload) version state_hash).
End Execute.

(** ** Codecs that write the canonical bytes *)

(** A consumer's portable codec reads and writes its BCS encoding. *)
Class CanonicalLaws {T} (codec : CanonicalCodec T) (serde : Serde T) : Prop := {
  canonical_decodes : ∀ s v rest, cc_decode codec s = (Ok v, rest) ↔ ∃ b, encoding serde v = Ok b ∧ s = b +:+ rest;
  canonical_fits : ∀ v b e, encoding serde v = Ok b → encoder_wf e → (String.length b ≤ free e)%nat →
    ∃ e', cc_encode codec v e = (Ok tt, e') ∧ appended e e' b;
  canonical_full : ∀ v b e, encoding serde v = Ok b → encoder_wf e → (free e < String.length b)%nat →
    ∃ err e', cc_encode codec v e = (Err err, e');
  canonical_unencodable : ∀ v m e, encoding serde v = Err m → ∃ err e', cc_encode codec v e = (Err err, e');
}.

Lemma encoder_new_wf buffer : slen buffer ≤ U64_MAX → encoder_wf (Encoder.new buffer).
Proof. split; cbn; [lia|done]. Qed.
Lemma encoder_new_written buffer : Encoder.written (Encoder.new buffer) = EmptyString.
Proof. unfold Encoder.written, get_to. cbn. by destruct buffer. Qed.
Lemma encoder_new_free buffer : free (Encoder.new buffer) = String.length buffer.
Proof. unfold free. cbn. lia. Qed.

(** What a complete write into a fresh buffer leaves. *)
Lemma appended_new buffer e b : slen buffer ≤ U64_MAX → appended (Encoder.new buffer) e b →
  Encoder.written e = b ∧ String.length (Encoder.buffer e) = String.length buffer ∧
  str_take (String.length b) (Encoder.buffer e) = b.
Proof.
  intros Hb (We & Hw & Hf & _). rewrite encoder_new_written in Hw. rewrite encoder_new_free in Hf.
  change (Encoder.written e = b) in Hw.
  pose proof We as [Hp _]. pose proof Hw as Hw'. rewrite written_wf in Hw' by done.
  assert (Encoder.position e = String.length b) as Hpos.
  { apply (f_equal String.length) in Hw'. rewrite str_take_length in Hw'. lia. }
  split; [done|]. unfold free in Hf. split; [lia|]. by rewrite <- Hpos.
Qed.

Section Prefix.
Context {T : Type} (codec : CanonicalCodec T) (serde : Serde T) `{!CanonicalLaws codec serde}.

Definition write_then {A} (v : T) (f : string → result A CodecError) : Eff CodecError Encoder.t A :=
  cc_encode codec v ;! xquery (fun e => f (Encoder.written e)).

Lemma prefix_complete {A} v b (f : string → result A CodecError) a capacity buffer :
  (capacity ≤ String.length buffer)%nat → slen buffer ≤ U64_MAX → encoding serde v = Ok b →
  (String.length b ≤ capacity)%nat → f b = Ok a →
  ∃ buffer', on_prefix capacity (write_then v f) buffer = (Ok a, buffer') ∧
    String.length buffer' = String.length buffer ∧ str_take (String.length b) buffer' = b.
Proof.
  intros Hc Hu He Hl Hf. set (part := str_take capacity buffer).
  assert (String.length part = capacity) as Hpl by (unfold part; rewrite str_take_length; lia).
  assert (slen part ≤ U64_MAX) as Hpu by (unfold slen in *; lia).
  destruct (canonical_fits v b (Encoder.new part)) as (e & Ee & Ha);
    [done|by apply encoder_new_wf|rewrite encoder_new_free; lia|].
  destruct (appended_new _ _ _ Hpu Ha) as (Hw & Hbl & Ht).
  eexists. split; [|split].
  - unfold on_prefix, write_then, xbind, xquery. fold part. rewrite Ee, Hw, Hf. reflexivity.
  - rewrite string_length_app, str_drop_length. lia.
  - rewrite <- Ht at 2. apply str_app_inv with (b := str_drop (String.length b) (Encoder.buffer e +:+ str_drop capacity buffer))
      (d := str_drop (String.length b) (Encoder.buffer e) +:+ str_drop capacity buffer).
    { rewrite !str_take_length, string_length_app. lia. }
    by rewrite str_take_drop, <- str_app_assoc, str_take_drop.
Qed.

Lemma prefix_sound {A} v (f : string → result A CodecError) a capacity buffer buffer' :
  (capacity ≤ String.length buffer)%nat → slen buffer ≤ U64_MAX →
  on_prefix capacity (write_then v f) buffer = (Ok a, buffer') →
  ∃ b, encoding serde v = Ok b ∧ (String.length b ≤ capacity)%nat ∧ f b = Ok a ∧
    String.length buffer' = String.length buffer ∧ str_take (String.length b) buffer' = b.
Proof.
  intros Hc Hu E. set (part := str_take capacity buffer).
  assert (String.length part = capacity) as Hpl by (unfold part; rewrite str_take_length; lia).
  assert (slen part ≤ U64_MAX) as Hpu by (unfold slen in *; lia).
  destruct (encoding serde v) as [b|m] eqn:He.
  2:{ destruct (canonical_unencodable v m (Encoder.new part) He) as (err & e & Ee).
      unfold on_prefix, write_then, xbind in E. fold part in E. by rewrite Ee in E. }
  destruct (Nat.le_gt_cases (String.length b) capacity) as [Hl|Hl].
  2:{ destruct (canonical_full v b (Encoder.new part)) as (err & e & Ee);
        [done|by apply encoder_new_wf|rewrite encoder_new_free; lia|].
      unfold on_prefix, write_then, xbind in E. fold part in E. by rewrite Ee in E. }
  destruct (f b) as [a'|err] eqn:Ef.
  - destruct (prefix_complete v b f a' capacity buffer) as (b' & E' & Hl' & Ht); [done..|].
    rewrite E in E'. injection E' as <- <-. eauto 10.
  - destruct (canonical_fits v b (Encoder.new part)) as (e & Ee & Ha);
      [done|by apply encoder_new_wf|rewrite encoder_new_free; lia|].
    destruct (appended_new _ _ _ Hpu Ha) as (Hw & _ & _).
    unfold on_prefix, write_then, xbind, xquery in E. fold part in E. rewrite Ee, Hw, Ef in E. discriminate E.
Qed.

Lemma capacity_bound buffer maximum : (capacity_of buffer maximum ≤ String.length buffer)%nat.
Proof. unfold capacity_of, slen. lia. Qed.

(** Accepted exactly on canonical bytes within the bound, given enough scratch. *)
Lemma decode_canonical_Ok bytes maximum buffer v : maximum ≤ slen buffer → slen buffer ≤ U64_MAX →
  (∃ buffer', decode_canonical codec bytes maximum buffer = (Ok v, buffer')) ↔
  encoding serde v = Ok bytes ∧ slen bytes ≤ maximum.
Proof.
  intros Hm Hu. unfold decode_canonical. destruct (Z.ltb_spec maximum (slen bytes)) as [Hlt|Hge].
  { split; [by intros [? ?]|]. intros [_ ?]. lia. }
  split.
  - intros [buffer' E]. destruct (cc_decode codec bytes) as [r rest] eqn:Ed.
    apply xbind_Ok in E as (d & w1 & Hr & E). apply xlift_Ok in Hr as [-> ->].
    apply xbind_Ok in E as ([] & w2 & Hfin & E). apply xlift_Ok in Hfin as [Hfin ->].
    apply (prefix_sound d (fun w => if negb (String.eqb w bytes) then Err NonCanonical else Ok d)) in E
      as (b & He & _ & Hf & _); [|apply capacity_bound|done].
    destruct (String.eqb_spec b bytes) as [->|]; [|done]. cbn in Hf. injection Hf as <-. done.
  - intros [He Hl]. assert (cc_decode codec bytes = (Ok v, EmptyString)) as ->.
    { apply canonical_decodes. exists bytes. by rewrite str_app_nil_r. }
    destruct (prefix_complete v bytes (fun w => if negb (String.eqb w bytes) then Err NonCanonical else Ok v) v
      (capacity_of buffer maximum) buffer) as (buffer' & E & _); [apply capacity_bound|done|done| |by rewrite String.eqb_refl|].
    + unfold capacity_of, slen in *. lia.
    + exists buffer'. exact E.
Qed.

Lemma decode_canonical_length bytes maximum buffer v buffer' : slen buffer ≤ U64_MAX →
  decode_canonical codec bytes maximum buffer = (Ok v, buffer') → slen buffer' = slen buffer.
Proof.
  intros Hu. unfold decode_canonical. destruct (_ <? _); [done|]. destruct (cc_decode codec bytes) as [r rest].
  intros E. apply xbind_Ok in E as (d & w1 & Hr & E). apply xlift_Ok in Hr as [-> ->].
  apply xbind_Ok in E as ([] & w2 & Hfin & E). apply xlift_Ok in Hfin as [Hfin ->].
  apply (prefix_sound d (fun w => if negb (String.eqb w bytes) then Err NonCanonical else Ok d)) in E
    as (b & _ & _ & _ & Hl & _); [|apply capacity_bound|done]. unfold slen. lia.
Qed.
End Prefix.

(** ** Successful reductions *)

Section Runs.
Context {State Command Error : Type} (H : string → string) (profile : StateProfile State Command Error).
Context (state_codec : CanonicalCodec State) (command_codec : CanonicalCodec Command).
Context (state_serde : Serde State) (command_serde : Serde Command).
Context `{!CanonicalLaws state_codec state_serde} `{!CanonicalLaws command_codec command_serde}.

Local Notation MAX := (MAX_PAYLOAD_BYTES profile).

(** Buffers of the profile's payload size. *)
Definition roomy (b : Buffers) : Prop :=
  MAX ≤ slen (output b) ≤ U64_MAX ∧ MAX ≤ slen (scratch b) ≤ U64_MAX.

Lemma on_scratch_Ok {A} (m : Eff CodecError string A) b a b' : on_scratch (Error := Error) m b = (Ok a, b') ↔
  ∃ s, m (scratch b) = (Ok a, s) ∧ b' = mkBuffers (output b) s.
Proof. unfold on_scratch. destruct (m (scratch b)) as [[a'|e] s]; cbn; naive_solver. Qed.
Lemma on_output_Ok {A} (m : Eff CodecError string A) b a b' : on_output (Error := Error) m b = (Ok a, b') ↔
  ∃ s, m (output b) = (Ok a, s) ∧ b' = mkBuffers s (scratch b).
Proof. unfold on_output. destruct (m (output b)) as [[a'|e] s]; cbn; naive_solver. Qed.

Definition canonical {T} (serde : Serde T) (v : T) (bytes : string) : Prop :=
  encoding serde v = Ok bytes ∧ slen bytes ≤ MAX.

(** Decoding on the scratch buffer, both ways. *)
Lemma scratch_sound {T} (codec : CanonicalCodec T) serde `{!CanonicalLaws codec serde} bytes b v b' : roomy b →
  on_scratch (Error := Error) (decode_canonical codec bytes MAX) b = (Ok v, b') →
  canonical serde v bytes ∧ roomy b' ∧ output b' = output b.
Proof.
  intros [Ho [Hs1 Hs2]] (s & E & ->)%on_scratch_Ok. pose proof E as Hl. apply decode_canonical_length with (serde := serde) in Hl; [|done..].
  split; [|by rewrite <- Hl in Hs1, Hs2]. apply (decode_canonical_Ok codec serde bytes MAX (scratch b)); eauto.
Qed.

Lemma scratch_complete {T} (codec : CanonicalCodec T) serde `{!CanonicalLaws codec serde} bytes b v : roomy b →
  canonical serde v bytes → ∃ b', on_scratch (Error := Error) (decode_canonical codec bytes MAX) b = (Ok v, b') ∧ roomy b'.
Proof.
  intros Hb Hc. pose proof Hb as [_ [Hs1 Hs2]].
  destruct (proj2 (decode_canonical_Ok codec serde bytes MAX (scratch b) v Hs1 Hs2) Hc) as [s E].
  assert (on_scratch (Error := Error) (decode_canonical codec bytes MAX) b = (Ok v, mkBuffers (output b) s)) as E'
    by (apply on_scratch_Ok; eauto).
  eexists. split; [exact E'|]. by eapply scratch_sound in E' as (_ & ? & _).
Qed.

(** The prior state of a request. *)
Definition prior_of (request : TransitionRequest) (current : option State) : Prop :=
  match tq_current request with
  | None => current = None
  | Some es => es_domain es = DOMAIN_ID profile ∧ es_schema es = SCHEMA_VERSION profile ∧
      ∃ v, current = Some v ∧ canonical state_serde v (es_payload es) ∧ sp_validate_state profile v = Ok tt
  end.

Lemma decode_current_sound request b current b' : roomy b →
  decode_current profile state_codec (tq_current request) b = (Ok current, b') → prior_of request current ∧ roomy b'.
Proof.
  intros Hb. unfold decode_current, prior_of. destruct (tq_current request) as [es|]; [|by intros [-> ->]%xret_Ok].
  destruct (_ || _) eqn:Hid; [done|]. rewrite orb_false_iff, !negb_false_iff, String.eqb_eq, Z.eqb_eq in Hid.
  intros E. apply xbind_Ok in E as (v & b1 & Hd & E). eapply scratch_sound in Hd as (Hc & Hb1 & _); [|done..].
  apply xbind_Ok in E as ([] & b2 & Hv & E). apply xlift_Ok in Hv as [Hv%map_err_Ok ->].
  apply xret_Ok in E as [-> ->]. destruct Hid. eauto 10.
Qed.

Lemma decode_current_complete request b current : roomy b → prior_of request current →
  ∃ b', decode_current profile state_codec (tq_current request) b = (Ok current, b') ∧ roomy b'.
Proof.
  intros Hb. unfold decode_current, prior_of. destruct (tq_current request) as [es|]; [|intros ->; by exists b].
  intros (-> & -> & v & -> & Hc & Hv). rewrite String.eqb_refl, Z.eqb_refl. cbn [negb orb].
  destruct (scratch_complete state_codec state_serde _ b v Hb Hc) as (b1 & E & Hb1).
  exists b1. unfold xbind. rewrite E, Hv. done.
Qed.

(** What a reduction does, without buffers. *)
Definition reduces (request : TransitionRequest) (payload : string) : Prop :=
  ∃ command current next, canonical command_serde command (tq_command request) ∧
    sp_operation profile command = tq_operation request ∧ prior_of request current ∧
    sp_validate profile current command = Ok tt ∧ sp_apply profile current command = Ok next ∧
    sp_validate_state profile next = Ok tt ∧ canonical state_serde next payload.

(** The hashed envelope: variant, domain, schema, payload. *)
Definition envelope (domain : string) (schema : Z) (payload : string) : string :=
  byte 7 +:+ sequence domain +:+ le_bytes 4 schema +:+ sequence payload.

Lemma update_field_Ok digest s : slen s ≤ U32_MAX → Portable.update_field digest s = Ok (digest +:+ sequence s).
Proof.
  intros Hs. unfold Portable.update_field. rewrite (proj2 (checked_op_Some _ _ (slen s))) by (pose proof (slen_nonneg s); done).
  cbn [ok_or rbind]. pose proof (uleb_prefix (slen s)) as Hp. destruct (uleb_bytes (slen s)) as [b c]. cbn [fst snd] in Hp.
  by rewrite Hp.
Qed.

Lemma custom_state_hash_Ok domain schema payload : slen domain ≤ U32_MAX → slen payload ≤ U32_MAX →
  Portable.custom_state_hash H domain schema payload = Ok (H (envelope domain schema payload)).
Proof.
  intros Hd Hp. unfold Portable.custom_state_hash. rewrite !update_field_Ok by done. cbn [rbind].
  rewrite update_field_Ok by done. unfold envelope. cbn [rbind]. by rewrite !str_app_assoc.
Qed.

Definition admissible (request : TransitionRequest) : Prop :=
  bad_identity profile request = false ∧ current_version request = tq_expected_version request ∧
  (∀ es, tq_current request = Some es → es_version es ≠ 0) ∧ 0 ≤ current_version request < U64_MAX.

Lemma admissible_version request : admissible request →
  negb (current_version request =? tq_expected_version request)
    || match tq_current request with Some state => es_version state =? 0 | None => false end = false ∧
  checked_add_u64 (current_version request) 1 = Some (current_version request + 1).
Proof.
  intros (_ & Hv & Hz & Hr). rewrite <- Hv, Z.eqb_refl. cbn [negb orb]. split.
  - destruct (tq_current request) as [es|]; [|done]. apply Z.eqb_neq. by apply Hz.
  - apply checked_op_Some. lia.
Qed.

Context (Hdomain : slen (DOMAIN_ID profile) ≤ U32_MAX) (Hmax : 0 ≤ MAX ≤ U32_MAX).

Lemma execute_sound request b res b' : roomy b → admissible request →
  portable_execute H profile state_codec command_codec request b = (Ok res, b') →
  let payload := str_take (Z.to_nat (tr_payload_len res)) (output b') in
  reduces request payload ∧ tr_payload_len res = slen payload ∧ tr_version res = current_version request + 1 ∧
  tr_state_hash res = H (envelope (DOMAIN_ID profile) (SCHEMA_VERSION profile) payload).
Proof.
  intros Hb Hadm E payload. destruct (admissible_version _ Hadm) as [Hv1 Hv2]. unfold portable_execute in E.
  rewrite (proj1 Hadm), Hv1, Hv2 in E. apply xbind_Ok in E as (ver & b1 & Hver & E). apply xlift_Ok in Hver as [[= <-] ->].
  apply xbind_Ok in E as (command & b2 & Hc & E). eapply scratch_sound in Hc as (Hc & Hb2 & Ho2); [|done..].
  destruct (String.eqb_spec (sp_operation profile command) (tq_operation request)) as [Hop|]; [|done]. cbn [negb] in E.
  apply xbind_Ok in E as (cur & b3 & Hcur & E). apply decode_current_sound in Hcur as [Hcur Hb3]; [|done].
  apply xbind_Ok in E as ([] & b4 & Hva & E). apply xlift_Ok in Hva as [Hva%map_err_Ok ->].
  apply xbind_Ok in E as (next & b5 & Hap & E). apply xlift_Ok in Hap as [Hap%map_err_Ok ->].
  apply xbind_Ok in E as ([] & b6 & Hvs & E). apply xlift_Ok in Hvs as [Hvs%map_err_Ok ->].
  apply xbind_Ok in E as (p & b7 & Hout & E). apply on_output_Ok in Hout as (s & Hout & ->). destruct Hb3 as [Hb3 Hb3'].
  apply (prefix_sound state_codec state_serde next Ok) in Hout as (p' & Hp' & Hl & [= ->] & Hlen & Ht);
    [|apply capacity_bound|lia].
  apply xbind_Ok in E as (h & b8 & Hh & E). apply xlift_Ok in Hh as [Hh%map_err_Ok ->]. apply xret_Ok in E as [-> ->].
  assert (slen p ≤ MAX) as Hpm by (unfold capacity_of, slen in *; lia).
  assert (payload = p) as -> by (unfold payload; cbn; unfold slen; by rewrite Nat2Z.id).
  rewrite custom_state_hash_Ok in Hh by lia. injection Hh as <-. cbn. split_and!; [|done..].
  exists command, cur, next. by split_and!.
Qed.

Lemma execute_complete request b payload : roomy b → admissible request → reduces request payload →
  ∃ res b', portable_execute H profile state_codec command_codec request b = (Ok res, b') ∧
    str_take (Z.to_nat (tr_payload_len res)) (output b') = payload.
Proof.
  intros Hb Hadm (command & cur & next & Hc & Hop & Hcur & Hva & Hap & Hvs & Hp & Hpm).
  destruct (admissible_version _ Hadm) as [Hv1 Hv2]. unfold portable_execute. rewrite (proj1 Hadm), Hv1, Hv2.
  destruct (scratch_complete command_codec command_serde _ b command Hb Hc) as (b1 & E1 & Hb1).
  destruct (decode_current_complete request b1 cur Hb1 Hcur) as (b2 & E2 & [Hb2 Hb2']).
  destruct (prefix_complete state_codec state_serde next payload Ok payload (capacity_of (output b2) MAX) (output b2))
    as (out & E3 & _ & Ht); [apply capacity_bound|lia|done|unfold capacity_of, slen in *; lia|done|].
  unfold xbind at 1, xlift at 1. cbn [ok_or]. unfold xbind at 1. rewrite E1, Hop, String.eqb_refl. cbn [negb].
  unfold xbind at 1. rewrite E2. unfold xbind at 1, xlift at 1. rewrite Hva. cbn [map_err].
  unfold xbind at 1, xlift at 1. rewrite Hap. cbn [map_err]. unfold xbind at 1, xlift at 1. rewrite Hvs. cbn [map_err].
  unfold xbind at 1, on_output. unfold write_then in E3. rewrite E3. cbn [map_err].
  unfold xbind, xlift. rewrite custom_state_hash_Ok by lia. cbn [map_err].
  eexists _, _. split; [reflexivity|]. cbn. unfold slen. by rewrite Nat2Z.id.
Qed.
End Runs.

(** ** Agreement with the adapter *)

Section Agreement.
Context {State Command Error : Type} (H : string → string) (display : Error → string) (io : string → string).
Context (state_serde : Serde State) (command_serde : Serde Command) (from_value : Value → result string string).
Context (state_codec : CanonicalCodec State) (command_codec : CanonicalCodec Command).
Context (t : TypedProfile State Command Error).
Context `{!SerdeLaws state_serde} `{!SerdeLaws command_serde}.
Context `{!CanonicalLaws state_codec state_serde} `{!CanonicalLaws command_codec command_serde}.

Local Notation profile := (tp_profile t).
Local Notation apply := (typed_apply display io state_serde command_serde from_value t).

(** A portable request and a call of the adapter that say the same. *)
Record same_call (request : TransitionRequest) (current : option StateProjection) (operation : Operation)
    (inputs : Inputs) : Prop := {
  sc_operation : tq_operation request = operation ∧ contains (tp_operations t) operation = true ∧
    operation_new operation = Ok operation;
  sc_profile : inputs !! "profile" ≫= as_str = Some (tq_domain request);
  sc_schema : inputs !! "schema_version" ≫= as_u64 = Some (tq_schema request);
  sc_command : ∃ value values, inputs !! "command" = Some value ∧ as_array value = Some values ∧
    Z.of_nat (length values) = slen (tq_command request) ∧ from_value value = Ok (tq_command request);
  sc_current : match tq_current request, current with
    | None, None => True
    | Some es, Some p => p_state_type p = StCustom ∧ p_version p = es_version es ∧
        p_state p = RCustom (mkCustom (es_domain es) (es_schema es) (es_payload es))
    | _, _ => False
    end;
}.

Lemma identity_Ok request : bad_identity profile request = false →
  identity t = Ok (DOMAIN_ID profile) ∧ profile_id_new (DOMAIN_ID profile) = Ok (DOMAIN_ID profile) ∧
  SCHEMA_VERSION profile ≠ 0 ∧ MAX_PAYLOAD_BYTES profile ≠ 0 ∧
  tq_domain request = DOMAIN_ID profile ∧ tq_schema request = SCHEMA_VERSION profile.
Proof.
  unfold bad_identity. rewrite !orb_false_iff, !negb_false_iff, String.eqb_eq, !Z.eqb_neq, Z.eqb_eq, Z.ltb_ge.
  intros [[[[[[He Hl] Hc] Hs] Hm] Hd] Hv].
  assert (profile_id_new (DOMAIN_ID profile) = Ok (DOMAIN_ID profile)) as Hp.
  { unfold profile_id_new, validate_profile_id. rewrite He, Hc, (proj2 (Z.ltb_ge _ _)) by (unfold MAX_ID_LENGTH; lia). done. }
  unfold identity. rewrite Hp. by split_and!.
Qed.

Lemma encode_canonical {T} (serde : Serde T) v bytes : SCHEMA_VERSION profile ≠ 0 →
  0 < MAX_PAYLOAD_BYTES profile ≤ MAX_INTENT_BYTES →
  encode io t serde v = Ok bytes ↔ canonical profile serde v bytes.
Proof.
  intros Hs Hm. assert (payload_limit t = MAX_PAYLOAD_BYTES profile) as Hl by (unfold payload_limit; lia).
  rewrite encode_Ok, Hl. unfold canonical. split; [tauto|]. intros [He Hb]. split; [done|].
  split; [|done]. apply size_Ok. rewrite Hl. lia.
Qed.

Lemma reduces_apply request current operation inputs payload : bad_identity profile request = false →
  0 < MAX_PAYLOAD_BYTES profile ≤ MAX_INTENT_BYTES → same_call request current operation inputs →
  reduces profile state_serde command_serde request payload ↔
  apply current operation inputs = Ok (RCustom (mkCustom (DOMAIN_ID profile) (SCHEMA_VERSION profile) payload)).
Proof.
  intros Hbad Hm [(So1 & So2 & So3) Sp Ss (value & values & Sv1 & Sv2 & Sv3 & Sv4) Sc].
  destruct (identity_Ok _ Hbad) as (Hid & Hpid & Hsn & _ & Ed & Es).
  assert (payload_limit t = MAX_PAYLOAD_BYTES profile) as Hlim by (unfold payload_limit; lia).
  assert (Hprior : ∀ st, prior display io state_serde t current st ↔ prior_of profile state_serde request st).
  { intros st. unfold prior, prior_of. destruct (tq_current request) as [es|], current as [p|]; try done.
    destruct Sc as (Hpt & _ & Hps). rewrite Hps. split.
    - intros (s & -> & _ & Hd). apply decode_state_Ok in Hd as (id & pl & Hid' & [= E1 E2 E3] & He & Hv); [|done].
      rewrite Hid in Hid'. injection Hid' as <-. split_and!; [done..|]. subst. exists s. rewrite encode_canonical in He by done. by split_and!.
    - intros (-> & -> & s & -> & Hc & Hv). exists s. split_and!; [done..|]. apply decode_state_Ok; [done|].
      exists (DOMAIN_ID profile), (es_payload es). rewrite encode_canonical by done. by split_and!. }
  rewrite apply_Ok by done. split.
  - intros (command & st & next & Hc & Hop & Hp & Hva & Hap & Hvs & Hpl).
    exists st, command, next, (DOMAIN_ID profile), payload. rewrite encode_canonical by done.
    split_and!; try done. apply arguments_Ok; [done..|]. rewrite Hprior. split_and!; try done.
    + exists (DOMAIN_ID profile). split; [done|]. exists (tq_domain request). split; [done|]. by rewrite Ed.
    + by rewrite Ss, Es.
    + exists value, values, (tq_command request). rewrite encode_canonical by done. rewrite Sv3, Hlim.
      destruct Hc. by split_and!.
    + by rewrite Hop, So1.
  - intros (st & command & next & id & pl & Ha & Hva & Hap & Hvs & He & _ & [= _ <-]).
    apply arguments_Ok in Ha as (_ & _ & _ & (value' & values' & bytes & Hv1 & _ & _ & Hv4 & Hec) & _ & Hop & Hp); [|done..].
    rewrite Sv1 in Hv1. injection Hv1 as <-. rewrite Sv4 in Hv4. injection Hv4 as <-.
    rewrite encode_canonical in He by done. rewrite encode_canonical in Hec by done. exists command, st, next. rewrite <- Hprior, So1. by split_and!.
Qed.

(** ** Properties *)

(** C19: the portable reduction is the adapter's.  For a profile within the shared size limits,
    types that round-trip and a portable codec that writes their canonical bytes, buffers of
    the profile's payload size, a well-formed request at the current version, and a call of
    the adapter that says the same: the portable execution returns a payload exactly when the
    adapter returns the custom state with that payload; it then reports the payload's length,
    the next version, and the digest the ledger computes of that state when BCS writes the
    variant, the domain, the schema and the payload in order. *)
Theorem portable_execute_agrees (request : TransitionRequest) (b : Buffers) (current : option StateProjection)
    (operation : Operation) (inputs : Inputs) :
  0 < MAX_PAYLOAD_BYTES profile ≤ MAX_INTENT_BYTES → slen (DOMAIN_ID profile) ≤ U32_MAX →
  roomy profile b → admissible profile request → same_call request current operation inputs →
  (∀ payload,
     (∃ res b', portable_execute H profile state_codec command_codec request b = (Ok res, b') ∧
        str_take (Z.to_nat (tr_payload_len res)) (output b') = payload) ↔
     apply current operation inputs = Ok (RCustom (mkCustom (DOMAIN_ID profile) (SCHEMA_VERSION profile) payload))) ∧
  (∀ res b', portable_execute H profile state_codec command_codec request b = (Ok res, b') →
     let payload := str_take (Z.to_nat (tr_payload_len res)) (output b') in
     let state := RCustom (mkCustom (DOMAIN_ID profile) (SCHEMA_VERSION profile) payload) in
     tr_payload_len res = slen payload ∧
     tr_version res = match current with Some p => p_version p | None => 0 end + 1 ∧
     ∀ bcs : Bcs ResourceState, bcs state = Ok (envelope (DOMAIN_ID profile) (SCHEMA_VERSION profile) payload) →
       canonicalize_and_digest H bcs state = Ok (tr_state_hash res)).
Proof.
  intros Hm Hd Hb Hadm Hcall.
  assert (0 ≤ MAX_PAYLOAD_BYTES profile ≤ U32_MAX) as Hmax by (unfold MAX_INTENT_BYTES, U32_MAX in *; lia).
  pose proof (reduces_apply request current operation inputs) as Hred. split.
  - intros payload. rewrite <- Hred by (done || apply Hadm). split.
    + intros (res & b' & E & <-). by eapply execute_sound in E as [? _].
    + by apply execute_complete.
  - intros res b' E payload state. eapply execute_sound in E as (_ & Hl & Hv & Hh); [|done..].
    split; [done|]. split.
    + rewrite Hv. f_equal. destruct Hcall as [_ _ _ _ Hc]. unfold current_version.
      destruct (tq_current request), current; try done. by destruct Hc as (_ & -> & _).
    + intros bcs Hbcs. unfold canonicalize_and_digest, canonicalize_with. rewrite Hbcs. cbn [map_err rbind].
      by rewrite Hh.
Qed.
End Agreement.

(** ** The counter, portably *)

Module PortableCounter.
Definition codec : CanonicalCodec Z := {|
  cc_encode v := if bool_decide (is_u64 v) then Encoder.u64 v else xlift (Err CodecOverflow);
  cc_decode := Decoder.u64;
|}.

Lemma encoding_u64 v b : encoding Counter.u64_serde v = Ok b ↔ is_u64 v ∧ b = le_bytes 8 v.
Proof.
  unfold encoding. cbn [serde_writes Counter.u64_serde]. case_bool_decide as Hv; cbn [rbind]; [|naive_solver].
  change (Ok (E := string) (le_bytes 8 v +:+ EmptyString) = Ok b ↔ is_u64 v ∧ b = le_bytes 8 v).
  rewrite str_app_nil_r. naive_solver.
Qed.

#[global] Instance codec_laws : CanonicalLaws codec Counter.u64_serde.
Proof.
  split.
  - intros s v rest. cbn [cc_decode codec]. rewrite (le_codes 8 s v rest). split.
    + intros [Hv ->]. exists (le_bytes 8 v). split; [by apply encoding_u64|done].
    + intros (b & [Hv ->]%encoding_u64 & ->). done.
  - intros v b e [Hv ->]%encoding_u64 He Hl. cbn [cc_encode codec]. rewrite bool_decide_true by done.
    pose proof (fixed_writes (le_bytes 8 v) e He) as Hw. by rewrite (proj2 (Nat.leb_le _ _)) in Hw.
  - intros v b e [Hv ->]%encoding_u64 He Hl. cbn [cc_encode codec]. rewrite bool_decide_true by done.
    pose proof (fixed_writes (le_bytes 8 v) e He) as Hw. rewrite (proj2 (Nat.leb_gt _ _)) in Hw by done. eauto.
  - intros v m e. unfold encoding. cbn [serde_writes Counter.u64_serde cc_encode codec]. case_bool_decide; [done|]. eauto.
Qed.

Definition request (n : Z) : TransitionRequest :=
  mkTransition "test.counter" 1 1 "counter.set" (le_bytes 8 n) (Some (mkEncoded "test.counter" 1 1 (le_bytes 8 5))).
Definition buffers : Buffers := mkBuffers (zeros 8) (zeros 10).
Definition run (n : Z) := portable_execute CommitSamples.pad32 Counter.profile codec codec (request n) buffers.
End PortableCounter.

Lemma portable_execute_agrees_witness : ∃ res b', PortableCounter.run 7 = (Ok res, b') ∧
  typed_apply (fun e => e) (fun e => e) Counter.u64_serde Counter.u64_serde Counter.from_value Counter.typed
    (Some Counter.row) "counter.set" (Counter.inputs 7) =
  Ok (RCustom (mkCustom "test.counter" 1 (str_take (Z.to_nat (tr_payload_len res)) (output b')))).
Proof.
  destruct (PortableCounter.run 7) as [[res|e] b'] eqn:E; [|vm_compute in E; discriminate E].
  exists res, b'. split; [reflexivity|].
  destruct (portable_execute_agrees CommitSamples.pad32 (fun e => e) (fun e => e) Counter.u64_serde Counter.u64_serde
    Counter.from_value PortableCounter.codec PortableCounter.codec Counter.typed (PortableCounter.request 7)
    PortableCounter.buffers (Some Counter.row) "counter.set" (Counter.inputs 7)) as [Hiff _].
  - vm_compute. split; [reflexivity|discriminate].
  - vm_compute; discriminate.
  - vm_compute. repeat split; discriminate.
  - split; [vm_compute; reflexivity|]. split; [reflexivity|]. split; [intros es [= <-]; discriminate|].
    vm_compute. split; [discriminate|reflexivity].
  - split; [vm_compute; repeat split|reflexivity|reflexivity| |vm_compute; repeat split].
    exists (Counter.command 7). eexists. vm_compute. repeat split.
  - apply Hiff. exists res, b'. split; [exact E|reflexivity].
Defined.
