(* ===== verification/CustomProof.v ===== *)
(** * Proofs of consumer-defined states

    Models [verify_custom_bundle] of [crates/statechronicle-proof/src/custom.rs], which checks
    a state bundle against a signed commit and then decodes the claimed state with a typed
    profile, and composes the soundness of both. *)

From Stdlib Require Import ZArith Lia String.
From stdpp Require Import prelude gmap strings.
From S2P Require Import Prelude Effect Amount Domain Profile Executor Keys Sha256 Accumulator DefaultTable Merkle.
From S2P Require Import Commit Signing Durable Custom CustomFacts Bundle BundleFacts.
Open Scope Z_scope.

Section CustomProof.
Context {State Command Error : Type} (display : Error → string) (io : string → string).
Context (state_serde : Serde State) (t : TypedProfile State Command Error).
Context (H : string → string) {SigningKey VerifyingKey : Type} (scheme : SignatureScheme SigningKey VerifyingKey).
Context (bcs_commit : Bcs Commit) (bcs_state : Bcs ResourceState) (bcs_proof : Bcs ResourceStateProof).

Definition verify_custom_bundle (proof : ResourceStateProof) (signed : Signed Commit) (verifying_key : VerifyingKey)
    (key : StateKey) : result State ProofError :=
  verify_bundle H scheme bcs_commit bcs_state bcs_proof proof signed verifying_key key ;?
  let claimed_key := for_resource H (rp_tenant_id proof) (rp_resource_id proof) in
  if negb (String.eqb claimed_key key) then Err (PrInvalidState "custom proof resource/key mismatch")
  else map_err (fun error => PrInvalidState (profile_error_to_string error))
         (decode_state display io state_serde t (rp_claimed_state proof)).

Context `{!HashLaws H} `{!SerdeLaws state_serde}.

(** C14: a verified custom proof is a true, valid state.  When the check accepts a bundle against
    a commit whose root is that of a history of updates, the returned value satisfies the
    consumer's invariant, it is the one the claimed payload canonically encodes under the
    profile's domain and schema, the commit is signed and is the one the bundle names, and
    the digest of that tagged payload is the one last written to the key of the claimed
    tenant and resource.  There are two exceptions ([path_shows]): the path carried by the
    bundle itself exhibits two different messages with the same hash, or key and digest are
    both the all-zero block and the key was never written.  A payload of another domain or
    schema is never accepted. *)
Theorem custom_bundle_sound (batches : list (list Entry)) (proof : ResourceStateProof) (signed : Signed Commit)
    (vk : VerifyingKey) (key : StateKey) (v : State) :
  valid_batches batches → cm_next_state_root (s_body signed) = compute_root H (build H batches) →
  verify_custom_bundle proof signed vk key = Ok v →
  key = for_resource H (rp_tenant_id proof) (rp_resource_id proof) ∧
  sp_validate_state (tp_profile t) v = Ok tt ∧
  commit_signed_by scheme bcs_commit vk signed ∧ names_commit (rp_commit proof) (s_body signed) ∧
  ∃ payload digest, encode io t state_serde v = Ok payload ∧
    rp_claimed_state proof =
      RCustom (mkCustom (DOMAIN_ID (tp_profile t)) (SCHEMA_VERSION (tp_profile t)) payload) ∧
    canonicalize_and_digest H bcs_state (rp_claimed_state proof) = Ok digest ∧
    path_shows H batches key digest (rp_state_inclusion_proof proof).
Proof.
  intros Hv Hroot E. unfold verify_custom_bundle in E. apply rbind_Ok in E as ([] & Hver & E).
  destruct (String.eqb_spec (for_resource H (rp_tenant_id proof) (rp_resource_id proof)) key) as [Hk|]; [|done].
  cbn [negb] in E. apply map_err_Ok, decode_state_Ok in E as (id & payload & Hid & Hcl & He & Hval); [|done].
  assert (id = DOMAIN_ID (tp_profile t)) as ->.
  { unfold identity, profile_id_new in Hid. apply map_err_Ok in Hid. by apply rbind_Ok in Hid as (_ & _ & [= <-]). }
  pose proof Hver as (_ & _ & _ & Hn & Hs & _)%bundle_Ok.
  assert (is_key key) as Hkey by (rewrite <- Hk; unfold for_resource; apply (hash_length (H := H))).
  destruct (bundle_last_write _ _ _ _ _ _ _ _ _ _ Hv Hkey Hroot Hver) as (d & Hd & Hcases).
  split_and!; [done..|]. exists payload, d. by split_and!.
Qed.
End CustomProof.

(** ** A proven counter *)

Module CustomProofSamples.
Definition state (n : Z) : ResourceState := RCustom (mkCustom "test.counter" 1 (le_bytes 8 n)).
Definition key : StateKey := for_resource TableHash.hash "acme" "ctr".
Definition updates : list Entry := [(key, TableHash.hash (le_bytes 8 7))].
Definition projection : StateProjection :=
  mkProjection "acme" "ctr" StCustom 2 "evt_1" "cmt_1" (TableHash.hash (le_bytes 8 7)) (state 7).
Definition signed : Signed Commit := BundleSamples.signed TableHash.hash "acme" "cmt_1" updates.
Definition proof : result ResourceStateProof ProofError :=
  let? inclusion := ok_or (prove_inclusion TableHash.hash (build TableHash.hash [updates]) key) PrNotFound in
  build_state_proof TableHash.hash projection signed inclusion "counter.set" None key.
Definition check (p : ResourceStateProof) : result Z ProofError :=
  verify_custom_bundle (fun e => e) (fun e => e) Counter.u64_serde Counter.typed TableHash.hash BundleSamples.scheme
    BundleSamples.bcs_commit Counter.bcs BundleSamples.bcs_proof p signed "secret" key.
End CustomProofSamples.

Lemma custom_bundle_sound_witness : ∃ p, CustomProofSamples.proof = Ok p ∧ CustomProofSamples.check p = Ok 7 ∧
  rp_claimed_state p = CustomProofSamples.state 7.
Proof.
  destruct CustomProofSamples.proof as [p|e] eqn:E; [|vm_compute in E; discriminate E].
  assert (CustomProofSamples.check p = Ok 7) as Hc
    by (vm_compute in E; injection E as <-; vm_compute; reflexivity).
  exists p. split; [reflexivity|]. split; [exact Hc|].
  destruct (custom_bundle_sound (fun e => e) (fun e => e) Counter.u64_serde Counter.typed TableHash.hash
    BundleSamples.scheme BundleSamples.bcs_commit Counter.bcs BundleSamples.bcs_proof [CustomProofSamples.updates] p
    CustomProofSamples.signed "secret" CustomProofSamples.key 7) as (_ & _ & _ & _ & payload & d & He & Hcl & _).
  - repeat constructor.
  - reflexivity.
  - exact Hc.
  - rewrite Hcl. vm_compute in He. injection He as <-. reflexivity.
Defined.
