(* ===== verification/Wire.v ===== *)
(** * Text forms, builders and ingress

    Models the string forms of [crates/statechronicle-core/src/digest.rs] and
    [signature.rs], of the nonce and the builder of
    [crates/statechronicle-domain/src/intent.rs], the remaining identifiers of [ids.rs], the
    legacy JSON view of [resource_state.rs] and the payload parser of
    [crates/statechronicle-intent/src/parse.rs], with the setters of the commit builder
    ([crates/statechronicle-commit/src/builder.rs]) and the pure entry points of
    [crates/statechronicle-executor/src/transition.rs].  Hexadecimal, base64url and JSON decoding
    come from libraries and are parameters. *)

From Stdlib Require Import ZArith Lia Ascii String.
From stdpp Require Import prelude gmap strings.
From S2P Require Import Prelude Amount Domain Profile Transition Admission Executor Keys Sha256 Commit.
Open Scope Z_scope.

(** ** Identifiers *)

Definition STATE_PREFIX : string := "stc_".
Definition SNAPSHOT_PREFIX : string := "snp_".

(** [StateId::new] and [SnapshotId::new]. *)
Definition state_id_new (value : string) : result string DomainError :=
  validate_id "state" STATE_PREFIX value ;? Ok value.
Definition snapshot_id_new (value : string) : result string DomainError :=
  validate_id "snapshot" SNAPSHOT_PREFIX value ;? Ok value.

(** [Status::new]. *)
Definition domain_status_new (value : string) : result Status DomainError :=
  validate_status value ;? Ok value.

(** ** Digests *)

Definition DIGEST_PREFIX : string := "sha256:".
Definition DIGEST_BYTE_LEN : Z := 32.
Definition DIGEST_HEX_LEN : Z := 64.

Definition is_lower_hex_byte (c : ascii) : bool :=
  let n := byte_val c in ((48 <=? n) && (n <=? 57)) || ((97 <=? n) && (n <=? 102)).

Section Text.
Context (hex_decode : string → result string string) (b64u_encode : string → string).

(** [ContentDigest::from_hex_sha256]; a digest is its bytes, its text is [digest_as_str]. *)
Definition from_hex_sha256 (s : string) : result ContentDigest StateChronicleError :=
  let? hex_part := ok_or (str_strip_prefix DIGEST_PREFIX s)
    (InvalidDigest ("digest must start with `" +:+ DIGEST_PREFIX +:+ "`, got " +:+ tick s)) in
  if negb (slen hex_part =? DIGEST_HEX_LEN) then
    Err (InvalidDigest ("digest hex must be exactly 64 characters, got " +:+ u128_to_string (slen hex_part)))
  else if negb (str_all is_lower_hex_byte hex_part) then
    Err (InvalidDigest ("digest hex must be lowercase hexadecimal, got " +:+ tick hex_part))
  else
    let? decoded := map_err (fun source => InvalidDigest ("digest hex is not valid hexadecimal: " +:+ source))
      (hex_decode hex_part) in
    if negb (slen decoded =? DIGEST_BYTE_LEN) then
      Err (InvalidDigest ("digest must decode to 32 bytes, got " +:+ u128_to_string (slen decoded)))
    else Ok decoded.

(** ** Signatures and nonces *)

(** [Signature::b64u_string]; the reader is [signature_deserialize]. *)
Definition b64u_string (bytes : string) : string := B64U_PREFIX +:+ b64u_encode bytes.

(** [Nonce::to_b64u_string]. *)
Definition to_b64u_string (bytes : string) : string := "b64u:" +:+ b64u_encode bytes.
End Text.

(** ** The intent builder *)

Definition intent_builder : IntentBuilder :=
  mkIntentBuilder None None None None None 0 None ∅ None None None None.

Definition b_set_tenant (v : TenantId) (b : IntentBuilder) : IntentBuilder :=
  mkIntentBuilder (Some v) (b_intent_id b) (b_operation b) (b_actor b) (b_resource_id b) (b_expected_version b)
    (b_state_type b) (b_inputs b) (b_authority b) (b_created_at b) (b_expires_at b) (b_nonce b).
Definition b_set_intent_id (v : IntentId) (b : IntentBuilder) : IntentBuilder :=
  mkIntentBuilder (b_tenant b) (Some v) (b_operation b) (b_actor b) (b_resource_id b) (b_expected_version b)
    (b_state_type b) (b_inputs b) (b_authority b) (b_created_at b) (b_expires_at b) (b_nonce b).
Definition b_set_operation (v : Operation) (b : IntentBuilder) : IntentBuilder :=
  mkIntentBuilder (b_tenant b) (b_intent_id b) (Some v) (b_actor b) (b_resource_id b) (b_expected_version b)
    (b_state_type b) (b_inputs b) (b_authority b) (b_created_at b) (b_expires_at b) (b_nonce b).
Definition b_set_actor (v : SubjectId) (b : IntentBuilder) : IntentBuilder :=
  mkIntentBuilder (b_tenant b) (b_intent_id b) (b_operation b) (Some v) (b_resource_id b) (b_expected_version b)
    (b_state_type b) (b_inputs b) (b_authority b) (b_created_at b) (b_expires_at b) (b_nonce b).
Definition b_set_resource (v : ResourceId) (b : IntentBuilder) : IntentBuilder :=
  mkIntentBuilder (b_tenant b) (b_intent_id b) (b_operation b) (b_actor b) (Some v) (b_expected_version b)
    (b_state_type b) (b_inputs b) (b_authority b) (b_created_at b) (b_expires_at b) (b_nonce b).
Definition b_set_expected_version (v : Z) (b : IntentBuilder) : IntentBuilder :=
  mkIntentBuilder (b_tenant b) (b_intent_id b) (b_operation b) (b_actor b) (b_resource_id b) v
    (b_state_type b) (b_inputs b) (b_authority b) (b_created_at b) (b_expires_at b) (b_nonce b).
Definition b_set_state_type (v : StateType) (b : IntentBuilder) : IntentBuilder :=
  mkIntentBuilder (b_tenant b) (b_intent_id b) (b_operation b) (b_actor b) (b_resource_id b) (b_expected_version b)
    (Some v) (b_inputs b) (b_authority b) (b_created_at b) (b_expires_at b) (b_nonce b).
Definition b_set_inputs (v : Inputs) (b : IntentBuilder) : IntentBuilder :=
  mkIntentBuilder (b_tenant b) (b_intent_id b) (b_operation b) (b_actor b) (b_resource_id b) (b_expected_version b)
    (b_state_type b) v (b_authority b) (b_created_at b) (b_expires_at b) (b_nonce b).
Definition b_input (key : string) (v : Value) (b : IntentBuilder) : IntentBuilder :=
  b_set_inputs (<[key := v]> (b_inputs b)) b.
Definition b_set_authority (v : AuthorityProof) (b : IntentBuilder) : IntentBuilder :=
  mkIntentBuilder (b_tenant b) (b_intent_id b) (b_operation b) (b_actor b) (b_resource_id b) (b_expected_version b)
    (b_state_type b) (b_inputs b) (Some v) (b_created_at b) (b_expires_at b) (b_nonce b).
Definition b_set_created_at (v : DateTime) (b : IntentBuilder) : IntentBuilder :=
  mkIntentBuilder (b_tenant b) (b_intent_id b) (b_operation b) (b_actor b) (b_resource_id b) (b_expected_version b)
    (b_state_type b) (b_inputs b) (b_authority b) (Some v) (b_expires_at b) (b_nonce b).
Definition b_set_expires_at (v : DateTime) (b : IntentBuilder) : IntentBuilder :=
  mkIntentBuilder (b_tenant b) (b_intent_id b) (b_operation b) (b_actor b) (b_resource_id b) (b_expected_version b)
    (b_state_type b) (b_inputs b) (b_authority b) (b_created_at b) (Some v) (b_nonce b).
Definition b_set_nonce (v : string) (b : IntentBuilder) : IntentBuilder :=
  mkIntentBuilder (b_tenant b) (b_intent_id b) (b_operation b) (b_actor b) (b_resource_id b) (b_expected_version b)
    (b_state_type b) (b_inputs b) (b_authority b) (b_created_at b) (b_expires_at b) (Some v).

(** ** The commit builder *)

Definition commit_builder : CommitBuilder := mkCommitBuilder None 0 None None None None.

Definition bu_set_scope (v : CommitScope) (b : CommitBuilder) : CommitBuilder :=
  mkCommitBuilder (Some v) (bu_sequence b) (bu_executor b) (bu_profile b) (bu_created_at b) (bu_parent_commit_id b).
Definition bu_set_sequence (v : Z) (b : CommitBuilder) : CommitBuilder :=
  mkCommitBuilder (bu_scope b) v (bu_executor b) (bu_profile b) (bu_created_at b) (bu_parent_commit_id b).
Definition bu_set_executor (v : SubjectId) (b : CommitBuilder) : CommitBuilder :=
  mkCommitBuilder (bu_scope b) (bu_sequence b) (Some v) (bu_profile b) (bu_created_at b) (bu_parent_commit_id b).
Definition bu_set_profile (v : ProfileId) (b : CommitBuilder) : CommitBuilder :=
  mkCommitBuilder (bu_scope b) (bu_sequence b) (bu_executor b) (Some v) (bu_created_at b) (bu_parent_commit_id b).
Definition bu_set_created_at (v : DateTime) (b : CommitBuilder) : CommitBuilder :=
  mkCommitBuilder (bu_scope b) (bu_sequence b) (bu_executor b) (bu_profile b) (Some v) (bu_parent_commit_id b).
Definition bu_set_parent (v : option CommitId) (b : CommitBuilder) : CommitBuilder :=
  mkCommitBuilder (bu_scope b) (bu_sequence b) (bu_executor b) (bu_profile b) (bu_created_at b) v.

(** ** Pure transition entry points *)

(** [map_error] of the executor's [transition.rs]: the text of an invalid input is kept
    without the prefix its rendering has. *)
Definition map_error (error : ProfileError) : ExecutorError :=
  match error with
  | PInvalidInput message => XTransitionInvalid message
  | other => XTransitionInvalid (profile_error_to_string other)
  end.

Definition executor_apply (before : option StateProjection) (operation : Operation) (inputs : Inputs)
    : result ResourceState ExecutorError :=
  map_err map_error (apply before operation inputs).
Definition executor_transfer_after_state (source : StateProjection) (destination : option StateProjection)
    (operation : Operation) (inputs : Inputs) : result ResourceState ExecutorError :=
  map_err map_error (transfer_after_state source destination operation inputs).
Definition executor_state_key_for (H : string → string) (state_type : StateType) (tenant : TenantId)
    (subject : option SubjectId) (resource : ResourceId) : result StateKey ExecutorError :=
  map_err map_error (state_key_for H state_type tenant subject resource).

(** ** Payloads *)

(** The JSON library: bytes to a value, and a value to a raw intent by the derived
    deserializer. *)
Record Json := mkJson {
  json_from_slice : string → result Value string;
  raw_from_value : Value → result RawIntent string;
}.

Definition parse_intent (json : Json) (payload : string) : result RawIntent IntentError :=
  map_err intent_of_core (check_size "intent" MAX_INTENT_BYTES (slen payload)) ;?
  let? value := map_err InvalidJson (json_from_slice json payload) in
  if MAX_JSON_DEPTH <? json_depth value then Err (InvalidField "JSON nesting depth exceeds limit 32")
  else map_err InvalidJson (raw_from_value json value).

(** [parse_intent_str]: a text is its bytes. *)
Definition parse_intent_str (json : Json) (payload : string) : result RawIntent IntentError := parse_intent json payload.

(** ** The legacy JSON view *)

(** Objects list their fields in key order. *)
Definition to_legacy_json (s : ResourceState) : Value :=
  match s with
  | RCustom v => VObject [("domain", VString (cu_domain v));
      ("payload", VArray (map (fun c => VPosInt (byte_val c)) (String.list_ascii_of_string (cu_payload v))));
      ("schema_version", VPosInt (cu_schema_version v))]
  | RUniqueAsset v => VObject ([("owner", VString (ua_owner v)); ("status", VString (ua_status v))] ++
      match ua_trade_id v with Some trade_id => [("trade_id", VString trade_id)] | None => [] end)
  | RConsumableStack v => VObject [("quantity", VString (serialize (cs_quantity v))); ("subject", VString (cs_subject v));
      ("unit", VString (cs_unit v))]
  | RFungibleBalance v => VObject [("balance", VString (serialize (fb_balance v))); ("subject", VString (fb_subject v));
      ("unit", VString (fb_unit v))]
  | REntitlement v => VObject [("status", VString (en_status v)); ("subject", VString (en_subject v));
      ("transferable", VBool (en_transferable v))]
  | RMeteredResource v => VObject [("maximum", VString (serialize (mt_maximum v)));
      ("remaining", VString (serialize (mt_remaining v))); ("subject", VString (mt_subject v))]
  | RListing v => VObject [("seller", VString (li_seller v)); ("status", VString (li_status v))]
  | REscrow v => VObject [("buyer", VString (es_buyer v)); ("seller", VString (es_seller v));
      ("status", VString (es_status v))]
  end.

(** [Value::get] with a string index. *)
Definition value_get (v : Value) (key : string) : option Value :=
  match v with VObject fields => snd <$> List.find (fun f => String.eqb f.1 key) fields | _ => None end.

(** [ResourceState::get]. *)
Definition legacy_get (s : ResourceState) (key : string) : option Value := value_get (to_legacy_json s) key.

(** The states an empty object stands for. *)
Definition legacy_empty (s : ResourceState) : bool :=
  match s with
  | RUniqueAsset v => str_is_empty (ua_owner v) && String.eqb (ua_status v) "active" && negb (bool_decide (is_Some (ua_trade_id v)))
  | RConsumableStack v => str_is_empty (cs_subject v) && amount_eqb (cs_quantity v) ZERO && str_is_empty (cs_unit v)
  | RFungibleBalance v => str_is_empty (fb_subject v) && amount_eqb (fb_balance v) ZERO && str_is_empty (fb_unit v)
  | _ => false
  end.

(** [PartialEq<Value> for ResourceState]. *)
Definition legacy_eqb (s : ResourceState) (other : Value) : bool :=
  (bool_decide (other = VObject []) && legacy_empty s) || bool_decide (to_legacy_json s = other).

(** ** Facts about the builder and the view *)

(** Building with the setters is the positional construction, and of two settings of a field
    the later one counts. *)
Lemma built_like_positional tenant id operation actor resource st version inputs authority created expires nonce :
  let b := b_set_tenant tenant (b_set_intent_id id (b_set_operation operation (b_set_actor actor
    (b_set_resource resource (b_set_created_at created (b_set_nonce nonce intent_builder)))))) in
  intent_build b = Ok (intent_new tenant id operation actor resource None 0 ∅ None created None nonce) ∧
  intent_build (b_set_state_type st (b_set_expected_version version (b_set_inputs inputs (b_set_authority authority
    (b_set_expires_at expires (b_set_expected_version 7 b)))))) =
    Ok (intent_new tenant id operation actor resource (Some st) version inputs (Some authority) created (Some expires) nonce).
Proof. by split. Qed.

(** What a finished body has, and which field a refusal names. *)
Lemma intent_build_Ok b i : intent_build b = Ok i →
  Some (i_tenant_id i) = b_tenant b ∧ Some (i_intent_id i) = b_intent_id b ∧ Some (i_operation i) = b_operation b ∧
  Some (i_actor i) = b_actor b ∧ Some (i_resource_id i) = b_resource_id b ∧ Some (i_created_at i) = b_created_at b ∧
  Some (i_nonce i) = b_nonce b ∧ i_schema i = INTENT_SCHEMA ∧ i_inputs i = b_inputs b.
Proof. unfold intent_build. intros E. res_inv E. subst. repeat match goal with H : ok_or _ _ = Ok _ |- _ => apply ok_or_Ok in H end. done. Qed.

(** The view names what the typed accessors return. *)
Lemma legacy_accessors (s : ResourceState) :
  legacy_get s "subject" = VString <$> rs_subject s ∧ legacy_get s "owner" = VString <$> rs_owner s ∧
  legacy_get s "status" = VString <$> rs_status s ∧
  ∀ key a, rs_amount s key = Some a → legacy_get s key = Some (VString (serialize a)).
Proof.
  split_and!; try (destruct s as [[? ? []]| | | | | | |]; reflexivity).
  intros key a. destruct s; cbn [rs_amount]; try done.
  - by destruct (String.eqb_spec key "quantity") as [->|]; [intros [= <-]|].
  - by destruct (String.eqb_spec key "balance") as [->|]; [intros [= <-]|].
  - destruct (String.eqb_spec key "remaining") as [->|]; [by intros [= <-]|].
    by destruct (String.eqb_spec key "maximum") as [->|]; [intros [= <-]|].
Qed.

(** ** Hexadecimal *)

Lemma hex_digit_lower n : 0 ≤ n < 16 → is_lower_hex_byte (hex_digit n) = true ∧ hex_value (hex_digit n) = n.
Proof.
  intros Hn. unfold is_lower_hex_byte, hex_value, hex_digit.
  assert (byte_val (ascii_of_N (Z.to_N (if n <? 10 then n + 48 else n + 87))) = if n <? 10 then n + 48 else n + 87) as ->.
  { unfold byte_val. destruct (Z.ltb_spec n 10); rewrite N_ascii_embedding by lia; lia. }
  destruct (Z.ltb_spec n 10); split; try lia; destruct (Z.ltb_spec (n + 48) 58), (Z.ltb_spec (n + 87) 58); lia.
Qed.

Lemma hex_value_digit c : is_lower_hex_byte c = true → 0 ≤ hex_value c < 16 ∧ hex_digit (hex_value c) = c.
Proof.
  unfold is_lower_hex_byte, hex_value, hex_digit. intros Hc.
  assert (48 ≤ byte_val c ≤ 57 ∨ 97 ≤ byte_val c ≤ 102) as Hr by lia.
  split; [destruct (Z.ltb_spec (byte_val c) 58); lia|].
  assert ((if (if byte_val c <? 58 then byte_val c - 48 else byte_val c - 87) <? 10
           then (if byte_val c <? 58 then byte_val c - 48 else byte_val c - 87) + 48
           else (if byte_val c <? 58 then byte_val c - 48 else byte_val c - 87) + 87) = byte_val c) as ->.
  { destruct (Z.ltb_spec (byte_val c) 58);
      [destruct (Z.ltb_spec (byte_val c - 48) 10)|destruct (Z.ltb_spec (byte_val c - 87) 10)]; lia. }
  unfold byte_val. rewrite N2Z.id. apply ascii_N_embedding.
Qed.

Lemma to_hex_facts s : of_hex (to_hex s) = s ∧ str_all is_lower_hex_byte (to_hex s) = true ∧ slen (to_hex s) = 2 * slen s.
Proof.
  induction s as [|c s (IH1 & IH2 & IH3)]; [done|]. cbn [to_hex of_hex str_all]. pose proof (byte_val_bound c).
  assert (0 ≤ byte_val c / 16 < 16) as Hd by (split; [apply Z.div_pos; lia|apply Z.div_lt_upper_bound; lia]).
  pose proof (Z.mod_pos_bound (byte_val c) 16 ltac:(lia)) as Hm.
  destruct (hex_digit_lower _ Hd) as [-> ->], (hex_digit_lower _ Hm) as [-> ->]. rewrite IH1, IH2.
  split_and!; [|done|rewrite !slen_cons; lia]. f_equal. rewrite (Z.mul_comm _ 16), <- Z.div_mod by lia.
  unfold byte_val. rewrite N2Z.id. apply ascii_N_embedding.
Qed.

Lemma of_hex_facts n : ∀ s, (String.length s = 2 * n)%nat → str_all is_lower_hex_byte s = true →
  to_hex (of_hex s) = s ∧ String.length (of_hex s) = n.
Proof.
  induction n as [|n IH]; intros s Hl Ha; [by destruct s|]. destruct s as [|a [|b s]]; cbn in Hl; try lia.
  cbn [str_all] in Ha. rewrite !andb_true_iff in Ha. destruct Ha as (Ha & Hb & Hs).
  destruct (IH s ltac:(lia) Hs) as [E1 E2]. destruct (hex_value_digit _ Ha) as [Va Da], (hex_value_digit _ Hb) as [Vb Db].
  cbn [of_hex to_hex String.length]. rewrite E1, E2. split; [|done].
  assert (byte_val (ascii_of_N (Z.to_N (hex_value a * 16 + hex_value b))) = hex_value a * 16 + hex_value b) as ->.
  { unfold byte_val. rewrite N_ascii_embedding by lia. lia. }
  rewrite Z.div_add_l, Z.div_small, (Z.add_comm (_ * 16)), Z.mod_add, Z.mod_small, Z.add_0_r, Da, Db by lia. done.
Qed.

Lemma strip_prefix_Some p s r : str_strip_prefix p s = Some r ↔ s = p +:+ r.
Proof.
  revert s. induction p as [|a p IH]; intros s; [cbn; split; [by intros [= ->]|by intros ->]|].
  rewrite str_app_cons. destruct s as [|b s]; cbn [str_strip_prefix]; [done|].
  destruct (Ascii.eqb_spec a b) as [->|Hne]; [rewrite IH; split; [by intros ->|by intros [= ->]]|naive_solver].
Qed.

(** ** Round trips of the text forms *)

(** The documented contracts of the text decoders: [hex::decode] reads an even number of
    lowercase digits as their bytes; base64url without padding reads exactly what it
    writes. *)
Class TextLaws (codecs : Codecs) (hex_decode : string → result string string) (b64u_encode : string → string) := {
  hex_decode_spec s : Nat.Even (String.length s) → str_all is_lower_hex_byte s = true → hex_decode s = Ok (of_hex s);
  b64u_spec s bytes : b64u_decode codecs s = Ok bytes ↔ s = b64u_encode bytes;
}.

Section RoundTrip.
Context (codecs : Codecs) (hex_decode : string → result string string) (b64u_encode : string → string).
Context `{!TextLaws codecs hex_decode b64u_encode}.

(** A reader that strips a prefix first. *)
Lemma prefixed_Ok {A E} p s (e : E) (f : string → result A E) d :
  (let? r := ok_or (str_strip_prefix p s) e in f r) = Ok d ↔ ∃ r, s = p +:+ r ∧ f r = Ok d.
Proof. rewrite rbind_Ok. by setoid_rewrite ok_or_Ok; setoid_rewrite strip_prefix_Some. Qed.

(** A reader that decodes base64url and then checks the width. *)
Lemma decoded_Ok {E} g s (f : string → result string E) d :
  (let? r := map_err g (b64u_decode codecs s) in f r) = Ok d ↔ ∃ r, s = b64u_encode r ∧ f r = Ok d.
Proof. rewrite rbind_Ok. by setoid_rewrite map_err_Ok; setoid_rewrite b64u_spec. Qed.

Lemma from_hex_sha256_Ok s d :
  from_hex_sha256 hex_decode s = Ok d ↔ s = digest_as_str d ∧ slen d = DIGEST_BYTE_LEN.
Proof.
  unfold from_hex_sha256, digest_as_str. rewrite prefixed_Ok. split.
  - intros (r & -> & E). unfold DIGEST_HEX_LEN, DIGEST_BYTE_LEN in *.
    destruct (Z.eqb_spec (slen r) 64) as [Hl|]; [|done]. cbn [negb] in E.
    destruct (str_all is_lower_hex_byte r) eqn:Ha; [|done]. cbn [negb] in E.
    assert (String.length r = (2 * 32)%nat) as Hr by (unfold slen in Hl; lia).
    destruct (of_hex_facts 32 r Hr Ha) as [E1 E2].
    rewrite hex_decode_spec in E by (try done; rewrite Hr; by exists 32%nat). cbn [map_err rbind] in E.
    unfold slen in E. rewrite E2 in E. injection E as <-. rewrite E1. unfold slen. by rewrite E2.
  - intros [-> Hd]. destruct (to_hex_facts d) as (E1 & E2 & E3). exists (to_hex d). split; [done|].
    unfold DIGEST_HEX_LEN, DIGEST_BYTE_LEN in *. rewrite E3, Hd, E2. change (2 * 32 =? 64) with true. cbn [negb].
    rewrite hex_decode_spec by (try done; exists 32%nat; unfold slen in E3, Hd; lia).
    cbn [map_err rbind]. by rewrite E1, Hd.
Qed.

Lemma signature_deserialize_Ok s d :
  signature_deserialize codecs s = Ok d ↔ s = b64u_string b64u_encode d ∧ slen d = SIGNATURE_BYTE_LEN.
Proof.
  unfold signature_deserialize, b64u_string. rewrite prefixed_Ok. setoid_rewrite decoded_Ok. split.
  - intros (? & -> & r & -> & E). destruct (Z.eqb_spec (slen r) SIGNATURE_BYTE_LEN); by simplify_eq/=.
  - intros [-> Hd]. eexists; split; [done|]. exists d. split; [done|]. by rewrite Hd.
Qed.

Lemma nonce_from_b64u_str_Ok s d :
  nonce_from_b64u_str codecs s = Ok d ↔ s = to_b64u_string b64u_encode d ∧ slen d ≤ MAX_NONCE_BYTES.
Proof.
  unfold nonce_from_b64u_str, nonce_from_bytes, to_b64u_string. rewrite prefixed_Ok. setoid_rewrite decoded_Ok. split.
  - intros (? & -> & r & -> & E). destruct (Z.ltb_spec MAX_NONCE_BYTES (slen r)); by simplify_eq/=.
  - intros [-> Hd]. eexists; split; [done|]. exists d. split; [done|]. by rewrite (proj2 (Z.ltb_ge _ _) Hd).
Qed.

(** C32: the text forms of digests, signatures and nonces are exact.  A text is read as a
    value exactly when it is the one the value is written as and the value has its width:
    32 bytes for a digest, 64 for a signature, at most 64 for a nonce.  So every value of
    its width round-trips, no two texts name one value, and no text of another width,
    prefix or case is read. *)
Theorem wire_forms_exact (text bytes : string) :
  (from_hex_sha256 hex_decode text = Ok bytes ↔ text = digest_as_str bytes ∧ slen bytes = 32) ∧
  (signature_deserialize codecs text = Ok bytes ↔ text = b64u_string b64u_encode bytes ∧ slen bytes = 64) ∧
  (nonce_from_b64u_str codecs text = Ok bytes ↔ text = to_b64u_string b64u_encode bytes ∧ slen bytes ≤ 64).
Proof. split_and!; [apply from_hex_sha256_Ok|apply signature_deserialize_Ok|apply nonce_from_b64u_str_Ok]. Qed.
End RoundTrip.

(** ** Depth of a parsed payload *)

(** A value is a direct member of an array or an object. *)
Definition member_of (v parent : Value) : Prop :=
  match parent with
  | VArray values => In v values
  | VObject fields => ∃ key, In (key, v) fields
  | _ => False
  end.

Lemma max_depth_le {A} (f : A → Z) l x : In x l → f x ≤ foldr Z.max 0 (map f l).
Proof. induction l as [|y l IH]; [done|]. intros [->|Hx]; cbn; [lia|]. specialize (IH Hx). lia. Qed.

Lemma max_depth_bound {A} (f : A → Z) l b : 0 ≤ b → (∀ x, In x l → f x ≤ b) → foldr Z.max 0 (map f l) ≤ b.
Proof.
  intros Hb. induction l as [|x l IH]; cbn; [done|]. intros Hl.
  pose proof (Hl x (or_introl eq_refl)). assert (foldr Z.max 0 (map f l) ≤ b) by eauto. lia.
Qed.

Lemma member_depth v parent : member_of v parent → json_depth v + 1 ≤ json_depth parent.
Proof.
  destruct parent as [| | | | | |values|fields]; try done; cbn [member_of json_depth].
  - intros Hv. pose proof (max_depth_le json_depth _ _ Hv). lia.
  - intros [key Hv]. pose proof (max_depth_le (fun f => json_depth f.2) _ _ Hv) as Hd. cbn in Hd. lia.
Qed.

(** The contract of the derived deserializer of a raw intent: an input is a member of a
    member of the document. *)
Class JsonLaws (json : Json) := {
  raw_inputs_inside value raw key v : raw_from_value json value = Ok raw → raw_inputs raw !! key = Some v →
    ∃ inputs, member_of inputs value ∧ member_of v inputs;
}.

Lemma parse_intent_Ok json payload raw : parse_intent json payload = Ok raw ↔
  slen payload ≤ MAX_INTENT_BYTES ∧ ∃ value, json_from_slice json payload = Ok value ∧
    json_depth value ≤ MAX_JSON_DEPTH ∧ raw_from_value json value = Ok raw.
Proof.
  unfold parse_intent, check_size.
  destruct (Z.ltb_spec MAX_INTENT_BYTES (slen payload)); cbn [map_err rbind]; [split; [done|lia]|].
  destruct (json_from_slice json payload) as [value|]; cbn [map_err rbind]; [|split; [done|naive_solver]].
  destruct (Z.ltb_spec MAX_JSON_DEPTH (json_depth value)); [|rewrite map_err_Ok]; naive_solver lia.
Qed.

Section Ingress.
Context (codecs : Codecs) (json : Json) `{!JsonLaws json}.

Lemma parsed_input_depth payload raw : parse_intent json payload = Ok raw → input_depth (raw_inputs raw) ≤ MAX_JSON_DEPTH - 2.
Proof.
  rewrite parse_intent_Ok. intros (_ & value & _ & Hd & Hraw). unfold input_depth.
  apply max_depth_bound; [done|]. intros [key v] Hin. cbn.
  apply list_elem_of_In, elem_of_map_to_list in Hin. destruct (raw_inputs_inside _ _ _ _ Hraw Hin) as (mid & Hm & Hv).
  apply member_depth in Hm, Hv. lia.
Qed.

(** Ingress from bytes to an admitted intent.  A payload that parses is at most 64 KiB
    and its document nests at most 32 deep, so what [validate] admits from it is refused by
    the typed route only for an identifier or for its canonical size, never for its depth;
    and nothing of the payload beyond its length is read when it is too long. *)
Theorem ingress_bounded (payload : string) (raw : RawIntent) (v : ValidatedIntent) :
  parse_intent json payload = Ok raw → validate codecs raw = Ok v →
  let i := v_intent v in
  slen payload ≤ 65536 ∧ input_depth (i_inputs i) ≤ 30 ∧
  (∀ longer, 65536 < slen longer → parse_intent json longer = Err (ISizeLimitExceeded "intent" 65536 (slen longer))) ∧
  (try_from_intent codecs i (v_signature v) = Ok v ↔
   Forall (fun f => check_identifier f = Ok tt)
     [("tenant", i_tenant_id i); ("actor", i_actor i); ("resource", i_resource_id i)] ∧
   ∃ bytes, canonicalize codecs i = Ok bytes ∧ slen bytes ≤ MAX_INTENT_BYTES).
Proof.
  intros Hp Hv i. pose proof (parsed_input_depth _ _ Hp) as Hd. apply parse_intent_Ok in Hp as [Hs _].
  apply validate_Ok in Hv as (Hraw & Hfrom & Hsch & Hexp). subst i. rewrite <- Hraw in Hd.
  split_and!; [done|done| |].
  - intros longer Hl. unfold parse_intent, check_size. change MAX_INTENT_BYTES with 65536.
    by rewrite (proj2 (Z.ltb_lt _ _) Hl).
  - rewrite try_from_intent_Ok. unfold transportable. change (MAX_JSON_DEPTH - 2) with 30 in Hd.
    change MAX_JSON_DEPTH with 32. split; [tauto|]. intros [? ?]. split_and!; try done. lia.
Qed.
End Ingress.

(** ** Sample texts *)

Module WireSamples.
(** Lowercase hexadecimal stands in for base64url. *)
Definition strict_hex (s : string) : result string string :=
  if Nat.even (String.length s) && str_all is_lower_hex_byte s then Ok (of_hex s) else Err "invalid character".
Definition codecs : Codecs := {|
  state_type_from_value _ := Ok StFungibleBalance;
  authority_from_value _ := Err "unsupported";
  parse_from_rfc3339 s := Ok (slen s);
  show_time := u128_to_string;
  b64u_decode := strict_hex;
  canonicalize i := Ok (i_intent_id i);
|}.

#[global] Instance laws : TextLaws codecs strict_hex to_hex.
Proof.
  assert (∀ s, Nat.Even (String.length s) → str_all is_lower_hex_byte s = true → strict_hex s = Ok (of_hex s)) as Hs.
  { intros s He Ha. unfold strict_hex. by rewrite (proj2 (Nat.even_spec _) He), Ha. }
  split; [exact Hs|]. intros s bytes. cbn. split.
  - unfold strict_hex. destruct (Nat.even _) eqn:He; [|done]. destruct (str_all _ s) eqn:Ha; [|done].
    intros [= <-]. apply Nat.even_spec in He as [n Hn]. by destruct (of_hex_facts n s Hn Ha) as [-> _].
  - intros ->. destruct (to_hex_facts bytes) as (E1 & E2 & E3). rewrite Hs, E1; [done| |done].
    exists (String.length bytes). unfold slen in E3. lia.
Qed.

(** A reader of one document: an object whose inputs hold one text. *)
Definition document (payload : string) : Value := VObject [("inputs", VObject [("note", VString payload)])].
Definition read_raw (value : Value) : result RawIntent string :=
  match value with
  | VObject [(_, VObject [(key, v)])] =>
      Ok (mkRaw INTENT_SCHEMA "acme" "int_1" "balance.credit" "alice" "gold" None 0 {[key := v]} None
            "now" (Some "later") "b64u:0a" None)
  | _ => Err "missing field"
  end.
Definition json : Json := mkJson (fun payload => Ok (document payload)) read_raw.

#[global] Instance json_laws : JsonLaws json.
Proof.
  split. intros value raw key v. cbn. unfold read_raw.
  destruct value as [| | | | | | |[|[k1 [| | | | | | |[|[k2 v2] []]]] []]]; try done. intros [= <-]. cbn. intros [<- <-]%lookup_singleton_Some.
  exists (VObject [(k2, v2)]). split; [exists k1|exists k2]; by left.
Qed.
End WireSamples.

Lemma wire_forms_exact_witness :
  let digest := sha256 "abc" in
  from_hex_sha256 WireSamples.strict_hex (digest_as_str digest) = Ok digest ∧
  nonce_from_b64u_str WireSamples.codecs "b64u:0a" = Ok (of_hex "0a").
Proof.
  intros digest. split.
  - destruct (wire_forms_exact WireSamples.codecs WireSamples.strict_hex to_hex (digest_as_str digest) digest) as [H _].
    apply H. split; [reflexivity|]. vm_compute. reflexivity.
  - destruct (wire_forms_exact WireSamples.codecs WireSamples.strict_hex to_hex "b64u:0a" (of_hex "0a")) as (_ & _ & H).
    apply H. split; [reflexivity|]. vm_compute. done.
Defined.

(** An uppercase digest is refused. *)
Example uppercase_refused :
  let hex := "ABABABABABABABABABABABABABABABABABABABABABABABABABABABABABABABAB" in
  from_hex_sha256 WireSamples.strict_hex ("sha256:" +:+ hex) =
    Err (InvalidDigest ("digest hex must be lowercase hexadecimal, got " +:+ tick hex)).
Proof. vm_compute. reflexivity. Qed.

Lemma ingress_bounded_witness :
  ∃ raw v, parse_intent WireSamples.json "hello" = Ok raw ∧ validate WireSamples.codecs raw = Ok v ∧
    input_depth (i_inputs (v_intent v)) ≤ 30 ∧
    try_from_intent WireSamples.codecs (v_intent v) (v_signature v) = Ok v.
Proof.
  destruct (parse_intent WireSamples.json "hello") as [raw|] eqn:Hp; [|discriminate].
  destruct (validate WireSamples.codecs raw) as [v|] eqn:Hv;
    [|vm_compute in Hp; injection Hp as <-; vm_compute in Hv; discriminate].
  exists raw, v. destruct (ingress_bounded WireSamples.codecs WireSamples.json _ _ _ Hp Hv) as (_ & Hd & _ & Ht).
  split; [done|]. split; [done|]. split; [exact Hd|]. apply Ht.
  vm_compute in Hp. injection Hp as <-. vm_compute in Hv. injection Hv as <-.
  split; [repeat constructor|]. eexists. split; [reflexivity|]. vm_compute. done.
Defined.
