(* ===== verification/Text.v ===== *)
(** * Serialized identifiers

    Models the conversions every validated type of the wire has: [Display], [FromStr],
    [TryFrom] and the hand-written serde implementations of the identifiers
    ([crates/statechronicle-domain/src/ids.rs], [intent.rs], [status.rs], [commit.rs]), of
    digests and signatures ([crates/statechronicle-core/src]) and of nonces; the fork evidence
    of [crates/statechronicle-commit/src/fork.rs], the digest and key of an intent
    ([crates/statechronicle-intent/src/validated.rs]) and the validators the executor
    re-exports ([crates/statechronicle-executor/src/atomicity.rs]).  The serde data model is
    that of JSON values. *)

From Stdlib Require Import ZArith Lia Ascii String.
From stdpp Require Import prelude gmap strings.
From S2P Require Import Prelude Amount Domain Profile Admission Atomicity Executor Keys Sha256 Commit Signing Durable Wire.
Open Scope Z_scope.

(** ** Values written as text *)

(** How a value is written, how a text is read, and the text of a refusal. *)
Record TextType (T E : Type) := mkText {
  text_show : T → string;
  text_read : string → result T E;
  text_error : E → string;
}.
Arguments mkText {T E}. Arguments text_show {T E}. Arguments text_read {T E}. Arguments text_error {T E}.

Section Serde.
(** The refusal of [String::deserialize]. *)
Context (invalid_type : Value → string).
Context {T E : Type} (t : TextType T E).

Definition deserialize_string (value : Value) : result string string :=
  match value with VString s => Ok s | other => Err (invalid_type other) end.

(** [serializer.serialize_str] and the reader built on it. *)
Definition text_serialize (v : T) : Value := VString (text_show t v).
Definition text_deserialize (value : Value) : result T string :=
  let? s := deserialize_string value in
  map_err (text_error t) (text_read t s).

(** The texts read are exactly those of the values [ok] holds of. *)
Class ExactText (ok : T → Prop) := exact_text s v : text_read t s = Ok v ↔ s = text_show t v ∧ ok v.

Lemma serde_exact (ok : T → Prop) `{!ExactText ok} value v :
  text_deserialize value = Ok v ↔ value = text_serialize v ∧ ok v.
Proof.
  unfold text_deserialize, text_serialize. destruct value as [| | | | |s| |]; cbn; try (split; [done|by intros [[=] _]]).
  rewrite map_err_Ok, exact_text. naive_solver.
Qed.
End Serde.

(** ** Validated strings *)

(** The entry points of a newtype over [String]; its [Display] and [as_str] are the string. *)
Record Newtype := mkNewtype {
  nt_new : string → result string DomainError;
  nt_from_str : string → result string DomainError;
  nt_try_from_string : string → result string DomainError;
  nt_try_from_str : string → result string DomainError;
}.
(** All but [Status] forward to the constructor. *)
Definition newtype (new : string → result string DomainError) : Newtype := mkNewtype new new new new.
Definition newtype_text (n : Newtype) : TextType string DomainError := mkText (fun s => s) (nt_new n) domain_error_to_string.

Definition StateId_text : Newtype := newtype state_id_new.
Definition IntentId_text : Newtype := newtype intent_id_new.
Definition EventId_text : Newtype := newtype event_id_new.
Definition CommitId_text : Newtype := newtype commit_id_new.
Definition SnapshotId_text : Newtype := newtype snapshot_id_new.
Definition Operation_text : Newtype := newtype operation_new.
Definition KeyId_text : Newtype := newtype key_id_new.
Definition ProfileId_text : Newtype := newtype profile_id_new.
Definition Status_text : Newtype := mkNewtype domain_status_new status_try_from_str domain_status_new status_try_from_str.

(** ** Digests, signatures and nonces *)

Section Bytes.
Context (codecs : Codecs) (hex_decode : string → result string string) (b64u_encode : string → string).

Definition ContentDigest_text : TextType ContentDigest StateChronicleError :=
  mkText digest_as_str (from_hex_sha256 hex_decode) core_error_to_string.
Definition Signature_text : TextType string string := mkText (b64u_string b64u_encode) (signature_deserialize codecs) (fun e => e).
Definition Nonce_text : TextType string DomainError :=
  mkText (to_b64u_string b64u_encode) (nonce_from_b64u_str codecs) domain_error_to_string.
End Bytes.

(** ** Records with a text or a digest *)

Record ForkEvidence := mkForkEvidence {
  fe_superseded_commit_id : CommitId;
  fe_rejected_commit_id : CommitId;
  fe_parent_commit_id : CommitId;
  fe_sequence : Z;
  fe_recorded_at : DateTime;
}.
Definition fork_evidence_to_string (e : ForkEvidence) : string :=
  "fork evidence: superseded " +:+ fe_superseded_commit_id e +:+ ", rejected " +:+ fe_rejected_commit_id e +:+
  ", parent " +:+ fe_parent_commit_id e +:+ ", sequence " +:+ u128_to_string (fe_sequence e).

(** [ValidatedIntent::payload_digest]. *)
Definition payload_digest (H : string → string) (codecs : CommitCodecs) (v : ValidatedIntent) : result ContentDigest StateChronicleError :=
  intent_digest H codecs (v_intent v).

(** [ResourceState::from_legacy_json]: the untagged payload under the tag of its type, read by serde. *)
Definition legacy_tag (st : StateType) : string :=
  match st with
  | StUniqueAsset => "UniqueAsset"
  | StConsumableStack => "ConsumableStack"
  | StFungibleBalance => "FungibleBalance"
  | StEntitlement => "Entitlement"
  | StMeteredResource => "MeteredResource"
  | StListing => "Listing"
  | StEscrow => "Escrow"
  | StCustom => "Custom"
  end.
Definition from_legacy_json (from_value : Value → result ResourceState string) (st : StateType) (value : Value)
    : result ResourceState string := from_value (VObject [(legacy_tag st, value)]).

(** ** The executor's validators *)

Definition executor_validate_batch_consistency (events : list Event) : result unit ExecutorError :=
  map_err of_profile (validate_batch_consistency events).
Definition executor_validate_settle_batch (events : list Event) (intents : list Intent) : result unit ExecutorError :=
  map_err of_profile (validate_settle_batch events intents).
Definition executor_validate_cross_tenant_consistency (groups : list TenantEventGroup) : result unit ExecutorError :=
  map_err of_profile (validate_cross_tenant_consistency groups).
Definition executor_validate_cross_tenant_trade (groups : list TenantEventGroup) (manifest : TradeManifest) (intents : list Intent)
    : result unit ExecutorError := map_err of_profile (validate_cross_tenant_trade groups manifest intents).

(** ** Exactness *)

(** A newtype accepts a text as it is, on every route, or refuses it on every route. *)
Class FaithfulNewtype (n : Newtype) := {
  new_keeps s v : nt_new n s = Ok v → v = s;
  routes_agree s : nt_from_str n s = nt_new n s ∧ nt_try_from_string n s = nt_new n s ∧ nt_try_from_str n s = nt_new n s;
}.

#[export] Instance newtype_exact n `{!FaithfulNewtype n} : ExactText (newtype_text n) (fun v => nt_new n v = Ok v).
Proof.
  intros s v. cbn. split; [|by intros [-> ?]]. intros E. pose proof (new_keeps s v E) as ->. done.
Qed.

Lemma guarded_faithful (check : string → result unit DomainError) :
  FaithfulNewtype (newtype (fun s => check s ;? Ok s)).
Proof. split; [|done]. intros s v E. cbn in E. by res_inv E. Qed.

#[export] Instance StateId_faithful : FaithfulNewtype StateId_text := guarded_faithful _.
#[export] Instance IntentId_faithful : FaithfulNewtype IntentId_text := guarded_faithful _.
#[export] Instance EventId_faithful : FaithfulNewtype EventId_text := guarded_faithful _.
#[export] Instance CommitId_faithful : FaithfulNewtype CommitId_text := guarded_faithful _.
#[export] Instance SnapshotId_faithful : FaithfulNewtype SnapshotId_text := guarded_faithful _.
#[export] Instance Operation_faithful : FaithfulNewtype Operation_text := guarded_faithful _.
#[export] Instance KeyId_faithful : FaithfulNewtype KeyId_text := guarded_faithful _.
#[export] Instance ProfileId_faithful : FaithfulNewtype ProfileId_text := guarded_faithful _.
#[export] Instance Status_faithful : FaithfulNewtype Status_text.
Proof. split; [|done]. intros s v E. cbn in E. unfold domain_status_new in E. by res_inv E. Qed.

Section BytesExact.
Context (codecs : Codecs) (hex_decode : string → result string string) (b64u_encode : string → string).
Context `{!TextLaws codecs hex_decode b64u_encode}.

#[export] Instance ContentDigest_exact : ExactText (ContentDigest_text hex_decode) (fun d => slen d = DIGEST_BYTE_LEN).
Proof. intros s v. by apply (from_hex_sha256_Ok codecs hex_decode b64u_encode). Qed.
#[export] Instance Signature_exact : ExactText (Signature_text codecs b64u_encode) (fun d => slen d = SIGNATURE_BYTE_LEN).
Proof. intros s v. by apply (signature_deserialize_Ok codecs hex_decode b64u_encode). Qed.
#[export] Instance Nonce_exact : ExactText (Nonce_text codecs b64u_encode) (fun d => slen d ≤ MAX_NONCE_BYTES).
Proof. intros s v. by apply (nonce_from_b64u_str_Ok codecs hex_decode b64u_encode). Qed.
End BytesExact.

(** The identifier families and their prefixes. *)
Definition id_families : list (string * string) :=
  [("state", STATE_PREFIX); ("intent", "int_"); ("event", "evt_"); ("commit", "cmt_"); ("snapshot", SNAPSHOT_PREFIX)].

Lemma id_prefix kind prefix s : validate_id kind prefix s = Ok tt → ∃ r, s = prefix +:+ r.
Proof. unfold validate_id. intros E. res_inv E. eexists. by apply strip_prefix_Some. Qed.

(** A text is an identifier of at most one family. *)
Lemma id_families_disjoint f g s : f ∈ id_families → g ∈ id_families →
  validate_id f.1 f.2 s = Ok tt → validate_id g.1 g.2 s = Ok tt → f = g.
Proof.
  intros Hf Hg (r & ->)%id_prefix (r' & E)%id_prefix. unfold id_families in Hf, Hg.
  rewrite !elem_of_cons in Hf, Hg.
  destruct Hf as [->|[->|[->|[->|[->|Hf]]]]], Hg as [->|[->|[->|[->|[->|Hg]]]]];
    first [reflexivity|by apply not_elem_of_nil in Hf|by apply not_elem_of_nil in Hg|vm_compute in E; discriminate E].
Qed.
