(* ===== verification/Builders.v ===== *)
(** * Wiring the engine

    Models [PortsBuilder] and [ExecutorBuilder] of
    [crates/statechronicle-executor/src/pipeline.rs] with their errors ([error.rs]): the
    composition root names every injected component, and a build refuses naming the first
    required one that is missing.  A trait object is the record of its methods; the BCS and
    SHA-256 functions the engine calls directly are the [Crypto] record. *)

From Stdlib Require Import ZArith Lia String.
From stdpp Require Import prelude gmap strings.
From S2P Require Import Prelude Effect Amount Domain Profile Admission Resource Registry Executor.

(** ** Components *)

Record IntentStorePort (W : Type) := mkIntentStore {
  store_get_intent : W → TenantId → IntentId → result (option Intent) IntentStoreError;
  store_put_intent : W → TenantId → Intent → result unit IntentStoreError * W;
}.
Record StateIndexPort (W : Type) := mkStateIndex {
  index_get_state : W → TenantId → ResourceId → result (option StateProjection) StateIndexError;
  index_get_subject_state : W → TenantId → SubjectId → ResourceId → result (option StateProjection) StateIndexError;
}.
(** [get_tenant_root] is not called by the engine. *)
Record TenantStorePort (W : Type) := mkTenantStore {
  store_tenant_exists : W → TenantId → result bool TenantStoreError;
  store_get_tenant_root : W → TenantId → result (option ContentDigest) TenantStoreError;
}.
Record TransactionPort (W Handle : Type) := mkTransactions {
  tm_begin : W → TenantId → result Handle TransactionManagerError * W;
  tm_begin_multi : W → list TenantId → result Handle TransactionManagerError * W;
  tm_commit : W → Handle → result unit TransactionManagerError * W;
  tm_rollback : W → Handle → result unit TransactionManagerError * W;
}.
Arguments mkIntentStore {W}. Arguments store_get_intent {W}. Arguments store_put_intent {W}.
Arguments mkStateIndex {W}. Arguments index_get_state {W}. Arguments index_get_subject_state {W}.
Arguments mkTenantStore {W}. Arguments store_tenant_exists {W}. Arguments store_get_tenant_root {W}.
Arguments mkTransactions {W Handle}. Arguments tm_begin {W Handle}. Arguments tm_begin_multi {W Handle}.
Arguments tm_commit {W Handle}. Arguments tm_rollback {W Handle}.

Record Crypto := mkCrypto {
  cr_canonicalize_intent : Intent → result string StateChronicleError;
  cr_digest_state : ResourceState → result ContentDigest StateChronicleError;
  cr_digest_aggregate : AggregationPolicy → list ContentDigest → ContentDigest;
}.

Inductive PortsBuildError := MissingIntentStore | MissingStateIndex | MissingTenantStore | MissingTransactionManager.
Inductive ExecutorBuildError := MissingPorts | MissingExecutor | MissingClock | MissingEventIdGen | MissingIntentVerifier.

Definition ports_build_error_to_string (e : PortsBuildError) : string :=
  match e with
  | MissingIntentStore => "missing required port `intent_store`"
  | MissingStateIndex => "missing required port `state_index`"
  | MissingTenantStore => "missing required port `tenant_store`"
  | MissingTransactionManager => "missing required port `transaction_manager`"
  end.
Definition executor_build_error_to_string (e : ExecutorBuildError) : string :=
  match e with
  | MissingPorts => "missing required executor component `ports`"
  | MissingExecutor => "missing required executor component `executor`"
  | MissingClock => "missing required executor component `clock`"
  | MissingEventIdGen => "missing required executor component `event_id_gen`"
  | MissingIntentVerifier => "missing required executor component `intent_verifier`"
  end.

Section Builders.
Context {W Handle : Type}.

(** ** [PortsBuilder] *)

Record PortsBuilder := mkPortsBuilder {
  pb_intent_store : option (IntentStorePort W);
  pb_state_index : option (StateIndexPort W);
  pb_tenant_store : option (TenantStorePort W);
  pb_trustgrant : list (TrustGrantPort W);
  pb_transaction_manager : option (TransactionPort W Handle);
}.

Definition ports_builder : PortsBuilder := mkPortsBuilder None None None [] None.

Definition pb_set_intent_store v b := mkPortsBuilder (Some v) (pb_state_index b) (pb_tenant_store b) (pb_trustgrant b)
  (pb_transaction_manager b).
Definition pb_set_state_index v b := mkPortsBuilder (pb_intent_store b) (Some v) (pb_tenant_store b) (pb_trustgrant b)
  (pb_transaction_manager b).
Definition pb_set_tenant_store v b := mkPortsBuilder (pb_intent_store b) (pb_state_index b) (Some v) (pb_trustgrant b)
  (pb_transaction_manager b).
Definition pb_set_trustgrant v b := mkPortsBuilder (pb_intent_store b) (pb_state_index b) (pb_tenant_store b) v
  (pb_transaction_manager b).
Definition pb_set_transaction_manager v b := mkPortsBuilder (pb_intent_store b) (pb_state_index b) (pb_tenant_store b)
  (pb_trustgrant b) (Some v).

Definition ports_build (b : PortsBuilder) : result (Ports W Handle) PortsBuildError :=
  let? intent_store := ok_or (pb_intent_store b) MissingIntentStore in
  let? state_index := ok_or (pb_state_index b) MissingStateIndex in
  let? tenant_store := ok_or (pb_tenant_store b) MissingTenantStore in
  let? transaction_manager := ok_or (pb_transaction_manager b) MissingTransactionManager in
  Ok {| get_intent := store_get_intent intent_store;
        put_intent := store_put_intent intent_store;
        get_state := index_get_state state_index;
        get_subject_state := index_get_subject_state state_index;
        tenant_exists := store_tenant_exists tenant_store;
        trustgrant := pb_trustgrant b;
        begin_tx := tm_begin transaction_manager;
        begin_multi := tm_begin_multi transaction_manager;
        commit_tx := tm_commit transaction_manager;
        rollback_tx := tm_rollback transaction_manager |}.

(** ** [ExecutorBuilder] *)

Record ExecutorBuilder := mkExecutorBuilder {
  xb_ports : option (Ports W Handle);
  xb_profiles : option ProfileRegistry;
  xb_executor : option SubjectId;
  xb_now : option (W → DateTime * W);
  xb_event_id_fn : option (W → EventId * W);
  xb_intent_verifier : option (SignatureBlock → string → result unit ExecutorError);
}.

Definition executor_builder : ExecutorBuilder := mkExecutorBuilder None None None None None None.

Definition xb_set_ports v b := mkExecutorBuilder (Some v) (xb_profiles b) (xb_executor b) (xb_now b) (xb_event_id_fn b)
  (xb_intent_verifier b).
Definition xb_set_profiles v b := mkExecutorBuilder (xb_ports b) (Some v) (xb_executor b) (xb_now b) (xb_event_id_fn b)
  (xb_intent_verifier b).
Definition xb_set_executor v b := mkExecutorBuilder (xb_ports b) (xb_profiles b) (Some v) (xb_now b) (xb_event_id_fn b)
  (xb_intent_verifier b).
Definition xb_set_clock v b := mkExecutorBuilder (xb_ports b) (xb_profiles b) (xb_executor b) (Some v) (xb_event_id_fn b)
  (xb_intent_verifier b).
Definition xb_set_event_id_gen v b := mkExecutorBuilder (xb_ports b) (xb_profiles b) (xb_executor b) (xb_now b) (Some v)
  (xb_intent_verifier b).
Definition xb_set_intent_verifier v b := mkExecutorBuilder (xb_ports b) (xb_profiles b) (xb_executor b) (xb_now b)
  (xb_event_id_fn b) (Some v).

Definition executor_build (crypto : Crypto) (b : ExecutorBuilder) : result (Executor W Handle) ExecutorBuildError :=
  let? ports := ok_or (xb_ports b) MissingPorts in
  let profiles := default baseline (xb_profiles b) in
  let? executor := ok_or (xb_executor b) MissingExecutor in
  let? now := ok_or (xb_now b) MissingClock in
  let? event_id_fn := ok_or (xb_event_id_fn b) MissingEventIdGen in
  let? intent_verifier := ok_or (xb_intent_verifier b) MissingIntentVerifier in
  Ok (mkExecutor W Handle ports profiles executor now event_id_fn intent_verifier
        (cr_canonicalize_intent crypto) (cr_digest_state crypto) (cr_digest_aggregate crypto)).

(** ** What a build checks *)

(** The required components of each builder with the error of their absence, in the order
    they are looked at. *)
Definition ports_required (b : PortsBuilder) : list (bool * PortsBuildError) :=
  [(bool_decide (is_Some (pb_intent_store b)), MissingIntentStore);
   (bool_decide (is_Some (pb_state_index b)), MissingStateIndex);
   (bool_decide (is_Some (pb_tenant_store b)), MissingTenantStore);
   (bool_decide (is_Some (pb_transaction_manager b)), MissingTransactionManager)].
Definition executor_required (b : ExecutorBuilder) : list (bool * ExecutorBuildError) :=
  [(bool_decide (is_Some (xb_ports b)), MissingPorts);
   (bool_decide (is_Some (xb_executor b)), MissingExecutor);
   (bool_decide (is_Some (xb_now b)), MissingClock);
   (bool_decide (is_Some (xb_event_id_fn b)), MissingEventIdGen);
   (bool_decide (is_Some (xb_intent_verifier b)), MissingIntentVerifier)].
Definition first_missing {E} (l : list (bool * E)) : option E := snd <$> List.find (fun c => negb c.1) l.

Lemma ports_build_result b :
  match first_missing (ports_required b) with
  | Some e => ports_build b = Err e
  | None => ∃ p, ports_build b = Ok p ∧ trustgrant p = pb_trustgrant b
  end.
Proof.
  unfold ports_build. destruct b as [[i|] [s|] [t|] tg [m|]]; cbn; try reflexivity. by eexists.
Qed.

Lemma executor_build_result crypto b :
  match first_missing (executor_required b) with
  | Some e => executor_build crypto b = Err e
  | None => ∃ x, executor_build crypto b = Ok x ∧ profiles x = default baseline (xb_profiles b) ∧
      Some (ports x) = xb_ports b ∧ Some (executor x) = xb_executor b ∧ Some (now x) = xb_now b
  end.
Proof.
  unfold executor_build. destruct b as [[p|] pr [e|] [n|] [i|] [v|]]; cbn; try reflexivity. by eexists.
Qed.
End Builders.

(** ** The default authorizer *)

Section Authorizer.
Context {W Handle : Type} (x : Executor W Handle).

Definition DenyAllAuthorizer : Authorizer W := fun _ _ _ => Err AuthzDenied.

Lemma deny_all_refuses v principal persist w :
  ∃ e, execute_authenticated_inner x v principal DenyAllAuthorizer persist w = (Err e, w).
Proof.
  unfold execute_authenticated_inner, authorized, xbind, xlift, xquery.
  destruct (negb (bound_principal v principal)); cbn; eauto.
Qed.

(** Until an authorizer is wired no player route mutates anything. *)
Lemma deny_all_is_fail_closed v principal registry sink w :
  (∃ e, execute_player_with_key_registry x v principal DenyAllAuthorizer registry w = (Err e, w)) ∧
  (∃ e, execute_player_durable_with_key_registry x v principal DenyAllAuthorizer registry sink w = (Err e, w)).
Proof.
  unfold execute_player_with_key_registry, execute_player_durable_with_key_registry, execute_player, execute_player_durable,
    resolve_key, require_signature, xbind, xlift, xquery.
  destruct (v_signature v) as [block|]; cbn; [|eauto].
  destruct (map_err _ (registry _ _ _ _ _ _)) as [[]|e]; [|eauto].
  destruct (deny_all_refuses v principal true w) as [e1 ->], (deny_all_refuses v principal false w) as [e2 ->]. eauto.
Qed.
End Authorizer.
