(* ===== verification/Domains.v ===== *)
(** * Two consumer domains

    Models [crates/statechronicle/examples/common/domains.rs]: a configuration switch and a
    piece of equipment, defined by a consumer with no change to the engine, with their
    portable codecs, their typed adapters and the registry they are added to.  The theorems
    run them through the portable reduction ([Reduce]). *)

From Stdlib Require Import ZArith Lia Ascii String.
From stdpp Require Import prelude gmap strings.
From S2P Require Import Prelude Effect Amount Domain Profile Resource Registry Keys Sha256 Accumulator Commit Signing.
From S2P Require Import Codec CodecFacts Integrity Custom CustomFacts Reduce.
Open Scope Z_scope.

(** ** 32-bit numbers *)

Record u32 := mkU32 { u32_val : Z; u32_ok : (0 <=? u32_val) && (u32_val <? 2 ^ 32) = true }.

Lemma u32_wrap_ok z : (0 <=? z mod 2 ^ 32) && (z mod 2 ^ 32 <? 2 ^ 32) = true.
Proof. pose proof (Z.mod_pos_bound z (2 ^ 32)). lia. Qed.
Definition u32_wrap (z : Z) : u32 := mkU32 (z mod 2 ^ 32) (u32_wrap_ok z).
Definition u32_checked_add (a : u32) (b : Z) : option u32 := u32_wrap <$> checked_op U32_MAX (u32_val a + b).

Lemma u32_eq a b : u32_val a = u32_val b → a = b.
Proof. destruct a, b. cbn. intros ->. f_equal. apply proof_irrel. Qed.
Lemma u32_range a : is_u32 (u32_val a).
Proof. destruct a as [z Hz]. unfold is_u32. cbn [u32_val]. lia. Qed.
Lemma u32_wrap_val z : is_u32 z → u32_val (u32_wrap z) = z.
Proof. intros Hz. unfold is_u32 in Hz. cbn [u32_wrap u32_val]. by apply Z.mod_small. Qed.

#[export] Instance u32_eq_dec : EqDecision u32.
Proof. intros a b. destruct (decide (u32_val a = u32_val b)); [left; by apply u32_eq|right; congruence]. Defined.

(** ** The configuration switch *)

Module Configuration.
Record State := mkState { revision : u32; enabled : bool }.
Inductive Command := Create (enabled : bool) | SetEnabled (enabled : bool).

Definition operation (command : Command) : string :=
  match command with Create _ => "configuration.create" | SetEnabled _ => "configuration.set_enabled" end.

Definition validate (current : option State) (command : Command) : result unit string :=
  match current, command with
  | None, Create _ | Some _, SetEnabled _ => Ok tt
  | _, _ => Err "configuration lifecycle violation"
  end.

Definition apply (current : option State) (command : Command) : result State string :=
  validate current command ;?
  let? revision := ok_or (u32_checked_add (match current with None => u32_wrap 0 | Some state => revision state end) 1)
    "revision overflow" in
  let enabled := match command with Create enabled | SetEnabled enabled => enabled end in
  Ok (mkState revision enabled).

Definition validate_state (state : State) : result unit string :=
  if u32_val (revision state) =? 0 then Err "revision must be positive" else Ok tt.

Definition profile : StateProfile State Command string := {|
  DOMAIN_ID := "example.configuration";
  SCHEMA_VERSION := 1;
  MAX_PAYLOAD_BYTES := 64;
  sp_operation := operation;
  sp_validate := validate;
  sp_apply := apply;
  sp_validate_state := validate_state;
|}.

Definition state_codec : CanonicalCodec State := {|
  cc_encode s := Encoder.u32 (u32_val (revision s)) ;! Encoder.boolean (enabled s);
  cc_decode := let! revision := Decoder.u32 in let! enabled := Decoder.boolean in xret (mkState (u32_wrap revision) enabled);
|}.

Definition command_codec : CanonicalCodec Command := {|
  cc_encode c :=
    match c with
    | Create enabled => Encoder.uleb 0 ;! Encoder.boolean enabled
    | SetEnabled enabled => Encoder.uleb 1 ;! Encoder.boolean enabled
    end;
  cc_decode :=
    let! tag := Decoder.uleb in
    if tag =? 0 then let! enabled := Decoder.boolean in xret (Create enabled)
    else if tag =? 1 then let! enabled := Decoder.boolean in xret (SetEnabled enabled)
    else xlift (Err NonCanonical);
|}.

Definition operations : list Operation := ["configuration.create"; "configuration.set_enabled"].
Definition typed : TypedProfile State Command string := typed_new profile operations.
End Configuration.

(** ** The equipment *)

Module Equipment.
Inductive Mode := Idle | Running | Failed.
Record State := mkState { mode : Mode; cycles : u32 }.
Inductive Command := Install | Start | Stop | FailCommand | Recover.

#[export] Instance Mode_eq_dec : EqDecision Mode.
Proof. solve_decision. Defined.

Definition operation (command : Command) : string :=
  match command with
  | Install => "equipment.install"
  | Start => "equipment.start"
  | Stop => "equipment.stop"
  | FailCommand => "equipment.fail"
  | Recover => "equipment.recover"
  end.

Definition validate (current : option State) (command : Command) : result unit string :=
  match mode <$> current, command with
  | None, Install | Some Idle, Start | Some Running, Stop | Some Running, FailCommand | Some Failed, Recover => Ok tt
  | _, _ => Err "equipment lifecycle violation"
  end.

Definition apply (current : option State) (command : Command) : result State string :=
  validate current command ;?
  let count := match current with None => u32_wrap 0 | Some state => cycles state end in
  match command with
  | Install | Stop | Recover => Ok (mkState Idle count)
  | Start => let? next := ok_or (u32_checked_add count 1) "cycle overflow" in Ok (mkState Running next)
  | FailCommand => Ok (mkState Failed count)
  end.

Definition validate_state (state : State) : result unit string :=
  if negb (bool_decide (mode state = Idle)) && (u32_val (cycles state) =? 0) then Err "equipment has never started" else Ok tt.

Definition profile : StateProfile State Command string := {|
  DOMAIN_ID := "example.equipment";
  SCHEMA_VERSION := 1;
  MAX_PAYLOAD_BYTES := 64;
  sp_operation := operation;
  sp_validate := validate;
  sp_apply := apply;
  sp_validate_state := validate_state;
|}.

Definition mode_tag (m : Mode) : Z := match m with Idle => 0 | Running => 1 | Failed => 2 end.
Definition mode_of_tag (tag : Z) : option Mode :=
  if tag =? 0 then Some Idle else if tag =? 1 then Some Running else if tag =? 2 then Some Failed else None.

Definition state_codec : CanonicalCodec State := {|
  cc_encode s := Encoder.uleb (mode_tag (mode s)) ;! Encoder.u32 (u32_val (cycles s));
  cc_decode :=
    let! tag := Decoder.uleb in
    let! mode := xlift (ok_or (mode_of_tag tag) NonCanonical) in
    let! cycles := Decoder.u32 in
    xret (mkState mode (u32_wrap cycles));
|}.

Definition command_tag (c : Command) : Z :=
  match c with Install => 0 | Start => 1 | Stop => 2 | FailCommand => 3 | Recover => 4 end.
Definition command_of_tag (tag : Z) : option Command :=
  if tag =? 0 then Some Install else if tag =? 1 then Some Start else if tag =? 2 then Some Stop
  else if tag =? 3 then Some FailCommand else if tag =? 4 then Some Recover else None.

Definition command_codec : CanonicalCodec Command := {|
  cc_encode c := Encoder.uleb (command_tag c);
  cc_decode := let! tag := Decoder.uleb in xlift (ok_or (command_of_tag tag) NonCanonical);
|}.

Definition operations : list Operation :=
  ["equipment.install"; "equipment.start"; "equipment.stop"; "equipment.fail"; "equipment.recover"].
Definition typed : TypedProfile State Command string := typed_new profile operations.
End Equipment.

(** The BCS codecs the adapters use. *)
Record DomainSerdes := mkSerdes {
  configuration_state_serde : Serde Configuration.State;
  configuration_command_serde : Serde Configuration.Command;
  equipment_state_serde : Serde Equipment.State;
  equipment_command_serde : Serde Equipment.Command;
  bytes_from_value : Value → result string string;
  render_io : string → string;
}.

(** [registry()]. *)
Definition example_registry (s : DomainSerdes) : presult ProfileRegistry :=
  with_custom
    [typed_rules (fun e => e) (render_io s) (configuration_state_serde s) (configuration_command_serde s)
       (bytes_from_value s) Configuration.typed;
     typed_rules (fun e => e) (render_io s) (equipment_state_serde s) (equipment_command_serde s)
       (bytes_from_value s) Equipment.typed].

(** ** Canonical codecs *)

(** A writer of a fixed byte string into a buffer: complete when it fits, an error when it
    does not, whatever was written of it. *)
Definition fills (op : Eff CodecError Encoder.t unit) (s : string) : Prop := ∀ e, encoder_wf e →
  if (String.length s <=? free e)%nat then ∃ e', op e = (Ok tt, e') ∧ appended e e' s
  else ∃ err e', op e = (Err err, e').

Lemma writes_fills op s : writes op s → fills op s.
Proof. intros Hw e He. specialize (Hw e He). destruct (_ <=? _)%nat; [done|eauto]. Qed.

Lemma fills_pair op1 op2 s1 s2 : writes op1 s1 → writes op2 s2 → fills (op1 ;! op2) (s1 +:+ s2).
Proof.
  intros H1 H2 e He. destruct (Nat.leb_spec (String.length (s1 +:+ s2)) (free e)) as [Hl|Hl].
  - by apply writes_pair.
  - rewrite string_length_app in Hl. specialize (H1 e He). unfold xbind.
    destruct (Nat.leb_spec (String.length s1) (free e)); [|rewrite H1; eauto].
    destruct H1 as (e1 & -> & W1 & _ & F1 & _). specialize (H2 e1 W1).
    rewrite (proj2 (Nat.leb_gt _ _)) in H2 by lia. rewrite H2. eauto.
Qed.

(** A codec that reads and writes exactly the BCS bytes is canonical. *)
Lemma codec_canonical {T} (codec : CanonicalCodec T) (serde : Serde T) (bytes : T → string) :
  codes (cc_decode codec) bytes (fun _ => True) → (∀ v, fills (cc_encode codec v) (bytes v)) →
  (∀ v, encoding serde v = Ok (bytes v)) → CanonicalLaws codec serde.
Proof.
  intros Hd He Hb. split.
  - intros s v rest. rewrite (Hd s v rest). rewrite Hb. naive_solver.
  - intros v b e. rewrite Hb. intros [= <-] Hwf Hl. specialize (He v e Hwf). by rewrite (proj2 (Nat.leb_le _ _)) in He.
  - intros v b e. rewrite Hb. intros [= <-] Hwf Hl. specialize (He v e Hwf). by rewrite (proj2 (Nat.leb_gt _ _)) in He.
  - intros v m e. by rewrite Hb.
Qed.

(** Two readers in a row. *)
Lemma codes_pair {A B C} (d1 : Eff CodecError string A) (d2 : Eff CodecError string B) e1 e2 v1 v2 (f : A → B → C) enc valid :
  codes d1 e1 v1 → codes d2 e2 v2 →
  (∀ c, valid c ↔ ∃ a b, v1 a ∧ v2 b ∧ c = f a b) → (∀ a b, v1 a → v2 b → enc (f a b) = e1 a +:+ e2 b) →
  codes (let! a := d1 in let! b := d2 in xret (f a b)) enc valid.
Proof.
  intros H1 H2 Hv He s c rest. rewrite xbind_Ok. setoid_rewrite xbind_Ok. split.
  - intros (a & s1 & [Ha ->]%H1 & b & s2 & [Hb ->]%H2 & [-> ->]%xret_Ok).
    split; [apply Hv; eauto 10|]. by rewrite He, str_app_assoc by done.
  - intros [(a & b & Ha & Hb & ->)%Hv ->]. rewrite He, str_app_assoc by done.
    exists a, (e2 b +:+ rest). split; [by apply H1|]. exists b, rest. split; [by apply H2|done].
Qed.

(** A reader of a value and a check of it. *)
Lemma codes_check {A C} (d : Eff CodecError string A) e v (f : A → option C) err enc valid :
  codes d e v → (∀ c, valid c ↔ ∃ a, v a ∧ f a = Some c) → (∀ a c, v a → f a = Some c → enc c = e a) →
  codes (let! a := d in xlift (ok_or (f a) err)) enc valid.
Proof.
  intros Hd Hv He s c rest. rewrite xbind_Ok. split.
  - intros (a & s1 & [Ha ->]%Hd & [E%ok_or_Ok ->]%xlift_Ok). split; [apply Hv; eauto|]. by rewrite (He a).
  - intros [(a & Ha & E)%Hv ->]. exists a, rest. rewrite (He a) by done. split; [by apply Hd|]. by rewrite E.
Qed.

Definition configuration_state_bytes (s : Configuration.State) : string :=
  le_bytes 4 (u32_val (Configuration.revision s)) +:+ encode_bool (Configuration.enabled s).
Definition configuration_command_bytes (c : Configuration.Command) : string :=
  match c with
  | Configuration.Create enabled => uleb 0 +:+ encode_bool enabled
  | Configuration.SetEnabled enabled => uleb 1 +:+ encode_bool enabled
  end.
Definition equipment_state_bytes (s : Equipment.State) : string :=
  uleb (Equipment.mode_tag (Equipment.mode s)) +:+ le_bytes 4 (u32_val (Equipment.cycles s)).
Definition equipment_command_bytes (c : Equipment.Command) : string := uleb (Equipment.command_tag c).

Lemma u32_codes : codes Decoder.u32 (le_bytes 4) is_u32.
Proof. exact (le_codes 4). Qed.

Lemma configuration_state_canonical serde : (∀ v, encoding serde v = Ok (configuration_state_bytes v)) →
  CanonicalLaws Configuration.state_codec serde.
Proof.
  apply codec_canonical.
  - eapply codes_pair; [apply u32_codes|apply boolean_codes| |].
    + intros [r b]. split; [|done]. intros _. exists (u32_val r), b. split; [apply u32_range|]. split; [done|].
      f_equal. apply u32_eq. symmetry. apply u32_wrap_val, u32_range.
    + intros a b Ha _. unfold configuration_state_bytes. cbn [Configuration.revision Configuration.enabled].
      by rewrite u32_wrap_val.
  - intros v. apply fills_pair; apply fixed_writes.
Qed.

Lemma equipment_state_canonical serde : (∀ v, encoding serde v = Ok (equipment_state_bytes v)) →
  CanonicalLaws Equipment.state_codec serde.
Proof.
  apply codec_canonical; [|intros v; apply fills_pair; [apply uleb_writes|apply fixed_writes]].
  intros s [m c] rest. cbn [cc_decode Equipment.state_codec]. unfold equipment_state_bytes. cbn [Equipment.mode Equipment.cycles].
  split.
  - intros E. apply xbind_Ok in E as (tag & s1 & [Ht ->]%uleb_codes & E).
    apply xbind_Ok in E as (m' & s2 & [Hm%ok_or_Ok ->]%xlift_Ok & E).
    apply xbind_Ok in E as (z & s3 & [Hz ->]%u32_codes & [[= -> ->] ->]%xret_Ok).
    rewrite u32_wrap_val, str_app_assoc by done. split; [done|]. f_equal. f_equal. unfold Equipment.mode_of_tag in Hm.
    destruct (Z.eqb_spec tag 0), (Z.eqb_spec tag 1), (Z.eqb_spec tag 2); by simplify_eq.
  - intros [_ ->]. rewrite str_app_assoc. apply xbind_Ok. eexists _, _.
    split; [apply uleb_codes; split; [|reflexivity]; by destruct m|].
    apply xbind_Ok. exists m, (le_bytes 4 (u32_val c) +:+ rest). split; [apply xlift_Ok; split; [|done]; by destruct m|].
    apply xbind_Ok. eexists _, _. split; [apply u32_codes; split; [apply u32_range|reflexivity]|]. apply xret_Ok.
    split; [|done]. f_equal. apply u32_eq. symmetry. apply u32_wrap_val, u32_range.
Qed.

Lemma equipment_command_canonical serde : (∀ v, encoding serde v = Ok (equipment_command_bytes v)) →
  CanonicalLaws Equipment.command_codec serde.
Proof.
  apply codec_canonical; [|intros v; apply writes_fills, uleb_writes].
  eapply codes_check; [apply uleb_codes| |].
  - intros c. split; [|done]. intros _. exists (Equipment.command_tag c). by destruct c.
  - intros a c _ E. unfold equipment_command_bytes. f_equal. unfold Equipment.command_of_tag in E.
    destruct (Z.eqb_spec a 0), (Z.eqb_spec a 1), (Z.eqb_spec a 2), (Z.eqb_spec a 3), (Z.eqb_spec a 4); by simplify_eq.
Qed.

Lemma configuration_command_canonical serde : (∀ v, encoding serde v = Ok (configuration_command_bytes v)) →
  CanonicalLaws Configuration.command_codec serde.
Proof.
  apply codec_canonical.
  2: { intros [b|b]; cbn; (apply fills_pair; [apply uleb_writes|apply fixed_writes]). }
  intros s c rest. cbn [cc_decode Configuration.command_codec]. rewrite xbind_Ok. split.
  - intros (tag & s1 & [Ht ->]%uleb_codes & E).
    destruct (Z.eqb_spec tag 0) as [->|]; [|destruct (Z.eqb_spec tag 1) as [->|]; [|done]];
      apply xbind_Ok in E as (b & s2 & [_ ->]%boolean_codes & [-> ->]%xret_Ok); cbn [configuration_command_bytes];
      by rewrite str_app_assoc.
  - intros [_ ->]. destruct c as [b|b]; cbn [configuration_command_bytes]; rewrite str_app_assoc;
      eexists _, _; (split; [apply uleb_codes; split; [|reflexivity]; done|]); cbn [Z.eqb];
      apply xbind_Ok; eexists _, _; (split; [apply boolean_codes; split; [done|reflexivity]|done]).
Qed.

(** ** Driving a domain through the portable reduction *)

Section Drive.
Context {State Command Error : Type} (H : string → string) (profile : StateProfile State Command Error).
Context (state_codec : CanonicalCodec State) (command_codec : CanonicalCodec Command).
Context (state_bytes : State → string) (command_bytes : Command → string).

(** One transition of the domain, and a history of them: the specification. *)
Definition reduce_once (current : option State) (command : Command) : result State Error :=
  sp_validate profile current command ;?
  let? next := sp_apply profile current command in
  sp_validate_state profile next ;? Ok next.
Fixpoint history (current : option State) (commands : list Command) : result (option State) Error :=
  match commands with
  | [] => Ok current
  | command :: rest => let? next := reduce_once current command in history (Some next) rest
  end.

(** A client that keeps the encoded state and hands it to the reduction with the next
    command, on the same buffers. *)
Definition request_for (current : option EncodedState) (command : Command) : TransitionRequest :=
  mkTransition (DOMAIN_ID profile) (SCHEMA_VERSION profile) (match current with Some es => es_version es | None => 0 end)
    (sp_operation profile command) (command_bytes command) current.
Definition stored (version : Z) (payload : string) : EncodedState :=
  mkEncoded (DOMAIN_ID profile) (SCHEMA_VERSION profile) version payload.
Definition drive_once (b : Buffers) (current : option EncodedState) (command : Command) : option EncodedState :=
  match portable_execute H profile state_codec command_codec (request_for current command) b with
  | (Ok res, b') => Some (stored (tr_version res) (str_take (Z.to_nat (tr_payload_len res)) (output b')))
  | (Err _, _) => None
  end.
Fixpoint drive (b : Buffers) (current : option EncodedState) (commands : list Command) : option (option EncodedState) :=
  match commands with
  | [] => Some current
  | command :: rest => drive_once b current command ≫= fun next => drive b (Some next) rest
  end.

Context (state_serde : Serde State) (command_serde : Serde Command).
Context `{!CanonicalLaws state_codec state_serde} `{!CanonicalLaws command_codec command_serde}.
Hypothesis states_encode : ∀ s, encoding state_serde s = Ok (state_bytes s) ∧ slen (state_bytes s) ≤ MAX_PAYLOAD_BYTES profile.
Hypothesis commands_encode :
  ∀ c, encoding command_serde c = Ok (command_bytes c) ∧ slen (command_bytes c) ≤ MAX_PAYLOAD_BYTES profile.
Hypothesis identity_valid : ∀ request, tq_domain request = DOMAIN_ID profile → tq_schema request = SCHEMA_VERSION profile →
  bad_identity profile request = false.
Hypothesis bounds : slen (DOMAIN_ID profile) ≤ U32_MAX ∧ 0 ≤ MAX_PAYLOAD_BYTES profile ≤ U32_MAX.

Lemma canonical_injective {T} (codec : CanonicalCodec T) serde `{!CanonicalLaws codec serde} v w b :
  encoding serde v = Ok b → encoding serde w = Ok b → v = w.
Proof.
  intros Hv Hw. assert (∀ u, encoding serde u = Ok b → cc_decode codec b = (Ok u, EmptyString)) as Hd.
  { intros u Hu. apply (canonical_decodes (codec := codec) (serde := serde)). exists b. by rewrite str_app_nil_r. }
  apply Hd in Hv, Hw. congruence.
Qed.

(** The prior state of a driven request is the one encoded. *)
Definition current_of (version : Z) (current : option State) : option EncodedState :=
  (fun s => stored version (state_bytes s)) <$> current.
Definition current_valid (version : Z) (current : option State) : Prop :=
  match current with None => version = 0 | Some s => 0 < version ∧ sp_validate_state profile s = Ok tt end.

Lemma driven_admissible version current command : current_valid version current → 0 ≤ version < U64_MAX →
  admissible profile (request_for (current_of version current) command).
Proof.
  intros Hc Hv. split; [by apply identity_valid|]. split; [done|].
  destruct current as [s|]; cbn; [|split; [done|lia]]. destruct Hc. split; [intros es [= <-]; cbn; lia|done].
Qed.

Lemma driven_prior version current command prior : current_valid version current →
  prior_of profile state_serde (request_for (current_of version current) command) prior ↔ prior = current.
Proof.
  intros Hc. unfold prior_of. destruct current as [s|]; cbn; [|done]. destruct Hc as [_ Hval]. split.
  - intros (_ & _ & v & -> & [Hv _] & _). f_equal. eapply (canonical_injective state_codec state_serde); [exact Hv|apply states_encode].
  - intros ->. do 2 (split; [done|]). exists s. split; [done|]. by destruct (states_encode s).
Qed.

Lemma drive_once_spec b version current command : roomy profile b → current_valid version current → 0 ≤ version < U64_MAX →
  drive_once b (current_of version current) command =
    match reduce_once current command with
    | Ok next => Some (stored (version + 1) (state_bytes next))
    | Err _ => None
    end.
Proof.
  intros Hb Hc Hv. pose proof (driven_admissible _ _ command Hc Hv) as Hadm. destruct bounds as [Hdom Hmax].
  assert (∀ payload, reduces profile state_serde command_serde (request_for (current_of version current) command) payload ↔
    ∃ next, reduce_once current command = Ok next ∧ payload = state_bytes next) as Hred.
  { intros payload. unfold reduces, reduce_once. split.
    - intros (c & cur & next & [Hcb _] & _ & Hcur & Hva & Hap & Hvs & [Hpb _]). apply driven_prior in Hcur as ->; [|done].
      assert (c = command) as -> by (eapply (canonical_injective command_codec command_serde); [exact Hcb|apply commands_encode]).
      exists next. rewrite Hva, Hap. cbn [rbind]. rewrite Hvs. split; [done|]. destruct (states_encode next) as [He _]. congruence.
    - intros (next & E & ->). res_inv E. subst. exists command, current, next. destruct a, a1.
      split_and!; try done; [by destruct (commands_encode command)|by apply driven_prior|by destruct (states_encode next)]. }
  unfold drive_once. destruct (portable_execute _ _ _ _ _ b) as [[res|e] b'] eqn:E.
  - eapply execute_sound in E as (Hr & _ & Hver & _); [|done..]. apply Hred in Hr as (next & Hn & Hp). rewrite Hn, Hp.
    f_equal. unfold stored. f_equal. rewrite Hver. unfold current_version. cbn. destruct current; cbn in *; lia.
  - destruct (reduce_once current command) as [next|] eqn:En; [|done]. exfalso.
    destruct (execute_complete H profile state_codec command_codec state_serde command_serde Hdom Hmax
      (request_for (current_of version current) command) b (state_bytes next)) as (res & b2 & E2 & _); [done..|apply Hred; eauto|].
    rewrite E in E2. discriminate E2.
Qed.

Lemma reduce_once_valid current command next : reduce_once current command = Ok next → sp_validate_state profile next = Ok tt.
Proof. unfold reduce_once. intros E. res_inv E. subst. by destruct a1. Qed.

(** Driving the reduction follows the domain's history. *)
Lemma drive_spec b commands : ∀ version current, roomy profile b → current_valid version current →
  0 ≤ version → version + Z.of_nat (length commands) ≤ U64_MAX →
  drive b (current_of version current) commands =
    match history current commands with
    | Ok final => Some (current_of (version + Z.of_nat (length commands)) final)
    | Err _ => None
    end.
Proof.
  induction commands as [|c commands IH]; intros version current Hb Hc H0 Hv; cbn [drive history length].
  { by rewrite Z.add_0_r. }
  cbn [length] in Hv. rewrite drive_once_spec by (done || lia). destruct (reduce_once current c) as [next|] eqn:En; [|done].
  cbn [mbind option_bind rbind]. specialize (IH (version + 1) (Some next)). cbn [current_of fmap option_fmap option_map] in IH.
  rewrite IH; [|done|split; [lia|by eapply reduce_once_valid]|lia|lia]. destruct (history _ _) as [final|]; [|done].
  do 2 f_equal. lia.
Qed.
End Drive.

(** ** The lifecycle of a piece of equipment *)

Module Lifecycles.
Import Equipment.

(** The documented machine: mode, command, next mode. *)
Inductive lifecycle : option Mode → Command → Mode → Prop :=
| installed : lifecycle None Install Idle
| started : lifecycle (Some Idle) Start Running
| stopped : lifecycle (Some Running) Stop Idle
| failed : lifecycle (Some Running) FailCommand Failed
| recovered : lifecycle (Some Failed) Recover Idle.

Inductive runs : option Mode → list Command → option Mode → Prop :=
| runs_nil m : runs m [] m
| runs_cons m c m' commands m'' : lifecycle m c m' → runs (Some m') commands m'' → runs m (c :: commands) m''.

Lemma runs_None commands : runs None commands None → commands = [].
Proof.
  assert (∀ m r, runs m commands r → r = None → m = None ∧ commands = []) as Hr.
  { intros m r Hr. induction Hr as [|m c m' cs m'' _ _ IH]; [done|]. intros E. by destruct (IH E). }
  intros H0. by destruct (Hr _ _ H0 eq_refl).
Qed.

Definition is_start (c : Command) : Z := match c with Start => 1 | _ => 0 end.
Definition starts (commands : list Command) : Z := foldr (fun c n => is_start c + n) 0 commands.
Definition count (current : option State) : Z := match current with Some s => u32_val (cycles s) | None => 0 end.
Definition valid (current : option State) : Prop := match current with Some s => validate_state s = Ok tt | None => True end.

Lemma starts_nonneg commands : 0 ≤ starts commands.
Proof. unfold starts. induction commands as [|[] commands IH]; cbn [foldr is_start]; lia. Qed.

Lemma count_range current : is_u32 (count current).
Proof. destruct current; [apply u32_range|done]. Qed.

Lemma state_eq (s t : State) : mode s = mode t → u32_val (cycles s) = u32_val (cycles t) → s = t.
Proof. destruct s, t. cbn. intros -> E. f_equal. by apply u32_eq. Qed.

Lemma validate_state_spec s : validate_state s = Ok tt ↔ (mode s = Idle ∨ u32_val (cycles s) ≠ 0).
Proof.
  unfold validate_state. case_bool_decide; cbn; [naive_solver|].
  destruct (Z.eqb_spec (u32_val (cycles s)) 0); naive_solver.
Qed.

Lemma validate_lifecycle current command : validate current command = Ok tt ↔ ∃ m, lifecycle (mode <$> current) command m.
Proof.
  split.
  - unfold validate. destruct current as [[[] n]|], command; try done; intros _; eexists; constructor.
  - intros [m Hl]. unfold validate. by inversion Hl.
Qed.

Lemma checked_add_u32 a n next : is_u32 (u32_val a + n) → u32_checked_add a n = Some next ↔ u32_val next = u32_val a + n.
Proof.
  intros Hr. unfold u32_checked_add. rewrite (proj2 (checked_op_Some _ _ (u32_val a + n))) by (unfold is_u32, U32_MAX in *; lia).
  cbn [fmap option_fmap option_map]. split; [intros [= <-]; by apply u32_wrap_val|].
  intros E. f_equal. apply u32_eq. by rewrite u32_wrap_val, E.
Qed.

(** A transition is one of the machine, and counts the starts. *)
Lemma reduce_once_spec current command next : valid current → reduce_once profile current command = Ok next ↔
  lifecycle (mode <$> current) command (mode next) ∧ u32_val (cycles next) = count current + is_start command.
Proof.
  intros Hv. unfold reduce_once. cbn [sp_validate sp_apply sp_validate_state profile]. split.
  - intros E. res_inv E. subst. destruct a, a1. pose proof Ha as [m Hl]%validate_lifecycle. unfold apply in Ha0. rewrite Ha in Ha0.
    cbn [rbind] in Ha0. destruct command; res_inv Ha0; subst; cbn [mode cycles is_start]; inversion Hl; subst;
      destruct current as [s|]; simplify_eq/=; rewrite ?Z.add_0_r; try (split; [|done]);
      repeat match goal with E : mode _ = _ |- _ => rewrite E | E : Some (mode _) = _ |- _ => rewrite E end; try constructor.
    { constructor. } unfold u32_checked_add in Ha2.
    destruct (checked_op U32_MAX (u32_val (cycles s) + 1)) as [z|] eqn:Ez; [|done]. apply checked_op_Some in Ez as [-> Hz].
    injection Ha2 as <-. apply u32_wrap_val. unfold is_u32, U32_MAX in *. lia.
  - intros [Hl Hc]. pose proof (u32_range (cycles next)) as Hr. unfold is_u32 in Hr.
    assert (∀ m n, m = mode next → u32_val n = u32_val (cycles next) → mkState m n = next) as Heq
      by (intros m n -> E; by apply state_eq).
    assert (validate current command = Ok tt) as Hva by (apply validate_lifecycle; eauto).
    assert (validate_state next = Ok tt ∧ apply current command = Ok next) as [Hn Hap].
    { rewrite validate_state_spec. unfold apply. rewrite Hva. cbn [rbind]. remember (mode <$> current) as om eqn:Eom.
      remember (mode next) as mn eqn:Emn. destruct Hl; (destruct current as [s|]; [|try discriminate Eom]);
        cbn [count is_start fmap option_fmap option_map] in *; try discriminate Eom; rewrite ?Z.add_0_r in Hc.
      - split; [by left|]. by rewrite Heq.
      - pose proof (u32_range (cycles s)) as Hs. unfold is_u32 in Hs. split; [right; lia|].
        assert (u32_checked_add (cycles s) 1 = Some (cycles next)) as -> by (apply checked_add_u32; unfold is_u32; lia).
        cbn [ok_or rbind]. by rewrite Heq.
      - split; [by left|]. by rewrite Heq.
      - split; [|by rewrite Heq]. right. injection Eom as Eom. apply validate_state_spec in Hv as [Hv|Hv]; [congruence|lia].
      - split; [by left|]. by rewrite Heq. }
    rewrite Hva, Hap. cbn [rbind]. by rewrite Hn.
Qed.

Lemma reduce_valid current command next : reduce_once profile current command = Ok next → valid (Some next).
Proof. apply reduce_once_valid. Qed.

(** A history is a run of the machine, and its final count the number of starts. *)
Lemma history_spec commands : ∀ current final, valid current → history profile current commands = Ok final ↔
  runs (mode <$> current) commands (mode <$> final) ∧ count final = count current + starts commands.
Proof.
  unfold starts. induction commands as [|c commands IH]; intros current final Hv; cbn [history foldr].
  - rewrite Z.add_0_r. split; [intros [= <-]; by split; [constructor|]|]. intros [Hr Hc]. f_equal. inversion Hr as [m E1 E2 E3|].
    destruct current as [s|], final as [t|]; try done. f_equal. injection E3 as E3. by apply state_eq.
  - rewrite rbind_Ok. split.
    + intros (next & Hn & Hh). pose proof (reduce_valid _ _ _ Hn) as Hvn. apply IH in Hh as [Hr Hc]; [|done].
      apply reduce_once_spec in Hn as [Hl Hcn]; [|done]. cbn [count] in Hc. split; [by econstructor|lia].
    + intros [Hr Hc]. inversion Hr as [|m c' m' cs m'' Hl Hr' E1 E2 E3]. subst.
      pose proof (starts_nonneg commands) as Hs. unfold starts in Hs. pose proof (count_range final). pose proof (count_range current).
      assert (is_u32 (count current + is_start c)) as Hk by (unfold is_u32 in *; destruct c; cbn in *; lia).
      assert (reduce_once profile current c = Ok (mkState m' (u32_wrap (count current + is_start c)))) as Hn.
      { apply reduce_once_spec; [done|]. cbn [mode cycles]. by rewrite u32_wrap_val. }
      eexists. split; [exact Hn|]. apply IH; [by eapply reduce_valid|]. cbn [count cycles]. rewrite u32_wrap_val by done.
      split; [exact Hr'|lia].
Qed.
End Lifecycles.

(** A BCS codec with the given layout, to name the canonical bytes by. *)
Definition layout {T} (bytes : T → string) : Serde T := mkSerde T (fun v => ([bytes v], Ok tt)) (fun _ => Err "unused").
Lemma layout_encoding {T} (bytes : T → string) v : encoding (layout bytes) v = Ok (bytes v).
Proof. unfold encoding. cbn. by rewrite str_app_nil_r. Qed.

Lemma uleb_size v : slen (uleb v) ≤ 5.
Proof. pose proof (uleb_length v). unfold slen. lia. Qed.
Lemma le4_size v : slen (le_bytes 4 v) = 4.
Proof. reflexivity. Qed.

Section Equipped.
Import Equipment Lifecycles.
Context (H : string → string).

Notation drive_equipment := (drive H profile state_codec command_codec equipment_command_bytes).

Lemma equipment_drive b commands : roomy profile b → Z.of_nat (length commands) ≤ U64_MAX →
  drive_equipment b None commands =
    match history profile None commands with
    | Ok final => Some (current_of profile equipment_state_bytes (Z.of_nat (length commands)) final)
    | Err _ => None
    end.
Proof.
  intros Hb Hl.
  pose proof (equipment_state_canonical (layout equipment_state_bytes) (layout_encoding _)).
  pose proof (equipment_command_canonical (layout equipment_command_bytes) (layout_encoding _)).
  apply (drive_spec H profile state_codec command_codec equipment_state_bytes equipment_command_bytes
    (layout equipment_state_bytes) (layout equipment_command_bytes)) with (version := 0) (current := None); try done.
  - intros s. split; [apply layout_encoding|]. unfold equipment_state_bytes. rewrite slen_app, le4_size.
    pose proof (uleb_size (mode_tag (mode s))). cbn [MAX_PAYLOAD_BYTES profile]. lia.
  - intros c. split; [apply layout_encoding|]. pose proof (uleb_size (command_tag c)). cbn [MAX_PAYLOAD_BYTES profile].
    unfold equipment_command_bytes. lia.
  - intros request E1 E2. unfold bad_identity. rewrite E1, E2. reflexivity.
Qed.

(** C20: the example domain, run through the portable reduction, is its lifecycle.  A client
    that feeds commands to the reduction on buffers of the payload size, keeping only the
    encoded state between calls, gets through exactly when the commands are a run of the
    documented machine with at most [u32::MAX] starts; what it then holds is the encoding of
    the machine's mode and of the number of starts, at the version that counts the
    commands. *)
Theorem equipment_refines_lifecycle (b : Buffers) (commands : list Command) (final : option EncodedState) :
  roomy profile b → Z.of_nat (length commands) ≤ U64_MAX →
  drive_equipment b None commands = Some final ↔
  ∃ m, runs None commands m ∧ starts commands ≤ U32_MAX ∧
    final = (fun m => stored profile (Z.of_nat (length commands)) (uleb (mode_tag m) +:+ le_bytes 4 (starts commands))) <$> m.
Proof.
  intros Hb Hl. rewrite equipment_drive by done. pose proof (starts_nonneg commands) as Hs. split.
  - destruct (history profile None commands) as [s|] eqn:Hh; [|done]. intros [= <-]. apply history_spec in Hh as [Hr Hc]; [|done].
    cbn [count] in Hc. pose proof (count_range s) as Hk. unfold is_u32 in Hk. exists (mode <$> s). split; [exact Hr|].
    split; [unfold U32_MAX; lia|]. unfold current_of. destruct s as [s|]; [|done]. cbn in *. do 2 f_equal.
    unfold equipment_state_bytes. by rewrite Hc.
  - intros (m & Hr & Hu & ->). set (s := (fun m => mkState m (u32_wrap (starts commands))) <$> m).
    assert (is_u32 (starts commands)) as Hk by (unfold is_u32, U32_MAX in *; lia).
    assert (history profile None commands = Ok s) as ->.
    { apply history_spec; [done|]. destruct m as [m|]; cbn [s fmap option_fmap option_map mode count cycles];
        [by rewrite u32_wrap_val|]. split; [done|]. by rewrite (runs_None _ Hr). }
    unfold current_of. destruct m as [m|]; [|done]. cbn [s fmap option_fmap option_map]. do 3 f_equal.
    unfold equipment_state_bytes. cbn [mode cycles]. by rewrite u32_wrap_val.
Qed.
End Equipped.

Lemma equipment_refines_lifecycle_witness :
  drive sha256 Equipment.profile Equipment.state_codec Equipment.command_codec equipment_command_bytes
    (mkBuffers (zeros 64) (zeros 64)) None [Equipment.Install; Equipment.Start; Equipment.FailCommand] =
  Some (Some (stored Equipment.profile 3 (uleb 2 +:+ le_bytes 4 1))).
Proof.
  apply (equipment_refines_lifecycle sha256).
  - vm_compute. repeat split; discriminate.
  - vm_compute. discriminate.
  - exists (Some Equipment.Failed). split; [repeat econstructor|]. split; [vm_compute; discriminate|reflexivity].
Defined.

(** The revision of a configuration counts its commands. *)
Lemma configuration_revisions commands : ∀ current final,
  history Configuration.profile current commands = Ok final →
  let revision s := match s with Some s => u32_val (Configuration.revision s) | None => 0 end in
  revision final = revision current + Z.of_nat (length commands).
Proof.
  induction commands as [|c commands IH]; intros current final E; cbn [history length] in *.
  { injection E as <-. cbn. lia. }
  apply rbind_Ok in E as (next & Hn & E). apply IH in E. cbn zeta in *. rewrite E. unfold reduce_once in Hn. res_inv Hn. subst.
  cbn [sp_apply Configuration.profile] in Ha0. unfold Configuration.apply in Ha0. res_inv Ha0. subst.
  match goal with B : u32_checked_add _ _ = Some _ |- _ => unfold u32_checked_add in B; rename B into Hu end.
  destruct (checked_op _ _) as [z|] eqn:Ez; [|done]. apply checked_op_Some in Ez as [-> Hz].
  injection Hu as <-. cbn [Configuration.revision]. rewrite u32_wrap_val by (unfold is_u32, U32_MAX in *; lia).
  destruct current; [lia|]. rewrite u32_wrap_val by done. lia.
Qed.
