(* ===== verification/Harness.v ===== *)
(** * The in-memory deployment

    Models [crates/statechronicle/examples/common/harness.rs]: in-memory implementations of
    the engine's ports, wired through the builders into an executor, and the helpers that
    take a payload to a signed intent, run it, and commit and sign the events.

    The shared stores behind the [Arc]s are one [World].  A failed [unwrap] or [expect] is a
    [Panic] value.  No code panics while it holds a lock, so locks are not poisoned.  BCS,
    SHA-256, Ed25519 and JSON are parameters ([Kit]). *)

From Stdlib Require Import ZArith Lia Ascii String.
From stdpp Require Import prelude gmap strings.
From S2P Require Import Prelude Effect Amount Domain Profile Resource Registry Admission Executor Builders.
From S2P Require Import Keys Sha256 Accumulator Commit Signing Durable Composition Wire.
Open Scope Z_scope.

(** ** Libraries *)

Record Kit (SigningKey VerifyingKey : Type) := mkKit {
  kit_hash : string → string;
  kit_codecs : CommitCodecs;
  kit_bcs_commit : Bcs Commit;
  kit_digest_aggregate : AggregationPolicy → list ContentDigest → ContentDigest;
  kit_scheme : SignatureScheme SigningKey VerifyingKey;
  kit_key_of_seed : string → SigningKey;
  kit_public : SigningKey → VerifyingKey;
  kit_json : Json;
  kit_to_vec : Value → result string string;
}.
Arguments kit_hash {SigningKey VerifyingKey}. Arguments kit_codecs {SigningKey VerifyingKey}.
Arguments kit_bcs_commit {SigningKey VerifyingKey}. Arguments kit_digest_aggregate {SigningKey VerifyingKey}.
Arguments kit_scheme {SigningKey VerifyingKey}. Arguments kit_key_of_seed {SigningKey VerifyingKey}.
Arguments kit_public {SigningKey VerifyingKey}. Arguments kit_json {SigningKey VerifyingKey}.
Arguments kit_to_vec {SigningKey VerifyingKey}.

(** ** Fixed identities and clock *)

Definition FIXED_SEED : string := string_of_list_ascii (replicate 32 (ascii_of_N 42)).
Definition harness_tenant : TenantId := "acme.game.alpha".
Definition harness_beta : TenantId := "acme.game.beta".
Definition executor_subject : SubjectId := "service:statechronicle.example.net".
(** 2026-07-14T00:00:00Z and two seconds later, in seconds of the epoch. *)
Definition fixed_now : DateTime := 1783987200.
Definition fixed_timestamp_placeholder : DateTime := 1783987202.
Definition harness_key_id : string := "did:key:z6Mk...#statechronicle-e2e".
Definition harness_profile : ProfileId := "statechronicle.profile.resource.v0".
Definition placeholder_commit_id : CommitId := "cmt_00000000000000000001".

(** ** The stores *)

Notation ProjectionKey := (string * string * option string)%type.

Record World := mkWorld {
  h_intents : gmap (string * string) Intent;
  h_index : gmap ProjectionKey StateProjection;
  h_tenants : gset string;
  h_log : list string;
  h_counter : Z;
}.
Definition world_default : World := mkWorld ∅ ∅ ∅ [] 1.

Definition set_intents (v : gmap (string * string) Intent) (w : World) : World :=
  mkWorld v (h_index w) (h_tenants w) (h_log w) (h_counter w).
Definition set_index (v : gmap ProjectionKey StateProjection) (w : World) : World :=
  mkWorld (h_intents w) v (h_tenants w) (h_log w) (h_counter w).
Definition push_log (entry : string) (w : World) : World :=
  mkWorld (h_intents w) (h_index w) (h_tenants w) (h_log w ++ [entry]) (h_counter w).

Definition fake_put_intent (w : World) (tenant : TenantId) (stored : Intent) : result unit IntentStoreError * World :=
  let key := (tenant, i_intent_id stored) in
  match h_intents w !! key with
  | Some existing => if bool_decide (existing ≠ stored) then (Err Duplicate, w) else (Ok tt, w)
  | None => (Ok tt, set_intents (<[key := stored]> (h_intents w)) w)
  end.
Definition fake_get_intent (w : World) (tenant : TenantId) (intent_id : IntentId) : result (option Intent) IntentStoreError :=
  Ok (h_intents w !! (tenant, intent_id)).
Definition FakeIntentStore : IntentStorePort World := mkIntentStore fake_get_intent fake_put_intent.

Definition harness_subject_held (state_type : StateType) : bool :=
  match state_type with
  | StConsumableStack | StFungibleBalance | StEntitlement | StMeteredResource => true
  | _ => false
  end.

(** The address and the row [FakeStateIndex::apply] derives from an event. *)
Definition index_key (event : Event) (state_type : StateType) : ProjectionKey :=
  let subject := if harness_subject_held state_type
    then legacy_get (c_state (e_after event)) "subject" ≫= as_str else None in
  (e_tenant_id event, e_resource_id event, subject).
Definition index_row (event : Event) (state_type : StateType) : StateProjection :=
  mkProjection (e_tenant_id event) (e_resource_id event) state_type (c_version (e_after event)) (e_event_id event)
    placeholder_commit_id (c_state_hash (e_after event)) (c_state (e_after event)).
Definition index_apply (event : Event) (state_type : StateType) (w : World) : World :=
  set_index (<[index_key event state_type := index_row event state_type]> (h_index w)) w.

Definition fake_get_state (w : World) (tenant : TenantId) (resource_id : ResourceId)
    : result (option StateProjection) StateIndexError := Ok (h_index w !! (tenant, resource_id, None)).
Definition fake_get_subject_state (w : World) (tenant : TenantId) (subject : SubjectId) (resource_id : ResourceId)
    : result (option StateProjection) StateIndexError := Ok (h_index w !! (tenant, resource_id, Some subject)).
Definition FakeStateIndex : StateIndexPort World := mkStateIndex fake_get_state fake_get_subject_state.

Definition register_tenant (id : TenantId) (w : World) : World :=
  mkWorld (h_intents w) (h_index w) ({[id]} ∪ h_tenants w) (h_log w) (h_counter w).
Definition fake_tenant_exists (w : World) (tenant : TenantId) : result bool TenantStoreError :=
  Ok (bool_decide (tenant ∈ h_tenants w)).
Definition fake_get_tenant_root (w : World) (tenant : TenantId) : result (option ContentDigest) TenantStoreError := Ok None.
Definition FakeTenantStore : TenantStorePort World := mkTenantStore fake_tenant_exists fake_get_tenant_root.

Definition fake_begin (w : World) (tenant : TenantId) : result unit TransactionManagerError * World :=
  (Ok tt, push_log ("begin:" +:+ tenant) w).
Definition fake_begin_multi (w : World) (tenants : list TenantId) : result unit TransactionManagerError * World :=
  (Ok tt, push_log ("begin_multi:" +:+ String.concat "," tenants) w).
Definition fake_commit (w : World) (_ : unit) : result unit TransactionManagerError * World := (Ok tt, push_log "commit" w).
Definition fake_rollback (w : World) (_ : unit) : result unit TransactionManagerError * World := (Ok tt, push_log "rollback" w).
Definition FakeTransactionManager : TransactionPort World unit :=
  mkTransactions fake_begin fake_begin_multi fake_commit fake_rollback.

(** ** The harness *)

Inductive Panic :=
| PPorts (e : PortsBuildError)
| PBuild (e : ExecutorBuildError)
| PExecutor (e : ExecutorError)
| PIntent (e : IntentError)
| PCommitError (e : CommitError)
| PCoreError (e : StateChronicleError)
| PJson (e : string)
| PNone (message : string).

Definition put_authority (authority : option AuthorityProof) (i : Intent) : Intent :=
  mkIntent (i_schema i) (i_tenant_id i) (i_intent_id i) (i_operation i) (i_actor i) (i_resource_id i) (i_state_type i)
    (i_expected_version i) (i_inputs i) authority (i_created_at i) (i_expires_at i) (i_nonce i).

(** [format!("evt_{next:020}")]. *)
Fixpoint zero_padded (n : nat) (s : string) : string :=
  match n with O => s | S n' => if (String.length s <? 20)%nat then zero_padded n' ("0" +:+ s) else s end.
Definition event_id_gen (w : World) : EventId * World :=
  let next := h_counter w in
  ("evt_" +:+ zero_padded 20 (u128_to_string next),
   mkWorld (h_intents w) (h_index w) (h_tenants w) (h_log w) ((next + 1) mod 2 ^ 64)).

Section Harness.
Context {SigningKey VerifyingKey : Type} (kit : Kit SigningKey VerifyingKey).

Definition fixed_key : SigningKey := kit_key_of_seed kit FIXED_SEED.

Definition harness_canonicalize (i : Intent) : result string StateChronicleError :=
  canonicalize (intent_codecs (kit_codecs kit)) i.
Definition harness_crypto : Crypto :=
  mkCrypto harness_canonicalize (state_digest (kit_hash kit) (kit_codecs kit)) (kit_digest_aggregate kit).

Definition sample_authority : AuthorityProof :=
  mkAuthorityProof TRUSTGRANT_EVALUATION_KIND (kit_hash kit "evaluation") Allow fixed_now.
Definition FakeTrustGrant : TrustGrantPort World :=
  mkTrustGrant World (fun _ _ _ _ _ => Ok (mkOutcome (kit_hash kit "allowed") Allow fixed_now)) (fun _ _ => Ok tt).

Definition real_verifier (block : SignatureBlock) (body_bytes : string) : result unit ExecutorError :=
  map_err (fun _ => XActorAuthenticationFailed "intent signature invalid")
    (verify (kit_scheme kit) body_bytes (kit_public kit fixed_key) (sb_sig block)).

(** [Harness::with_registry]: the executor and the fresh stores it shares. *)
Definition with_registry (registry : ProfileRegistry) : result (Executor World unit * World) Panic :=
  let w := register_tenant harness_tenant world_default in
  let? ports := map_err PPorts (ports_build
    (pb_set_transaction_manager FakeTransactionManager (pb_set_trustgrant [FakeTrustGrant]
      (pb_set_tenant_store FakeTenantStore (pb_set_state_index FakeStateIndex
        (pb_set_intent_store FakeIntentStore ports_builder)))))) in
  let? executor := map_err PBuild (executor_build harness_crypto
    (xb_set_intent_verifier real_verifier (xb_set_event_id_gen event_id_gen (xb_set_clock (fun w => (fixed_now, w))
      (xb_set_executor executor_subject (xb_set_profiles registry (xb_set_ports ports executor_builder))))))) in
  Ok (executor, w).
Definition harness_new : result (Executor World unit * World) Panic := with_registry baseline.

(** [Harness::sign] and [Harness::accept]. *)
Definition signature_block (body_bytes : string) : SignatureBlock :=
  mkSignature Ed25519 harness_key_id (sign (kit_scheme kit) body_bytes fixed_key).
Definition harness_sign (intent : Intent) (authority : option AuthorityProof) : result ValidatedIntent Panic :=
  let intent := put_authority authority intent in
  let? body_bytes := map_err PCoreError (harness_canonicalize intent) in
  Ok (from_intent intent (Some (signature_block body_bytes))).
Definition harness_accept (payload : Value) (authority : option AuthorityProof) : result ValidatedIntent Panic :=
  let? bytes := map_err PJson (kit_to_vec kit payload) in
  let? raw := map_err PIntent (parse_intent (kit_json kit) bytes) in
  let? validated := map_err PIntent (validate (intent_codecs (kit_codecs kit)) raw) in
  let intent := put_authority authority (v_intent validated) in
  let? body_bytes := map_err PCoreError (harness_canonicalize intent) in
  Ok (mkValidated intent (v_idempotency_key validated) (Some (signature_block body_bytes))).

(** [Harness::run]. *)
Definition index_all (events : list Event) (state_type : StateType) (w : World) : World :=
  foldl (fun w event => index_apply event state_type w) w events.
Definition harness_run (x : Executor World unit) (intent : ValidatedIntent) (state_type : StateType) : Eff Panic World Event :=
  let! events := xcall (execute x intent) PExecutor in
  let! _ := xeffect (fun w => (tt, index_all events state_type w)) in
  xlift (ok_or (head events) (PNone "called `Option::unwrap()` on a `None` value")).

(** [Harness::commit_events]. *)
Definition commit_id_gen : cresult CommitId := map_err CDomain (commit_id_new placeholder_commit_id).
Definition commit_events (events : list Event) : result (Signed Commit * StateAccumulator) Panic :=
  let? first := ok_or (head events) (PNone "commit_events requires at least one event") in
  let tenant := e_tenant_id first in
  let? batch := map_err PCommitError (add_events (canonicalize_event (kit_codecs kit)) (batch_new (scope_tenant tenant)) events) in
  let builder := bu_set_created_at fixed_timestamp_placeholder (bu_set_profile harness_profile
    (bu_set_executor executor_subject (bu_set_sequence 1 (bu_set_scope (scope_tenant tenant) commit_builder)))) in
  let previous_root := empty_root in
  let? commit := map_err PCommitError
    (commit_build (kit_hash kit) (canonicalize_event (kit_codecs kit)) builder batch previous_root [] commit_id_gen) in
  let? updates := map_err PCommitError (state_root_updates (kit_hash kit) events) in
  let accumulator := (insert_batch (kit_hash kit) accumulator_empty updates).1 in
  let? signed := map_err PCommitError (sign_commit (kit_scheme kit) (kit_bcs_commit kit) commit fixed_key harness_key_id) in
  map_err PCommitError (verify_commit (kit_scheme kit) (kit_bcs_commit kit) signed (kit_public kit fixed_key)) ;?
  Ok (signed, accumulator).
End Harness.
