(* ===== verification/HarnessFacts.v ===== *)
(** * Histories of the in-memory deployment

    Theorems about [Harness]: the port laws hold of its stores, the histories of executed
    events are linear, its index is the last event of every address, and the commit it forms
    proves every row of the index. *)

From Stdlib Require Import ZArith Lia Ascii String.
From stdpp Require Import prelude gmap strings.
From S2P Require Import Prelude Effect Amount Domain Profile UniqueAsset Entitlement Transition Resource Registry.
From S2P Require Import Admission Atomicity Executor Builders Lifecycle Economy Pipeline.
From S2P Require Import SortFacts Keys Sha256 Accumulator Merkle Checkpoint Commit Signing Durable Ledger Bundle BundleFacts.
From S2P Require Import Composition Wire Harness.
Open Scope Z_scope.

(** The executed events, each with the type its run indexed it under. *)
Notation Trace := (list (Event * StateType)).

Section Facts.
Context {SigningKey VerifyingKey : Type} (kit : Kit SigningKey VerifyingKey).

(** ** Wiring *)

(** The executor the builders assemble. *)
Definition wired (registry : ProfileRegistry) : Executor World unit := {|
  ports := {|
    get_intent := fake_get_intent; put_intent := fake_put_intent; get_state := fake_get_state;
    get_subject_state := fake_get_subject_state; tenant_exists := fake_tenant_exists;
    trustgrant := [FakeTrustGrant kit]; begin_tx := fake_begin; begin_multi := fake_begin_multi;
    commit_tx := fake_commit; rollback_tx := fake_rollback |};
  profiles := registry;
  executor := executor_subject;
  now := fun w => (fixed_now, w);
  event_id_fn := event_id_gen;
  intent_verifier := real_verifier kit;
  canonicalize_intent := harness_canonicalize kit;
  digest_state := state_digest (kit_hash kit) (kit_codecs kit);
  digest_aggregate := kit_digest_aggregate kit;
|}.
Definition fresh : World := register_tenant harness_tenant world_default.

Lemma with_registry_wired registry : with_registry kit registry = Ok (wired registry, fresh).
Proof. reflexivity. Qed.

Section Wired.
Context (registry : ProfileRegistry).
Local Notation x := (wired registry).

(** Ticks only count event ids. *)
Definition same_stores (w w' : World) : Prop :=
  h_intents w' = h_intents w ∧ h_index w' = h_index w ∧ h_tenants w' = h_tenants w.

Lemma quiet_stores w w' : quiet x w w' → same_stores w w'.
Proof.
  induction 1 as [|w1 w2 w3 [-> | ->] _ (IH1 & IH2 & IH3)]; [done|by split_and!|].
  cbn in IH1, IH2, IH3. by split_and!.
Qed.

#[export] Instance harness_intent_store : IntentStoreLaws x.
Proof.
  split.
  - intros w t i w'. cbn. unfold fake_put_intent, fake_get_intent. destruct (h_intents w !! _) as [j|] eqn:E.
    + case_bool_decide as Hj; [done|]. intros [= <-]. by rewrite E, Hj.
    + intros [= <-]. cbn. by rewrite lookup_insert_eq.
  - intros w w' t id Ht. cbn. unfold fake_get_intent. by destruct (quiet_stores w w' (rtc_once _ _ Ht)) as [-> _].
Qed.

(** An execution writes only the intent store. *)
Lemma execute_keeps v w r w' : execute x v w = (r, w') → h_index w' = h_index w ∧ h_tenants w' = h_tenants w.
Proof.
  assert (∀ w t i r w', fake_put_intent w t i = (r, w') → h_index w' = h_index w ∧ h_tenants w' = h_tenants w) as Hput.
  { intros w0 t i r0 w0'. unfold fake_put_intent. destruct (h_intents w0 !! _); [case_bool_decide|]; by intros [= <- <-]. }
  intros [r0 w0 (_ & ? & ?)%quiet_stores _|w1 w0 es _ (_ & E1 & E2)%quiet_stores _ Hp|w1 w0 e _ (_ & E1 & E2)%quiet_stores Hp]%execute_inner_ends;
    [done|..]; apply Hput in Hp as [-> ->]; by rewrite E1, E2.
Qed.
End Wired.

(** ** Addresses *)

Lemma index_key_eq e st : index_key e st =
  (e_tenant_id e, e_resource_id e, if subject_held st then rs_subject (c_state (e_after e)) else None).
Proof.
  unfold index_key. destruct (legacy_accessors (c_state (e_after e))) as [-> _].
  destruct st; cbn [harness_subject_held subject_held]; try done; by destruct (rs_subject _).
Qed.

(** A row kept under a holder records that holder. *)
Definition index_keyed (idx : gmap ProjectionKey StateProjection) : Prop :=
  ∀ t r s p, idx !! (t, r, Some s) = Some p → rs_subject (p_state p) = Some s.

Section Native.
Context (custom : list ProfileRules) (Hcustom : Forall (fun rules => execution_policy rules = NATIVE_EXECUTION) custom).
Local Notation x := (wired (baseline_with custom)).

Lemma resolve_custom_In l id schema rules : resolve_custom l id schema = Ok rules → rules ∈ l.
Proof.
  induction l as [|r l IH]; [done|]. cbn [resolve_custom]. intros (rid & _ & E)%rbind_Ok.
  destruct (String.eqb rid id && _); [injection E as ->; left|right; auto].
Qed.

Lemma resolved_policy st inputs rules : resolve (baseline_with custom) st inputs = Ok rules → execution_policy rules = policy st.
Proof.
  destruct (decide (st = StCustom)) as [->|Hne].
  - intros E. unfold resolve in E. cbn in E. res_inv E. eapply Forall_forall in Hcustom; [done|]. by eapply resolve_custom_In.
  - intros E. rewrite (resolved_native _ _ _ _ Hne E). by destruct st.
Qed.

Lemma read_address_index t s r w c w' : read_address x t s r w = (Ok c, w') → c = h_index w !! (t, r, s).
Proof. unfold read_address, read_subject, read_resource. destruct s; intros E; exec_inv E; by injection E as <-. Qed.

(** The state an intent acts on is the row of its actor, or of its resource. *)
Definition own_address (i : Intent) (st : StateType) : ProjectionKey := (i_tenant_id i, i_resource_id i, subject_for i st).

Lemma loaded_row st i w c w' : index_keyed (h_index w) → load_current x (policy st) i w = (Ok c, w') → c = h_index w !! own_address i st.
Proof.
  intros Hk E. unfold load_current in E. apply xbind_Ok in E as (c0 & w0 & E0 & E).
  assert (primary_subject (policy st) i = subject_for i st) as Hp by by destruct st. rewrite Hp in *.
  pose proof (read_address_Ok x _ _ _ _ _ _ E0) as ->. apply read_address_index in E0.
  assert (current_subject (policy st) i c0 = None ∨ current_subject (policy st) i c0 = Some (i_actor i)) as [Hc|Hc].
  { unfold own_address in *. unfold subject_for in E0. destruct st; cbn [policy current_subject ResourceExecution NATIVE_EXECUTION]; try by left.
    all: right; unfold holder_for; cbn [subject_held]; cbn [subject_held] in E0; destruct c0 as [p|]; [|done]; cbn [mbind option_bind];
      rewrite (Hk _ _ _ _ (eq_sym E0)); by destruct (str_is_empty _). }
  - rewrite Hc in E. exec_inv E. done.
  - rewrite Hc in E. unfold own_address. destruct (subject_for i st) as [q|] eqn:Eq; [|by exec_inv E].
    assert (q = i_actor i) as -> by (unfold subject_for in Eq; by destruct (subject_held st); simplify_eq).
    rewrite String.eqb_refl in E. cbn [negb] in E. exec_inv E. done.
Qed.

(** ** Histories *)

Definition entry_key (entry : Event * StateType) : ProjectionKey := index_key entry.1 entry.2.
Definition entry_row (entry : Event * StateType) : StateProjection := index_row entry.1 entry.2.

(** The index an event store implies, and the events of one address. *)
Definition index_of (tr : Trace) : gmap ProjectionKey StateProjection :=
  foldl (fun m entry => <[entry_key entry := entry_row entry]> m) ∅ tr.
Definition history (k : ProjectionKey) (tr : Trace) : Trace := filter (fun entry => entry_key entry = k) tr.

Lemma index_of_snoc tr entry : index_of (tr ++ [entry]) = <[entry_key entry := entry_row entry]> (index_of tr).
Proof. unfold index_of. by rewrite foldl_app. Qed.

Lemma history_snoc k tr entry : history k (tr ++ [entry]) =
  if decide (entry_key entry = k) then history k tr ++ [entry] else history k tr.
Proof.
  unfold history. rewrite filter_app, filter_cons. cbn. destruct (decide _); [done|by rewrite app_nil_r].
Qed.

Lemma index_of_lookup tr k : index_of tr !! k = entry_row <$> last (history k tr).
Proof.
  induction tr as [|entry tr IH] using rev_ind; [apply lookup_empty|].
  rewrite index_of_snoc, history_snoc. destruct (decide (entry_key entry = k)) as [<-|Hne].
  - by rewrite lookup_insert_eq, last_snoc.
  - by rewrite lookup_insert_ne.
Qed.

(** The state commitment a row stands for. *)
Definition row_commitment (p : StateProjection) : StateCommitment := mkCommitment (p_version p) (p_state_hash p) (p_state p).

Lemma entry_commitment entry : row_commitment (entry_row entry) = e_after entry.1.
Proof. destruct entry as [e st]. unfold row_commitment, entry_row. cbn. by destruct (e_after e). Qed.

(** Version [n] is made by event [n], from the state event [n - 1] left. *)
Definition linear (l : Trace) : Prop :=
  (∀ i entry, l !! i = Some entry →
     c_version (e_before entry.1) = Z.of_nat i ∧ c_version (e_after entry.1) = Z.of_nat (S i)) ∧
  (∀ i entry next, l !! i = Some entry → l !! S i = Some next → e_before next.1 = e_after entry.1).

(** An event is applied to the row of its own address. *)
Definition extends (idx : gmap ProjectionKey StateProjection) (entry : Event * StateType) : Prop :=
  match idx !! entry_key entry with
  | Some p => e_before entry.1 = row_commitment p
  | None => c_version (e_before entry.1) = 0
  end ∧ c_version (e_after entry.1) = c_version (e_before entry.1) + 1.

Lemma linear_snoc l entry : linear l →
  match last l with Some prev => e_before entry.1 = e_after prev.1 | None => c_version (e_before entry.1) = 0 end →
  c_version (e_after entry.1) = c_version (e_before entry.1) + 1 → linear (l ++ [entry]).
Proof.
  intros [Hv Hc] Hb Ha.
  assert (c_version (e_before entry.1) = Z.of_nat (length l)) as Hlen.
  { destruct (last l) as [prev|] eqn:El; [|by apply last_None in El as ->].
    rewrite last_lookup in El. destruct (Hv _ _ El) as [_ E]. rewrite Hb, E.
    apply lookup_lt_Some in El. f_equal. lia. }
  split.
  - intros i e [[_ Hi]|[-> <-]]%lookup_snoc_Some; [by apply Hv|]. lia.
  - intros i e e' [[Hlt Hi]|[-> <-]]%lookup_snoc_Some [[Hlt' Hi']|[E <-]]%lookup_snoc_Some; try lia; [by eapply Hc|].
    rewrite last_lookup, <- E in Hb. cbn in Hb. by rewrite Hi in Hb.
Qed.

Definition all_linear (tr : Trace) : Prop := ∀ k, linear (history k tr).

Lemma all_linear_snoc tr entry : all_linear tr → extends (index_of tr) entry → all_linear (tr ++ [entry]).
Proof.
  intros Hl [Hb Ha] k. rewrite history_snoc. destruct (decide _) as [<-|]; [|done].
  apply linear_snoc; [done| |done]. rewrite index_of_lookup in Hb. destruct (last _) as [prev|]; [|done].
  by rewrite <- (entry_commitment prev).
Qed.

Lemma all_linear_app entries : ∀ tr, all_linear tr → NoDup (map entry_key entries) →
  Forall (extends (index_of tr)) entries → all_linear (tr ++ entries).
Proof.
  induction entries as [|entry entries IH]; intros tr Hl Hn Hf; [by rewrite app_nil_r|].
  rewrite cons_middle, app_assoc. apply NoDup_cons in Hn as [Hni Hn]. apply Forall_cons in Hf as [He Hf].
  apply IH; [by apply all_linear_snoc|done|]. rewrite index_of_snoc. apply Forall_forall. intros e' Hin.
  eapply Forall_forall in Hf; [|done]. unfold extends in *. rewrite lookup_insert_ne; [done|].
  intros E. apply Hni. rewrite E. by apply list_elem_of_fmap_2.
Qed.

(** *** The steps of a deployment *)

Definition entries (st : StateType) (events : list Event) : Trace := map (fun e => (e, st)) events.

(** The events a run executes. *)
Definition executed (v : ValidatedIntent) (w : World) : list Event :=
  match (execute x v w).1 with Ok events => events | Err _ => [] end.

Lemma run_world v st r w w' : harness_run x v st w = (r, w') → w' = index_all (executed v w) st (execute x v w).2.
Proof.
  unfold harness_run, executed, xbind, xcall, xeffect, xlift. destruct (execute x v w) as [[events|e] w1];
    cbn; by intros [= _ <-].
Qed.

(** What may happen to a deployment, for the runs [ok] admits. *)
Inductive reaches (ok : ValidatedIntent → StateType → list Event → Prop) : Trace → World → Prop :=
| reaches_fresh : reaches ok [] fresh
| reaches_tenant id tr w : reaches ok tr w → reaches ok tr (register_tenant id w)
| reaches_run v st r tr w w' : reaches ok tr w → harness_run x v st w = (r, w') → ok v st (executed v w) →
    reaches ok (tr ++ entries st (executed v w)) w'.

Lemma index_all_index events st : ∀ w tr, h_index w = index_of tr →
  h_index (index_all events st w) = index_of (tr ++ entries st events).
Proof.
  induction events as [|e events IH]; intros w tr Hw; [by rewrite app_nil_r|].
  cbn [index_all foldl entries map]. rewrite cons_middle, app_assoc. apply IH. rewrite index_of_snoc. cbn. by rewrite Hw.
Qed.

(** The index is a function of the events. *)
Lemma reached_index ok tr w : reaches ok tr w → h_index w = index_of tr.
Proof.
  induction 1 as [|id tr w _ IH|v st r tr w w' _ IH E%run_world _]; [done|done|]. subst w'.
  apply index_all_index. destruct (execute x v w) as [r1 w1] eqn:E. cbn [snd].
  by destruct (execute_keeps _ _ _ _ _ E) as [-> _].
Qed.

Lemma index_of_keyed tr : index_keyed (index_of tr).
Proof.
  intros t r s p. rewrite index_of_lookup. destruct (last _) as [[e st]|] eqn:El; [|done]. intros [= <-].
  apply last_Some_elem_of, list_elem_of_filter in El as [Ek _]. unfold entry_key in Ek. rewrite index_key_eq in Ek.
  cbn in *. injection Ek as _ _ E. by destruct (subject_held st).
Qed.

(** *** Runs extend the histories *)

(** A run indexes its events under the type its intent declares and writes the address it
    read: its events are at distinct addresses, and under a holder profile the first is at the
    actor's. *)
Definition addressed (v : ValidatedIntent) (st : StateType) (events : list Event) : Prop :=
  (events ≠ [] → i_state_type (v_intent v) = Some st) ∧ NoDup (map (fun e => index_key e st) events) ∧
  (subject_held st = true → ∀ e, head events = Some e → rs_subject (c_state (e_after e)) = Some (i_actor (v_intent v))).

Lemma described_extends idx st intent pol res cur after a e : describes x intent pol res cur after a e →
  cur = idx !! index_key e st → extends idx (e, st).
Proof.
  intros [_ (V1 & V2 & _) Hb _ _] Hc. unfold extends, entry_key. cbn [fst snd]. rewrite <- Hc.
  split; [|by rewrite V1, V2]. destruct cur as [p|]; [|done]. destruct Hb as [B1 B2].
  destruct (e_before e). cbn in *. unfold row_commitment. by subst.
Qed.

Lemma credited_subject p dest op inputs q holder : transfer_after_state p dest op inputs = Ok q →
  destination_holder inputs = Ok holder → rs_subject q = Some holder.
Proof.
  unfold transfer_after_state, destination_holder. intros E Hh. res_inv Hh. subst.
  destruct (String.eqb op _); [|destruct (String.eqb op _); [|done]];
    apply rbind_Ok in E as (ts & Hts & E); unfold Helpers.input_str in Hts; res_inv Hts; res_inv E; subst; cbn;
    match goal with A : inputs !! _ = Some _, B : _ = Some _ |- _ => rewrite A in B; cbn in B; congruence end.
Qed.

(** The companion of a quantity transfer is a credit of the same type at the destination. *)
Lemma companion_credit st rules intent p after target dest q : 
  resolve (baseline_with custom) st (i_inputs intent) = Ok rules → gated_step rules intent (Some p) = Ok after →
  companion_target (policy st) intent = Ok (Some target) → apply_companion (policy st) intent p dest = Ok q →
  subject_held st = true ∧ sa_resource target = i_resource_id intent ∧ sa_subject target = rs_subject q ∧
  rs_state_type q = st ∧ rs_subject q ≠ None.
Proof.
  intros Hres Hstep Ht Hap. destruct (decide (st = StCustom)) as [->|Hne]; [discriminate Ht|].
  assert (policy st = ResourceExecution st) as Hre by by destruct st.
  rewrite Hre in Ht, Hap. cbn [companion_target apply_companion ResourceExecution] in Ht, Hap.
  unfold resource_companion_target in Ht. destruct (is_transfer_operation _) eqn:Htr; [|done].
  cbn [negb] in Ht. apply rbind_Ok in Ht as (holder & Hh & [= <-]). cbn [sa_resource sa_subject] in *.
  destruct (transfer_native _ _ _ _ _ _ _ Hne Hres Hstep) as [Hso Hbo].
  destruct (credit_types st p dest _ _ q Htr Hso Hbo Hap) as [Hq _].
  rewrite (credited_subject _ _ _ _ _ _ Hap Hh). split_and!; try done.
  unfold is_transfer_operation in Htr. apply orb_true_iff in Htr. rewrite !String.eqb_eq in Htr.
  destruct Htr as [Htr|Htr]; [rewrite (Hso Htr)|rewrite (Hbo Htr)]; done.
Qed.

Lemma run_extends v st events w w1 : index_keyed (h_index w) → execute x v w = (Ok events, w1) → addressed v st events →
  Forall (extends (h_index w)) (entries st events).
Proof.
  intros Hk E (Hst & _ & Hown). apply execute_inner_Ok in E as [_ Hs]. cbn [now wired snd] in Hs.
  destruct Hs as [|bytes rules cur a after w2 events _ _ _ _ _ Hp Hq2 Hem]; [constructor|].
  destruct Hp as [(st' & Hst' & Hres & _ & _ & _) _ Hload _ Hstep _ _].
  rewrite (Hst (emitted_nonempty _ _ _ _ _ _ _ _ Hem)) in Hst'. injection Hst' as <-. cbn [profiles wired] in Hres.
  pose proof (resolved_policy _ _ _ Hres) as Hpol. rewrite Hpol in *.
  pose proof (loaded_row _ _ _ _ _ Hk Hload) as Hcur.
  assert (∀ e rest, events = e :: rest → describes x (v_intent v) (policy st) (i_resource_id (v_intent v)) cur after a e →
    extends (h_index w) (e, st)) as Hhead.
  { intros e rest -> De. eapply described_extends; [done|]. rewrite Hcur, index_key_eq.
    destruct De as [(-> & _ & _ & -> & _) _ _ _ _]. unfold own_address, subject_for.
    destruct (subject_held st); [|done]. by rewrite (Hown eq_refl e eq_refl). }
  destruct Hem as [e Ht De|e e2 target p dest q w3 Ht Hcp Hq3 Hrd Hap De De2]; rewrite Hpol in *.
  { apply Forall_cons_2, Forall_nil_2. eapply Hhead; [reflexivity|exact De]. }
  apply Forall_cons_2; [eapply Hhead; [reflexivity|exact De]|]. apply Forall_cons_2, Forall_nil_2.
  rewrite Hcp in Hstep. destruct (companion_credit _ _ _ _ _ _ _ _ Hres Hstep Ht Hap) as (Hsh & Hr & Hsub & _ & _).
  eapply described_extends; [exact De2|]. apply read_address_index in Hrd.
  destruct (quiet_stores _ _ _ Hq3) as (_ & E3 & _), (quiet_stores _ _ _ Hq2) as (_ & E2 & _).
  rewrite Hrd, E3, E2, index_key_eq, Hsh, Hsub. by destruct De2 as [(-> & _ & _ & -> & _) _ _ [-> _] _].
Qed.

Lemma executed_extends v st w : index_keyed (h_index w) → addressed v st (executed v w) →
  Forall (extends (h_index w)) (entries st (executed v w)).
Proof.
  intros Hk Ha. unfold executed in *. destruct (execute x v w) as [[events|e] w1] eqn:E; [|constructor].
  by eapply run_extends.
Qed.

Lemma reached_linear tr w : reaches addressed tr w → all_linear tr.
Proof.
  induction 1 as [|id tr w _ IH|v st r tr w w' Hr IH _ Ha]; [by split|done|].
  pose proof (reached_index _ _ _ Hr) as Hx. apply all_linear_app; [done| |].
  - destruct Ha as (_ & Hn & _). unfold entries. by rewrite map_map.
  - rewrite <- Hx. apply executed_extends; [|done]. rewrite Hx. apply index_of_keyed.
Qed.

(** ** Commits of a history *)

(** A run indexes its events under the type its intent declares. *)
Definition declared (v : ValidatedIntent) (st : StateType) (events : list Event) : Prop :=
  events ≠ [] → i_state_type (v_intent v) = Some st.

(** An indexed event has a state of its type, under its digest. *)
Definition sealed (entry : Event * StateType) : Prop :=
  rs_state_type (c_state (e_after entry.1)) = entry.2 ∧
  state_digest (kit_hash kit) (kit_codecs kit) (c_state (e_after entry.1)) = Ok (c_state_hash (e_after entry.1)).

Lemma described_sealed st intent pol res cur after a e : describes x intent pol res cur after a e →
  rs_state_type after = st → sealed (e, st).
Proof. intros [_ _ _ [<- Hd] _] Ht. by split. Qed.

Lemma executed_sealed v st w : declared v st (executed v w) → Forall sealed (entries st (executed v w)).
Proof.
  unfold declared, executed. destruct (execute x v w) as [[events|e] w1] eqn:E; cbn [fst]; [|constructor].
  intros Hst. apply execute_inner_Ok in E as [_ Hs].
  destruct Hs as [|bytes rules cur a after w2 events _ _ _ _ _ Hp _ Hem]; [constructor|].
  destruct Hp as [(st' & Hst' & Hres & _ & Hta & _) _ _ _ Hstep _ _].
  rewrite (Hst (emitted_nonempty _ _ _ _ _ _ _ _ Hem)) in Hst'. injection Hst' as <-. cbn [profiles wired] in Hres.
  pose proof (resolved_policy _ _ _ Hres) as Hpol.
  destruct Hem as [e _ De|e e2 target p dest q w3 Ht Hcp _ _ Hap De De2]; rewrite Hpol in *.
  { apply Forall_cons_2, Forall_nil_2. by eapply described_sealed. }
  apply Forall_cons_2; [by eapply described_sealed|]. apply Forall_cons_2, Forall_nil_2.
  eapply described_sealed; [exact De2|]. rewrite Hcp in Hstep.
  by destruct (companion_credit _ _ _ _ _ _ _ _ Hres Hstep Ht Hap) as (_ & _ & _ & ? & _).
Qed.

Lemma reached_sealed tr w : reaches declared tr w → Forall sealed tr.
Proof.
  induction 1 as [|id tr w _ IH|v st r tr w w' _ IH _ Hd]; [constructor|done|].
  apply Forall_app. split; [done|]. by apply executed_sealed.
Qed.

(** The message hashed into the state key of an address. *)
Definition key_message (k : ProjectionKey) : string := preimage k.1.1 k.1.2 k.2.
Definition key_addressable (k : ProjectionKey) : Prop :=
  addressable k.1.1 ∧ addressable k.1.2 ∧ ∀ u, k.2 = Some u → addressable u.

Lemma key_message_inj k k' : key_addressable k → key_addressable k' → key_message k = key_message k' → k = k'.
Proof.
  destruct k as [[t r] s], k' as [[t' r'] s']. intros (? & ? & ?) (? & ? & ?) E.
  apply preimage_inj in E as (E1 & E2 & E3); try done. cbn in *. by subst.
Qed.

(** The commit files an indexed event under the hash of its address. *)
Lemma sealed_update entry u : sealed entry → event_update (kit_hash kit) entry.1 u →
  u = (kit_hash kit (key_message (entry_key entry)), c_state_hash (e_after entry.1)).
Proof.
  destruct entry as [e st], u as [key d]. intros [Hst _] [Hk Hd]. cbn [fst snd] in *. rewrite Hst in Hk. subst d. f_equal.
  unfold entry_key, key_message. cbn [fst snd]. rewrite index_key_eq. cbn [fst snd].
  unfold event_state_key, event_subject in Hk. unfold preimage.
  destruct st; cbn [subject_held]; res_inv Hk; subst key; unfold for_resource, for_subject_held, subject_preimage;
    rewrite ?str_app_nil_r; try done;
    match goal with A : rs_subject _ = Some _ |- _ => by rewrite A end.
Qed.

(** Two addresses whose messages collide. *)
Definition key_collision (k k' : ProjectionKey) : Prop :=
  key_message k ≠ key_message k' ∧ kit_hash kit (key_message k) = kit_hash kit (key_message k').

Lemma collision_free tr k : Forall (fun entry => key_addressable (entry_key entry)) tr → key_addressable k →
  Exists (fun entry => key_collision k (entry_key entry)) tr ∨
  Forall (fun entry => kit_hash kit (key_message (entry_key entry)) = kit_hash kit (key_message k) → entry_key entry = k) tr.
Proof.
  intros Ha Hk. unfold key_collision. destruct (decide (Exists (fun entry => key_message k ≠ key_message (entry_key entry) ∧
    kit_hash kit (key_message k) = kit_hash kit (key_message (entry_key entry))) tr)) as [|Hn]; [by left|right].
  rewrite <- Forall_Exists_neg in Hn. rewrite Forall_forall in *. intros entry Hin E.
  apply key_message_inj; [by apply Ha|done|]. destruct (decide (key_message k = key_message (entry_key entry))); [done|].
  by destruct (Hn entry Hin).
Qed.

(** Without a collision the last digest written under an address's key is that of its last event. *)
Lemma updates_last_write tr updates k : Forall sealed tr → Forall2 (event_update (kit_hash kit)) (map fst tr) updates →
  Forall (fun entry => kit_hash kit (key_message (entry_key entry)) = kit_hash kit (key_message k) → entry_key entry = k) tr →
  last_write updates (kit_hash kit (key_message k)) = (fun entry => c_state_hash (e_after entry.1)) <$> last (history k tr).
Proof.
  revert updates. induction tr as [|entry tr IH] using rev_ind; intros updates Hs Hu Hc.
  { apply Forall2_nil_inv_l in Hu as ->. done. }
  rewrite map_app in Hu. apply Forall2_app_inv_l in Hu as (us & us' & Hu & Hu' & ->).
  apply Forall2_cons_inv_l in Hu' as (u & us'' & Hu' & Hnil & ->). apply Forall2_nil_inv_l in Hnil as ->.
  rewrite !Forall_app, !Forall_singleton in Hs, Hc. destruct Hs as [Hs Hse], Hc as [Hc Hce].
  rewrite (sealed_update _ _ Hse Hu'), last_write_snoc, history_snoc, (IH us) by done.
  destruct (String.eqb_spec (kit_hash kit (key_message k)) (kit_hash kit (key_message (entry_key entry)))) as [E|E].
  - rewrite decide_True by by apply Hce. by rewrite last_snoc.
  - rewrite decide_False by congruence. done.
Qed.

Lemma built_scope H canon b batch previous prior id c : commit_build H canon b batch previous prior id = Ok c →
  bu_scope b = Some (cm_scope c).
Proof. unfold commit_build. intros E. res_inv E. by subst c. Qed.

Lemma add_events_tenant canon events : ∀ batch batch' t, add_events canon batch events = Ok batch' →
  sc_tenant_id (cb_scope batch) = Some t → Forall (fun e => e_tenant_id e = t) events.
Proof.
  induction events as [|e events IH]; intros batch batch' t E Ht; [constructor|]. cbn [add_events] in E.
  apply rbind_Ok in E as (b1 & E1 & E). unfold add_event in E1. rewrite Ht in E1.
  destruct (String.eqb_spec t (e_tenant_id e)) as [->|]; [|done]. cbn [negb] in E1. res_inv E1. subst b1.
  constructor; [done|]. by eapply IH.
Qed.

Section Commits.
Context `{!HashLaws (kit_hash kit)}.

(** What [commit_events] has built when it returns. *)
Lemma commit_events_Ok events signed acc : commit_events kit events = Ok (signed, acc) →
  ∃ t updates body, Forall (fun e => e_tenant_id e = t) events ∧ Forall2 (event_update (kit_hash kit)) events updates ∧
    Forall (fun u : Entry => is_key u.1) (sort_updates updates) ∧ acc = build (kit_hash kit) [sort_updates updates] ∧
    cm_scope body = scope_tenant t ∧ cm_next_state_root body = compute_root (kit_hash kit) acc ∧
    cm_event_count body = Z.of_nat (length events) ∧
    sign_commit (kit_scheme kit) (kit_bcs_commit kit) body (fixed_key kit) harness_key_id = Ok signed.
Proof.
  unfold commit_events. intros E.
  apply rbind_Ok in E as (first & Hf & E). apply rbind_Ok in E as (batch & Hb & E). apply map_err_Ok in Hb.
  apply rbind_Ok in E as (body & Hc & E). apply map_err_Ok in Hc.
  apply rbind_Ok in E as (cur & Hu & E). apply map_err_Ok in Hu.
  apply rbind_Ok in E as (sg & Hs & E). apply map_err_Ok in Hs.
  apply rbind_Ok in E as ([] & _ & [= <- <-]).
  pose proof (add_events_tenant _ _ _ _ (e_tenant_id first) Hb eq_refl) as Ht.
  apply add_events_Ok in Hb as [Hev _]. cbn [batch_new cb_events app] in Hev.
  assert (cm_scope body = scope_tenant (e_tenant_id first)) as Hscope.
  { apply built_scope in Hc. by injection Hc as <-. }
  destruct (commit_build_updates (kit_hash kit) _ _ _ _ _ _ _ (Forall_nil_2 _) Hc) as (updates & Hf2 & Hk & _ & Hcur & _ & Hn & Hroot).
  rewrite Hev in *. rewrite Hu in Hcur. injection Hcur as ->.
  assert (Forall (fun u : Entry => is_key u.1) (sort_updates updates)) as Hks by (unfold sort_updates; by rewrite sort_by_perm).
  exists (e_tenant_id first), updates, body. split_and!; try done.
  - rewrite Hroot. change (insert_batch (kit_hash kit) (build (kit_hash kit) [[]]) updates).2
      with (compute_root (kit_hash kit) (build (kit_hash kit) [[]; updates])).
    unfold compute_root. rewrite (build_leaves_ext _ [[]; updates] [sort_updates updates]); [done|by repeat constructor..|].
    intros key. cbn [mjoin list_join app]. by rewrite !app_nil_r, last_write_sort.
  - by rewrite Hn, (Forall2_length _ _ _ Hf2).
Qed.

Context `{!SchemeLaws (kit_scheme kit) (kit_public kit)} (bcs_proof : Bcs ResourceStateProof).
Local Notation H := (kit_hash kit).

(** What a holder of the commit's key is convinced of: the row's state, by a proof of its
    address under the commit's root. *)
Definition row_proved (signed : Signed Commit) (acc : StateAccumulator) (k : ProjectionKey) (p : StateProjection) : Prop :=
  ∀ operation authority, ∃ inclusion proof,
    prove_inclusion H acc (H (key_message k)) = Some inclusion ∧
    build_state_proof H p signed inclusion operation authority (H (key_message k)) = Ok proof ∧
    rp_claimed_state proof = p_state p ∧ rp_resource_id proof = p_resource_id p ∧
    (check_proof_size bcs_proof proof = Ok tt →
     verify_bundle H (kit_scheme kit) (kit_bcs_commit kit) (bcs_state (kit_codecs kit)) bcs_proof proof signed
       (kit_public kit (fixed_key kit)) (H (key_message k)) = Ok tt).

Lemma committed_row_proved tr signed acc k entry : Forall sealed tr →
  Forall (fun entry => key_addressable (entry_key entry)) tr →
  commit_events kit (map fst tr) = Ok (signed, acc) → last (history k tr) = Some entry →
  Exists (fun entry => key_collision k (entry_key entry)) tr ∨ row_proved signed acc k (entry_row entry).
Proof.
  intros Hs Ha (t & updates & body & Ht & Hf & Hk & -> & Hsc & Hroot & _ & Hsig)%commit_events_Ok Hl.
  pose proof (last_Some_elem_of _ _ Hl) as [Hek Hin]%list_elem_of_filter.
  destruct (collision_free tr k) as [|Hc]; [done| |by left|right].
  { rewrite Forall_forall in Ha. rewrite <- Hek. by apply Ha. }
  intros operation authority. eapply honest_bundle; try done.
  - by constructor.
  - apply digest_length.
  - cbn [mjoin list_join]. rewrite app_nil_r, last_write_sort, (updates_last_write tr _ _ Hs Hf Hc), Hl. done.
  - rewrite Forall_forall in Hs. by destruct (Hs entry Hin) as [_ Hd].
  - rewrite Hsc. f_equal. rewrite Forall_forall in Ht. symmetry. apply Ht. by apply list_elem_of_fmap_2.
Qed.
End Commits.

(** ** Properties *)

(** C6: the history of a deployment is linear.  Run any intents, sequentially and whatever their
    outcome, against a deployment of the harness whose consumer profiles are the typed ones,
    each run under the type its intent declares and writing the address it read.  At every
    address (tenant, resource and, for a holder profile, subject) the n-th event makes version
    n, its before commitment is the after commitment of event n - 1, and the index holds
    exactly the last event's row: nothing is lost, repeated or forked. *)
Theorem harness_history_linear (tr : Trace) (w : World) (k : ProjectionKey) : reaches addressed tr w →
  linear (history k tr) ∧ h_index w !! k = entry_row <$> last (history k tr).
Proof.
  intros Hr. split; [by eapply reached_linear|]. by rewrite (reached_index _ _ _ Hr), index_of_lookup.
Qed.

(** C7: a commit proves the index.  When [commit_events] accepts the events a deployment
    executed, the commit's state root is the root of the returned accumulator, the commit
    counts every event, and every row of the index has an inclusion proof from which a
    state proof is built that the bundle verifier accepts, claiming exactly the row's state,
    unless the row's address collides under the hash with another address of the history. *)
Theorem harness_commit_proves_index `{!HashLaws (kit_hash kit)} `{!SchemeLaws (kit_scheme kit) (kit_public kit)}
    (bcs_proof : Bcs ResourceStateProof) (tr : Trace) (w : World) (signed : Signed Commit) (acc : StateAccumulator) :
  reaches declared tr w → Forall (fun entry => key_addressable (entry_key entry)) tr →
  commit_events kit (map fst tr) = Ok (signed, acc) →
  cm_next_state_root (s_body signed) = compute_root (kit_hash kit) acc ∧
  cm_event_count (s_body signed) = Z.of_nat (length tr) ∧
  ∀ k p, h_index w !! k = Some p →
    row_proved bcs_proof signed acc k p ∨ Exists (fun entry => key_collision k (entry_key entry)) tr.
Proof.
  intros Hr Ha E. destruct (commit_events_Ok _ _ _ E) as (t & updates & body & _ & _ & _ & _ & _ & Hroot & Hn & Hsig).
  destruct (sign_commit_verifies _ _ _ _ _ _ _ Hsig) as (-> & _). rewrite length_map in Hn.
  split; [done|]. split; [done|]. intros k p. rewrite (reached_index _ _ _ Hr), index_of_lookup.
  intros (entry & Hl & ->)%fmap_Some. apply or_comm. eapply committed_row_proved; eauto using reached_sealed.
Qed.
End Native.
End Facts.

(** ** Samples *)

Module HarnessSamples.
Definition kit : Kit string string := {|
  kit_hash := TableHash.hash; kit_codecs := LedgerSamples.codecs; kit_bcs_commit := BundleSamples.bcs_commit;
  kit_digest_aggregate _ _ := "aggregate"; kit_scheme := BundleSamples.scheme; kit_key_of_seed s := s; kit_public k := k;
  kit_json := WireSamples.json; kit_to_vec _ := Ok EmptyString;
|}.
Definition exec : Executor World unit := wired kit baseline.

Definition submit (n operation actor resource : string) (st : StateType) (version : Z) (inputs : list (string * Value))
    (authority : option AuthorityProof) : ValidatedIntent :=
  let i := intent_new harness_tenant ("int_" +:+ n) operation actor resource (Some st) version (list_to_map inputs) None
    fixed_now None n in
  match harness_sign kit i authority with Ok v => v | Err _ => from_intent i None end.

(** Runs of the harness, with the events they execute. *)
Definition step (s : Trace * World) (run : ValidatedIntent * StateType) : Trace * World :=
  (s.1 ++ entries run.2 (executed kit [] run.1 s.2), (harness_run exec run.1 run.2 s.2).2).
Definition play (runs : list (ValidatedIntent * StateType)) : Trace * World := foldl step ([], fresh) runs.

Definition mint := submit "1" "asset.mint" "alice" "asset:sword" StUniqueAsset 0 [("to_owner", VString "alice")] None.
Definition sale := submit "2" "asset.transfer" "alice" "asset:sword" StUniqueAsset 1
  [("from_owner", VString "alice"); ("to_owner", VString "bob")] (Some (sample_authority kit)).
Definition market := play [(mint, StUniqueAsset); (sale, StUniqueAsset)].

Definition pass (n operation actor : string) (version : Z) (inputs : list (string * Value)) : ValidatedIntent * StateType :=
  (submit n ("entitlement." +:+ operation) actor "pass" StEntitlement version inputs None, StEntitlement).
Definition grant (n actor subject : string) : ValidatedIntent * StateType :=
  pass n "grant" actor 0 [("subject", VString subject); ("transferable", VBool true)].
(** The version, holder and status of the rows of the pass. *)
Definition holding (w : World) (subject : string) : option (Z * ResourceState) :=
  (fun p => (p_version p, p_state p)) <$> h_index w !! (harness_tenant, "pass", Some subject).
Definition held_as (subject status : string) : ResourceState := REntitlement (mkEntitlement subject status true).
End HarnessSamples.
Import HarnessSamples.

Lemma step_reaches (ok : ValidatedIntent → StateType → list Event → Prop) s v st : reaches kit [] ok s.1 s.2 →
  ok v st (executed kit [] v s.2) → reaches kit [] ok (step s (v, st)).1 (step s (v, st)).2.
Proof.
  intros Hr Ho. unfold step. cbn [fst snd].
  apply (reaches_run kit [] ok v st (harness_run exec v st s.2).1); [exact Hr|apply surjective_pairing|exact Ho].
Qed.

Lemma market_addressed : reaches kit [] addressed market.1 market.2.
Proof.
  apply step_reaches; [apply step_reaches; [constructor|]|]; (split_and!; [reflexivity|vm_compute; apply NoDup_singleton|done]).
Qed.

Lemma market_declared : reaches kit [] declared market.1 market.2.
Proof. by apply step_reaches; [apply step_reaches; [constructor|]|]. Qed.

Lemma harness_history_linear_witness :
  (length (history (harness_tenant, "asset:sword", None) market.1) = 2)%nat ∧
  linear (history (harness_tenant, "asset:sword", None) market.1) ∧
  (rs_owner ∘ p_state <$> h_index market.2 !! (harness_tenant, "asset:sword", None)) = Some (Some "bob").
Proof.
  destruct (harness_history_linear kit [] (Forall_nil_2 _) market.1 market.2 (harness_tenant, "asset:sword", None)
    market_addressed) as [Hl Hi].
  split; [vm_compute; reflexivity|]. split; [exact Hl|]. rewrite Hi. vm_compute. reflexivity.
Defined.

Lemma market_addresses : Forall (fun entry => entry_key entry = (harness_tenant, "asset:sword", None)) market.1.
Proof.
  apply (Forall_map entry_key (fun k => k = (harness_tenant, "asset:sword", None))).
  assert (map entry_key market.1 = replicate 2 (harness_tenant, "asset:sword", None)) as -> by (vm_compute; reflexivity).
  by apply Forall_replicate.
Qed.

Lemma harness_commit_proves_index_witness : ∃ signed acc proof,
  commit_events kit (map fst market.1) = Ok (signed, acc) ∧
  rp_claimed_state proof = BundleSamples.owned "bob" ∧
  verify_bundle TableHash.hash BundleSamples.scheme BundleSamples.bcs_commit BundleSamples.bcs_state BundleSamples.bcs_proof
    proof signed (fixed_key kit) (TableHash.hash (key_message (harness_tenant, "asset:sword", None))) = Ok tt.
Proof.
  destruct (commit_events kit (map fst market.1)) as [[signed acc]|e] eqn:E; [|vm_compute in E; discriminate E].
  exists signed, acc. pose proof market_addresses as Hk.
  destruct (h_index market.2 !! (harness_tenant, "asset:sword", None)) as [p|] eqn:Ep; [|vm_compute in Ep; discriminate Ep].
  destruct (harness_commit_proves_index kit [] (Forall_nil_2 _) BundleSamples.bcs_proof market.1 market.2 signed acc
    market_declared) as (_ & _ & Hp); [|exact E|].
  - eapply Forall_impl; [exact Hk|]. intros entry ->. split_and!; [vm_compute; discriminate..|done].
  - destruct (Hp _ _ Ep) as [Hr|Hc].
    + destruct (Hr "asset.transfer" None) as (inclusion & proof & _ & _ & Hs & Hid & Hv).
      exists proof. split; [reflexivity|]. vm_compute in Ep. injection Ep as <-. split; [exact Hs|].
      apply Hv. unfold check_proof_size, BundleSamples.bcs_proof. cbn [map_err rbind]. rewrite Hid. vm_compute. reflexivity.
    + exfalso. apply Exists_exists in Hc as (entry & Hin & Hne & _). rewrite Forall_forall in Hk.
      apply Hne. by rewrite (Hk entry Hin).
Defined.

(** A signed intent authenticates. *)
Lemma signed_authenticates {SK VK} (k : Kit SK VK) `{!SchemeLaws (kit_scheme k) (kit_public k)} i authority v :
  harness_sign k i authority = Ok v → ∃ block bytes, v_signature v = Some block ∧
  harness_canonicalize k (v_intent v) = Ok bytes ∧ real_verifier k block bytes = Ok tt.
Proof.
  unfold harness_sign. intros E. apply rbind_Ok in E as (bytes & Hb & [= <-]). apply map_err_Ok in Hb.
  exists (signature_block k bytes), bytes. split; [done|]. split; [done|].
  unfold real_verifier, verify, sign. apply map_err_Ok. cbn [sb_sig signature_block]. unfold sign. by rewrite (sign_verifies (SchemeLaws:=SchemeLaws0)).
Qed.

(** A transferable entitlement can be spent twice: the transfer writes only the new holder's
    address, and the old holder's row still grants it. *)
Example entitlement_transferred_twice :
  let w := (play [grant "1" "alice" "alice"; pass "2" "transfer" "alice" 1 [("to_subject", VString "bob")];
                  pass "3" "transfer" "alice" 1 [("to_subject", VString "carol")]]).2 in
  holding w "alice" = Some (1, held_as "alice" "granted") ∧ 
  holding w "bob" = Some (2, held_as "bob" "granted") ∧ holding w "carol" = Some (2, held_as "carol" "granted").
Proof. vm_compute. done. Qed.

(** A service's second grant restarts a revoked entitlement at version 1: the unborn check reads
    the actor's address and the grant writes the subject's. *)
Example grant_restarts_revoked :
  let before := (play [grant "1" "service" "alice"; pass "2" "revoke" "alice" 1 []]).2 in
  let after := (play [grant "1" "service" "alice"; pass "2" "revoke" "alice" 1 []; grant "3" "service" "alice"]).2 in
  holding before "alice" = Some (2, held_as "alice" "revoked") ∧ holding after "alice" = Some (1, held_as "alice" "granted").
Proof. vm_compute. done. Qed.
